(** * Record/replay log of non-deterministic events (panda/src/rr/rr_log.c)

    A shallow embedding of the record side (rr_write_item and the
    rr_record_* capture functions), of the replay side (rr_read_item,
    rr_fill_queue, get_next_entry and the rr_replay_* dispatchers) and of the
    session functions that open, finalise and close the log.

    Conventions.
    - C integers are [Z]; where the source converts between widths the
      wrap-around is written out ([to_uint32], [to_int32], [to_size_t]).
    - The log file is a byte stream with a position ([FILE]).
    - The global variables of rr_log.c are the fields of [rr_state]; every
      function is a computation in the state-and-abort monad [M].  An
      [Abort] is what rr_assert (which calls abort()) or a faulting access
      does to the process.
    - The singly linked lists (rr_queue_head .. rr_queue_tail through next,
      and recycle_list) are Rocq lists from head to tail.  The source clears
      rr_queue_tail whenever it unlinks the last element, so the list being
      empty stands for rr_queue_head == NULL && rr_queue_tail == NULL.
    - A tagged union is an inductive type: the constructor of [variant] is
      header.kind, the constructor of [call_variant] is call_args.kind. *)

From Stdlib Require Import ZArith List Lia Bool.
From coqutil Require Import Byte Word.LittleEndianList.
Import ListNotations.
Local Open Scope Z_scope.

(* ------------------------------------------------------------------------- *)
(** ** Data model *)

Inductive RR_mode := RR_OFF | RR_RECORD | RR_REPLAY.

Inductive RR_log_type := RECORD | REPLAY.

(** Modelled from the spec: the enumeration RR_log_entry_kind is declared in
    rr_log.h; its members and their order are those of the spec's list of
    entry kinds (RR_LAST is the array bound of the per-kind counters in
    rr_log.c, hence the greatest value). *)
Inductive RR_log_entry_kind :=
| RR_INPUT_1 | RR_INPUT_2 | RR_INPUT_4 | RR_INPUT_8
| RR_INTERRUPT_REQUEST | RR_EXIT_REQUEST | RR_SKIPPED_CALL
| RR_DEBUG | RR_LAST.

(** Modelled from the spec: RR_skipped_call_kind, in the order of the spec's
    list of skipped-call sub-kinds. *)
Inductive RR_skipped_call_kind :=
| RR_CALL_CPU_MEM_RW | RR_CALL_CPU_MEM_UNMAP | RR_CALL_MEM_REGION_CHANGE
| RR_CALL_HD_TRANSFER | RR_CALL_NET_TRANSFER | RR_CALL_HANDLE_PACKET.

Definition RR_log_entry_kind_eqb (a b : RR_log_entry_kind) : bool :=
  match a, b with
  | RR_INPUT_1, RR_INPUT_1 | RR_INPUT_2, RR_INPUT_2
  | RR_INPUT_4, RR_INPUT_4 | RR_INPUT_8, RR_INPUT_8
  | RR_INTERRUPT_REQUEST, RR_INTERRUPT_REQUEST
  | RR_EXIT_REQUEST, RR_EXIT_REQUEST
  | RR_SKIPPED_CALL, RR_SKIPPED_CALL
  | RR_DEBUG, RR_DEBUG | RR_LAST, RR_LAST => true
  | _, _ => false
  end.

Definition kind_code (k : RR_log_entry_kind) : Z :=
  match k with
  | RR_INPUT_1 => 0 | RR_INPUT_2 => 1 | RR_INPUT_4 => 2 | RR_INPUT_8 => 3
  | RR_INTERRUPT_REQUEST => 4 | RR_EXIT_REQUEST => 5 | RR_SKIPPED_CALL => 6
  | RR_DEBUG => 7 | RR_LAST => 8
  end.

Definition kind_of_code (z : Z) : option RR_log_entry_kind :=
  match z with
  | 0 => Some RR_INPUT_1 | 1 => Some RR_INPUT_2 | 2 => Some RR_INPUT_4
  | 3 => Some RR_INPUT_8 | 4 => Some RR_INTERRUPT_REQUEST
  | 5 => Some RR_EXIT_REQUEST | 6 => Some RR_SKIPPED_CALL
  | 7 => Some RR_DEBUG | 8 => Some RR_LAST
  | _ => None
  end.

Definition call_kind_code (k : RR_skipped_call_kind) : Z :=
  match k with
  | RR_CALL_CPU_MEM_RW => 0 | RR_CALL_CPU_MEM_UNMAP => 1
  | RR_CALL_MEM_REGION_CHANGE => 2 | RR_CALL_HD_TRANSFER => 3
  | RR_CALL_NET_TRANSFER => 4 | RR_CALL_HANDLE_PACKET => 5
  end.

Definition call_kind_of_code (z : Z) : option RR_skipped_call_kind :=
  match z with
  | 0 => Some RR_CALL_CPU_MEM_RW | 1 => Some RR_CALL_CPU_MEM_UNMAP
  | 2 => Some RR_CALL_MEM_REGION_CHANGE | 3 => Some RR_CALL_HD_TRANSFER
  | 4 => Some RR_CALL_NET_TRANSFER | 5 => Some RR_CALL_HANDLE_PACKET
  | _ => None
  end.

(** Program point: three uint64_t, in the order of the file header. *)
Record RR_prog_point := mk_prog_point {
  guest_instr_count : Z;
  pc : Z;
  secondary : Z
}.

Definition zero_prog_point : RR_prog_point := mk_prog_point 0 0 0.

(** RR_callsite_id is an enumeration of rr_log.h, kept as its number. *)
Definition RR_callsite_id := Z.

(** A pointer to bytes: [None] is NULL, [Some m] points at the bytes [m].
    Addresses are not modelled, except the one the source serialises
    (handle_packet_args.buf, see [hp_buf_ptr]). *)
Definition buffer := option (list byte).

(** Modelled from the spec: the argument structs are declared in rr_log.h;
    their members and widths are those of the spec's table of variant
    payloads, plus the buf and name pointers that rr_log.c dereferences. *)
Record RR_cpu_mem_rw_args := mk_cpu_mem_rw_args {
  rw_addr : Z;          (* hwaddr, u64 *)
  rw_buf : buffer;
  rw_len : Z            (* int *)
}.

Record RR_cpu_mem_unmap := mk_cpu_mem_unmap {
  um_addr : Z;          (* hwaddr, u64 *)
  um_buf : buffer;
  um_len : Z            (* hwaddr, u64 *)
}.

Record RR_mem_region_change_args := mk_mem_region_change_args {
  mrc_start_addr : Z;   (* u64 *)
  mrc_size : Z;         (* u64 *)
  mrc_name : buffer;    (* char* *)
  mrc_len : Z;          (* u32 *)
  mrc_mtype : Z;        (* RR_mem_type, u32 *)
  mrc_added : Z         (* bool, one byte *)
}.

Record RR_transfer_args := mk_transfer_args {
  tr_type : Z;          (* u32 *)
  tr_src_addr : Z;      (* u64 *)
  tr_dest_addr : Z;     (* u64 *)
  tr_num_bytes : Z      (* u32 *)
}.

Record RR_handle_packet_args := mk_handle_packet_args {
  hp_buf_ptr : Z;       (* numeric value of buf, as it is serialised *)
  hp_buf : buffer;
  hp_size : Z;          (* int *)
  hp_direction : Z      (* u8 *)
}.

Inductive RR_call_variant :=
| cpu_mem_rw_args (a : RR_cpu_mem_rw_args)
| cpu_mem_unmap (a : RR_cpu_mem_unmap)
| mem_region_change_args (a : RR_mem_region_change_args)
| hd_transfer_args (a : RR_transfer_args)
| net_transfer_args (a : RR_transfer_args)
| handle_packet_args (a : RR_handle_packet_args).

Record RR_skipped_call_args := mk_call_args {
  call_variant : RR_call_variant;
  old_buf_addr : Z
}.

Definition call_kind (a : RR_skipped_call_args) : RR_skipped_call_kind :=
  match call_variant a with
  | cpu_mem_rw_args _ => RR_CALL_CPU_MEM_RW
  | cpu_mem_unmap _ => RR_CALL_CPU_MEM_UNMAP
  | mem_region_change_args _ => RR_CALL_MEM_REGION_CHANGE
  | hd_transfer_args _ => RR_CALL_HD_TRANSFER
  | net_transfer_args _ => RR_CALL_NET_TRANSFER
  | handle_packet_args _ => RR_CALL_HANDLE_PACKET
  end.

Inductive RR_variant :=
| input_1 (v : Z)
| input_2 (v : Z)
| input_4 (v : Z)
| input_8 (v : Z)
| interrupt_request (v : Z)
| exit_request (v : Z)
| call_args (a : RR_skipped_call_args)
| no_variant_debug
| no_variant_last.

Record RR_header := mk_header {
  prog_point : RR_prog_point;
  file_pos : Z;
  callsite_loc : RR_callsite_id
}.

Record RR_log_entry := mk_entry {
  header : RR_header;
  variant : RR_variant
}.

(** header.kind *)
Definition kind (e : RR_log_entry) : RR_log_entry_kind :=
  match variant e with
  | input_1 _ => RR_INPUT_1
  | input_2 _ => RR_INPUT_2
  | input_4 _ => RR_INPUT_4
  | input_8 _ => RR_INPUT_8
  | interrupt_request _ => RR_INTERRUPT_REQUEST
  | exit_request _ => RR_EXIT_REQUEST
  | call_args _ => RR_SKIPPED_CALL
  | no_variant_debug => RR_DEBUG
  | no_variant_last => RR_LAST
  end.

(** memset(item, 0, sizeof(RR_log_entry)): kind 0 is RR_INPUT_1. *)
Definition zero_entry : RR_log_entry :=
  mk_entry (mk_header zero_prog_point 0 0) (input_1 0).

(** A stdio stream: the bytes before the position and the bytes after it. *)
Record FILE := mk_FILE {
  f_before : list byte;
  f_after : list byte
}.

Definition f_contents (f : FILE) : list byte := f_before f ++ f_after f.

Definition rewind (f : FILE) : FILE := mk_FILE [] (f_contents f).

(** fwrite of the bytes [bs] at the position (overwrites, then extends). *)
Definition f_put (bs : list byte) (f : FILE) : FILE :=
  mk_FILE (f_before f ++ bs) (skipn (length bs) (f_after f)).

(** Moves the position over [n] bytes; the bytes read are [firstn n]. *)
Definition f_take (n : nat) (f : FILE) : list byte * FILE :=
  (firstn n (f_after f),
   mk_FILE (f_before f ++ firstn n (f_after f)) (skipn n (f_after f))).

Record RR_log := mk_log {
  log_type : RR_log_type;
  fp : option FILE;
  last_prog_point : RR_prog_point;
  bytes_read : Z;
  log_size : Z;
  item_number : Z;
  current_item : RR_log_entry
}.

(** Modelled from the spec: rr_prog_point() and rr_get_guest_instr_count()
    are declared in rr_log.h; they read the program point (guest instruction
    count, program counter, secondary) of the CPU. *)
Record CPUState := mk_cpu {
  rr_guest_instr_count : Z;
  cpu_pc : Z;
  cpu_secondary : Z
}.

(** The side effect of a replayed skipped call on the host (the host's
    memory primitives are external: the calls are listed in order). *)
Inductive host_effect :=
| cpu_physical_memory_rw (addr : Z) (buf : buffer) (len : Z)
| rr_create_memory_region (start size mtype : Z) (name : buffer)
| memory_region_del_subregion (start size : Z)
| cpu_physical_memory_map_unmap (addr : Z) (buf : buffer) (len : Z).

(** The globals of rr_log.c. *)
Record rr_state := mk_state {
  rr_mode : RR_mode;
  rr_queue : list RR_log_entry;
  rr_record_in_progress : Z;
  rr_skipped_callsite_location : Z;
  rr_nondet_log : option RR_log;
  rr_please_flush_tb : Z;
  panda_current_interrupt_request : Z;     (* int *)
  recycle_list : list RR_log_entry;
  rr_log_entry_history : list RR_log_entry;
  rr_hist_index : Z;
  rr_max_num_queue_entries : Z;
  cpu : CPUState;
  rr_disk : list byte;                     (* the log file, once closed *)
  host_effects : list host_effect
}.

Definition RR_HIST_SIZE : Z := 10.
Definition RR_MAX_QUEUE_LEN : Z := 65536.

(** The state of a process that has not started a session. *)
Definition initial_state : rr_state :=
  mk_state RR_OFF [] 0 0 None 0 0 []
           (repeat zero_entry (Z.to_nat RR_HIST_SIZE)) 0 0
           (mk_cpu 0 0 0) [] [].

Definition set_rr_mode (m : RR_mode) (s : rr_state) : rr_state :=
  mk_state m (rr_queue s) (rr_record_in_progress s)
    (rr_skipped_callsite_location s) (rr_nondet_log s) (rr_please_flush_tb s)
    (panda_current_interrupt_request s) (recycle_list s)
    (rr_log_entry_history s) (rr_hist_index s) (rr_max_num_queue_entries s)
    (cpu s) (rr_disk s) (host_effects s).

Definition set_rr_queue (q : list RR_log_entry) (s : rr_state) : rr_state :=
  mk_state (rr_mode s) q (rr_record_in_progress s)
    (rr_skipped_callsite_location s) (rr_nondet_log s) (rr_please_flush_tb s)
    (panda_current_interrupt_request s) (recycle_list s)
    (rr_log_entry_history s) (rr_hist_index s) (rr_max_num_queue_entries s)
    (cpu s) (rr_disk s) (host_effects s).

Definition set_rr_nondet_log (l : option RR_log) (s : rr_state) : rr_state :=
  mk_state (rr_mode s) (rr_queue s) (rr_record_in_progress s)
    (rr_skipped_callsite_location s) l (rr_please_flush_tb s)
    (panda_current_interrupt_request s) (recycle_list s)
    (rr_log_entry_history s) (rr_hist_index s) (rr_max_num_queue_entries s)
    (cpu s) (rr_disk s) (host_effects s).

Definition set_panda_current_interrupt_request (v : Z) (s : rr_state)
  : rr_state :=
  mk_state (rr_mode s) (rr_queue s) (rr_record_in_progress s)
    (rr_skipped_callsite_location s) (rr_nondet_log s) (rr_please_flush_tb s)
    v (recycle_list s)
    (rr_log_entry_history s) (rr_hist_index s) (rr_max_num_queue_entries s)
    (cpu s) (rr_disk s) (host_effects s).

Definition set_recycle_list (r : list RR_log_entry) (s : rr_state)
  : rr_state :=
  mk_state (rr_mode s) (rr_queue s) (rr_record_in_progress s)
    (rr_skipped_callsite_location s) (rr_nondet_log s) (rr_please_flush_tb s)
    (panda_current_interrupt_request s) r
    (rr_log_entry_history s) (rr_hist_index s) (rr_max_num_queue_entries s)
    (cpu s) (rr_disk s) (host_effects s).

Definition set_history (h : list RR_log_entry) (i : Z) (s : rr_state)
  : rr_state :=
  mk_state (rr_mode s) (rr_queue s) (rr_record_in_progress s)
    (rr_skipped_callsite_location s) (rr_nondet_log s) (rr_please_flush_tb s)
    (panda_current_interrupt_request s) (recycle_list s)
    h i (rr_max_num_queue_entries s)
    (cpu s) (rr_disk s) (host_effects s).

Definition set_rr_max_num_queue_entries (n : Z) (s : rr_state) : rr_state :=
  mk_state (rr_mode s) (rr_queue s) (rr_record_in_progress s)
    (rr_skipped_callsite_location s) (rr_nondet_log s) (rr_please_flush_tb s)
    (panda_current_interrupt_request s) (recycle_list s)
    (rr_log_entry_history s) (rr_hist_index s) n
    (cpu s) (rr_disk s) (host_effects s).

Definition set_cpu (c : CPUState) (s : rr_state) : rr_state :=
  mk_state (rr_mode s) (rr_queue s) (rr_record_in_progress s)
    (rr_skipped_callsite_location s) (rr_nondet_log s) (rr_please_flush_tb s)
    (panda_current_interrupt_request s) (recycle_list s)
    (rr_log_entry_history s) (rr_hist_index s) (rr_max_num_queue_entries s)
    c (rr_disk s) (host_effects s).

Definition set_rr_disk (d : list byte) (s : rr_state) : rr_state :=
  mk_state (rr_mode s) (rr_queue s) (rr_record_in_progress s)
    (rr_skipped_callsite_location s) (rr_nondet_log s) (rr_please_flush_tb s)
    (panda_current_interrupt_request s) (recycle_list s)
    (rr_log_entry_history s) (rr_hist_index s) (rr_max_num_queue_entries s)
    (cpu s) d (host_effects s).

Definition set_host_effects (l : list host_effect) (s : rr_state)
  : rr_state :=
  mk_state (rr_mode s) (rr_queue s) (rr_record_in_progress s)
    (rr_skipped_callsite_location s) (rr_nondet_log s) (rr_please_flush_tb s)
    (panda_current_interrupt_request s) (recycle_list s)
    (rr_log_entry_history s) (rr_hist_index s) (rr_max_num_queue_entries s)
    (cpu s) (rr_disk s) l.

Definition set_flags (flush in_progress skipped_loc : Z) (s : rr_state)
  : rr_state :=
  mk_state (rr_mode s) (rr_queue s) in_progress skipped_loc
    (rr_nondet_log s) flush
    (panda_current_interrupt_request s) (recycle_list s)
    (rr_log_entry_history s) (rr_hist_index s) (rr_max_num_queue_entries s)
    (cpu s) (rr_disk s) (host_effects s).

Definition set_fp (f : option FILE) (l : RR_log) : RR_log :=
  mk_log (log_type l) f (last_prog_point l) (bytes_read l) (log_size l)
         (item_number l) (current_item l).

Definition set_last_prog_point (p : RR_prog_point) (l : RR_log) : RR_log :=
  mk_log (log_type l) (fp l) p (bytes_read l) (log_size l)
         (item_number l) (current_item l).

Definition set_bytes_read (n : Z) (l : RR_log) : RR_log :=
  mk_log (log_type l) (fp l) (last_prog_point l) n (log_size l)
         (item_number l) (current_item l).

Definition set_item_number (n : Z) (l : RR_log) : RR_log :=
  mk_log (log_type l) (fp l) (last_prog_point l) (bytes_read l) (log_size l)
         n (current_item l).

Definition set_current_item (e : RR_log_entry) (l : RR_log) : RR_log :=
  mk_log (log_type l) (fp l) (last_prog_point l) (bytes_read l) (log_size l)
         (item_number l) e.

(* ------------------------------------------------------------------------- *)
(** ** Aborts and the monad of the globals *)

(** The rr_assert sites of rr_log.c. *)
Inductive rr_assertion :=
| fwrite_result_eq_nmemb          (* rr_fwrite: result == nmemb *)
| fread_result_eq_nmemb           (* rr_fread: result == nmemb *)
| assert_rr_in_record             (* rr_write_item *)
| assert_rr_in_replay             (* rr_read_item *)
| assert_log_not_empty            (* rr_read_item: !rr_log_is_empty() *)
| assert_fp_not_null              (* rr_read_item, rr_create_*_log *)
| unimplemented_skipped_call      (* 0 && "Unimplemented skipped call!" *)
| unimplemented_log_entry         (* 0 && "Unimplemented replay log entry!" *)
| assert_queue_empty              (* rr_fill_queue *)
| assert_entry_found              (* rr_replay_input_N: rr_assert(0) *)
| assert_callsite_match           (* callsite_loc == call_site *)
| assert_skipped_call_sanity.     (* rr_replay_skipped_calls_internal *)

Inductive rr_error :=
| assert_fail (a : rr_assertion)   (* rr_assert_fail: abort() *)
| null_pointer                     (* access through a NULL pointer *)
| out_of_bounds                    (* read past the end of a caller's buffer *)
| aborted                          (* abort() called outright *)
| out_of_fuel.                     (* the bound of a modelled loop ran out *)

Inductive result (A : Type) :=
| Ok (a : A)
| Abort (e : rr_error).
Arguments Ok {A} a.
Arguments Abort {A} e.

Definition M (A : Type) : Type := rr_state -> result (A * rr_state).

Definition ret {A} (a : A) : M A := fun s => Ok (a, s).

Definition bind {A B} (m : M A) (k : A -> M B) : M B :=
  fun s => match m s with
           | Ok (a, s') => k a s'
           | Abort e => Abort e
           end.

Definition fail {A} (e : rr_error) : M A := fun _ => Abort e.

Definition get : M rr_state := fun s => Ok (s, s).

Definition modify (f : rr_state -> rr_state) : M unit :=
  fun s => Ok (tt, f s).

Declare Scope rr_scope.
Delimit Scope rr_scope with rr.
Notation "x <- m ;; k" := (bind m (fun x => k))
  (at level 61, m at next level, right associativity) : rr_scope.
Notation "m ;; k" := (bind m (fun _ => k))
  (at level 61, right associativity) : rr_scope.
Local Open Scope rr_scope.

(** rr_assert(exp) *)
Definition rr_assert (exp : bool) (a : rr_assertion) : M unit :=
  if exp then ret tt else fail (assert_fail a).

(** rr_nondet_log->...: faults when rr_nondet_log is NULL. *)
Definition the_log : M RR_log :=
  fun s => match rr_nondet_log s with
           | Some l => Ok (l, s)
           | None => Abort null_pointer
           end.

Definition modify_log (f : RR_log -> RR_log) : M unit :=
  l <- the_log ;; modify (set_rr_nondet_log (Some (f l))).

(* ------------------------------------------------------------------------- *)
(** ** Integer conversions and object representations *)

Definition to_uint32 (z : Z) : Z := z mod 2 ^ 32.
Definition to_int32 (z : Z) : Z :=
  let u := z mod 2 ^ 32 in if u <? 2 ^ 31 then u else u - 2 ^ 32.
Definition to_size_t (z : Z) : Z := z mod 2 ^ 64.

(** Byte order is the host's; the host is little-endian. *)
Definition u8_bytes (v : Z) : list byte := le_split 1 v.
Definition u16_bytes (v : Z) : list byte := le_split 2 v.
Definition u32_bytes (v : Z) : list byte := le_split 4 v.
Definition u64_bytes (v : Z) : list byte := le_split 8 v.

Definition prog_point_bytes (p : RR_prog_point) : list byte :=
  u64_bytes (guest_instr_count p) ++ u64_bytes (pc p)
  ++ u64_bytes (secondary p).

Definition prog_point_of_bytes (bs : list byte) : RR_prog_point :=
  mk_prog_point (le_combine (firstn 8 bs))
                (le_combine (firstn 8 (skipn 8 bs)))
                (le_combine (firstn 8 (skipn 16 bs))).

Definition sizeof_prog_point : Z := 24.

(** Modelled from the spec: object representations of the argument structs,
    member by member as in the spec's table of variant payloads. *)
Definition cpu_mem_rw_args_bytes (a : RR_cpu_mem_rw_args) : list byte :=
  u64_bytes (rw_addr a) ++ u32_bytes (rw_len a).
Definition sizeof_cpu_mem_rw_args : Z := 12.
Definition cpu_mem_rw_args_of_bytes (bs : list byte) : RR_cpu_mem_rw_args :=
  mk_cpu_mem_rw_args (le_combine (firstn 8 bs)) None
                     (to_int32 (le_combine (firstn 4 (skipn 8 bs)))).

Definition cpu_mem_unmap_bytes (a : RR_cpu_mem_unmap) : list byte :=
  u64_bytes (um_addr a) ++ u64_bytes (um_len a).
Definition sizeof_cpu_mem_unmap : Z := 16.
Definition cpu_mem_unmap_of_bytes (bs : list byte) : RR_cpu_mem_unmap :=
  mk_cpu_mem_unmap (le_combine (firstn 8 bs)) None
                   (le_combine (firstn 8 (skipn 8 bs))).

Definition mem_region_change_args_bytes (a : RR_mem_region_change_args)
  : list byte :=
  u64_bytes (mrc_start_addr a) ++ u64_bytes (mrc_size a)
  ++ u32_bytes (mrc_len a) ++ u32_bytes (mrc_mtype a)
  ++ u8_bytes (mrc_added a).
Definition sizeof_mem_region_change_args : Z := 25.
Definition mem_region_change_args_of_bytes (bs : list byte)
  : RR_mem_region_change_args :=
  mk_mem_region_change_args
    (le_combine (firstn 8 bs))
    (le_combine (firstn 8 (skipn 8 bs)))
    None
    (le_combine (firstn 4 (skipn 16 bs)))
    (le_combine (firstn 4 (skipn 20 bs)))
    (le_combine (firstn 1 (skipn 24 bs))).

Definition transfer_args_bytes (a : RR_transfer_args) : list byte :=
  u32_bytes (tr_type a) ++ u64_bytes (tr_src_addr a)
  ++ u64_bytes (tr_dest_addr a) ++ u32_bytes (tr_num_bytes a).
Definition sizeof_transfer_args : Z := 24.
Definition transfer_args_of_bytes (bs : list byte) : RR_transfer_args :=
  mk_transfer_args
    (le_combine (firstn 4 bs))
    (le_combine (firstn 8 (skipn 4 bs)))
    (le_combine (firstn 8 (skipn 12 bs)))
    (le_combine (firstn 4 (skipn 20 bs))).

Definition handle_packet_args_bytes (a : RR_handle_packet_args) : list byte :=
  u64_bytes (hp_buf_ptr a) ++ u32_bytes (hp_size a)
  ++ u8_bytes (hp_direction a).
Definition sizeof_handle_packet_args : Z := 13.
Definition handle_packet_args_of_bytes (bs : list byte)
  : RR_handle_packet_args :=
  mk_handle_packet_args
    (le_combine (firstn 8 bs)) None
    (to_int32 (le_combine (firstn 4 (skipn 8 bs))))
    (le_combine (firstn 1 (skipn 12 bs))).

(* ------------------------------------------------------------------------- *)
(** ** Record *)

(** Modelled from the spec: rr_prog_point() is declared in rr_log.h; it
    returns the program point of the CPU. *)
Definition rr_prog_point : M RR_prog_point :=
  s <- get ;;
  ret (mk_prog_point (rr_guest_instr_count (cpu s)) (cpu_pc (cpu s))
                     (cpu_secondary (cpu s))).

Definition rr_get_guest_instr_count : M Z :=
  s <- get ;; ret (rr_guest_instr_count (cpu s)).

Definition RR_mode_eqb (a b : RR_mode) : bool :=
  match a, b with
  | RR_OFF, RR_OFF | RR_RECORD, RR_RECORD | RR_REPLAY, RR_REPLAY => true
  | _, _ => false
  end.

Definition rr_in_record : M bool :=
  s <- get ;; ret (RR_mode_eqb (rr_mode s) RR_RECORD).

Definition rr_in_replay : M bool :=
  s <- get ;; ret (RR_mode_eqb (rr_mode s) RR_REPLAY).

(** fwrite(ptr, size, nmemb, fp): the number of members written.  Nothing is
    written and 0 is returned when size or nmemb is 0; otherwise the
    size * nmemb bytes at ptr are written (device errors are not modelled). *)
Definition fwrite (ptr : buffer) (size nmemb : Z) (f : FILE)
  : result (Z * FILE) :=
  if (size =? 0) || (nmemb =? 0) then Ok (0, f)
  else match ptr with
       | None => Abort null_pointer
       | Some m =>
           if Z.of_nat (length m) <? size * nmemb then Abort out_of_bounds
           else Ok (nmemb, f_put (firstn (Z.to_nat (size * nmemb)) m) f)
       end.

Definition rr_fwrite (ptr : buffer) (size nmemb : Z) : M Z :=
  l <- the_log ;;
  match fp l with
  | None => fail null_pointer
  | Some f =>
      match fwrite ptr size nmemb f with
      | Abort e => fail e
      | Ok (result, f') =>
          modify_log (set_fp (Some f')) ;;
          rr_assert (result =? nmemb) fwrite_result_eq_nmemb ;;
          ret result
      end
  end.

(** RR_WRITE_ITEM(field): rr_fwrite(&(field), sizeof(field), 1); [obj] is the
    object representation of the field. *)
Definition RR_WRITE_ITEM (obj : list byte) (sizeof : Z) : M Z :=
  rr_fwrite (Some obj) sizeof 1.

(** mz write the current log item to file *)
Definition rr_write_item : M unit :=
  l <- the_log ;;
  let item := current_item l in
  b <- rr_in_record ;;
  rr_assert b assert_rr_in_record ;;
  RR_WRITE_ITEM (prog_point_bytes (prog_point (header item)))
                sizeof_prog_point ;;
  RR_WRITE_ITEM (u32_bytes (kind_code (kind item))) 4 ;;
  RR_WRITE_ITEM (u32_bytes (callsite_loc (header item))) 4 ;;
  modify_log (set_last_prog_point (prog_point (header item))) ;;
  match variant item with
  | input_1 v => RR_WRITE_ITEM (u8_bytes v) 1
  | input_2 v => RR_WRITE_ITEM (u16_bytes v) 2
  | input_4 v => RR_WRITE_ITEM (u32_bytes v) 4
  | input_8 v => RR_WRITE_ITEM (u64_bytes v) 8
  | interrupt_request v => RR_WRITE_ITEM (u32_bytes v) 4
  | exit_request v => RR_WRITE_ITEM (u32_bytes v) 4
  | call_args args =>
      (* mz write kind first! *)
      RR_WRITE_ITEM (u32_bytes (call_kind_code (call_kind args))) 4 ;;
      match call_variant args with
      | cpu_mem_rw_args a =>
          RR_WRITE_ITEM (cpu_mem_rw_args_bytes a) sizeof_cpu_mem_rw_args ;;
          rr_fwrite (rw_buf a) 1 (to_size_t (rw_len a))
      | cpu_mem_unmap a =>
          RR_WRITE_ITEM (cpu_mem_unmap_bytes a) sizeof_cpu_mem_unmap ;;
          rr_fwrite (um_buf a) 1 (to_size_t (um_len a))
      | mem_region_change_args a =>
          RR_WRITE_ITEM (mem_region_change_args_bytes a)
                        sizeof_mem_region_change_args ;;
          rr_fwrite (mrc_name a) 1 (to_size_t (mrc_len a))
      | hd_transfer_args a =>
          RR_WRITE_ITEM (transfer_args_bytes a) sizeof_transfer_args
      | net_transfer_args a =>
          RR_WRITE_ITEM (transfer_args_bytes a) sizeof_transfer_args
      | handle_packet_args a =>
          RR_WRITE_ITEM (handle_packet_args_bytes a)
                        sizeof_handle_packet_args ;;
          rr_fwrite (hp_buf a) (to_size_t (hp_size a)) 1
      end
  | no_variant_last | no_variant_debug =>
      (* mz nothing to read *)
      ret 0
  end ;;
  modify_log (fun l => set_item_number ((item_number l + 1) mod 2 ^ 64) l).

(** The common prologue of the capture functions:
    item = &(rr_nondet_log->current_item); memset(item, 0, ...); then the
    header (kind, callsite_loc, prog_point) and the variant are stored. *)
Definition store_current_item (call_site : RR_callsite_id) (v : RR_variant)
  : M unit :=
  modify_log (set_current_item zero_entry) ;;
  pp <- rr_prog_point ;;
  modify_log (set_current_item (mk_entry (mk_header pp 0 call_site) v)).

Definition rr_record_debug (call_site : RR_callsite_id) : M unit :=
  store_current_item call_site no_variant_debug ;;
  rr_write_item.

Definition rr_record_input_1 (call_site : RR_callsite_id) (data : Z)
  : M unit :=
  store_current_item call_site (input_1 data) ;;
  rr_write_item.

Definition rr_record_input_2 (call_site : RR_callsite_id) (data : Z)
  : M unit :=
  store_current_item call_site (input_2 data) ;;
  rr_write_item.

Definition rr_record_input_4 (call_site : RR_callsite_id) (data : Z)
  : M unit :=
  store_current_item call_site (input_4 data) ;;
  rr_write_item.

Definition rr_record_input_8 (call_site : RR_callsite_id) (data : Z)
  : M unit :=
  store_current_item call_site (input_8 data) ;;
  rr_write_item.

(** The cache is an int and the argument a uint32_t: the comparison is made
    on uint32_t, the assignment converts back to int. *)
Definition rr_record_interrupt_request (call_site : RR_callsite_id)
  (interrupt_request_ : Z) : M unit :=
  s <- get ;;
  if negb (to_uint32 (panda_current_interrupt_request s)
           =? interrupt_request_)
  then
    modify_log (set_current_item zero_entry) ;;
    pp <- rr_prog_point ;;
    modify_log (set_current_item
                  (mk_entry (mk_header pp 0 call_site)
                            (interrupt_request interrupt_request_))) ;;
    modify (set_panda_current_interrupt_request
              (to_int32 interrupt_request_)) ;;
    rr_write_item
  else ret tt.

Definition rr_record_exit_request (call_site : RR_callsite_id)
  (exit_request_ : Z) : M unit :=
  if negb (exit_request_ =? 0)
  then
    store_current_item call_site (exit_request exit_request_) ;;
    rr_write_item
  else ret tt.

(** mz is_write is dropped on the floor, as we only record writes *)
Definition rr_record_cpu_mem_rw_call (call_site : RR_callsite_id)
  (addr : Z) (buf : buffer) (len : Z) (is_write : Z) : M unit :=
  store_current_item call_site
    (call_args (mk_call_args
                  (cpu_mem_rw_args (mk_cpu_mem_rw_args addr buf len)) 0)) ;;
  rr_write_item.

Definition rr_record_cpu_mem_unmap (call_site : RR_callsite_id)
  (addr : Z) (buf : buffer) (len : Z) (is_write : Z) : M unit :=
  store_current_item call_site
    (call_args (mk_call_args
                  (cpu_mem_unmap (mk_cpu_mem_unmap addr buf len)) 0)) ;;
  rr_write_item.

(** strlen: the index of the first zero byte; [None] when the bytes at the
    pointer hold none. *)
Fixpoint strlen_bytes (m : list byte) : option Z :=
  match m with
  | [] => None
  | b :: m' =>
      if byte.unsigned b =? 0 then Some 0
      else match strlen_bytes m' with
           | Some n => Some (n + 1)
           | None => None
           end
  end.

Definition strlen (name : buffer) : M Z :=
  match name with
  | None => fail null_pointer
  | Some m => match strlen_bytes m with
              | Some n => ret n
              | None => fail out_of_bounds
              end
  end.

Definition rr_record_memory_region_change (call_site : RR_callsite_id)
  (start_addr size : Z) (name : buffer) (mtype : Z) (added : bool)
  : M unit :=
  modify_log (set_current_item zero_entry) ;;
  pp <- rr_prog_point ;;
  n <- strlen name ;;
  modify_log (set_current_item
    (mk_entry (mk_header pp 0 call_site)
       (call_args (mk_call_args
          (mem_region_change_args
             (mk_mem_region_change_args start_addr size name (to_uint32 n)
                mtype (if added then 1 else 0))) 0)))) ;;
  rr_write_item.

Definition rr_record_hd_transfer (call_site : RR_callsite_id)
  (transfer_type src_addr dest_addr num_bytes : Z) : M unit :=
  store_current_item call_site
    (call_args (mk_call_args
       (hd_transfer_args
          (mk_transfer_args transfer_type src_addr dest_addr num_bytes))
       0)) ;;
  rr_write_item.

Definition rr_record_net_transfer (call_site : RR_callsite_id)
  (transfer_type src_addr dest_addr num_bytes : Z) : M unit :=
  store_current_item call_site
    (call_args (mk_call_args
       (net_transfer_args
          (mk_transfer_args transfer_type src_addr dest_addr num_bytes))
       0)) ;;
  rr_write_item.

(** [buf_ptr] is the numeric value of buf, [buf] the bytes it points at. *)
Definition rr_record_handle_packet_call (call_site : RR_callsite_id)
  (buf_ptr : Z) (buf : buffer) (size : Z) (direction : Z) : M unit :=
  store_current_item call_site
    (call_args (mk_call_args
       (handle_packet_args
          (mk_handle_packet_args buf_ptr buf size direction)) 0)) ;;
  rr_write_item.

(* ------------------------------------------------------------------------- *)
(** ** Replay *)

Definition rr_log_is_empty : M bool :=
  l <- the_log ;;
  ret (match log_type l with
       | REPLAY => log_size l =? bytes_read l
       | RECORD => false
       end).

(** free_entry_params: releases the buffer of the three kinds that own one
    and clears the pointer (the name of a region change is not released). *)
Definition free_entry_params (entry : RR_log_entry) : RR_log_entry :=
  match variant entry with
  | call_args args =>
      match call_variant args with
      | cpu_mem_rw_args a =>
          mk_entry (header entry)
            (call_args (mk_call_args
               (cpu_mem_rw_args (mk_cpu_mem_rw_args (rw_addr a) None
                                                    (rw_len a)))
               (old_buf_addr args)))
      | cpu_mem_unmap a =>
          mk_entry (header entry)
            (call_args (mk_call_args
               (cpu_mem_unmap (mk_cpu_mem_unmap (um_addr a) None (um_len a)))
               (old_buf_addr args)))
      | handle_packet_args a =>
          mk_entry (header entry)
            (call_args (mk_call_args
               (handle_packet_args
                  (mk_handle_packet_args (hp_buf_ptr a) None (hp_size a)
                                         (hp_direction a)))
               (old_buf_addr args)))
      | _ => entry
      end
  | _ => entry
  end.

(** array[i] = v *)
Fixpoint array_set {A} (l : list A) (i : nat) (v : A) : list A :=
  match l, i with
  | [], _ => []
  | _ :: l', O => v :: l'
  | x :: l', S i' => x :: array_set l' i' v
  end.

(** mz "free" a used entry *)
Definition add_to_recycle_list (entry : RR_log_entry) : M unit :=
  let entry := free_entry_params entry in
  (* mz add to the recycle list *)
  modify (fun s => set_recycle_list (entry :: recycle_list s) s) ;;
  (* mz save item in history *)
  modify (fun s =>
    set_history
      (array_set (rr_log_entry_history s) (Z.to_nat (rr_hist_index s)) entry)
      ((rr_hist_index s + 1) mod RR_HIST_SIZE) s).

(** mz allocate a new entry (not filled yet): a shell of the recycle list
    when there is one, a new one otherwise; the shell is zeroed. *)
Definition alloc_new_entry : M RR_log_entry :=
  modify (fun s => set_recycle_list (tl (recycle_list s)) s) ;;
  ret zero_entry.

(** fread(ptr, size, nmemb, fp): the number of members read and the bytes. *)
Definition fread (size nmemb : Z) (f : FILE) : Z * list byte * FILE :=
  if (size =? 0) || (nmemb =? 0) then (0, [], f)
  else if size * nmemb <=? Z.of_nat (length (f_after f))
       then (nmemb, fst (f_take (Z.to_nat (size * nmemb)) f),
             snd (f_take (Z.to_nat (size * nmemb)) f))
       else (Z.of_nat (length (f_after f)) / size, f_after f,
             snd (f_take (length (f_after f)) f)).

(** The bytes read stand for the contents of ptr after the call. *)
Definition rr_fread (size nmemb : Z) : M (list byte) :=
  l <- the_log ;;
  match fp l with
  | None => fail null_pointer
  | Some f =>
      let '(result, data, f') := fread size nmemb f in
      modify_log (fun l => set_bytes_read
                             ((bytes_read l + nmemb * size) mod 2 ^ 64)
                             (set_fp (Some f') l)) ;;
      rr_assert (result =? nmemb) fread_result_eq_nmemb ;;
      ret data
  end.

(** RR_READ_ITEM(field): rr_fread(&(field), sizeof(field), 1) *)
Definition RR_READ_ITEM (sizeof : Z) : M (list byte) := rr_fread sizeof 1.

(** g_malloc(n) followed by a read of the [data] into the block: g_malloc(0)
    is NULL; the block holds the bytes read. *)
Definition g_malloc_filled (n : Z) (data : list byte) : buffer :=
  if n =? 0 then None else Some data.

(** mz fill an entry *)
Definition rr_read_item : M RR_log_entry :=
  (* mz read header *)
  b <- rr_in_replay ;;
  rr_assert b assert_rr_in_replay ;;
  e <- rr_log_is_empty ;;
  rr_assert (negb e) assert_log_not_empty ;;
  l <- the_log ;;
  rr_assert (match fp l with Some _ => true | None => false end)
            assert_fp_not_null ;;
  let file_pos_ := bytes_read l in
  pp <- RR_READ_ITEM sizeof_prog_point ;;
  k <- RR_READ_ITEM 4 ;;
  cs <- RR_READ_ITEM 4 ;;
  let hd := mk_header (prog_point_of_bytes pp) file_pos_ (le_combine cs) in
  (* mz read the rest of the item *)
  v <- match kind_of_code (le_combine k) with
       | Some RR_INPUT_1 =>
           d <- RR_READ_ITEM 1 ;; ret (input_1 (le_combine d))
       | Some RR_INPUT_2 =>
           d <- RR_READ_ITEM 2 ;; ret (input_2 (le_combine d))
       | Some RR_INPUT_4 =>
           d <- RR_READ_ITEM 4 ;; ret (input_4 (le_combine d))
       | Some RR_INPUT_8 =>
           d <- RR_READ_ITEM 8 ;; ret (input_8 (le_combine d))
       | Some RR_INTERRUPT_REQUEST =>
           d <- RR_READ_ITEM 4 ;; ret (interrupt_request (le_combine d))
       | Some RR_EXIT_REQUEST =>
           d <- RR_READ_ITEM 4 ;; ret (exit_request (le_combine d))
       | Some RR_SKIPPED_CALL =>
           (* mz read kind first! *)
           ck <- RR_READ_ITEM 4 ;;
           match call_kind_of_code (le_combine ck) with
           | Some RR_CALL_CPU_MEM_RW =>
               d <- RR_READ_ITEM sizeof_cpu_mem_rw_args ;;
               let a := cpu_mem_rw_args_of_bytes d in
               (* mz always allocate a new one *)
               data <- rr_fread 1 (to_size_t (rw_len a)) ;;
               ret (call_args (mk_call_args
                      (cpu_mem_rw_args
                         (mk_cpu_mem_rw_args (rw_addr a)
                            (g_malloc_filled (to_size_t (rw_len a)) data)
                            (rw_len a))) 0))
           | Some RR_CALL_CPU_MEM_UNMAP =>
               d <- RR_READ_ITEM sizeof_cpu_mem_unmap ;;
               let a := cpu_mem_unmap_of_bytes d in
               data <- rr_fread 1 (to_size_t (um_len a)) ;;
               ret (call_args (mk_call_args
                      (cpu_mem_unmap
                         (mk_cpu_mem_unmap (um_addr a)
                            (g_malloc_filled (to_size_t (um_len a)) data)
                            (um_len a))) 0))
           | Some RR_CALL_MEM_REGION_CHANGE =>
               d <- RR_READ_ITEM sizeof_mem_region_change_args ;;
               let a := mem_region_change_args_of_bytes d in
               (* g_malloc0(len + 1): the name, zero-terminated *)
               let n := to_uint32 (mrc_len a + 1) in
               (if (n =? 0) && negb (mrc_len a =? 0)
                then fail null_pointer else ret tt) ;;
               data <- rr_fread 1 (to_size_t (mrc_len a)) ;;
               ret (call_args (mk_call_args
                      (mem_region_change_args
                         (mk_mem_region_change_args (mrc_start_addr a)
                            (mrc_size a)
                            (g_malloc_filled n (data ++ [Byte.x00]))
                            (mrc_len a) (mrc_mtype a) (mrc_added a))) 0))
           | Some RR_CALL_HD_TRANSFER =>
               d <- RR_READ_ITEM sizeof_transfer_args ;;
               ret (call_args (mk_call_args
                      (hd_transfer_args (transfer_args_of_bytes d)) 0))
           | Some RR_CALL_NET_TRANSFER =>
               d <- RR_READ_ITEM sizeof_transfer_args ;;
               ret (call_args (mk_call_args
                      (net_transfer_args (transfer_args_of_bytes d)) 0))
           | Some RR_CALL_HANDLE_PACKET =>
               d <- RR_READ_ITEM sizeof_handle_packet_args ;;
               let a := handle_packet_args_of_bytes d in
               (* mz XXX HACK: old_buf_addr = (uint64_t) buf *)
               data <- rr_fread (to_size_t (hp_size a)) 1 ;;
               ret (call_args (mk_call_args
                      (handle_packet_args
                         (mk_handle_packet_args (hp_buf_ptr a)
                            (g_malloc_filled (to_size_t (hp_size a)) data)
                            (hp_size a) (hp_direction a)))
                      (hp_buf_ptr a)))
           | None =>
               (* mz unimplemented *)
               fail (assert_fail unimplemented_skipped_call)
           end
       | Some RR_LAST => ret no_variant_last
       | Some RR_DEBUG => ret no_variant_debug
       | None =>
           (* mz unimplemented *)
           fail (assert_fail unimplemented_log_entry)
       end ;;
  modify_log (fun l => set_item_number ((item_number l + 1) mod 2 ^ 64) l) ;;
  (* the per-kind counters only feed the statistics printed at the end *)
  alloc_new_entry ;;
  ret (mk_entry hd v).

Section WithHeader.

(** The parts of rr_log.h that rr_log.c uses and that have no counterpart
    here: two members of RR_callsite_id, and the comparison of program
    points, which yields an int (0 for equal points) or does not return
    ([None]: it stops the process inside). *)
Variable RR_CALLSITE_MAIN_LOOP_WAIT : RR_callsite_id.
Variable RR_CALLSITE_LAST : RR_callsite_id.
Variable rr_prog_point_compare :
  RR_prog_point -> RR_prog_point -> RR_log_entry_kind -> option Z.

(** mz record a marker for end of the log *)
Definition rr_record_end_of_log : M unit :=
  store_current_item RR_CALLSITE_LAST no_variant_last ;;
  rr_write_item.

(** The unread bytes of the log bound the number of entries left in it. *)
Definition unread_bytes (s : rr_state) : nat :=
  match rr_nondet_log s with
  | Some l => match fp l with
              | Some f => length (f_after f)
              | None => O
              end
  | None => O
  end.

(** One pass through the while loop of rr_fill_queue: the test of the loop
    and its body.  [num_entries] is the local counter; the result says
    whether the loop goes round again ([false]: the test failed or the body
    reached its break) and gives the counter. *)
Definition rr_fill_queue_body (num_entries : Z) : M (bool * Z) :=
  e <- rr_log_is_empty ;;
  if e then ret (false, num_entries)
  else
    log_entry <- rr_read_item ;;
    (* mz add it to the queue *)
    modify (fun s => set_rr_queue (rr_queue s ++ [log_entry]) s) ;;
    let num_entries := num_entries + 1 in
    if (RR_log_entry_kind_eqb (kind log_entry) RR_SKIPPED_CALL
        && (callsite_loc (header log_entry) =? RR_CALLSITE_MAIN_LOOP_WAIT))
       || RR_log_entry_kind_eqb (kind log_entry) RR_INTERRUPT_REQUEST
       || (num_entries >? RR_MAX_QUEUE_LEN)
    then
      (* Cut off queue so we don't run out of memory on long runs of
         non-interrupts *)
      ret (false, num_entries)
    else ret (true, num_entries).

Fixpoint rr_fill_queue_loop (fuel : nat) (num_entries : Z) : M Z :=
  match fuel with
  | O => fail out_of_fuel
  | S fuel' =>
      r <- rr_fill_queue_body num_entries ;;
      if fst r then rr_fill_queue_loop fuel' (snd r) else ret (snd r)
  end.

(** mz fill the queue of log entries from the file (the progress report at
    the end only prints). *)
Definition rr_fill_queue : M unit :=
  s <- get ;;
  (* mz The queue should be empty when this is called. *)
  rr_assert (match rr_queue s with [] => true | _ => false end)
            assert_queue_empty ;;
  num_entries <- rr_fill_queue_loop (S (unread_bytes s)) 0 ;;
  (* mz let's gather some stats *)
  modify (fun s => if num_entries >? rr_max_num_queue_entries s
                   then set_rr_max_num_queue_entries num_entries s
                   else s).

(** while (rr_queue_head && rr_queue_head->header.kind == RR_DEBUG): the
    head is unlinked, and that is all. *)
Fixpoint skip_debug_entries (q : list RR_log_entry) : list RR_log_entry :=
  match q with
  | [] => []
  | current :: q' =>
      if RR_log_entry_kind_eqb (kind current) RR_DEBUG
      then skip_debug_entries q'
      else q
  end.

(** mz return next log entry from the queue; [None] is NULL. *)
Definition get_next_entry (kind_ : RR_log_entry_kind)
  (call_site : RR_callsite_id) (check_callsite : bool)
  : M (option RR_log_entry) :=
  s <- get ;;
  still_empty <-
    match rr_queue s with
    | [] =>
        (* Try again; we may have failed because the queue got too big *)
        rr_fill_queue ;;
        s <- get ;;
        ret (match rr_queue s with [] => true | _ => false end)
    | _ => ret false
    end ;;
  if still_empty : bool then ret None
  else
    (if negb (RR_log_entry_kind_eqb kind_ RR_INTERRUPT_REQUEST)
        && negb (RR_log_entry_kind_eqb kind_ RR_SKIPPED_CALL)
     then modify (fun s => set_rr_queue (skip_debug_entries (rr_queue s)) s)
     else ret tt) ;;
    s <- get ;;
    match rr_queue s with
    | [] => fail null_pointer       (* RR_log_entry head = *rr_queue_head *)
    | head :: rest =>
        differs <-
          (if guest_instr_count (prog_point (header head)) =? 0
           then
             (* We'll process this one beacuse it's the start of the log *)
             ret false
           else
             pp <- rr_prog_point ;;
             match rr_prog_point_compare pp (prog_point (header head)) kind_
             with
             | Some c => ret (negb (c =? 0))
             | None => fail aborted
             end) ;;
        if differs : bool then ret None
        else if negb (RR_log_entry_kind_eqb (kind head) kind_) then ret None
        else if check_callsite
                && negb (callsite_loc (header head) =? call_site)
        then ret None
        else
          (* mz remove log entry from queue and return it. *)
          modify (set_rr_queue rest) ;;
          ret (Some head)
    end.

Definition rr_replay_debug (call_site : RR_callsite_id) : M unit :=
  s <- get ;;
  match rr_queue s with
  | [] => ret tt
  | current_item_ :: rest =>
      if negb (RR_log_entry_kind_eqb (kind current_item_) RR_DEBUG)
      then ret tt
      else
        let log_point := prog_point (header current_item_) in
        current <- rr_prog_point ;;
        if guest_instr_count log_point >? guest_instr_count current
        then ret tt
        else
          (* equal counts, or ahead of the log: the entry is consumed *)
          modify (set_rr_queue rest) ;;
          add_to_recycle_list current_item_
  end.

(** The body shared by rr_replay_input_1/2/4/8: [member] reads the member
    of the union that belongs to the kind. *)
Definition rr_replay_input (kind_ : RR_log_entry_kind)
  (member : RR_variant -> Z) (call_site : RR_callsite_id) : M Z :=
  current_item_ <- get_next_entry kind_ call_site false ;;
  match current_item_ with
  | None =>
      (* mz we're trying to replay too early or we have the wrong kind of
         entry.  this is cause for failure *)
      fail (assert_fail assert_entry_found)
  | Some item =>
      rr_assert (callsite_loc (header item) =? call_site)
                assert_callsite_match ;;
      let data := member (variant item) in
      (* mz we've used the item - recycle it. *)
      add_to_recycle_list item ;;
      ret data
  end.

Definition variant_input_1 (v : RR_variant) : Z :=
  match v with input_1 d => d | _ => 0 end.
Definition variant_input_2 (v : RR_variant) : Z :=
  match v with input_2 d => d | _ => 0 end.
Definition variant_input_4 (v : RR_variant) : Z :=
  match v with input_4 d => d | _ => 0 end.
Definition variant_input_8 (v : RR_variant) : Z :=
  match v with input_8 d => d | _ => 0 end.
Definition variant_interrupt_request (v : RR_variant) : Z :=
  match v with interrupt_request d => d | _ => 0 end.
Definition variant_exit_request (v : RR_variant) : Z :=
  match v with exit_request d => d | _ => 0 end.

Definition rr_replay_input_1 := rr_replay_input RR_INPUT_1 variant_input_1.
Definition rr_replay_input_2 := rr_replay_input RR_INPUT_2 variant_input_2.
Definition rr_replay_input_4 := rr_replay_input RR_INPUT_4 variant_input_4.
Definition rr_replay_input_8 := rr_replay_input RR_INPUT_8 variant_input_8.

(** Returns the value stored through the pointer interrupt_request. *)
Definition rr_replay_interrupt_request (call_site : RR_callsite_id) : M Z :=
  current_item_ <- get_next_entry RR_INTERRUPT_REQUEST call_site true ;;
  match current_item_ with
  | Some item =>
      modify (set_panda_current_interrupt_request
                (to_int32 (variant_interrupt_request (variant item)))) ;;
      (* mz we've used the item *)
      add_to_recycle_list item ;;
      (* mz before we can return, we need to fill the queue with information
         up to the next interrupt value! *)
      rr_fill_queue
  | None => ret tt
  end ;;
  s <- get ;;
  ret (to_uint32 (panda_current_interrupt_request s)).

(** Returns the value stored through the pointer exit_request. *)
Definition rr_replay_exit_request (call_site : RR_callsite_id) : M Z :=
  current_item_ <- get_next_entry RR_EXIT_REQUEST call_site false ;;
  match current_item_ with
  | None => ret 0
  | Some item =>
      (* mz final sanity checks *)
      rr_assert (callsite_loc (header item) =? call_site)
                assert_callsite_match ;;
      let v := variant_exit_request (variant item) in
      (* mz we've used the item *)
      add_to_recycle_list item ;;
      ret v
  end.

Definition host_do (e : host_effect) : M unit :=
  modify (fun s => set_host_effects (host_effects s ++ [e]) s).

(** The switch of rr_replay_skipped_calls_internal. *)
Definition replay_skipped_call (args : RR_skipped_call_args) : M unit :=
  match call_variant args with
  | cpu_mem_rw_args a =>
      host_do (cpu_physical_memory_rw (rw_addr a) (rw_buf a) (rw_len a))
  | mem_region_change_args a =>
      if negb (mrc_added a =? 0)
      then host_do (rr_create_memory_region (mrc_start_addr a) (mrc_size a)
                      (mrc_mtype a) (mrc_name a))
      else host_do (memory_region_del_subregion (mrc_start_addr a)
                      (mrc_size a))
  | cpu_mem_unmap a =>
      host_do (cpu_physical_memory_map_unmap (um_addr a) (um_buf a)
                 (um_len a))
  | _ =>
      (* mz sanity check *)
      fail (assert_fail assert_skipped_call_sanity)
  end.

(** The do-while loop of rr_replay_skipped_calls_internal. *)
Fixpoint rr_replay_skipped_calls_loop (fuel : nat)
  (call_site : RR_callsite_id) : M unit :=
  match fuel with
  | O => fail out_of_fuel
  | S fuel' =>
      current_item_ <- get_next_entry RR_SKIPPED_CALL call_site false ;;
      match current_item_ with
      | None =>
          (* mz queue is empty or we've replayed all we can for this prog
             point *)
          ret tt
      | Some item =>
          match variant item with
          | call_args args => replay_skipped_call args
          | _ => fail (assert_fail assert_skipped_call_sanity)
          end ;;
          add_to_recycle_list item ;;
          s <- get ;;
          (* RW ...but only if the queue is actually empty at this point *)
          (if (call_site =? RR_CALLSITE_MAIN_LOOP_WAIT)
              && match rr_queue s with [] => true | _ => false end
           then rr_fill_queue else ret tt) ;;
          rr_replay_skipped_calls_loop fuel' call_site
      end
  end.

Definition rr_replay_skipped_calls_internal (call_site : RR_callsite_id)
  : M unit :=
  s <- get ;;
  rr_replay_skipped_calls_loop
    (S (length (rr_queue s) + unread_bytes s)) call_site.

(** Check if replay is really finished. Conditions:
    1) The log is empty  2) The only thing in the queue is RR_LAST *)
Definition rr_replay_finished : M bool :=
  e <- rr_log_is_empty ;;
  if negb e then ret false
  else
    s <- get ;;
    match rr_queue s with
    | [] => fail null_pointer
    | head :: _ =>
        if negb (RR_log_entry_kind_eqb (kind head) RR_LAST) then ret false
        else
          n <- rr_get_guest_instr_count ;;
          ret (n >=? guest_instr_count (prog_point (header head)))
    end.

(* ------------------------------------------------------------------------- *)
(** ** Log management and sessions *)

(** g_new0(RR_log, 1) *)
Definition zero_log (t : RR_log_type) (f : FILE) : RR_log :=
  mk_log t (Some f) zero_prog_point 0 0 0 zero_entry.

(** create record log: fopen(name, "w") truncates the file; the header is
    written with a plain fwrite. *)
Definition rr_create_record_log : M unit :=
  modify (set_rr_disk []) ;;
  let l := zero_log RECORD (mk_FILE [] []) in
  modify (set_rr_nondet_log
            (Some (set_fp (Some (f_put (prog_point_bytes (last_prog_point l))
                                       (mk_FILE [] []))) l))).

(** create replay log: fopen(name, "r"), the size from stat, then the header
    is read into last_prog_point. *)
Definition rr_create_replay_log : M unit :=
  s <- get ;;
  modify (set_rr_nondet_log
            (Some (mk_log REPLAY (Some (mk_FILE [] (rr_disk s)))
                          zero_prog_point 0
                          (Z.of_nat (length (rr_disk s))) 0 zero_entry))) ;;
  (* mz read the last program point from the log header. *)
  hdr <- rr_fread sizeof_prog_point 1 ;;
  modify_log (set_last_prog_point (prog_point_of_bytes hdr)).

(** close file and free associated memory *)
Definition rr_destroy_log : M unit :=
  l <- the_log ;;
  match fp l with
  | Some f =>
      (* mz if in record, update the header with the last written prog
         point. *)
      let f' := match log_type l with
                | RECORD =>
                    f_put (prog_point_bytes (last_prog_point l)) (rewind f)
                | REPLAY => f
                end in
      (* fclose *)
      match log_type l with
      | RECORD => modify (set_rr_disk (f_contents f'))
      | REPLAY => ret tt
      end
  | None => ret tt
  end ;;
  modify (set_rr_nondet_log None).

Definition rr_reset_state : M unit :=
  (* set flag to signal that we'll be needing the tb flushed; clear flags *)
  modify (set_flags 1 0 0) ;;
  modify (fun s => set_cpu (mk_cpu 0 (cpu_pc (cpu s)) (cpu_secondary (cpu s)))
                           s).

(** rr_do_begin_record, after the VM snapshot has been taken. *)
Definition rr_do_begin_record : M unit :=
  rr_create_record_log ;;
  (* reset record/replay counters and flags *)
  rr_reset_state ;;
  (* set global to turn on recording *)
  modify (set_rr_mode RR_RECORD).

Definition rr_do_end_record : M unit :=
  (* mz put in end-of-log marker *)
  rr_record_end_of_log ;;
  rr_destroy_log ;;
  (* turn off logging *)
  modify (set_rr_mode RR_OFF).

(** rr_do_begin_replay, after the VM snapshot has been loaded. *)
Definition rr_do_begin_replay : M unit :=
  rr_create_replay_log ;;
  rr_reset_state ;;
  (* set global to turn on replay *)
  modify (set_rr_mode RR_REPLAY) ;;
  (* mz fill the queue! *)
  rr_fill_queue.

Definition rr_do_end_replay (is_error : bool) : M unit :=
  modify (set_rr_max_num_queue_entries 0) ;;
  (* cleanup the recycled list for log entries *)
  modify (set_recycle_list []) ;;
  (* cleanup the queue *)
  modify (set_rr_queue []) ;;
  (* close logs *)
  rr_destroy_log ;;
  (* turn off replay *)
  modify (set_rr_mode RR_OFF) ;;
  if is_error then fail aborted else ret tt.

(* ------------------------------------------------------------------------- *)
(** ** Drivers *)

(** The emulator retires instructions between two calls into rr_log.c. *)
Definition cpu_at (pp : RR_prog_point) : M unit :=
  modify (set_cpu (mk_cpu (guest_instr_count pp) (pc pp) (secondary pp))).

(** A call of one of the capture functions, with its arguments. *)
Inductive record_call :=
| call_debug (call_site : RR_callsite_id)
| call_input_1 (call_site : RR_callsite_id) (data : Z)
| call_input_2 (call_site : RR_callsite_id) (data : Z)
| call_input_4 (call_site : RR_callsite_id) (data : Z)
| call_input_8 (call_site : RR_callsite_id) (data : Z)
| call_interrupt_request (call_site : RR_callsite_id) (v : Z)
| call_exit_request (call_site : RR_callsite_id) (v : Z)
| call_cpu_mem_rw (call_site : RR_callsite_id) (addr : Z) (buf : buffer)
                  (len : Z) (is_write : Z)
| call_cpu_mem_unmap (call_site : RR_callsite_id) (addr : Z) (buf : buffer)
                     (len : Z) (is_write : Z)
| call_memory_region_change (call_site : RR_callsite_id)
    (start_addr size : Z) (name : buffer) (mtype : Z) (added : bool)
| call_hd_transfer (call_site : RR_callsite_id)
    (transfer_type src_addr dest_addr num_bytes : Z)
| call_net_transfer (call_site : RR_callsite_id)
    (transfer_type src_addr dest_addr num_bytes : Z)
| call_handle_packet (call_site : RR_callsite_id) (buf_ptr : Z)
    (buf : buffer) (size : Z) (direction : Z).

Definition do_record_call (c : record_call) : M unit :=
  match c with
  | call_debug cs => rr_record_debug cs
  | call_input_1 cs d => rr_record_input_1 cs d
  | call_input_2 cs d => rr_record_input_2 cs d
  | call_input_4 cs d => rr_record_input_4 cs d
  | call_input_8 cs d => rr_record_input_8 cs d
  | call_interrupt_request cs v => rr_record_interrupt_request cs v
  | call_exit_request cs v => rr_record_exit_request cs v
  | call_cpu_mem_rw cs a b l w => rr_record_cpu_mem_rw_call cs a b l w
  | call_cpu_mem_unmap cs a b l w => rr_record_cpu_mem_unmap cs a b l w
  | call_memory_region_change cs st sz n t ad =>
      rr_record_memory_region_change cs st sz n t ad
  | call_hd_transfer cs t s d n => rr_record_hd_transfer cs t s d n
  | call_net_transfer cs t s d n => rr_record_net_transfer cs t s d n
  | call_handle_packet cs p b sz d => rr_record_handle_packet_call cs p b sz d
  end.

(** Runs the calls in order, each at its program point, and lists the items
    that went through rr_write_item: a call wrote one when it advanced
    item_number, and the item is then in rr_nondet_log->current_item. *)
Fixpoint run_record (calls : list (RR_prog_point * record_call))
  : M (list RR_log_entry) :=
  match calls with
  | [] => ret []
  | (pp, c) :: calls' =>
      cpu_at pp ;;
      before <- the_log ;;
      do_record_call c ;;
      after <- the_log ;;
      items <- run_record calls' ;;
      ret (if item_number after =? item_number before then items
           else current_item after :: items)
  end.

(** A call of one of the replay functions. *)
Inductive replay_call :=
| replay_debug (call_site : RR_callsite_id)
| replay_input_1 (call_site : RR_callsite_id)
| replay_input_2 (call_site : RR_callsite_id)
| replay_input_4 (call_site : RR_callsite_id)
| replay_input_8 (call_site : RR_callsite_id)
| replay_interrupt_request (call_site : RR_callsite_id)
| replay_exit_request (call_site : RR_callsite_id)
| replay_skipped_calls (call_site : RR_callsite_id)
| replay_finished.

Definition do_replay_call (c : replay_call) : M unit :=
  match c with
  | replay_debug cs => rr_replay_debug cs
  | replay_input_1 cs => rr_replay_input_1 cs ;; ret tt
  | replay_input_2 cs => rr_replay_input_2 cs ;; ret tt
  | replay_input_4 cs => rr_replay_input_4 cs ;; ret tt
  | replay_input_8 cs => rr_replay_input_8 cs ;; ret tt
  | replay_interrupt_request cs => rr_replay_interrupt_request cs ;; ret tt
  | replay_exit_request cs => rr_replay_exit_request cs ;; ret tt
  | replay_skipped_calls cs => rr_replay_skipped_calls_internal cs
  | replay_finished => rr_replay_finished ;; ret tt
  end.

(** Runs the replay calls in order, each at its program point. *)
Fixpoint run_replay (calls : list (RR_prog_point * replay_call)) : M unit :=
  match calls with
  | [] => ret tt
  | (pp, c) :: calls' => cpu_at pp ;; do_replay_call c ;; run_replay calls'
  end.

(** A record session: begin, the calls, and end at the program point
    [pp_end]; yields the items that were written before the end. *)
Definition record_session (calls : list (RR_prog_point * record_call))
  (pp_end : RR_prog_point) : M (list RR_log_entry) :=
  rr_do_begin_record ;;
  items <- run_record calls ;;
  cpu_at pp_end ;;
  rr_do_end_record ;;
  ret items.

(** Runs rr_read_item until the log is empty. *)
Fixpoint rr_read_items (fuel : nat) : M (list RR_log_entry) :=
  match fuel with
  | O => fail out_of_fuel
  | S fuel' =>
      e <- rr_log_is_empty ;;
      if e then ret []
      else
        entry <- rr_read_item ;;
        entries <- rr_read_items fuel' ;;
        ret (entry :: entries)
  end.

(** Opens the log for replay and decodes all of it. *)
Definition rr_read_log : M (list RR_log_entry) :=
  rr_create_replay_log ;;
  modify (set_rr_mode RR_REPLAY) ;;
  s <- get ;;
  rr_read_items (S (unread_bytes s)).

(** What a log entry carries: program point, kind, call site and payload.
    The position in the file and the addresses of buffers are those of the
    process that holds the entry; a buffer counts for the bytes of its tail
    (the first len, or size, bytes). *)
Definition tail_bytes (b : buffer) (n : Z) : buffer :=
  match b with
  | Some m => Some (firstn (Z.to_nat n) m)
  | None => Some []
  end.

Definition call_payload (v : RR_call_variant) : RR_call_variant :=
  match v with
  | cpu_mem_rw_args a =>
      cpu_mem_rw_args
        (mk_cpu_mem_rw_args (rw_addr a)
           (tail_bytes (rw_buf a) (to_size_t (rw_len a))) (rw_len a))
  | cpu_mem_unmap a =>
      cpu_mem_unmap
        (mk_cpu_mem_unmap (um_addr a)
           (tail_bytes (um_buf a) (to_size_t (um_len a))) (um_len a))
  | mem_region_change_args a =>
      mem_region_change_args
        (mk_mem_region_change_args (mrc_start_addr a) (mrc_size a)
           (tail_bytes (mrc_name a) (to_size_t (mrc_len a))) (mrc_len a)
           (mrc_mtype a) (mrc_added a))
  | handle_packet_args a =>
      handle_packet_args
        (mk_handle_packet_args (hp_buf_ptr a)
           (tail_bytes (hp_buf a) (to_size_t (hp_size a))) (hp_size a)
           (hp_direction a))
  | _ => v
  end.

Definition payload (e : RR_log_entry) : RR_log_entry :=
  mk_entry (mk_header (prog_point (header e)) 0 (callsite_loc (header e)))
    (match variant e with
     | call_args args => call_args (mk_call_args
                                      (call_payload (call_variant args)) 0)
     | v => v
     end).

(* ------------------------------------------------------------------------- *)
(** ** Notions used to state the properties *)

(** Ranges of the C types. *)
Definition is_u8 (v : Z) : Prop := 0 <= v < 2 ^ 8.
Definition is_u16 (v : Z) : Prop := 0 <= v < 2 ^ 16.
Definition is_u32 (v : Z) : Prop := 0 <= v < 2 ^ 32.
Definition is_u64 (v : Z) : Prop := 0 <= v < 2 ^ 64.
Definition is_int (v : Z) : Prop := - 2 ^ 31 <= v < 2 ^ 31.

Definition typed_prog_point (p : RR_prog_point) : Prop :=
  is_u64 (guest_instr_count p) /\ is_u64 (pc p) /\ is_u64 (secondary p).

(** The arguments of a capture function lie in the ranges of their C
    types. *)
Definition typed_call (c : record_call) : Prop :=
  match c with
  | call_debug cs => is_u32 cs
  | call_input_1 cs d => is_u32 cs /\ is_u8 d
  | call_input_2 cs d => is_u32 cs /\ is_u16 d
  | call_input_4 cs d => is_u32 cs /\ is_u32 d
  | call_input_8 cs d => is_u32 cs /\ is_u64 d
  | call_interrupt_request cs v => is_u32 cs /\ is_u32 v
  | call_exit_request cs v => is_u32 cs /\ is_u32 v
  | call_cpu_mem_rw cs a _ l _ => is_u32 cs /\ is_u64 a /\ is_int l
  | call_cpu_mem_unmap cs a _ l _ => is_u32 cs /\ is_u64 a /\ is_u64 l
  | call_memory_region_change cs st sz name t _ =>
      is_u32 cs /\ is_u64 st /\ is_u64 sz /\ is_u32 t
      /\ match name with
         | Some m => match strlen_bytes m with
                     | Some n => n + 1 < 2 ^ 32
                     | None => True
                     end
         | None => True
         end
  | call_hd_transfer cs t s d n =>
      is_u32 cs /\ is_u32 t /\ is_u64 s /\ is_u64 d /\ is_u32 n
  | call_net_transfer cs t s d n =>
      is_u32 cs /\ is_u32 t /\ is_u64 s /\ is_u64 d /\ is_u32 n
  | call_handle_packet cs p _ sz d =>
      is_u32 cs /\ is_u64 p /\ is_int sz /\ is_u8 d
  end.

(** The members of an entry lie in the ranges of their C types. *)
Definition typed_call_variant (v : RR_call_variant) : Prop :=
  match v with
  | cpu_mem_rw_args a => is_u64 (rw_addr a) /\ is_int (rw_len a)
  | cpu_mem_unmap a => is_u64 (um_addr a) /\ is_u64 (um_len a)
  | mem_region_change_args a =>
      is_u64 (mrc_start_addr a) /\ is_u64 (mrc_size a) /\ is_u32 (mrc_len a)
      /\ is_u32 (mrc_mtype a) /\ is_u8 (mrc_added a)
  | hd_transfer_args a | net_transfer_args a =>
      is_u32 (tr_type a) /\ is_u64 (tr_src_addr a)
      /\ is_u64 (tr_dest_addr a) /\ is_u32 (tr_num_bytes a)
  | handle_packet_args a =>
      is_u64 (hp_buf_ptr a) /\ is_int (hp_size a) /\ is_u8 (hp_direction a)
  end.

Definition typed_variant (v : RR_variant) : Prop :=
  match v with
  | input_1 d => is_u8 d
  | input_2 d => is_u16 d
  | input_4 d => is_u32 d
  | input_8 d => is_u64 d
  | interrupt_request d => is_u32 d
  | exit_request d => is_u32 d
  | call_args args => typed_call_variant (call_variant args)
  | no_variant_debug | no_variant_last => True
  end.

Definition typed_entry (e : RR_log_entry) : Prop :=
  typed_prog_point (prog_point (header e))
  /\ is_u32 (callsite_loc (header e))
  /\ typed_variant (variant e).

(** The bytes one rr_fwrite(ptr, size, nmemb) appends; [None] when it
    aborts. *)
Definition fwrite_bytes (ptr : buffer) (size nmemb : Z)
  : option (list byte) :=
  if (size =? 0) || (nmemb =? 0)
  then if 0 =? nmemb then Some [] else None
  else match ptr with
       | None => None
       | Some m =>
           if Z.of_nat (length m) <? size * nmemb then None
           else Some (firstn (Z.to_nat (size * nmemb)) m)
       end.

(** The bytes rr_write_item appends for an item: the fixed part of the
    variant and its tail. *)
Definition call_variant_fixed (v : RR_call_variant) : list byte :=
  match v with
  | cpu_mem_rw_args a => cpu_mem_rw_args_bytes a
  | cpu_mem_unmap a => cpu_mem_unmap_bytes a
  | mem_region_change_args a => mem_region_change_args_bytes a
  | hd_transfer_args a | net_transfer_args a => transfer_args_bytes a
  | handle_packet_args a => handle_packet_args_bytes a
  end.

Definition call_variant_tail (v : RR_call_variant) : option (list byte) :=
  match v with
  | cpu_mem_rw_args a => fwrite_bytes (rw_buf a) 1 (to_size_t (rw_len a))
  | cpu_mem_unmap a => fwrite_bytes (um_buf a) 1 (to_size_t (um_len a))
  | mem_region_change_args a =>
      fwrite_bytes (mrc_name a) 1 (to_size_t (mrc_len a))
  | hd_transfer_args _ | net_transfer_args _ => Some []
  | handle_packet_args a =>
      fwrite_bytes (hp_buf a) (to_size_t (hp_size a)) 1
  end.

Definition variant_wire (v : RR_variant) : option (list byte) :=
  match v with
  | input_1 d => Some (u8_bytes d)
  | input_2 d => Some (u16_bytes d)
  | input_4 d => Some (u32_bytes d)
  | input_8 d => Some (u64_bytes d)
  | interrupt_request d => Some (u32_bytes d)
  | exit_request d => Some (u32_bytes d)
  | call_args args =>
      match call_variant_tail (call_variant args) with
      | Some t =>
          Some (u32_bytes (call_kind_code (call_kind args))
                ++ call_variant_fixed (call_variant args) ++ t)
      | None => None
      end
  | no_variant_debug | no_variant_last => Some []
  end.

Definition header_wire (e : RR_log_entry) : list byte :=
  prog_point_bytes (prog_point (header e))
  ++ u32_bytes (kind_code (kind e))
  ++ u32_bytes (callsite_loc (header e)).

Definition item_wire (e : RR_log_entry) : option (list byte) :=
  match variant_wire (variant e) with
  | Some v => Some (header_wire e ++ v)
  | None => None
  end.

(** The log after rr_write_item has appended [bs] for its current item. *)
Definition log_written (bs : list byte) (before : list byte) (l : RR_log)
  : RR_log :=
  mk_log (log_type l) (Some (mk_FILE (before ++ bs) []))
         (prog_point (header (current_item l))) (bytes_read l) (log_size l)
         ((item_number l + 1) mod 2 ^ 64) (current_item l).

(** A record session is under way: the log is open for writing and the
    position is the end of the file, which holds [before]. *)
Definition recording (s : rr_state) (l : RR_log) (before : list byte)
  : Prop :=
  rr_mode s = RR_RECORD /\ rr_nondet_log s = Some l
  /\ fp l = Some (mk_FILE before []) /\ log_type l = RECORD.

(** The program point rr_prog_point() returns in the state [s]. *)
Definition prog_point_of (s : rr_state) : RR_prog_point :=
  mk_prog_point (rr_guest_instr_count (cpu s)) (cpu_pc (cpu s))
                (cpu_secondary (cpu s)).

Definition call_site_of (c : record_call) : RR_callsite_id :=
  match c with
  | call_debug cs | call_input_1 cs _ | call_input_2 cs _
  | call_input_4 cs _ | call_input_8 cs _ | call_interrupt_request cs _
  | call_exit_request cs _ | call_cpu_mem_rw cs _ _ _ _
  | call_cpu_mem_unmap cs _ _ _ _
  | call_memory_region_change cs _ _ _ _ _
  | call_hd_transfer cs _ _ _ _ | call_net_transfer cs _ _ _ _
  | call_handle_packet cs _ _ _ _ => cs
  end.

(** The variant a capture function stores for its arguments ([None] when
    the name of a region has no terminating zero). *)
Definition variant_of_call (c : record_call) : option RR_variant :=
  match c with
  | call_debug _ => Some no_variant_debug
  | call_input_1 _ d => Some (input_1 d)
  | call_input_2 _ d => Some (input_2 d)
  | call_input_4 _ d => Some (input_4 d)
  | call_input_8 _ d => Some (input_8 d)
  | call_interrupt_request _ v => Some (interrupt_request v)
  | call_exit_request _ v => Some (exit_request v)
  | call_cpu_mem_rw _ a b l _ =>
      Some (call_args (mk_call_args
                         (cpu_mem_rw_args (mk_cpu_mem_rw_args a b l)) 0))
  | call_cpu_mem_unmap _ a b l _ =>
      Some (call_args (mk_call_args
                         (cpu_mem_unmap (mk_cpu_mem_unmap a b l)) 0))
  | call_memory_region_change _ st sz name t ad =>
      match name with
      | Some m =>
          match strlen_bytes m with
          | Some n =>
              Some (call_args (mk_call_args
                (mem_region_change_args
                   (mk_mem_region_change_args st sz name (to_uint32 n) t
                      (if ad then 1 else 0))) 0))
          | None => None
          end
      | None => None
      end
  | call_hd_transfer _ t s d n =>
      Some (call_args (mk_call_args
                         (hd_transfer_args (mk_transfer_args t s d n)) 0))
  | call_net_transfer _ t s d n =>
      Some (call_args (mk_call_args
                         (net_transfer_args (mk_transfer_args t s d n)) 0))
  | call_handle_packet _ p b sz d =>
      Some (call_args (mk_call_args
             (handle_packet_args (mk_handle_packet_args p b sz d)) 0))
  end.

(** Whether the capture function gets as far as rr_write_item, given the
    cached interrupt word. *)
Definition call_writes (cache : Z) (c : record_call) : bool :=
  match c with
  | call_interrupt_request _ v => negb (to_uint32 cache =? v)
  | call_exit_request _ v => negb (v =? 0)
  | _ => true
  end.

Definition call_cache (c : record_call) (s : rr_state) : rr_state :=
  match c with
  | call_interrupt_request _ v =>
      set_panda_current_interrupt_request (to_int32 v) s
  | _ => s
  end.

(** A replay session is under way: the log is open for reading, [before]
    has been read and [after] is still to be read. *)
Definition replaying (s : rr_state) (l : RR_log) (before after : list byte)
  : Prop :=
  rr_mode s = RR_REPLAY /\ rr_nondet_log s = Some l
  /\ log_type l = REPLAY
  /\ fp l = Some (mk_FILE before after)
  /\ bytes_read l = Z.of_nat (length before)
  /\ log_size l = Z.of_nat (length before + length after)
  /\ log_size l < 2 ^ 64.

(** The tail of a skipped call as rr_write_item writes it. *)
Definition tail_of (v : RR_call_variant) : list byte :=
  match call_variant_tail v with
  | Some t => t
  | None => []
  end.

(** The entry rr_read_item builds at offset [pos] from the bytes of [e]. *)
Definition decoded_call_args (args : RR_skipped_call_args)
  : RR_skipped_call_args :=
  match call_variant args with
  | cpu_mem_rw_args a =>
      mk_call_args
        (cpu_mem_rw_args
           (mk_cpu_mem_rw_args (rw_addr a)
              (g_malloc_filled (to_size_t (rw_len a))
                               (tail_of (call_variant args)))
              (rw_len a))) 0
  | cpu_mem_unmap a =>
      mk_call_args
        (cpu_mem_unmap
           (mk_cpu_mem_unmap (um_addr a)
              (g_malloc_filled (to_size_t (um_len a))
                               (tail_of (call_variant args)))
              (um_len a))) 0
  | mem_region_change_args a =>
      mk_call_args
        (mem_region_change_args
           (mk_mem_region_change_args (mrc_start_addr a) (mrc_size a)
              (g_malloc_filled (to_uint32 (mrc_len a + 1))
                               (tail_of (call_variant args) ++ [Byte.x00]))
              (mrc_len a) (mrc_mtype a) (mrc_added a))) 0
  | hd_transfer_args a => mk_call_args (hd_transfer_args a) 0
  | net_transfer_args a => mk_call_args (net_transfer_args a) 0
  | handle_packet_args a =>
      mk_call_args
        (handle_packet_args
           (mk_handle_packet_args (hp_buf_ptr a)
              (g_malloc_filled (to_size_t (hp_size a))
                               (tail_of (call_variant args)))
              (hp_size a) (hp_direction a)))
        (hp_buf_ptr a)
  end.

Definition decoded (pos : Z) (e : RR_log_entry) : RR_log_entry :=
  mk_entry (mk_header (prog_point (header e)) pos (callsite_loc (header e)))
    (match variant e with
     | call_args args => call_args (decoded_call_args args)
     | v => v
     end).

(** The name of a region change is shorter than 2^32 - 1 bytes, so that
    len + 1 does not wrap in the decoder's g_malloc0(len + 1). *)
Definition short_name (v : RR_variant) : Prop :=
  match v with
  | call_args args =>
      match call_variant args with
      | mem_region_change_args a => mrc_len a + 1 < 2 ^ 32
      | _ => True
      end
  | _ => True
  end.

(** The log after rr_read_item has read the [bs] of one entry. *)
Definition log_read (bs before rest : list byte) (l : RR_log) : RR_log :=
  mk_log REPLAY (Some (mk_FILE (before ++ bs) rest)) (last_prog_point l)
         (bytes_read l + Z.of_nat (length bs)) (log_size l)
         ((item_number l + 1) mod 2 ^ 64) (current_item l).

Definition typed_calls (calls : list (RR_prog_point * record_call)) : Prop :=
  Forall (fun pc => typed_prog_point (fst pc) /\ typed_call (snd pc)) calls.

(** The items a sequence of capture calls has to produce, after the
    compaction rules: a call at program point pp with call site cs yields
    the item (pp, kind, cs, arguments), except that an interrupt request
    equal to the cached word and an exit request of 0 yield none.  [cache]
    is the cached interrupt word before the calls. *)
Fixpoint recorded_items (cache : Z)
  (calls : list (RR_prog_point * record_call)) : list RR_log_entry :=
  match calls with
  | [] => []
  | (pp, c) :: calls' =>
      if call_writes cache c
      then match variant_of_call c with
           | Some v =>
               mk_entry (mk_header pp 0 (call_site_of c)) v
               :: recorded_items
                    (match c with
                     | call_interrupt_request _ v => to_int32 v
                     | _ => cache
                     end) calls'
           | None => []
           end
      else recorded_items cache calls'
  end.

(** The cached interrupt word after the calls. *)
Fixpoint cache_after (cache : Z)
  (calls : list (RR_prog_point * record_call)) : Z :=
  match calls with
  | [] => cache
  | (_, c) :: calls' =>
      cache_after (if call_writes cache c
                   then match c with
                        | call_interrupt_request _ v => to_int32 v
                        | _ => cache
                        end
                   else cache) calls'
  end.

(** The bytes of a list of items in the file. *)
Definition wire_or_nil (e : RR_log_entry) : list byte :=
  match item_wire e with
  | Some bs => bs
  | None => []
  end.

Definition log_bytes (items : list RR_log_entry) : list byte :=
  flat_map wire_or_nil items.

Definition writable (e : RR_log_entry) : Prop := item_wire e <> None.

(** The end-of-log marker written at the program point [pp]. *)
Definition last_entry (pp : RR_prog_point) : RR_log_entry :=
  mk_entry (mk_header pp 0 RR_CALLSITE_LAST) no_variant_last.

(** The bytes of the log file while it is open. *)
Definition open_file_bytes (s : rr_state) : list byte :=
  match rr_nondet_log s with
  | Some l => match fp l with
              | Some f => f_contents f
              | None => []
              end
  | None => []
  end.

(** The values of the INTERRUPT_REQUEST entries of a log, in order. *)
Definition interrupt_values (es : list RR_log_entry) : list Z :=
  flat_map (fun e => match variant e with
                     | interrupt_request v => [v]
                     | _ => []
                     end) es.


(** Each value differs from the one before it, the first from [prev]. *)
Fixpoint compacted (prev : Z) (vs : list Z) : Prop :=
  match vs with
  | [] => True
  | v :: vs' => v <> prev /\ compacted v vs'
  end.

(** No two neighbours of the list are equal. *)
Definition no_repeat (vs : list Z) : Prop :=
  forall i a b,
    nth_error vs i = Some a -> nth_error vs (S i) = Some b -> a <> b.

(** The item rr_record_interrupt_request and rr_record_exit_request store. *)
Definition interrupt_item (pp : RR_prog_point) (cs : RR_callsite_id) (v : Z)
  : RR_log_entry :=
  mk_entry (mk_header pp 0 cs) (interrupt_request v).


(** ** Partial correctness with a set of aborts that must not happen *)

(** From a state in [P], [m] either returns a result and a state in [Q] or
    aborts with an error outside [bad]. *)
Definition hoare (bad : rr_error -> Prop) {A} (P : rr_state -> Prop)
  (m : M A) (Q : A -> rr_state -> Prop) : Prop :=
  forall s, P s ->
    match m s with
    | Ok (a, s') => Q a s'
    | Abort e => ~ bad e
    end.

(** The aborts the decoder and the queue functions can raise by themselves:
    everything but the assertion of rr_fill_queue on the queue and the
    exhaustion of a loop bound of the model. *)
Definition never (bad : rr_error -> Prop) : Prop :=
  forall e, bad e ->
    e = assert_fail assert_queue_empty \/ e = out_of_fuel.

(** The two aborts a replay must not end in for the queue discipline to
    be sound: the assertion of rr_fill_queue on the queue, and a loop of
    the model running past its bound. *)
Definition fill_abort (e : rr_error) : Prop :=
  e = assert_fail assert_queue_empty \/ e = out_of_fuel.

(** The entries at which rr_fill_queue stops of itself. *)
Definition is_cutoff (e : RR_log_entry) : bool :=
  (RR_log_entry_kind_eqb (kind e) RR_SKIPPED_CALL
   && (callsite_loc (header e) =? RR_CALLSITE_MAIN_LOOP_WAIT))
  || RR_log_entry_kind_eqb (kind e) RR_INTERRUPT_REQUEST.

(** Only the last entry of the queue may be a cutoff entry. *)
Definition queue_ok (q : list RR_log_entry) : Prop :=
  Forall (fun e => is_cutoff e = false) (removelast q).

(** The kinds for which get_next_entry drops the DEBUG entries in front of
    the queue before it looks at the head. *)
Definition skips_debug (k : RR_log_entry_kind) : bool :=
  negb (RR_log_entry_kind_eqb k RR_INTERRUPT_REQUEST)
  && negb (RR_log_entry_kind_eqb k RR_SKIPPED_CALL).

(** The queue get_next_entry takes its head from. *)
Definition visible_queue (k : RR_log_entry_kind) (q : list RR_log_entry)
  : list RR_log_entry :=
  if skips_debug k then skip_debug_entries q else q.

(** [s1] is the state in which get_next_entry, called in [s], starts to
    look at the queue: [s] itself, or what rr_fill_queue made of it when the
    queue of [s] was empty. *)
Definition refilled (s s1 : rr_state) : Prop :=
  match rr_queue s with
  | [] => rr_fill_queue s = Ok (tt, s1)
  | _ :: _ => s1 = s
  end.

(** The test of get_next_entry on the program points: the head is at the
    start of the log, or the comparison with the current point gives 0. *)
Definition point_due (s : rr_state) (k : RR_log_entry_kind)
  (head : RR_log_entry) : Prop :=
  guest_instr_count (prog_point (header head)) = 0 \/
  rr_prog_point_compare (prog_point_of s) (prog_point (header head)) k
  = Some 0.

(** The kind and, under check_callsite, the call site of the head are
    those asked for. *)
Definition shape_due (k : RR_log_entry_kind) (cs : RR_callsite_id)
  (chk : bool) (head : RR_log_entry) : Prop :=
  kind head = k /\ (chk = true -> callsite_loc (header head) = cs).

(** The comparison is reached and does not return. *)
Definition compare_stops (s : rr_state) (k : RR_log_entry_kind)
  (head : RR_log_entry) : Prop :=
  guest_instr_count (prog_point (header head)) <> 0 /\
  rr_prog_point_compare (prog_point_of s) (prog_point (header head)) k
  = None.

(** What the replay functions keep of the queue: only its last entry may
    be a cutoff entry; and the entries of the queue and the bytes still
    unread in the log are at most [n] together, which bounds the passes of
    the loop of rr_replay_skipped_calls_internal. *)
Definition queue_inv (n : nat) (s : rr_state) : Prop :=
  queue_ok (rr_queue s) /\
  (length (rr_queue s) + unread_bytes s <= n)%nat.

(** What get_next_entry returns has the kind, and under check_callsite the
    call site, that was asked for, and has left the queue; a cutoff entry
    leaves the queue empty behind it. *)
Definition got (k : RR_log_entry_kind) (cs : RR_callsite_id) (chk : bool)
  (n : nat) (r : option RR_log_entry) (s' : rr_state) : Prop :=
  match r with
  | None => queue_inv n s'
  | Some item =>
      kind item = k /\
      (chk = true -> callsite_loc (header item) = cs) /\
      (0 < n)%nat /\ queue_inv (pred n) s' /\
      (is_cutoff item = true -> rr_queue s' = [])
  end.

(** The states at the head of the while loop of rr_fill_queue: from the
    counter [n] and the state [s], some passes that all go round again lead
    to the counter [n'] and the state [s']. *)
Inductive fill_reaches : Z -> rr_state -> Z -> rr_state -> Prop :=
| fill_reaches_here n s : fill_reaches n s n s
| fill_reaches_pass n s n1 s1 n' s' :
    rr_fill_queue_body n s = Ok ((true, n1), s1) ->
    fill_reaches n1 s1 n' s' ->
    fill_reaches n s n' s'.

(** What the decoder leaves alone: the queue stays [q], and of the [u]
    bytes that were unread at least [k] have been read. *)
Definition frame (q : list RR_log_entry) (u k : nat) (s : rr_state) : Prop :=
  rr_queue s = q /\ (unread_bytes s + k <= u)%nat.

(* ------------------------------------------------------------------------- *)
(** ** Sample runs *)

(** The state a computation leaves, or the state it started from when it
    aborts. *)
Definition state_after {A} (m : M A) (s : rr_state) : rr_state :=
  match m s with
  | Ok (_, s') => s'
  | Abort _ => s
  end.

Definition sample_pp (n : Z) : RR_prog_point :=
  mk_prog_point n (4096 + 4 * n) 0.

(** A short session: an input, an interrupt word seen twice, an exit
    request of 0 and one of 1, a write to guest memory, a debug marker. *)
Definition sample_calls : list (RR_prog_point * record_call) :=
  [ (sample_pp 10, call_input_4 3 305419896);
    (sample_pp 20, call_interrupt_request 4 2);
    (sample_pp 21, call_interrupt_request 4 2);
    (sample_pp 30, call_exit_request 6 0);
    (sample_pp 31, call_exit_request 6 1);
    (sample_pp 40,
     call_cpu_mem_rw 7 8192 (Some [Byte.x01; Byte.x02; Byte.x03]) 3 1);
    (sample_pp 50, call_debug 8) ].


Definition sample_debug_entry (n : Z) : RR_log_entry :=
  mk_entry (mk_header (sample_pp n) 0 8) no_variant_debug.

Definition sample_input_entry (n : Z) : RR_log_entry :=
  mk_entry (mk_header (sample_pp n) 0 3) (input_1 77).

(** The process at the program point [sample_pp n] with the queue [q]. *)
Definition sample_queue_state (n : Z) (q : list RR_log_entry) : rr_state :=
  set_cpu (mk_cpu n (4096 + 4 * n) 0) (set_rr_queue q initial_state).

(** Modelled from the spec: the comparison of program points of rr_log.h,
    for the sample runs.  The current point is behind the recorded one when
    its guest instruction count is smaller (-1); at equal counts the points
    are equal (0) for RR_INTERRUPT_REQUEST and RR_SKIPPED_CALL, and for the
    other kinds when pc and secondary match as well.  That it fails when
    the current point is ahead of the log is what the comment in
    get_next_entry says of it. *)
Definition spec_prog_point_compare (current recorded : RR_prog_point)
  (k : RR_log_entry_kind) : option Z :=
  if guest_instr_count current <? guest_instr_count recorded then Some (-1)
  else if guest_instr_count recorded <? guest_instr_count current then None
  else match k with
       | RR_INTERRUPT_REQUEST | RR_SKIPPED_CALL => Some 0
       | _ => if (pc current =? pc recorded)
                 && (secondary current =? secondary recorded)
              then Some 0 else Some 1
       end.

(** The process after the record session of [calls] that ends at
    [pp_end]. *)
Definition recorded_state (calls : list (RR_prog_point * record_call))
  (pp_end : RR_prog_point) : rr_state :=
  state_after (record_session calls pp_end) initial_state.

(** The same process inside rr_do_begin_replay, before rr_fill_queue. *)
Definition replay_ready_state (calls : list (RR_prog_point * record_call))
  (pp_end : RR_prog_point) : rr_state :=
  state_after (rr_create_replay_log ;; rr_reset_state ;;
               modify (set_rr_mode RR_REPLAY))
              (recorded_state calls pp_end).

(** A process that replays, up to the program point [sample_pp n], a log
    file whose header holds the program point [hdr] and whose only entry is
    an RR_LAST entry at the program point [pp]. *)
Definition crafted_replay_state (hdr pp : RR_prog_point) (n : Z)
  : rr_state :=
  state_after (rr_do_begin_replay ;; cpu_at (sample_pp n))
              (set_rr_disk (prog_point_bytes hdr
                            ++ wire_or_nil (last_entry pp))
                           initial_state).

(** Numbers for the two members of RR_callsite_id that rr_log.c names, for
    the sample runs (rr_log.h, which numbers them, is not among the
    sources). *)
Definition sample_main_loop_wait : RR_callsite_id := 5.
Definition sample_callsite_last : RR_callsite_id := 12.

(** The replay of [sample_calls]. *)
Definition sample_replay_calls : list (RR_prog_point * replay_call) :=
  [ (sample_pp 10, replay_input_4 3);
    (sample_pp 20, replay_interrupt_request 4);
    (sample_pp 21, replay_interrupt_request 4);
    (sample_pp 30, replay_exit_request 6);
    (sample_pp 31, replay_exit_request 6);
    (sample_pp 40, replay_skipped_calls 7);
    (sample_pp 50, replay_debug 8);
    (sample_pp 60, replay_finished) ].

(** The record session of [calls] from a new process, before its end. *)
Definition recording_state (calls : list (RR_prog_point * record_call))
  : rr_state :=
  state_after (rr_do_begin_record ;; run_record calls) initial_state.

(* ------------------------------------------------------------------------- *)
(** ** Predicates of the further properties *)




(** The log file on disk is [d] and the log that is open is a replay
    log. *)
Definition replay_only (d : list byte) (s : rr_state) : Prop :=
  rr_disk s = d
  /\ exists l, rr_nondet_log s = Some l /\ log_type l = REPLAY.

(** Whether rr_fread(ptr, size, nmemb) gets its nmemb members from a file
    with [avail] bytes left: nothing is asked for, or the members have a
    size and are all there. *)
Definition fread_complete (size nmemb : Z) (avail : nat) : bool :=
  (nmemb =? 0)
  || (negb (size =? 0) && (size * nmemb <=? Z.of_nat avail)).

(** How rr_fwrite(ptr, size, nmemb) ends when it does not return: fwrite
    wrote no member although one was asked for, or the buffer is missing or
    too short. *)
Definition fwrite_error (ptr : buffer) (size nmemb : Z) : rr_error :=
  if (size =? 0) || (nmemb =? 0) then assert_fail fwrite_result_eq_nmemb
  else match ptr with
       | None => null_pointer
       | Some _ => out_of_bounds
       end.

(** The call of rr_fwrite that writes the tail of a skipped call: buffer,
    size and nmemb; the two transfers have no tail. *)
Definition tail_args (v : RR_call_variant) : option (buffer * Z * Z) :=
  match v with
  | cpu_mem_rw_args a => Some (rw_buf a, 1, to_size_t (rw_len a))
  | cpu_mem_unmap a => Some (um_buf a, 1, to_size_t (um_len a))
  | mem_region_change_args a => Some (mrc_name a, 1, to_size_t (mrc_len a))
  | handle_packet_args a => Some (hp_buf a, to_size_t (hp_size a), 1)
  | hd_transfer_args _ | net_transfer_args _ => None
  end.

(** How rr_write_item ends for an item: [None] when it returns. *)
Definition item_error (e : RR_log_entry) : option rr_error :=
  match variant e with
  | call_args args =>
      match tail_args (call_variant args) with
      | Some (ptr, size, nmemb) =>
          match fwrite_bytes ptr size nmemb with
          | Some _ => None
          | None => Some (fwrite_error ptr size nmemb)
          end
      | None => None
      end
  | _ => None
  end.

(* ------------------------------------------------------------------------- *)
(** ** Replay of a recorded session *)

(** The entries one rr_fill_queue takes from a log that holds [items], its
    counter at [n]: up to and including the first cutoff entry, or the one
    that takes the counter over the cap; and the entries it leaves. *)
Fixpoint fill_split (n : Z) (items : list RR_log_entry)
  : list RR_log_entry * list RR_log_entry :=
  match items with
  | [] => ([], [])
  | e :: rest =>
      if is_cutoff e || (n + 1 >? RR_MAX_QUEUE_LEN) then ([e], rest)
      else (e :: fst (fill_split (n + 1) rest),
            snd (fill_split (n + 1) rest))
  end.

(** A replay function with the value it hands back through its pointer
    argument (0 for those that hand back none; for rr_replay_finished its
    result). *)
Definition do_replay_value (c : replay_call) : M Z :=
  match c with
  | replay_debug cs => rr_replay_debug cs ;; ret 0
  | replay_input_1 cs => rr_replay_input_1 cs
  | replay_input_2 cs => rr_replay_input_2 cs
  | replay_input_4 cs => rr_replay_input_4 cs
  | replay_input_8 cs => rr_replay_input_8 cs
  | replay_interrupt_request cs => rr_replay_interrupt_request cs
  | replay_exit_request cs => rr_replay_exit_request cs
  | replay_skipped_calls cs => rr_replay_skipped_calls_internal cs ;; ret 0
  | replay_finished => b <- rr_replay_finished ;; ret (if b : bool then 1 else 0)
  end.

(** Runs the replay calls in order, each at its program point, and lists
    the values. *)
Fixpoint run_replay_values (calls : list (RR_prog_point * replay_call))
  : M (list Z) :=
  match calls with
  | [] => ret []
  | (pp, c) :: calls' =>
      cpu_at pp ;;
      v <- do_replay_value c ;;
      vs <- run_replay_values calls' ;;
      ret (v :: vs)
  end.

(** The capture calls a replay can follow: those of a value the guest
    reads (inputs, the interrupt word, the exit request) and the skipped
    calls for which rr_replay_skipped_calls_internal has a case, a region
    change with a name that is a string. *)
Definition replayable_call (c : record_call) : bool :=
  match c with
  | call_input_1 _ _ | call_input_2 _ _ | call_input_4 _ _
  | call_input_8 _ _ | call_interrupt_request _ _
  | call_exit_request _ _ | call_cpu_mem_rw _ _ _ _ _
  | call_cpu_mem_unmap _ _ _ _ _ => true
  | call_memory_region_change _ _ _ (Some m) _ _ =>
      match strlen_bytes m with
      | Some _ => true
      | None => false
      end
  | _ => false
  end.

(** The value a capture call observed. *)
Definition value_of (c : record_call) : Z :=
  match c with
  | call_input_1 _ d | call_input_2 _ d | call_input_4 _ d
  | call_input_8 _ d => d
  | call_interrupt_request _ v | call_exit_request _ v => v
  | _ => 0
  end.

(** The replay function the emulator calls where the capture function was
    called during the record. *)
Definition replay_of (c : record_call) : replay_call :=
  match c with
  | call_debug cs => replay_debug cs
  | call_input_1 cs _ => replay_input_1 cs
  | call_input_2 cs _ => replay_input_2 cs
  | call_input_4 cs _ => replay_input_4 cs
  | call_input_8 cs _ => replay_input_8 cs
  | call_interrupt_request cs _ => replay_interrupt_request cs
  | call_exit_request cs _ => replay_exit_request cs
  | call_cpu_mem_rw cs _ _ _ _ | call_cpu_mem_unmap cs _ _ _ _
  | call_memory_region_change cs _ _ _ _ _ | call_hd_transfer cs _ _ _ _
  | call_net_transfer cs _ _ _ _ | call_handle_packet cs _ _ _ _ =>
      replay_skipped_calls cs
  end.

(** What the switch of rr_replay_skipped_calls_internal does to the host
    for the arguments [args]; nothing for the kinds it has no case for. *)
Definition skipped_call_effects (args : RR_skipped_call_args)
  : list host_effect :=
  match call_variant args with
  | cpu_mem_rw_args a =>
      [cpu_physical_memory_rw (rw_addr a) (rw_buf a) (rw_len a)]
  | mem_region_change_args a =>
      if negb (mrc_added a =? 0)
      then [rr_create_memory_region (mrc_start_addr a) (mrc_size a)
              (mrc_mtype a) (mrc_name a)]
      else [memory_region_del_subregion (mrc_start_addr a) (mrc_size a)]
  | cpu_mem_unmap a =>
      [cpu_physical_memory_map_unmap (um_addr a) (um_buf a) (um_len a)]
  | _ => []
  end.

(** What the replay of the capture call [c] has to do to the host: for a
    skipped call, the operation on the arguments as the decoder rebuilds
    them, with the bytes that were written for the buffer in a block of its
    own. *)
Definition replayed_effects (c : record_call) : list host_effect :=
  match variant_of_call c with
  | Some (call_args args) => skipped_call_effects (decoded_call_args args)
  | _ => []
  end.

(** The guest instruction counts of the calls grow strictly from above [n],
    and that of [pp_end] is above them all. *)
Fixpoint increasing (n : Z) (calls : list (RR_prog_point * record_call))
  (pp_end : RR_prog_point) : Prop :=
  match calls with
  | [] => n < guest_instr_count pp_end
  | (pp, _) :: calls' =>
      n < guest_instr_count pp
      /\ increasing (guest_instr_count pp) calls' pp_end
  end.

(** What the comparison of program points is assumed to do in a replay
    that follows the record: equal points compare as 0, and a current point
    with a smaller guest instruction count as something else. *)
Definition compare_follows : Prop :=
  (forall p k, rr_prog_point_compare p p k = Some 0)
  /\ (forall p q k,
        guest_instr_count p < guest_instr_count q ->
        exists c, rr_prog_point_compare p q k = Some c /\ c <> 0).

(** [h] is the entry rr_read_item builds from the bytes of [e], at some
    offset of the file. *)
Definition decoded_from (h e : RR_log_entry) : Prop :=
  exists pos, h = decoded pos e.

(** A queue that holds something is complete up to a cutoff entry, or the
    log has been read to its end: what rr_fill_queue leaves when it does
    not stop for the length of the queue. *)
Definition queue_complete (q unread : list RR_log_entry) : Prop :=
  q <> [] ->
  unread = [] \/ exists front c, q = front ++ [c] /\ is_cutoff c = true.

(** The queue holds something while entries are still to come. *)
Definition queue_ready (s : rr_state) (pending : list RR_log_entry) : Prop :=
  rr_queue s = [] -> pending = [].

(** A replay is under way with the cached interrupt word [cache], and has
    done [fx] to the host; the entries that are still to come are
    [pending]: some are in the queue, as the decoder built them, the others
    are the unread part of the log.  Under [small], they are at most
    RR_MAX_QUEUE_LEN, and the queue is complete. *)
Definition replay_inv (small : Prop) (s : rr_state) (cache : Z)
  (fx : list host_effect) (pending : list RR_log_entry) : Prop :=
  panda_current_interrupt_request s = cache
  /\ host_effects s = fx
  /\ queue_ok (rr_queue s)
  /\ exists queued unread l before,
      pending = queued ++ unread
      /\ Forall2 decoded_from (rr_queue s) queued
      /\ replaying s l before (log_bytes unread)
      /\ Forall writable unread /\ Forall typed_entry unread
      /\ Forall (fun e => short_name (variant e)) unread
      /\ (small ->
          Z.of_nat (length pending) <= RR_MAX_QUEUE_LEN
          /\ queue_complete (rr_queue s) unread).

(* ------------------------------------------------------------------------- *)
(** ** Sample runs of the replay *)

(** A session a replay can follow: an input, an interrupt word seen twice,
    an exit request of 0 and one of 1, a write to guest memory. *)
Definition sample_replayable_calls : list (RR_prog_point * record_call) :=
  [ (sample_pp 10, call_input_4 3 305419896);
    (sample_pp 20, call_interrupt_request 4 2);
    (sample_pp 21, call_interrupt_request 4 2);
    (sample_pp 30, call_exit_request 6 0);
    (sample_pp 31, call_exit_request 6 1);
    (sample_pp 40,
     call_cpu_mem_rw 7 8192 (Some [Byte.x01; Byte.x02; Byte.x03]) 3 1) ].

(** A new process that finds the file the record session of [calls]
    left. *)
Definition fresh_replay_state (calls : list (RR_prog_point * record_call))
  (pp_end : RR_prog_point) : rr_state :=
  set_rr_disk (rr_disk (recorded_state calls pp_end)) initial_state.

(** A new process that finds the file [d]. *)
Definition state_with_file (d : list byte) : rr_state :=
  set_rr_disk d initial_state.

(** A process in replay that has opened a log file holding [data] after
    what it has read, with nothing in the queue. *)
Definition sample_log_state (data : list byte) : rr_state :=
  set_rr_mode RR_REPLAY
    (set_rr_nondet_log
       (Some (mk_log REPLAY (Some (mk_FILE [] data)) zero_prog_point 0
                     (Z.of_nat (length data)) 0 zero_entry))
       initial_state).

(** The replay of the file of [calls], after rr_do_begin_replay, at the
    program point [pp]. *)
Definition replaying_state (calls : list (RR_prog_point * record_call))
  (pp_end pp : RR_prog_point) : rr_state :=
  state_after (rr_do_begin_replay ;; cpu_at pp)
              (fresh_replay_state calls pp_end).

(* ------------------------------------------------------------------------- *)
(** ** Basic facts: the monad, byte strings, object representations *)

Lemma bind_ok {A B} (m : M A) (k : A -> M B) s a s' :
  m s = Ok (a, s') -> bind m k s = k a s'.
Proof. intros H. unfold bind. now rewrite H. Qed.

Lemma bind_abort {A B} (m : M A) (k : A -> M B) s e :
  m s = Abort e -> bind m k s = Abort e.
Proof. intros H. unfold bind. now rewrite H. Qed.

Lemma bind_bind {A B C} (m : M A) (f : A -> M B) (g : B -> M C) s :
  bind (bind m f) g s = bind m (fun a => bind (f a) g) s.
Proof. unfold bind. destruct (m s) as [[a s']|e]; reflexivity. Qed.

Lemma bind_inv {A B} (m : M A) (k : A -> M B) s b s'' :
  bind m k s = Ok (b, s'') ->
  exists a s', m s = Ok (a, s') /\ k a s' = Ok (b, s'').
Proof.
  unfold bind. destruct (m s) as [[a s']|e]; [|discriminate].
  intros H. now exists a, s'.
Qed.

Lemma firstn_app_exact {A} (a b : list A) n :
  length a = n -> firstn n (a ++ b) = a.
Proof.
  intros <-. rewrite firstn_app, Nat.sub_diag, firstn_all. simpl.
  apply app_nil_r.
Qed.

Lemma skipn_app_exact {A} (a b : list A) n :
  length a = n -> skipn n (a ++ b) = b.
Proof.
  intros <-. rewrite skipn_app, Nat.sub_diag, skipn_all. reflexivity.
Qed.

Lemma le_combine_split_small (n : nat) (v : Z) :
  0 <= v < 2 ^ (Z.of_nat n * 8) -> le_combine (le_split n v) = v.
Proof. intros H. rewrite le_combine_split. now apply Z.mod_small. Qed.

Lemma u8_roundtrip v : is_u8 v -> le_combine (u8_bytes v) = v.
Proof. intros H. apply le_combine_split_small. exact H. Qed.

Lemma u16_roundtrip v : is_u16 v -> le_combine (u16_bytes v) = v.
Proof. intros H. apply le_combine_split_small. exact H. Qed.

Lemma u32_roundtrip v : is_u32 v -> le_combine (u32_bytes v) = v.
Proof. intros H. apply le_combine_split_small. exact H. Qed.

Lemma u64_roundtrip v : is_u64 v -> le_combine (u64_bytes v) = v.
Proof. intros H. apply le_combine_split_small. exact H. Qed.

Lemma int_roundtrip v : is_int v -> to_int32 (le_combine (u32_bytes v)) = v.
Proof.
  unfold is_int, to_int32, u32_bytes. intros H.
  rewrite le_combine_split. change (Z.of_nat 4 * 8) with 32.
  rewrite Z.mod_mod by lia.
  destruct (Z_lt_ge_dec v 0) as [Hneg|Hpos].
  - replace (v mod 2 ^ 32) with (v + 2 ^ 32).
    + destruct (Z.ltb_spec (v + 2 ^ 32) (2 ^ 31)); lia.
    + apply Z.mod_unique with (q := -1); lia.
  - rewrite Z.mod_small by lia.
    destruct (Z.ltb_spec v (2 ^ 31)); lia.
Qed.

Lemma to_int32_range v : is_int (to_int32 v).
Proof.
  unfold is_int, to_int32.
  pose proof (Z.mod_pos_bound v (2 ^ 32) eq_refl).
  destruct (Z.ltb_spec (v mod 2 ^ 32) (2 ^ 31)); lia.
Qed.

Lemma to_uint32_to_int32 v : to_uint32 (to_int32 v) = to_uint32 v.
Proof.
  unfold to_uint32, to_int32.
  destruct (Z.ltb_spec (v mod 2 ^ 32) (2 ^ 31)).
  - apply Z.mod_mod. lia.
  - rewrite <- (Z.mod_mod v (2 ^ 32)) at 2 by lia.
    replace (v mod 2 ^ 32 - 2 ^ 32) with (v mod 2 ^ 32 + (-1) * 2 ^ 32) by lia.
    apply Z.mod_add. lia.
Qed.

Lemma to_uint32_small v : is_u32 v -> to_uint32 v = v.
Proof. intros H. apply Z.mod_small. exact H. Qed.

Lemma to_size_t_int v :
  is_int v -> to_size_t v = if v <? 0 then v + 2 ^ 64 else v.
Proof.
  unfold is_int, to_size_t. intros H.
  destruct (Z.ltb_spec v 0).
  - symmetry. apply Z.mod_unique with (q := -1); lia.
  - apply Z.mod_small. lia.
Qed.

Lemma length_u8_bytes v : length (u8_bytes v) = 1%nat.
Proof. apply length_le_split. Qed.
Lemma length_u16_bytes v : length (u16_bytes v) = 2%nat.
Proof. apply length_le_split. Qed.
Lemma length_u32_bytes v : length (u32_bytes v) = 4%nat.
Proof. apply length_le_split. Qed.
Lemma length_u64_bytes v : length (u64_bytes v) = 8%nat.
Proof. apply length_le_split. Qed.

Create Rewrite HintDb rr_len.
#[local] Hint Rewrite @length_app length_u8_bytes length_u16_bytes
  length_u32_bytes length_u64_bytes : rr_len.

Lemma length_prog_point_bytes p : length (prog_point_bytes p) = 24%nat.
Proof. unfold prog_point_bytes. now autorewrite with rr_len. Qed.

Lemma length_cpu_mem_rw_args_bytes a :
  length (cpu_mem_rw_args_bytes a) = 12%nat.
Proof. unfold cpu_mem_rw_args_bytes. now autorewrite with rr_len. Qed.

Lemma length_cpu_mem_unmap_bytes a :
  length (cpu_mem_unmap_bytes a) = 16%nat.
Proof. unfold cpu_mem_unmap_bytes. now autorewrite with rr_len. Qed.

Lemma length_mem_region_change_args_bytes a :
  length (mem_region_change_args_bytes a) = 25%nat.
Proof. unfold mem_region_change_args_bytes. now autorewrite with rr_len. Qed.

Lemma length_transfer_args_bytes a :
  length (transfer_args_bytes a) = 24%nat.
Proof. unfold transfer_args_bytes. now autorewrite with rr_len. Qed.

Lemma length_handle_packet_args_bytes a :
  length (handle_packet_args_bytes a) = 13%nat.
Proof. unfold handle_packet_args_bytes. now autorewrite with rr_len. Qed.

#[local] Hint Rewrite length_prog_point_bytes length_cpu_mem_rw_args_bytes
  length_cpu_mem_unmap_bytes length_mem_region_change_args_bytes
  length_transfer_args_bytes length_handle_packet_args_bytes : rr_len.

(** Splitting a concatenation of fixed-size fields. *)
Lemma firstn_u64_app v l : firstn 8 (u64_bytes v ++ l) = u64_bytes v.
Proof. apply firstn_app_exact, length_u64_bytes. Qed.
Lemma skipn_u64_app v l : skipn 8 (u64_bytes v ++ l) = l.
Proof. apply skipn_app_exact, length_u64_bytes. Qed.
Lemma firstn_u32_app v l : firstn 4 (u32_bytes v ++ l) = u32_bytes v.
Proof. apply firstn_app_exact, length_u32_bytes. Qed.
Lemma skipn_u32_app v l : skipn 4 (u32_bytes v ++ l) = l.
Proof. apply skipn_app_exact, length_u32_bytes. Qed.
Lemma firstn_u8_app v l : firstn 1 (u8_bytes v ++ l) = u8_bytes v.
Proof. apply firstn_app_exact, length_u8_bytes. Qed.

Lemma firstn_u64 v : firstn 8 (u64_bytes v) = u64_bytes v.
Proof. apply firstn_all2. now rewrite length_u64_bytes. Qed.
Lemma firstn_u32 v : firstn 4 (u32_bytes v) = u32_bytes v.
Proof. apply firstn_all2. now rewrite length_u32_bytes. Qed.
Lemma firstn_u8 v : firstn 1 (u8_bytes v) = u8_bytes v.
Proof. apply firstn_all2. now rewrite length_u8_bytes. Qed.

Lemma prog_point_roundtrip p :
  typed_prog_point p -> prog_point_of_bytes (prog_point_bytes p) = p.
Proof.
  destruct p as [i c x]. unfold typed_prog_point, prog_point_of_bytes,
    prog_point_bytes. cbn [guest_instr_count pc secondary].
  intros (Hi & Hc & Hx).
  rewrite firstn_u64_app.
  change 16%nat with (8 + 8)%nat. rewrite <- !skipn_skipn.
  rewrite !skipn_u64_app, firstn_u64_app, firstn_u64.
  now rewrite !u64_roundtrip.
Qed.

Lemma kind_code_roundtrip k :
  kind_of_code (le_combine (u32_bytes (kind_code k))) = Some k.
Proof. destruct k; reflexivity. Qed.

Lemma call_kind_code_roundtrip k :
  call_kind_of_code (le_combine (u32_bytes (call_kind_code k))) = Some k.
Proof. destruct k; reflexivity. Qed.

(* ------------------------------------------------------------------------- *)
(** ** The encoder *)

Ltac rr_cbn :=
  cbn -[Z.eqb Z.ltb Z.leb Z.gtb Z.geb Z.mul Z.add Z.sub Z.modulo Z.pow
        Z.of_nat Z.to_nat firstn skipn length app].

Ltac rr_cbn_in H :=
  cbn -[Z.eqb Z.ltb Z.leb Z.gtb Z.geb Z.mul Z.add Z.sub Z.modulo Z.pow
        Z.of_nat Z.to_nat firstn skipn length app] in H.

Lemma rr_fwrite_spec s l before ptr size nmemb :
  rr_nondet_log s = Some l -> fp l = Some (mk_FILE before []) ->
  match fwrite_bytes ptr size nmemb with
  | Some bs =>
      rr_fwrite ptr size nmemb s
      = Ok (if (size =? 0) || (nmemb =? 0) then 0 else nmemb,
            set_rr_nondet_log
              (Some (set_fp (Some (mk_FILE (before ++ bs) [])) l)) s)
  | None => exists e, rr_fwrite ptr size nmemb s = Abort e
  end.
Proof.
  intros Hl Hf.
  unfold rr_fwrite, fwrite_bytes, fwrite, bind, the_log, modify_log, modify,
    rr_assert, ret, fail.
  rewrite Hl, Hf.
  destruct ((size =? 0) || (nmemb =? 0)) eqn:Hz.
  - rr_cbn. unfold bind, the_log. rewrite Hl.
    destruct (0 =? nmemb) eqn:Hn.
    + rewrite app_nil_r. reflexivity.
    + eauto.
  - destruct ptr as [m|]; [|eauto].
    destruct (Z.of_nat (length m) <? size * nmemb); [eauto|].
    rr_cbn. unfold bind, the_log. rewrite Hl. rewrite Z.eqb_refl.
    unfold f_put. cbn [f_before f_after]. rewrite skipn_nil. reflexivity.
Qed.

Lemma RR_WRITE_ITEM_ok s l before obj n :
  rr_nondet_log s = Some l -> fp l = Some (mk_FILE before []) ->
  Z.of_nat (length obj) = n -> 0 < n ->
  RR_WRITE_ITEM obj n s
  = Ok (1, set_rr_nondet_log
             (Some (set_fp (Some (mk_FILE (before ++ obj) [])) l)) s).
Proof.
  intros Hl Hf Hlen Hpos. unfold RR_WRITE_ITEM.
  pose proof (rr_fwrite_spec s l before (Some obj) n 1 Hl Hf) as H.
  unfold fwrite_bytes in H.
  replace ((n =? 0) || (1 =? 0)) with false in H
    by (symmetry; apply orb_false_intro; [apply Z.eqb_neq; lia|reflexivity]).
  rewrite Z.mul_1_r in H.
  replace (Z.of_nat (length obj) <? n) with false in H
    by (symmetry; apply Z.ltb_ge; lia).
  rewrite <- Hlen, Nat2Z.id, firstn_all in H. rewrite <- Hlen. exact H.
Qed.

Ltac norm_state :=
  cbv beta iota delta [set_rr_mode set_rr_queue set_rr_nondet_log
       set_panda_current_interrupt_request set_recycle_list set_history
       set_rr_max_num_queue_entries set_cpu set_rr_disk set_host_effects
       set_flags set_fp set_last_prog_point set_bytes_read set_item_number
       set_current_item
       rr_mode rr_queue rr_record_in_progress rr_skipped_callsite_location
       rr_nondet_log rr_please_flush_tb panda_current_interrupt_request
       recycle_list rr_log_entry_history rr_hist_index
       rr_max_num_queue_entries cpu rr_disk host_effects
       log_type fp last_prog_point bytes_read log_size item_number
       current_item f_before f_after].

Ltac write_step :=
  erewrite bind_ok;
  [| eapply RR_WRITE_ITEM_ok;
     [ reflexivity | reflexivity
     | autorewrite with rr_len; reflexivity | reflexivity ] ];
  norm_state.

Ltac tail_step :=
  match goal with
  | |- context [bind (rr_fwrite ?p ?sz ?n) _ ?st] =>
      let H := fresh "H" in
      let e := fresh "e" in
      pose proof (rr_fwrite_spec st _ _ p sz n eq_refl eq_refl) as H;
      destruct (fwrite_bytes p sz n);
      [ erewrite bind_ok by exact H; norm_state
      | destruct H as [e H]; erewrite bind_abort by exact H; eauto ]
  end.

Lemma rr_write_item_spec s l before :
  recording s l before ->
  match item_wire (current_item l) with
  | Some bs =>
      rr_write_item s
      = Ok (tt, set_rr_nondet_log (Some (log_written bs before l)) s)
  | None => exists e, rr_write_item s = Abort e
  end.
Proof.
  intros (Hm & Hl & Hf & Hty).
  destruct l as [ty f lpp br sz n item]. cbn in Hf. subst f.
  destruct s. cbn in Hm, Hl. subst.
  unfold rr_write_item.
  erewrite bind_ok by reflexivity.
  erewrite bind_ok by reflexivity.
  erewrite bind_ok by reflexivity.
  cbn [current_item].
  do 3 write_step.
  erewrite bind_ok by reflexivity. norm_state.
  unfold item_wire, header_wire, log_written.
  destruct item as [hd v].
  destruct v as [d|d|d|d|d|d|[cv oba]| |];
    cbn [variant variant_wire header kind current_item];
    try (write_step; rewrite <- !app_assoc; reflexivity);
    try (erewrite bind_ok by reflexivity; rewrite <- !app_assoc, app_nil_r;
         reflexivity).
  rewrite bind_bind. write_step.
  destruct cv as [a|a|a|a|a|a];
    cbn [call_variant call_variant_tail call_variant_fixed call_kind];
    try rewrite bind_bind;
    write_step;
    try (rewrite <- !app_assoc, app_nil_r; reflexivity);
    tail_step; rewrite <- !app_assoc; reflexivity.
Qed.

Lemma store_current_item_ok s l cs v :
  rr_nondet_log s = Some l ->
  store_current_item cs v s
  = Ok (tt, set_rr_nondet_log
              (Some (set_current_item
                       (mk_entry (mk_header (prog_point_of s) 0 cs) v) l)) s).
Proof.
  intros Hl. destruct s. cbn in Hl. subst. destruct l. reflexivity.
Qed.

Lemma set_rr_nondet_log_twice x y s :
  set_rr_nondet_log x (set_rr_nondet_log y s) = set_rr_nondet_log x s.
Proof. destruct s. reflexivity. Qed.

Lemma recording_set_current_item s l before e :
  recording s l before ->
  recording (set_rr_nondet_log (Some (set_current_item e l)) s)
            (set_current_item e l) before.
Proof.
  intros (Hm & Hl & Hf & Hty). destruct s, l. cbn in *. subst.
  repeat split.
Qed.

Lemma set_current_item_twice x y l :
  set_current_item x (set_current_item y l) = set_current_item x l.
Proof. destruct l. reflexivity. Qed.

Lemma rr_nondet_log_set_rr_nondet_log x s :
  rr_nondet_log (set_rr_nondet_log x s) = x.
Proof. destruct s. reflexivity. Qed.

Lemma prog_point_of_set_rr_nondet_log x s :
  prog_point_of (set_rr_nondet_log x s) = prog_point_of s.
Proof. destruct s. reflexivity. Qed.

Lemma rr_prog_point_ok s : rr_prog_point s = Ok (prog_point_of s, s).
Proof. reflexivity. Qed.

Lemma modify_log_ok f s l :
  rr_nondet_log s = Some l ->
  modify_log f s = Ok (tt, set_rr_nondet_log (Some (f l)) s).
Proof.
  intros Hl. unfold modify_log, bind, the_log, modify. now rewrite Hl.
Qed.

(** Writing the item that is in current_item. *)
Lemma write_current_item_spec s l before e :
  recording s l before ->
  match rr_write_item (set_rr_nondet_log (Some (set_current_item e l)) s)
  with
  | Abort _ => True
  | Ok (_, s') =>
      exists bs,
        item_wire e = Some bs
        /\ s' = set_rr_nondet_log
                  (Some (log_written bs before (set_current_item e l))) s
  end.
Proof.
  intros Hrec.
  pose proof (rr_write_item_spec _ _ _
                (recording_set_current_item s l before e Hrec)) as H.
  replace (current_item (set_current_item e l)) with e in H
    by (destruct l; reflexivity).
  destruct (item_wire e) as [bs|].
  - rewrite H. exists bs. split; [reflexivity|].
    apply set_rr_nondet_log_twice.
  - destruct H as [err H]. now rewrite H.
Qed.

Lemma record_item_spec s l before cs v :
  recording s l before ->
  match (store_current_item cs v ;; rr_write_item) s with
  | Abort _ => True
  | Ok (_, s') =>
      exists bs,
        item_wire (mk_entry (mk_header (prog_point_of s) 0 cs) v) = Some bs
        /\ s' = set_rr_nondet_log
                  (Some (log_written bs before
                           (set_current_item
                              (mk_entry (mk_header (prog_point_of s) 0 cs) v)
                              l))) s
  end.
Proof.
  intros Hrec.
  erewrite bind_ok
    by (apply store_current_item_ok; apply Hrec).
  apply write_current_item_spec, Hrec.
Qed.

(** What a capture function does in a record session. *)
Lemma do_record_call_spec s l before c :
  recording s l before ->
  match do_record_call c s with
  | Abort _ => True
  | Ok (_, s') =>
      if call_writes (panda_current_interrupt_request s) c
      then exists v bs,
          variant_of_call c = Some v
          /\ item_wire (mk_entry (mk_header (prog_point_of s) 0
                                            (call_site_of c)) v) = Some bs
          /\ s' = set_rr_nondet_log
                    (Some (log_written bs before
                             (set_current_item
                                (mk_entry (mk_header (prog_point_of s) 0
                                                     (call_site_of c)) v) l)))
                    (call_cache c s)
      else s' = s
  end.
Proof.
  intros Hrec.
  destruct c;
    try (cbn [do_record_call call_writes call_site_of variant_of_call
              call_cache];
         match goal with
         | |- context [do_record_call] => fail 1
         | |- match ?f _ _ s with _ => _ end => unfold f
         | |- match ?f _ _ _ _ _ s with _ => _ end => unfold f
         | |- match ?f _ _ _ _ _ _ s with _ => _ end => unfold f
         | |- match ?f _ s with _ => _ end => unfold f
         end;
         match goal with
         | |- context [bind (store_current_item ?cs ?v) _ s] =>
             pose proof (record_item_spec s l before cs v Hrec) as H;
             destruct (bind (store_current_item cs v) (fun _ => rr_write_item)
                            s) as [[u s']|e];
             [destruct H as (bs & Hw & ->); eauto | exact I]
         end).
  - (* rr_record_interrupt_request *)
    cbn [do_record_call call_writes call_site_of variant_of_call call_cache].
    unfold rr_record_interrupt_request.
    erewrite bind_ok by reflexivity.
    destruct (negb (to_uint32 (panda_current_interrupt_request s) =? v));
      [|reflexivity].
    set (e := mk_entry (mk_header (prog_point_of s) 0 call_site)
                       (interrupt_request v)).
    set (s1 := set_panda_current_interrupt_request (to_int32 v) s).
    assert (Hrec1 : recording s1 l before).
    { destruct Hrec as (Hm & Hl & Hf & Hty). subst s1. destruct s. cbn in *.
      repeat split; assumption. }
    pose proof (write_current_item_spec s1 l before e Hrec1) as H.
    match goal with
    | |- match ?m s with _ => _ end =>
        replace (m s)
          with (rr_write_item
                  (set_rr_nondet_log (Some (set_current_item e l)) s1))
    end.
    + destruct (rr_write_item _) as [[u s']|err]; [|exact I].
      destruct H as (bs & Hw & ->). eauto.
    + destruct Hrec as (Hm & Hl & Hf & Hty). subst s1 e.
      destruct s, l. cbn in Hm, Hl, Hf, Hty. subst. reflexivity.
  - (* rr_record_exit_request *)
    cbn [do_record_call call_writes call_site_of variant_of_call call_cache].
    unfold rr_record_exit_request.
    destruct (negb (v =? 0)); [|reflexivity].
    pose proof (record_item_spec s l before call_site (exit_request v) Hrec)
      as H.
    destruct (bind _ _ s) as [[u s']|err]; [|exact I].
    destruct H as (bs & Hw & ->). eauto.
  - (* rr_record_memory_region_change *)
    cbn [do_record_call call_writes call_site_of variant_of_call call_cache].
    unfold rr_record_memory_region_change.
    pose proof Hrec as (Hm & Hl & Hf & Hty).
    erewrite bind_ok by (apply modify_log_ok; exact Hl).
    erewrite bind_ok by apply rr_prog_point_ok.
    destruct name as [m|]; [|exact I].
    unfold strlen.
    destruct (strlen_bytes m) as [n|] eqn:Hn; [|exact I].
    erewrite bind_ok by reflexivity.
    erewrite bind_ok
      by (apply modify_log_ok; apply rr_nondet_log_set_rr_nondet_log).
    rewrite set_rr_nondet_log_twice, set_current_item_twice,
      prog_point_of_set_rr_nondet_log.
    match goal with
    | |- context [set_current_item ?e l] =>
        pose proof (write_current_item_spec s l before e Hrec) as H
    end.
    destruct (rr_write_item _) as [[u s']|err]; [|exact I].
    destruct H as (bs & Hw & ->). eauto.
Qed.

(* ------------------------------------------------------------------------- *)
(** ** The decoder *)

Lemma rr_fread_spec s l before data rest size nmemb :
  rr_nondet_log s = Some l ->
  fp l = Some (mk_FILE before (data ++ rest)) ->
  Z.of_nat (length data) = size * nmemb ->
  (size = 0 -> nmemb = 0) ->
  rr_fread size nmemb s
  = Ok (data,
        set_rr_nondet_log
          (Some (set_bytes_read ((bytes_read l + nmemb * size) mod 2 ^ 64)
                   (set_fp (Some (mk_FILE (before ++ data) rest)) l))) s).
Proof.
  intros Hl Hf Hlen Hz.
  unfold rr_fread, fread, bind, the_log. rewrite Hl, Hf.
  destruct ((size =? 0) || (nmemb =? 0)) eqn:Hc.
  - assert (nmemb = 0) as ->.
    { apply orb_true_iff in Hc. destruct Hc as [Hc|Hc];
        apply Z.eqb_eq in Hc; auto. }
    rewrite Z.mul_0_r in Hlen. destruct data; [|discriminate].
    unfold modify_log, bind, the_log, modify. rewrite Hl. rr_cbn.
    rewrite app_nil_r. reflexivity.
  - cbn [f_after]. rewrite length_app, Nat2Z.inj_add, Hlen.
    replace (size * nmemb <=? size * nmemb + Z.of_nat (length rest))
      with true by (symmetry; apply Z.leb_le; lia).
    unfold modify_log, bind, the_log, modify. rewrite Hl. rr_cbn.
    rewrite Z.eqb_refl. unfold f_take. cbn [f_before f_after fst snd].
    rewrite <- Hlen, Nat2Z.id.
    rewrite firstn_app_exact, skipn_app_exact by reflexivity.
    reflexivity.
Qed.

Lemma RR_READ_ITEM_ok s l before obj rest n :
  rr_nondet_log s = Some l ->
  fp l = Some (mk_FILE before (obj ++ rest)) ->
  Z.of_nat (length obj) = n -> 0 < n ->
  RR_READ_ITEM n s
  = Ok (obj,
        set_rr_nondet_log
          (Some (set_bytes_read ((bytes_read l + 1 * n) mod 2 ^ 64)
                   (set_fp (Some (mk_FILE (before ++ obj) rest)) l))) s).
Proof.
  intros Hl Hf Hlen Hpos. unfold RR_READ_ITEM.
  apply rr_fread_spec; auto; lia.
Qed.

Lemma fwrite_bytes_length ptr size nmemb t :
  0 <= size -> 0 <= nmemb ->
  fwrite_bytes ptr size nmemb = Some t ->
  Z.of_nat (length t) = size * nmemb /\ (size = 0 -> nmemb = 0).
Proof.
  unfold fwrite_bytes. intros Hs Hn.
  destruct ((size =? 0) || (nmemb =? 0)) eqn:Hc.
  - destruct (Z.eqb_spec 0 nmemb); [|discriminate].
    intros [= <-]. subst. split; [|auto]. cbn. lia.
  - apply orb_false_iff in Hc. destruct Hc as [Hc1 Hc2].
    apply Z.eqb_neq in Hc1, Hc2.
    destruct ptr as [m|]; [|discriminate].
    destruct (Z.ltb_spec (Z.of_nat (length m)) (size * nmemb));
      [discriminate|].
    intros [= <-]. split; [|lia].
    rewrite length_firstn. lia.
Qed.

Lemma to_size_t_nonneg v : 0 <= to_size_t v.
Proof. apply Z.mod_pos_bound. reflexivity. Qed.

Ltac split_fields :=
  repeat (progress (rewrite ?firstn_u64_app, ?skipn_u64_app,
                      ?firstn_u32_app, ?skipn_u32_app, ?firstn_u8_app,
                      ?firstn_u64, ?firstn_u32, ?firstn_u8)).

Lemma cpu_mem_rw_args_roundtrip a :
  is_u64 (rw_addr a) -> is_int (rw_len a) ->
  cpu_mem_rw_args_of_bytes (cpu_mem_rw_args_bytes a)
  = mk_cpu_mem_rw_args (rw_addr a) None (rw_len a).
Proof.
  intros Ha Hl. unfold cpu_mem_rw_args_of_bytes, cpu_mem_rw_args_bytes.
  split_fields.
  now rewrite u64_roundtrip, int_roundtrip.
Qed.

Lemma cpu_mem_unmap_roundtrip a :
  is_u64 (um_addr a) -> is_u64 (um_len a) ->
  cpu_mem_unmap_of_bytes (cpu_mem_unmap_bytes a)
  = mk_cpu_mem_unmap (um_addr a) None (um_len a).
Proof.
  intros Ha Hl. unfold cpu_mem_unmap_of_bytes, cpu_mem_unmap_bytes.
  split_fields.
  now rewrite !u64_roundtrip.
Qed.

Lemma mem_region_change_args_roundtrip a :
  is_u64 (mrc_start_addr a) -> is_u64 (mrc_size a) -> is_u32 (mrc_len a) ->
  is_u32 (mrc_mtype a) -> is_u8 (mrc_added a) ->
  mem_region_change_args_of_bytes (mem_region_change_args_bytes a)
  = mk_mem_region_change_args (mrc_start_addr a) (mrc_size a) None
      (mrc_len a) (mrc_mtype a) (mrc_added a).
Proof.
  intros H1 H2 H3 H4 H5.
  unfold mem_region_change_args_of_bytes, mem_region_change_args_bytes.
  change 24%nat with (4 + (4 + (8 + 8)))%nat.
  change 20%nat with (4 + (8 + 8))%nat.
  change 16%nat with (8 + 8)%nat.
  rewrite <- !skipn_skipn. split_fields.
  now rewrite !u64_roundtrip, !u32_roundtrip, u8_roundtrip.
Qed.

Lemma transfer_args_roundtrip a :
  is_u32 (tr_type a) -> is_u64 (tr_src_addr a) -> is_u64 (tr_dest_addr a) ->
  is_u32 (tr_num_bytes a) ->
  transfer_args_of_bytes (transfer_args_bytes a) = a.
Proof.
  intros H1 H2 H3 H4. destruct a as [t sa da nb].
  unfold transfer_args_of_bytes, transfer_args_bytes.
  cbn [tr_type tr_src_addr tr_dest_addr tr_num_bytes] in *.
  change 20%nat with (8 + (8 + 4))%nat.
  change 12%nat with (8 + 4)%nat.
  rewrite <- !skipn_skipn. split_fields.
  now rewrite !u64_roundtrip, !u32_roundtrip.
Qed.

Lemma handle_packet_args_roundtrip a :
  is_u64 (hp_buf_ptr a) -> is_int (hp_size a) -> is_u8 (hp_direction a) ->
  handle_packet_args_of_bytes (handle_packet_args_bytes a)
  = mk_handle_packet_args (hp_buf_ptr a) None (hp_size a) (hp_direction a).
Proof.
  intros H1 H2 H3.
  unfold handle_packet_args_of_bytes, handle_packet_args_bytes.
  change 12%nat with (4 + 8)%nat.
  rewrite <- !skipn_skipn. split_fields.
  now rewrite u64_roundtrip, int_roundtrip, u8_roundtrip.
Qed.

Ltac read_step :=
  erewrite bind_ok;
  [| eapply RR_READ_ITEM_ok;
     [ reflexivity | reflexivity
     | autorewrite with rr_len; reflexivity | reflexivity ] ];
  norm_state.

Lemma read_result_eq (e1 e2 : RR_log_entry) m q ip sl l1 l2 fl c r h i mx cp
  d he :
  e1 = e2 -> l1 = l2 ->
  @Ok (RR_log_entry * rr_state)
      (e1, mk_state m q ip sl (Some l1) fl c r h i mx cp d he)
  = Ok (e2, mk_state m q ip sl (Some l2) fl c r h i mx cp d he).
Proof. now intros -> ->. Qed.

Lemma mk_log_eq t f1 f2 p b1 b2 sz n it :
  f1 = f2 -> b1 = b2 ->
  mk_log t (Some (mk_FILE f1 it)) p b1 sz n
  = mk_log t (Some (mk_FILE f2 it)) p b2 sz n.
Proof. now intros -> ->. Qed.

Ltac finish_read :=
  unfold ret, log_read, decoded;
  cbn [header variant prog_point callsite_loc bytes_read item_number
       last_prog_point log_size current_item];
  apply read_result_eq;
  [ try reflexivity
  | apply (f_equal (fun f => f _)); apply mk_log_eq;
    [ rewrite <- ?app_assoc; reflexivity
    | unfold sizeof_prog_point, sizeof_cpu_mem_rw_args, sizeof_cpu_mem_unmap,
        sizeof_mem_region_change_args, sizeof_transfer_args,
        sizeof_handle_packet_args;
      rewrite ?length_app; autorewrite with rr_len in *;
      repeat match goal with
             | |- context [(?a + ?b) mod 2 ^ 64] =>
                 lazymatch a with
                 | context [Z.modulo] => fail
                 | _ => rewrite (Z.mod_small (a + b) (2 ^ 64)) by lia
                 end
             end;
      lia ] ].

Lemma rr_read_item_spec s l before rest e bs :
  replaying s l before (bs ++ rest) ->
  item_wire e = Some bs -> typed_entry e -> short_name (variant e) ->
  rr_read_item s
  = Ok (decoded (Z.of_nat (length before)) e,
        set_recycle_list (tl (recycle_list s))
          (set_rr_nondet_log (Some (log_read bs before rest l)) s)).
Proof.
  intros (Hm & Hl & Hty & Hf & Hbr & Hsz & Hlt) Hw (Hpp & Hcs & Hv) Hshort.
  destruct l as [ty f lpp br sz n item].
  cbn [fp log_type bytes_read log_size] in Hf, Hty, Hbr, Hsz, Hlt.
  subst f ty br.
  destruct s. cbn in Hm, Hl. subst rr_mode0 rr_nondet_log0.
  unfold item_wire in Hw.
  destruct (variant_wire (variant e)) as [vb|] eqn:Hvw; [|discriminate].
  assert (bs = header_wire e ++ vb) as -> by congruence. clear Hw.
  unfold header_wire in *.
  rewrite <- ?app_assoc in *.
  rewrite !length_app in Hsz.
  autorewrite with rr_len in Hsz.
  unfold rr_read_item.
  erewrite bind_ok by reflexivity.
  erewrite bind_ok by reflexivity.
  assert (Hne : (sz =? Z.of_nat (length before)) = false).
  { apply Z.eqb_neq. lia. }
  erewrite bind_ok
    by (unfold rr_log_is_empty, bind, the_log, ret; cbn;
        rewrite Hne; reflexivity).
  erewrite bind_ok by reflexivity.
  erewrite bind_ok by reflexivity.
  erewrite bind_ok by reflexivity.
  norm_state.
  do 3 read_step.
  rewrite prog_point_roundtrip by assumption.
  rewrite kind_code_roundtrip, u32_roundtrip by assumption.
  destruct e as [hd v].
  cbn [variant header kind decoded] in *.
  destruct v as [d|d|d|d|d|d|args| |];
    cbn [variant_wire typed_variant] in Hvw, Hv; cbn [kind variant].
  - assert (vb = u8_bytes d) as -> by congruence.
    rewrite bind_bind. read_step.
    repeat (erewrite bind_ok by reflexivity). norm_state.
    rewrite u8_roundtrip by assumption.
    finish_read.
  - assert (vb = u16_bytes d) as -> by congruence.
    rewrite bind_bind. read_step.
    repeat (erewrite bind_ok by reflexivity). norm_state.
    rewrite u16_roundtrip by assumption.
    finish_read.
  - assert (vb = u32_bytes d) as -> by congruence.
    rewrite bind_bind. read_step.
    repeat (erewrite bind_ok by reflexivity). norm_state.
    rewrite u32_roundtrip by assumption.
    finish_read.
  - assert (vb = u64_bytes d) as -> by congruence.
    rewrite bind_bind. read_step.
    repeat (erewrite bind_ok by reflexivity). norm_state.
    rewrite u64_roundtrip by assumption.
    finish_read.
  - assert (vb = u32_bytes d) as -> by congruence.
    rewrite bind_bind. read_step.
    repeat (erewrite bind_ok by reflexivity). norm_state.
    rewrite u32_roundtrip by assumption.
    finish_read.
  - assert (vb = u32_bytes d) as -> by congruence.
    rewrite bind_bind. read_step.
    repeat (erewrite bind_ok by reflexivity). norm_state.
    rewrite u32_roundtrip by assumption.
    finish_read.
  - destruct (call_variant_tail (call_variant args)) as [t|] eqn:Ht;
      [|discriminate].
    assert (vb = u32_bytes (call_kind_code (call_kind args))
                 ++ call_variant_fixed (call_variant args) ++ t) as ->
      by congruence.
    clear Hvw. rewrite <- ?app_assoc. rewrite !bind_bind. read_step.
    rewrite call_kind_code_roundtrip.
    destruct args as [cv oba].
    destruct cv as [a|a|a|a|a|a];
      cbn [call_kind call_variant call_variant_fixed call_variant_tail
           typed_call_variant short_name] in *.
    + destruct Hv as (Ha & Hlen).
      rewrite ?bind_bind. read_step.
      rewrite cpu_mem_rw_args_roundtrip by assumption.
      cbn [rw_len rw_addr rw_buf].
      destruct (fwrite_bytes_length _ 1 _ _ ltac:(lia)
                  (to_size_t_nonneg _) Ht) as (Hlt' & Hz).
      rewrite ?bind_bind.
      erewrite bind_ok
        by (eapply rr_fread_spec; [reflexivity|reflexivity|exact Hlt'|lia]).
      repeat (erewrite bind_ok by reflexivity). norm_state.
      unfold decoded, decoded_call_args, tail_of.
      cbn [variant call_variant call_variant_tail rw_addr rw_len rw_buf].
      rewrite Ht.
      finish_read.
    + destruct Hv as (Ha & Hlen).
      rewrite ?bind_bind. read_step.
      rewrite cpu_mem_unmap_roundtrip by assumption.
      cbn [um_len um_addr um_buf].
      destruct (fwrite_bytes_length _ 1 _ _ ltac:(lia)
                  (to_size_t_nonneg _) Ht) as (Hlt' & Hz).
      rewrite ?bind_bind.
      erewrite bind_ok
        by (eapply rr_fread_spec; [reflexivity|reflexivity|exact Hlt'|lia]).
      repeat (erewrite bind_ok by reflexivity). norm_state.
      unfold decoded, decoded_call_args, tail_of.
      cbn [variant call_variant call_variant_tail um_addr um_len um_buf].
      rewrite Ht.
      finish_read.
    + destruct Hv as (H1 & H2 & H3 & H4 & H5).
      rewrite ?bind_bind. read_step.
      rewrite mem_region_change_args_roundtrip by assumption.
      cbn [mrc_start_addr mrc_size mrc_name mrc_len mrc_mtype mrc_added].
      replace (to_uint32 (mrc_len a + 1) =? 0) with false
        by (symmetry; apply Z.eqb_neq; unfold to_uint32, is_u32 in *;
            rewrite Z.mod_small; lia).
      cbn [andb].
      destruct (fwrite_bytes_length _ 1 _ _ ltac:(lia)
                  (to_size_t_nonneg _) Ht) as (Hlt' & Hz).
      rewrite ?bind_bind.
      erewrite bind_ok by reflexivity.
      rewrite ?bind_bind.
      erewrite bind_ok
        by (eapply rr_fread_spec; [reflexivity|reflexivity|exact Hlt'|lia]).
      repeat (erewrite bind_ok by reflexivity). norm_state.
      unfold decoded, decoded_call_args, tail_of.
      cbn [variant call_variant call_variant_tail mrc_start_addr mrc_size
           mrc_name mrc_len mrc_mtype mrc_added].
      rewrite Ht.
      finish_read.
    + destruct Hv as (H1 & H2 & H3 & H4).
      assert (t = []) as -> by congruence.
      rewrite ?bind_bind. read_step.
      rewrite transfer_args_roundtrip by assumption.
      repeat (erewrite bind_ok by reflexivity). norm_state.
      unfold decoded, decoded_call_args.
      cbn [variant call_variant].
      rewrite ?app_nil_r.
      finish_read.
    + destruct Hv as (H1 & H2 & H3 & H4).
      assert (t = []) as -> by congruence.
      rewrite ?bind_bind. read_step.
      rewrite transfer_args_roundtrip by assumption.
      repeat (erewrite bind_ok by reflexivity). norm_state.
      unfold decoded, decoded_call_args.
      cbn [variant call_variant].
      rewrite ?app_nil_r.
      finish_read.
    + destruct Hv as (H1 & H2 & H3).
      rewrite ?bind_bind. read_step.
      rewrite handle_packet_args_roundtrip by assumption.
      cbn [hp_buf_ptr hp_buf hp_size hp_direction].
      destruct (fwrite_bytes_length _ _ 1 _ (to_size_t_nonneg _)
                  ltac:(lia) Ht) as (Hlt' & Hz).
      rewrite ?bind_bind.
      erewrite bind_ok
        by (eapply rr_fread_spec; [reflexivity|reflexivity|exact Hlt'|lia]).
      repeat (erewrite bind_ok by reflexivity). norm_state.
      unfold decoded, decoded_call_args, tail_of.
      cbn [variant call_variant call_variant_tail hp_buf_ptr hp_buf hp_size
           hp_direction].
      rewrite Ht.
      finish_read.
  - assert (vb = []) as -> by congruence.
    repeat (erewrite bind_ok by reflexivity). norm_state.
    rewrite ?app_nil_r.
    finish_read.
  - assert (vb = []) as -> by congruence.
    repeat (erewrite bind_ok by reflexivity). norm_state.
    rewrite ?app_nil_r.
    finish_read.
Qed.

Lemma tail_bytes_written buf size nmemb t :
  0 <= size -> 0 <= nmemb ->
  fwrite_bytes buf size nmemb = Some t ->
  tail_bytes buf (size * nmemb) = Some t.
Proof.
  unfold fwrite_bytes, tail_bytes. intros Hs Hn.
  destruct ((size =? 0) || (nmemb =? 0)) eqn:Hc.
  - destruct (Z.eqb_spec 0 nmemb); [|discriminate].
    intros [= <-]. subst. rewrite Z.mul_0_r.
    destruct buf; reflexivity.
  - destruct buf as [m|]; [|discriminate].
    destruct (Z.of_nat (length m) <? size * nmemb); [discriminate|].
    now intros [= <-].
Qed.

Lemma tail_bytes_exact t n :
  Z.of_nat (length t) = n -> tail_bytes (Some t) n = Some t.
Proof.
  intros <-. unfold tail_bytes. now rewrite Nat2Z.id, firstn_all.
Qed.

Lemma tail_bytes_filled t n :
  Z.of_nat (length t) = n ->
  tail_bytes (g_malloc_filled n t) n = Some t.
Proof.
  intros Hn. unfold g_malloc_filled.
  destruct (Z.eqb_spec n 0) as [->|Hne].
  - destruct t; [reflexivity|discriminate].
  - now apply tail_bytes_exact.
Qed.

(** What rr_read_item builds carries what rr_write_item was given. *)
Lemma payload_decoded pos e bs :
  item_wire e = Some bs -> typed_entry e -> short_name (variant e) ->
  payload (decoded pos e) = payload e.
Proof.
  unfold item_wire. intros Hw (Hpp & Hcs & Hv) Hshort.
  destruct e as [hd v]. unfold payload, decoded.
  cbn [header variant prog_point callsite_loc] in *.
  destruct v as [d|d|d|d|d|d|[cv oba]| |]; try reflexivity.
  cbn [variant_wire call_variant] in Hw.
  destruct (call_variant_tail cv) as [t|] eqn:Ht; [|discriminate].
  unfold decoded_call_args, tail_of. cbn [call_variant]. rewrite Ht.
  destruct cv as [a|a|a|a|a|a];
    cbn [call_payload call_variant_tail typed_variant call_variant
         typed_call_variant short_name rw_addr rw_buf rw_len um_addr um_buf
         um_len mrc_start_addr mrc_size mrc_name mrc_len mrc_mtype mrc_added
         hp_buf_ptr hp_buf hp_size hp_direction] in *;
    try reflexivity.
  - destruct (fwrite_bytes_length _ 1 _ _ ltac:(lia)
                (to_size_t_nonneg _) Ht) as (Hlen & _).
    pose proof (tail_bytes_written _ 1 _ _ ltac:(lia)
                  (to_size_t_nonneg _) Ht) as Hb.
    rewrite Z.mul_1_l in Hlen, Hb.
    now rewrite Hb, tail_bytes_filled.
  - destruct (fwrite_bytes_length _ 1 _ _ ltac:(lia)
                (to_size_t_nonneg _) Ht) as (Hlen & _).
    pose proof (tail_bytes_written _ 1 _ _ ltac:(lia)
                  (to_size_t_nonneg _) Ht) as Hb.
    rewrite Z.mul_1_l in Hlen, Hb.
    now rewrite Hb, tail_bytes_filled.
  - destruct (fwrite_bytes_length _ 1 _ _ ltac:(lia)
                (to_size_t_nonneg _) Ht) as (Hlen & _).
    pose proof (tail_bytes_written _ 1 _ _ ltac:(lia)
                  (to_size_t_nonneg _) Ht) as Hb.
    rewrite Z.mul_1_l in Hlen, Hb.
    rewrite Hb. unfold g_malloc_filled.
    destruct Hv as (_ & _ & Hl32 & _).
    replace (to_uint32 (mrc_len a + 1) =? 0) with false
      by (symmetry; apply Z.eqb_neq; unfold to_uint32, is_u32 in *;
          rewrite Z.mod_small; lia).
    unfold tail_bytes. rewrite <- Hlen, Nat2Z.id.
    now rewrite firstn_app_exact.
  - destruct (fwrite_bytes_length _ _ 1 _ (to_size_t_nonneg _)
                ltac:(lia) Ht) as (Hlen & _).
    pose proof (tail_bytes_written _ _ 1 _ (to_size_t_nonneg _)
                  ltac:(lia) Ht) as Hb.
    rewrite Z.mul_1_r in Hlen, Hb.
    now rewrite Hb, tail_bytes_filled.
Qed.

(* ------------------------------------------------------------------------- *)
(** ** Sequences of calls and whole logs *)

Lemma item_number_advances n : ((n + 1) mod 2 ^ 64 =? n) = false.
Proof.
  apply Z.eqb_neq. intros H.
  pose proof (Z.mod_pos_bound (n + 1) (2 ^ 64) eq_refl) as Hb.
  destruct (Z_lt_ge_dec (n + 1) (2 ^ 64)).
  - rewrite Z.mod_small in H by lia. lia.
  - assert (n = 2 ^ 64 - 1) by lia. subst. vm_compute in H. discriminate.
Qed.

Lemma recording_cpu_at s l before pp :
  recording s l before ->
  cpu_at pp s = Ok (tt, set_cpu (mk_cpu (guest_instr_count pp) (pc pp)
                                        (secondary pp)) s)
  /\ recording (set_cpu (mk_cpu (guest_instr_count pp) (pc pp)
                                (secondary pp)) s) l before
  /\ prog_point_of (set_cpu (mk_cpu (guest_instr_count pp) (pc pp)
                                    (secondary pp)) s) = pp.
Proof.
  intros (Hm & Hl & Hf & Hty). destruct s, pp. cbn in *. repeat split; assumption.
Qed.

Lemma typed_item_of_call pp c v :
  typed_prog_point pp -> typed_call c -> variant_of_call c = Some v ->
  typed_entry (mk_entry (mk_header pp 0 (call_site_of c)) v)
  /\ short_name v.
Proof.
  clear rr_prog_point_compare.
  intros Hpp Hc Hv. unfold typed_entry. cbn [header variant prog_point
    callsite_loc].
  destruct c; cbn [typed_call variant_of_call call_site_of] in *;
    try (injection Hv as <-; cbn; intuition auto; fail).
  destruct name as [m|]; [|discriminate].
  destruct (strlen_bytes m) as [n|] eqn:Hn; [|discriminate].
  injection Hv as <-. cbn.
  destruct Hc as (H1 & H2 & H3 & H4 & H5).
  assert (Hn0 : 0 <= n).
  { clear - Hn. revert n Hn. induction m as [|b m IH]; cbn; [discriminate|].
    intros n. destruct (byte.unsigned b =? 0); [intros [= <-]; lia|].
    destruct (strlen_bytes m) as [k|]; [|discriminate].
    intros [= <-]. specialize (IH k eq_refl). lia. }
  assert (Hu : to_uint32 n = n) by (apply Z.mod_small; lia).
  rewrite Hu. unfold typed_prog_point, is_u64, is_u32, is_u8 in *.
  repeat split; try tauto; try lia; destruct added; lia.
Qed.

Lemma the_log_ok s l : rr_nondet_log s = Some l -> the_log s = Ok (l, s).
Proof. intros H. unfold the_log. now rewrite H. Qed.

Lemma recording_written s l before bs e c :
  recording s l before ->
  recording
    (set_rr_nondet_log
       (Some (log_written bs before (set_current_item e l))) (call_cache c s))
    (log_written bs before (set_current_item e l)) (before ++ bs).
Proof.
  intros (Hm & Hl & Hf & Hty). destruct s, l, c; cbn in *; repeat split; auto.
Qed.

Lemma cache_written s x c :
  panda_current_interrupt_request (set_rr_nondet_log x (call_cache c s))
  = match c with
    | call_interrupt_request _ v => to_int32 v
    | _ => panda_current_interrupt_request s
    end.
Proof. destruct s, c; reflexivity. Qed.

Lemma log_bytes_cons e items :
  log_bytes (e :: items) = wire_or_nil e ++ log_bytes items.
Proof. reflexivity. Qed.

(** The calls of a record session write the items of [recorded_items]. *)
Lemma run_record_spec calls :
  forall s l before items s',
    recording s l before ->
    run_record calls s = Ok (items, s') ->
    items = recorded_items (panda_current_interrupt_request s) calls
    /\ Forall writable items
    /\ panda_current_interrupt_request s'
       = cache_after (panda_current_interrupt_request s) calls
    /\ exists l', recording s' l' (before ++ log_bytes items).
Proof.
  induction calls as [|[pp c] calls IH]; intros s l before items s' Hrec Hrun.
  - cbn in Hrun. injection Hrun as <- <-.
    repeat split; [constructor|].
    exists l. cbn. now rewrite app_nil_r.
  - cbn [run_record] in Hrun.
    destruct (recording_cpu_at s l before pp Hrec) as (Hcpu & Hrec1 & Hpp).
    set (s1 := set_cpu _ s) in *.
    rewrite (bind_ok _ _ _ _ _ Hcpu) in Hrun.
    rewrite (bind_ok _ _ _ _ _ (the_log_ok s1 l (proj1 (proj2 Hrec1))))
      in Hrun.
    pose proof (do_record_call_spec s1 l before c Hrec1) as Hcall.
    assert (Hcache1 : panda_current_interrupt_request s1
                      = panda_current_interrupt_request s)
      by (subst s1; destruct s; reflexivity).
    apply bind_inv in Hrun. destruct Hrun as (u & s2 & Hdo & Hrun).
    rewrite Hdo in Hcall. rewrite Hcache1 in Hcall.
    cbn [recorded_items cache_after].
    destruct (call_writes (panda_current_interrupt_request s) c) eqn:Hwr.
    + destruct Hcall as (v & bs & Hv & Hw & Hs2).
      rewrite Hpp in Hw, Hs2. rewrite Hv.
      set (e := mk_entry (mk_header pp 0 (call_site_of c)) v) in *.
      set (l2 := log_written bs before (set_current_item e l)) in *.
      assert (Hrec2 : recording s2 l2 (before ++ bs))
        by (subst s2 l2; now apply recording_written).
      rewrite (bind_ok _ _ _ _ _ (the_log_ok s2 l2 (proj1 (proj2 Hrec2))))
        in Hrun.
      apply bind_inv in Hrun. destruct Hrun as (items' & s3 & Hrest & Hret).
      assert (Hnum : (item_number l2 =? item_number l) = false).
      { subst l2. destruct l. cbn. apply item_number_advances. }
      rewrite Hnum in Hret. unfold ret in Hret.
      injection Hret as <- <-.
      destruct (IH s2 l2 (before ++ bs) items' s3 Hrec2 Hrest)
        as (Hitems & Hwritable & Hcache & l3 & Hrec3).
      assert (Hcache2 : panda_current_interrupt_request s2
                        = match c with
                          | call_interrupt_request _ v => to_int32 v
                          | _ => panda_current_interrupt_request s
                          end).
      { subst s2. rewrite cache_written. now rewrite Hcache1. }
      rewrite Hcache2 in Hitems, Hcache.
      assert (Hcur : current_item l2 = e) by (subst l2; destruct l; reflexivity).
      rewrite ?Hcur.
      repeat split.
      * now rewrite Hitems.
      * constructor; [|assumption]. unfold writable. now rewrite Hw.
      * exact Hcache.
      * exists l3. rewrite log_bytes_cons. unfold wire_or_nil. rewrite Hw.
        now rewrite app_assoc.
    + subst s2.
      rewrite (bind_ok _ _ _ _ _ (the_log_ok s1 l (proj1 (proj2 Hrec1))))
        in Hrun.
      apply bind_inv in Hrun. destruct Hrun as (items' & s3 & Hrest & Hret).
      rewrite Z.eqb_refl in Hret. injection Hret as <- <-.
      destruct (IH s1 l before items' s3 Hrec1 Hrest)
        as (Hitems & Hwritable & Hcache & l3 & Hrec3).
      rewrite Hcache1 in Hitems, Hcache.
      repeat split; try assumption. now exists l3.
Qed.

Lemma length_header_wire e : length (header_wire e) = 32%nat.
Proof. unfold header_wire. now autorewrite with rr_len. Qed.

Lemma item_wire_length e bs :
  item_wire e = Some bs -> (32 <= length bs)%nat.
Proof.
  unfold item_wire.
  destruct (variant_wire (variant e)) as [v|]; [|discriminate].
  intros H. assert (bs = header_wire e ++ v) as -> by congruence.
  rewrite length_app, length_header_wire. lia.
Qed.

Lemma replaying_read s l before bs rest r :
  replaying s l before (bs ++ rest) ->
  replaying
    (set_recycle_list r
       (set_rr_nondet_log (Some (log_read bs before rest l)) s))
    (log_read bs before rest l) (before ++ bs) rest.
Proof.
  intros (Hm & Hl & Hty & Hf & Hbr & Hsz & Hlt).
  unfold replaying, log_read.
  destruct s, l.
  cbn [rr_mode rr_nondet_log log_type fp bytes_read log_size
       set_recycle_list set_rr_nondet_log] in *.
  subst. rewrite ?length_app in *. repeat split; try assumption; lia.
Qed.

Lemma rr_log_is_empty_replaying s l before after :
  replaying s l before after ->
  rr_log_is_empty s
  = Ok (match after with [] => true | _ => false end, s).
Proof.
  intros (Hm & Hl & Hty & Hf & Hbr & Hsz & Hlt).
  unfold rr_log_is_empty, bind, the_log, ret. rewrite Hl, Hty, Hsz, Hbr.
  destruct after as [|b after].
  - cbn [length]. rewrite Nat.add_0_r. now rewrite Z.eqb_refl.
  - replace (_ =? _) with false; [reflexivity|].
    symmetry. apply Z.eqb_neq. cbn [length]. lia.
Qed.

(** Reading back the bytes of a list of items. *)
Lemma rr_read_items_spec items :
  forall fuel s l before,
    replaying s l before (log_bytes items) ->
    Forall writable items -> Forall typed_entry items ->
    Forall (fun e => short_name (variant e)) items ->
    (length items < fuel)%nat ->
    exists entries s' l',
      rr_read_items fuel s = Ok (entries, s')
      /\ map payload entries = map payload items
      /\ replaying s' l' (before ++ log_bytes items) []
      /\ last_prog_point l' = last_prog_point l.
Proof.
  induction items as [|e items IH];
    intros fuel s l before Hrep Hw Hty Hsh Hfuel.
  - destruct fuel as [|fuel]; [cbn in Hfuel; lia|].
    cbn [rr_read_items].
    rewrite (bind_ok _ _ _ _ _ (rr_log_is_empty_replaying _ _ _ _ Hrep)).
    cbn [log_bytes flat_map] in *. exists [], s, l.
    rewrite app_nil_r. split; [reflexivity|]. split; [reflexivity|].
    split; [exact Hrep|reflexivity].
  - destruct fuel as [|fuel]; [cbn in Hfuel; lia|].
    inversion Hw as [|? ? Hwe Hw']; subst.
    inversion Hty as [|? ? Htye Hty']; subst.
    inversion Hsh as [|? ? Hshe Hsh']; subst.
    unfold writable in Hwe.
    destruct (item_wire e) as [bs|] eqn:Hbs; [|congruence].
    rewrite log_bytes_cons in *. unfold wire_or_nil in *. rewrite Hbs in *.
    pose proof (item_wire_length e bs Hbs) as Hlen.
    cbn [rr_read_items].
    rewrite (bind_ok _ _ _ _ _ (rr_log_is_empty_replaying _ _ _ _ Hrep)).
    assert (Hne : match bs ++ log_bytes items with
                  | [] => true | _ => false end = false).
    { destruct bs; [cbn in Hlen; lia|reflexivity]. }
    rewrite Hne.
    rewrite (bind_ok _ _ _ _ _
               (rr_read_item_spec s l before (log_bytes items) e bs
                  Hrep Hbs Htye Hshe)).
    pose proof (replaying_read s l before bs (log_bytes items)
                  (tl (recycle_list s)) Hrep) as Hrep1.
    destruct (IH fuel _ _ _ Hrep1 Hw' Hty' Hsh' ltac:(cbn in Hfuel; lia))
      as (entries & s' & l' & Hread & Hpay & Hrep' & Hlpp).
    rewrite (bind_ok _ _ _ _ _ Hread).
    exists (decoded (Z.of_nat (length before)) e :: entries), s', l'.
    split; [reflexivity|]. split; [|split].
    + cbn [map]. rewrite Hpay.
      now rewrite (payload_decoded _ e bs Hbs Htye Hshe).
    + now rewrite app_assoc.
    + rewrite Hlpp. destruct l. reflexivity.
Qed.

Lemma rr_do_begin_record_spec s0 :
  exists s1 l1,
    rr_do_begin_record s0 = Ok (tt, s1)
    /\ recording s1 l1 (prog_point_bytes zero_prog_point)
    /\ panda_current_interrupt_request s1
       = panda_current_interrupt_request s0
    /\ rr_queue s1 = rr_queue s0.
Proof.
  destruct s0. eexists. eexists. split; [reflexivity|].
  repeat split.
Qed.

Lemma item_wire_last pp :
  item_wire (last_entry pp) = Some (header_wire (last_entry pp)).
Proof. unfold item_wire. cbn. now rewrite app_nil_r. Qed.

Lemma typed_last_entry pp :
  typed_prog_point pp -> is_u32 RR_CALLSITE_LAST ->
  typed_entry (last_entry pp).
Proof. intros Hpp Hcs. repeat split; try apply Hpp; apply Hcs. Qed.

(** Ending a record session: the marker is appended, the first 24 bytes of
    the file are overwritten with the program point of the marker, the log
    is closed and released. *)
Lemma rr_do_end_record_spec s l before :
  recording s l before ->
  exists s',
    rr_do_end_record s = Ok (tt, s')
    /\ rr_disk s'
       = prog_point_bytes (prog_point_of s)
         ++ skipn 24 (before ++ header_wire (last_entry (prog_point_of s)))
    /\ rr_nondet_log s' = None
    /\ rr_mode s' = RR_OFF
    /\ panda_current_interrupt_request s'
       = panda_current_interrupt_request s
    /\ rr_queue s' = rr_queue s.
Proof.
  intros Hrec.
  assert (Hend : rr_record_end_of_log s
                 = Ok (tt, set_rr_nondet_log
                             (Some (log_written
                                      (header_wire
                                         (last_entry (prog_point_of s)))
                                      before
                                      (set_current_item
                                         (last_entry (prog_point_of s)) l)))
                             s)).
  { unfold rr_record_end_of_log.
    erewrite bind_ok by (apply store_current_item_ok; apply Hrec).
    fold (last_entry (prog_point_of s)).
    pose proof (rr_write_item_spec _ _ _
                  (recording_set_current_item s l before
                     (last_entry (prog_point_of s)) Hrec)) as Hspec.
    replace (current_item (set_current_item _ l))
      with (last_entry (prog_point_of s)) in Hspec
      by (destruct l; reflexivity).
    rewrite item_wire_last in Hspec. rewrite Hspec.
    now rewrite set_rr_nondet_log_twice. }
  unfold rr_do_end_record. rewrite (bind_ok _ _ _ _ _ Hend).
  destruct Hrec as (Hm & Hl & Hf & Hty).
  destruct s, l. cbn in Hm, Hl, Hf, Hty. subst.
  eexists. split; [reflexivity|].
  repeat split.
  norm_state. unfold log_written, f_contents, f_put, rewind, f_contents.
  cbn [fp log_type last_prog_point current_item set_current_item f_before
       f_after header prog_point last_entry app].
  now rewrite length_prog_point_bytes, app_nil_r.
Qed.

Lemma length_items_le items :
  Forall writable items -> (length items <= length (log_bytes items))%nat.
Proof.
  induction 1 as [|e items He _ IH]; [apply Nat.le_refl|].
  rewrite log_bytes_cons, length_app. cbn [length].
  unfold writable in He. unfold wire_or_nil.
  destruct (item_wire e) as [bs|] eqn:Hbs; [|congruence].
  pose proof (item_wire_length e bs Hbs). lia.
Qed.

(** Opening a file for replay and decoding all of it. *)
Lemma rr_read_log_spec s pph items :
  rr_disk s = prog_point_bytes pph ++ log_bytes items ->
  Z.of_nat (length (rr_disk s)) < 2 ^ 64 ->
  Forall writable items -> Forall typed_entry items ->
  Forall (fun e => short_name (variant e)) items ->
  exists entries s' l',
    rr_read_log s = Ok (entries, s')
    /\ map payload entries = map payload items
    /\ replaying s' l' (rr_disk s) []
    /\ last_prog_point l' = prog_point_of_bytes (prog_point_bytes pph).
Proof.
  intros Hdisk Hsize Hw Hty Hsh.
  set (l0 := mk_log REPLAY (Some (mk_FILE [] (rr_disk s))) zero_prog_point 0
                    (Z.of_nat (length (rr_disk s))) 0 zero_entry).
  set (l1 := set_last_prog_point
               (prog_point_of_bytes (prog_point_bytes pph))
               (set_bytes_read 24
                  (set_fp (Some (mk_FILE (prog_point_bytes pph)
                                         (log_bytes items))) l0))).
  set (s1 := set_rr_mode RR_REPLAY (set_rr_nondet_log (Some l1) s)).
  assert (Hcreate : (rr_create_replay_log ;; modify (set_rr_mode RR_REPLAY))
                      s = Ok (tt, s1)).
  { unfold rr_create_replay_log. rewrite !bind_bind.
    erewrite bind_ok by reflexivity.
    rewrite !bind_bind.
    erewrite bind_ok by reflexivity. fold l0.
    rewrite !bind_bind.
    erewrite bind_ok.
    2:{ apply rr_fread_spec with (l := l0) (before := [])
          (data := prog_point_bytes pph) (rest := log_bytes items).
        - apply rr_nondet_log_set_rr_nondet_log.
        - subst l0. cbn [fp]. now rewrite Hdisk.
        - now rewrite length_prog_point_bytes.
        - discriminate. }
    erewrite bind_ok
      by (apply modify_log_ok; apply rr_nondet_log_set_rr_nondet_log).
    unfold modify. subst s1 l1.
    rewrite !set_rr_nondet_log_twice. reflexivity. }
  assert (Hrep : replaying s1 l1 (prog_point_bytes pph) (log_bytes items)).
  { subst s1 l1 l0. destruct s. cbn in Hdisk, Hsize |- *.
    unfold replaying. cbn. rewrite Hdisk in *.
    rewrite length_app in *. rewrite length_prog_point_bytes in *.
    repeat split; try reflexivity; assumption. }
  unfold rr_read_log. rewrite <- bind_bind.
  rewrite (bind_ok _ _ _ _ _ Hcreate).
  erewrite bind_ok by reflexivity.
  assert (Hunread : unread_bytes s1 = length (log_bytes items)).
  { subst s1 l1 l0. destruct s. reflexivity. }
  rewrite Hunread.
  destruct (rr_read_items_spec items (S (length (log_bytes items))) s1 l1
              (prog_point_bytes pph) Hrep Hw Hty Hsh)
    as (entries & s' & l' & Hread & Hpay & Hrep' & Hlpp).
  { pose proof (length_items_le items Hw). lia. }
  exists entries, s', l'. rewrite Hdisk.
  split; [exact Hread|]. split; [exact Hpay|]. split; [exact Hrep'|].
  rewrite Hlpp. subst l1 l0. reflexivity.
Qed.

Lemma log_bytes_app a b : log_bytes (a ++ b) = log_bytes a ++ log_bytes b.
Proof. apply flat_map_app. Qed.

Lemma log_bytes_last pp :
  log_bytes [last_entry pp] = header_wire (last_entry pp).
Proof.
  cbn [log_bytes flat_map]. unfold wire_or_nil.
  rewrite item_wire_last. apply app_nil_r.
Qed.

(** A whole record session. *)
Lemma record_session_spec calls pp_end s0 items s1 :
  record_session calls pp_end s0 = Ok (items, s1) ->
  items = recorded_items (panda_current_interrupt_request s0) calls
  /\ Forall writable items
  /\ rr_disk s1
     = prog_point_bytes pp_end ++ log_bytes (items ++ [last_entry pp_end])
  /\ rr_nondet_log s1 = None
  /\ rr_mode s1 = RR_OFF
  /\ panda_current_interrupt_request s1
     = cache_after (panda_current_interrupt_request s0) calls.
Proof.
  unfold record_session. intros Hses.
  destruct (rr_do_begin_record_spec s0) as (sb & lb & Hbegin & Hrecb & Hcb
                                            & _).
  rewrite (bind_ok _ _ _ _ _ Hbegin) in Hses.
  apply bind_inv in Hses. destruct Hses as (items' & sr & Hrun & Hses).
  destruct (run_record_spec calls sb lb _ items' sr Hrecb Hrun)
    as (Hitems & Hwr & Hcache & lr & Hrecr).
  destruct (recording_cpu_at sr lr _ pp_end Hrecr) as (Hcpu & Hrece & Hpp).
  rewrite (bind_ok _ _ _ _ _ Hcpu) in Hses.
  destruct (rr_do_end_record_spec _ _ _ Hrece)
    as (se & Hend & Hdisk & Hlog & Hmode & Hce & _).
  rewrite (bind_ok _ _ _ _ _ Hend) in Hses.
  injection Hses as <- <-.
  rewrite Hpp in Hdisk. rewrite Hcb in Hitems, Hcache.
  repeat split; try assumption.
  - rewrite Hdisk. f_equal.
    rewrite <- app_assoc.
    rewrite skipn_app_exact by apply length_prog_point_bytes.
    now rewrite log_bytes_app, log_bytes_last.
  - rewrite Hce. destruct sr. exact Hcache.
Qed.

Lemma recorded_items_typed calls :
  forall cache,
    typed_calls calls ->
    Forall typed_entry (recorded_items cache calls)
    /\ Forall (fun e => short_name (variant e)) (recorded_items cache calls).
Proof.
  induction calls as [|[pp c] calls IH]; intros cache Hty.
  - split; constructor.
  - inversion Hty as [|? ? [Hpp Hc] Hty']; subst. cbn [fst snd] in *.
    cbn [recorded_items].
    destruct (call_writes cache c); [|now apply IH].
    destruct (variant_of_call c) as [v|] eqn:Hv; [|split; constructor].
    destruct (typed_item_of_call pp c v Hpp Hc Hv) as (Hte & Hsn).
    destruct (IH (match c with
                  | call_interrupt_request _ v0 => to_int32 v0
                  | _ => cache
                  end) Hty') as (H1 & H2).
    split; constructor; assumption.
Qed.

Lemma kind_payload e : kind (payload e) = kind e.
Proof. destruct e as [hd v]. destruct v; reflexivity. Qed.

(** The calls of a session, up to its end. *)
Lemma record_calls_spec calls s0 items sr :
  (rr_do_begin_record ;; run_record calls) s0 = Ok (items, sr) ->
  items = recorded_items (panda_current_interrupt_request s0) calls
  /\ Forall writable items
  /\ exists lr,
      recording sr lr (prog_point_bytes zero_prog_point ++ log_bytes items).
Proof.
  intros Hses.
  destruct (rr_do_begin_record_spec s0) as (sb & lb & Hbegin & Hrecb & Hcb
                                            & _).
  rewrite (bind_ok _ _ _ _ _ Hbegin) in Hses.
  destruct (run_record_spec calls sb lb _ items sr Hrecb Hses)
    as (Hitems & Hwr & Hcache & lr & Hrecr).
  rewrite Hcb in Hitems. repeat split; try assumption. now exists lr.
Qed.

Lemma record_session_ok calls pp_end s0 items sr s1 :
  (rr_do_begin_record ;; run_record calls) s0 = Ok (items, sr) ->
  (cpu_at pp_end ;; rr_do_end_record) sr = Ok (tt, s1) ->
  record_session calls pp_end s0 = Ok (items, s1).
Proof.
  unfold record_session. intros Hrun Hend.
  apply bind_inv in Hrun. destruct Hrun as (u & sb & Hb & Hrun).
  rewrite (bind_ok _ _ _ _ _ Hb), (bind_ok _ _ _ _ _ Hrun).
  apply bind_inv in Hend. destruct Hend as (u' & sc & Hc & Hend).
  rewrite (bind_ok _ _ _ _ _ Hc), (bind_ok _ _ _ _ _ Hend).
  destruct u. reflexivity.
Qed.

Lemma recorded_items_not_last cache calls :
  Forall (fun e => kind e <> RR_LAST) (recorded_items cache calls).
Proof.
  revert cache. induction calls as [|[pp c] calls IH]; intros cache.
  - constructor.
  - cbn [recorded_items]. destruct (call_writes cache c); [|apply IH].
    destruct (variant_of_call c) as [v|] eqn:Hv; [|constructor].
    constructor; [|apply IH].
    destruct c; cbn in Hv; try (injection Hv as <-; discriminate).
    destruct name as [m|]; [|discriminate].
    destruct (strlen_bytes m); [|discriminate].
    injection Hv as <-. discriminate.
Qed.

Lemma payload_last e pp :
  payload e = payload (last_entry pp) ->
  kind e = RR_LAST /\ prog_point (header e) = pp
  /\ callsite_loc (header e) = RR_CALLSITE_LAST.
Proof.
  destruct e as [[p f c] v]. unfold payload, last_entry. cbn.
  destruct v; try discriminate; intros [= -> ->]; repeat split.
Qed.

(** Without an open log a capture function writes nothing. *)
Lemma do_record_call_closed c s u s' :
  rr_nondet_log s = None -> do_record_call c s = Ok (u, s') -> s' = s.
Proof.
  intros Hl.
  assert (Hstore : forall cs v k,
             bind (store_current_item cs v) k s
             = @Abort (unit * rr_state) null_pointer).
  { intros. unfold store_current_item, modify_log, bind, the_log.
    now rewrite Hl. }
  destruct c; cbn [do_record_call];
    try (unfold rr_record_debug, rr_record_input_1, rr_record_input_2,
           rr_record_input_4, rr_record_input_8, rr_record_cpu_mem_rw_call,
           rr_record_cpu_mem_unmap, rr_record_hd_transfer,
           rr_record_net_transfer, rr_record_handle_packet_call;
         rewrite Hstore; discriminate).
  - unfold rr_record_interrupt_request, bind, get.
    destruct (negb _).
    + unfold modify_log, bind, the_log. rewrite Hl. discriminate.
    + now intros [= _ <-].
  - unfold rr_record_exit_request.
    destruct (negb _).
    + rewrite Hstore. discriminate.
    + now intros [= _ <-].
  - unfold rr_record_memory_region_change, modify_log, bind, the_log.
    rewrite Hl. discriminate.
Qed.

(* ------------------------------------------------------------------------- *)
(** ** Compaction on the record side *)

Lemma write_current_item_ok s l before e bs :
  recording s l before -> item_wire e = Some bs ->
  rr_write_item (set_rr_nondet_log (Some (set_current_item e l)) s)
  = Ok (tt, set_rr_nondet_log
              (Some (log_written bs before (set_current_item e l))) s).
Proof.
  intros Hrec Hw.
  pose proof (rr_write_item_spec _ _ _
                (recording_set_current_item s l before e Hrec)) as H.
  replace (current_item (set_current_item e l)) with e in H
    by (destruct l; reflexivity).
  rewrite Hw in H. rewrite H. now rewrite set_rr_nondet_log_twice.
Qed.

Lemma item_wire_interrupt pp cs v :
  item_wire (interrupt_item pp cs v)
  = Some (header_wire (interrupt_item pp cs v) ++ u32_bytes v).
Proof. reflexivity. Qed.


Lemma open_file_bytes_recording s l before :
  recording s l before -> open_file_bytes s = before.
Proof.
  intros (Hm & Hl & Hf & Hty). unfold open_file_bytes, f_contents.
  rewrite Hl, Hf. cbn. apply app_nil_r.
Qed.

Lemma rr_record_interrupt_request_spec s l before cs v :
  recording s l before ->
  rr_record_interrupt_request cs v s
  = Ok (tt,
        if to_uint32 (panda_current_interrupt_request s) =? v then s
        else set_rr_nondet_log
               (Some (log_written
                        (header_wire (interrupt_item (prog_point_of s) cs v)
                         ++ u32_bytes v) before
                        (set_current_item
                           (interrupt_item (prog_point_of s) cs v) l)))
               (set_panda_current_interrupt_request (to_int32 v) s)).
Proof.
  intros Hrec. unfold rr_record_interrupt_request.
  erewrite bind_ok by reflexivity.
  destruct (to_uint32 (panda_current_interrupt_request s) =? v);
    [reflexivity|]. cbn [negb].
  set (e := interrupt_item (prog_point_of s) cs v).
  set (s1 := set_panda_current_interrupt_request (to_int32 v) s).
  assert (Hrec1 : recording s1 l before).
  { destruct Hrec as (Hm & Hl & Hf & Hty). subst s1. destruct s. cbn in *.
    repeat split; assumption. }
  transitivity (rr_write_item
                  (set_rr_nondet_log (Some (set_current_item e l)) s1)).
  - destruct Hrec as (Hm & Hl & Hf & Hty). subst s1 e.
    destruct s, l. cbn in Hm, Hl, Hf, Hty. subst. reflexivity.
  - apply (write_current_item_ok s1 l before e _ Hrec1
             (item_wire_interrupt _ _ _)).
Qed.


Lemma compacted_no_repeat prev vs : compacted prev vs -> no_repeat vs.
Proof.
  revert prev. induction vs as [|v vs IH]; intros prev Hc i a b Ha Hb.
  - destruct i; discriminate.
  - destruct Hc as (_ & Hc). destruct i as [|i].
    + cbn in Ha. injection Ha as <-. destruct vs as [|w vs]; [discriminate|].
      cbn in Hb. injection Hb as <-. destruct Hc as (Hne & _). congruence.
    + cbn in Ha. exact (IH v Hc i a b Ha Hb).
Qed.

Lemma interrupt_values_cons e es :
  interrupt_values (e :: es)
  = match variant e with
    | interrupt_request v => [v]
    | _ => []
    end ++ interrupt_values es.
Proof. reflexivity. Qed.

(** The interrupt entries of a session are transitions of the word. *)
Lemma recorded_items_compacted calls :
  forall cache,
    typed_calls calls ->
    compacted (to_uint32 cache)
              (interrupt_values (recorded_items cache calls)).
Proof.
  induction calls as [|[pp c] calls IH]; intros cache Hty; [exact I|].
  inversion Hty as [|? ? [Hpp Hc] Hty']; subst. cbn [fst snd] in *.
  cbn [recorded_items].
  destruct (call_writes cache c) eqn:Hwr; [|now apply IH].
  destruct (variant_of_call c) as [v|] eqn:Hv; [|exact I].
  rewrite interrupt_values_cons. cbn [variant].
  destruct c; cbn [variant_of_call] in Hv;
    try (injection Hv as <-; cbn [app]; now apply IH).
  - injection Hv as <-. cbn [app compacted].
    cbn [call_writes] in Hwr. cbn [typed_call] in Hc.
    split.
    + apply negb_true_iff, Z.eqb_neq in Hwr. congruence.
    + specialize (IH (to_int32 v0) Hty').
      rewrite to_uint32_to_int32, to_uint32_small in IH by apply Hc.
      exact IH.
  - destruct name as [m|]; [|discriminate].
    destruct (strlen_bytes m); [|discriminate].
    injection Hv as <-. cbn [app]. now apply IH.
Qed.

Lemma interrupt_values_payload es1 es2 :
  map payload es1 = map payload es2 ->
  interrupt_values es1 = interrupt_values es2.
Proof.
  revert es2. induction es1 as [|e1 es1 IH]; intros [|e2 es2] H;
    try discriminate; [reflexivity|].
  cbn [map] in H.
  pose proof (f_equal (hd (payload e1)) H) as Hhd.
  pose proof (f_equal (@tl _) H) as Htl. cbn [hd tl] in Hhd, Htl.
  rewrite !interrupt_values_cons, (IH es2 Htl). f_equal.
  destruct e1 as [h1 v1], e2 as [h2 v2]. unfold payload in Hhd.
  cbn [variant header] in *.
  destruct v1, v2; try reflexivity;
    try (apply (f_equal variant) in Hhd; cbn [variant] in Hhd;
         congruence).
Qed.

Lemma interrupt_values_app a b :
  interrupt_values (a ++ b) = interrupt_values a ++ interrupt_values b.
Proof. apply flat_map_app. Qed.

(** Ending a session and decoding its file. *)
Lemma session_decode calls pp_end s0 items sr :
  typed_calls calls -> typed_prog_point pp_end -> is_u32 RR_CALLSITE_LAST ->
  (rr_do_begin_record ;; run_record calls) s0 = Ok (items, sr) ->
  Z.of_nat (24 + length (log_bytes items) + 32) < 2 ^ 64 ->
  items = recorded_items (panda_current_interrupt_request s0) calls
  /\ exists s1 entries s2,
      (cpu_at pp_end ;; rr_do_end_record) sr = Ok (tt, s1)
      /\ rr_read_log s1 = Ok (entries, s2)
      /\ map payload entries = map payload (items ++ [last_entry pp_end]).
Proof.
  intros Hcalls Hpp Hcs Hrun Hsize.
  destruct (record_calls_spec calls s0 items sr Hrun)
    as (Hitems & Hwr & lr & Hrecr).
  split; [exact Hitems|].
  destruct (recording_cpu_at sr lr _ pp_end Hrecr) as (Hcpu & Hrece & Hppe).
  destruct (rr_do_end_record_spec _ _ _ Hrece)
    as (s1 & Hend & Hdisk & Hlog & Hmode & _).
  rewrite Hppe in Hdisk.
  assert (Hdisk' : rr_disk s1 = prog_point_bytes pp_end
                               ++ log_bytes (items ++ [last_entry pp_end])).
  { rewrite Hdisk. f_equal. rewrite <- app_assoc.
    rewrite skipn_app_exact by apply length_prog_point_bytes.
    now rewrite log_bytes_app, log_bytes_last. }
  destruct (recorded_items_typed calls (panda_current_interrupt_request s0)
              Hcalls) as (Hty & Hsh).
  rewrite <- Hitems in Hty, Hsh.
  destruct (rr_read_log_spec s1 pp_end (items ++ [last_entry pp_end]) Hdisk')
    as (entries & s2 & l2 & Hread & Hpay & Hrep & Hlpp).
  - rewrite Hdisk', length_app, log_bytes_app, length_app, log_bytes_last.
    rewrite length_prog_point_bytes, length_header_wire. lia.
  - apply Forall_app. split; [exact Hwr|].
    constructor; [|constructor]. unfold writable.
    rewrite item_wire_last. discriminate.
  - apply Forall_app. split; [exact Hty|].
    constructor; [|constructor]. apply typed_last_entry; assumption.
  - apply Forall_app. split; [exact Hsh|].
    constructor; [exact I|constructor].
  - exists s1, entries, s2.
    split; [rewrite (bind_ok _ _ _ _ _ Hcpu); exact Hend|].
    split; assumption.
Qed.

(* ------------------------------------------------------------------------- *)
(** ** Rules of the partial-correctness triples *)

Section Rules.
Variable bad : rr_error -> Prop.

Lemma hoare_ret {A} (P : rr_state -> Prop) (a : A) Q :
  (forall s, P s -> Q a s) -> hoare bad P (ret a) Q.
Proof. intros H s Hs. cbn. auto. Qed.

Lemma hoare_bind {A B} P (m : M A) R (k : A -> M B) Q :
  hoare bad P m R -> (forall a, hoare bad (R a) (k a) Q) ->
  hoare bad P (bind m k) Q.
Proof.
  intros Hm Hk s Hs. unfold bind. specialize (Hm s Hs).
  destruct (m s) as [[a s']|e]; [|exact Hm]. now apply Hk.
Qed.

Lemma hoare_conseq {A} (P P' : rr_state -> Prop) (m : M A)
  (Q Q' : A -> rr_state -> Prop) :
  (forall s, P s -> P' s) -> hoare bad P' m Q' ->
  (forall a s, Q' a s -> Q a s) -> hoare bad P m Q.
Proof.
  intros HP Hm HQ s Hs. specialize (Hm s (HP s Hs)).
  destruct (m s) as [[a s']|e]; auto.
Qed.

Lemma hoare_fail {A} P e (Q : A -> rr_state -> Prop) :
  ~ bad e -> hoare bad P (fail e) Q.
Proof. intros H s _. exact H. Qed.

Lemma hoare_get P : hoare bad P get (fun a s => a = s /\ P s).
Proof. intros s Hs. cbn. auto. Qed.

Lemma hoare_modify (P : rr_state -> Prop) f (Q : unit -> rr_state -> Prop) :
  (forall s, P s -> Q tt (f s)) -> hoare bad P (modify f) Q.
Proof. intros H s Hs. cbn. auto. Qed.

Lemma hoare_assert (P : rr_state -> Prop) b a :
  ~ bad (assert_fail a) ->
  hoare bad P (rr_assert b a) (fun _ s => P s /\ b = true).
Proof. intros H s Hs. destruct b; cbn; auto. Qed.

Lemma hoare_the_log (P : rr_state -> Prop) :
  ~ bad null_pointer ->
  hoare bad P the_log (fun l s => P s /\ rr_nondet_log s = Some l).
Proof.
  intros H s Hs. unfold the_log.
  destruct (rr_nondet_log s) eqn:Hl; auto.
Qed.

Lemma hoare_bind_assoc {A B C} P (m : M A) (f : A -> M B) (g : B -> M C)
  Q :
  hoare bad P (bind m (fun a => bind (f a) g)) Q ->
  hoare bad P (bind (bind m f) g) Q.
Proof. intros H s Hs. rewrite bind_bind. now apply H. Qed.

Lemma hoare_bind_ret {A B} P (a : A) (k : A -> M B) Q :
  hoare bad P (k a) Q -> hoare bad P (bind (ret a) k) Q.
Proof. intros H s Hs. exact (H s Hs). Qed.

Lemma hoare_bind_fail {A B} P e (k : A -> M B) Q :
  ~ bad e -> hoare bad P (bind (fail e) k) Q.
Proof. intros H s Hs. exact H. Qed.

Lemma hoare_pre_false {A} (m : M A) Q : hoare bad (fun _ => False) m Q.
Proof. intros s []. Qed.

Lemma hoare_pre_prop {A} (X : Prop) (P : rr_state -> Prop) (m : M A) Q :
  (X -> hoare bad P m Q) -> hoare bad (fun s => P s /\ X) m Q.
Proof. intros H s [Hs HX]. now apply H. Qed.

End Rules.

Lemma never_null bad : never bad -> ~ bad null_pointer.
Proof. intros H Hb. destruct (H _ Hb); discriminate. Qed.

Lemma never_bounds bad : never bad -> ~ bad out_of_bounds.
Proof. intros H Hb. destruct (H _ Hb); discriminate. Qed.

Lemma never_aborted bad : never bad -> ~ bad aborted.
Proof. intros H Hb. destruct (H _ Hb); discriminate. Qed.

Lemma never_assert bad a :
  never bad -> a <> assert_queue_empty -> ~ bad (assert_fail a).
Proof. intros H Ha Hb. destruct (H _ Hb); congruence. Qed.

(* ------------------------------------------------------------------------- *)
(** ** The decoder reads forward and leaves the queue alone *)

Section Frame.
Variable bad : rr_error -> Prop.
Hypothesis Hbad : never bad.
Variable q : list RR_log_entry.
Variable u : nat.

Lemma frame_rr_in_replay k :
  hoare bad (frame q u k) rr_in_replay (fun _ => frame q u k).
Proof. intros s Hs. exact Hs. Qed.

Lemma frame_rr_log_is_empty k :
  hoare bad (frame q u k) rr_log_is_empty (fun _ => frame q u k).
Proof.
  intros s Hs. unfold rr_log_is_empty, bind, the_log.
  destruct (rr_nondet_log s); [exact Hs|apply (never_null _ Hbad)].
Qed.

Lemma frame_rr_assert k b a :
  a <> assert_queue_empty ->
  hoare bad (frame q u k) (rr_assert b a) (fun _ => frame q u k).
Proof.
  intros Ha s Hs. destruct b; [exact Hs|].
  now apply never_assert.
Qed.

Lemma frame_the_log k :
  hoare bad (frame q u k) the_log (fun _ => frame q u k).
Proof.
  intros s Hs. unfold the_log.
  destruct (rr_nondet_log s); [exact Hs|apply (never_null _ Hbad)].
Qed.

Lemma frame_set_log k s l l' :
  rr_nondet_log s = Some l ->
  (match fp l' with Some f => length (f_after f) | None => O end
   <= match fp l with Some f => length (f_after f) | None => O end)%nat ->
  frame q u k s -> frame q u k (set_rr_nondet_log (Some l') s).
Proof.
  unfold frame, unread_bytes. intros Hl Hle. rewrite Hl.
  destruct s. cbn [rr_queue rr_nondet_log set_rr_nondet_log] in *.
  intros [Hq Hu]. split; [exact Hq|]. lia.
Qed.

Lemma frame_modify_log k f :
  (forall l, fp (f l) = fp l) ->
  hoare bad (frame q u k) (modify_log f) (fun _ => frame q u k).
Proof.
  intros Hf s Hs. unfold modify_log, bind, the_log, modify.
  destruct (rr_nondet_log s) as [l|] eqn:Hl; [|apply (never_null _ Hbad)].
  apply (frame_set_log k s l (f l) Hl); [|exact Hs]. now rewrite Hf.
Qed.

Lemma frame_alloc_new_entry k :
  hoare bad (frame q u k) alloc_new_entry (fun _ => frame q u k).
Proof. intros s Hs. destruct s. exact Hs. Qed.

(** A read moves the position forward: by size * nmemb bytes when it
    succeeds with something to read. *)
Lemma frame_rr_fread k size nmemb :
  0 <= size ->
  hoare bad (frame q u k) (rr_fread size nmemb)
        (fun _ => frame q u (k + Z.to_nat (size * nmemb))).
Proof.
  intros Hsize s Hs. unfold rr_fread, bind, the_log.
  destruct (rr_nondet_log s) as [l|] eqn:Hl; [|apply (never_null _ Hbad)].
  destruct (fp l) as [f|] eqn:Hf; [|apply (never_null _ Hbad)].
  unfold fread.
  destruct ((size =? 0) || (nmemb =? 0)) eqn:Hz.
  - unfold modify_log, bind, the_log, modify, rr_assert. rewrite Hl.
    destruct (0 =? nmemb) eqn:Hn; [|apply never_assert; [exact Hbad|]];
      try discriminate.
    cbn [ret].
    apply Z.eqb_eq in Hn. subst nmemb. rewrite Z.mul_0_r.
    cbn [Z.to_nat]. rewrite Nat.add_0_r.
    eapply frame_set_log; [exact Hl| |exact Hs].
    cbn [fp set_bytes_read set_fp]. now rewrite Hf.
  - destruct (Z.leb_spec (size * nmemb) (Z.of_nat (length (f_after f))))
      as [Hle|Hgt].
    + unfold modify_log, bind, the_log, modify, rr_assert. rewrite Hl.
      rewrite Z.eqb_refl. cbn [ret].
      destruct Hs as [Hq Hu]. unfold frame, unread_bytes in *.
      rewrite Hl, Hf in Hu.
      destruct s.
      cbn [rr_queue rr_nondet_log set_rr_nondet_log fp set_bytes_read
           set_fp f_take snd f_after] in *.
      split; [exact Hq|]. rewrite length_skipn. lia.
    + unfold modify_log, bind, the_log, modify, rr_assert. rewrite Hl.
      destruct (Z.eqb_spec (Z.of_nat (length (f_after f)) / size) nmemb)
        as [Heq|Hne].
      * (* a short read returns fewer than nmemb members *)
        exfalso. apply orb_false_iff in Hz. destruct Hz as [Hz _].
        apply Z.eqb_neq in Hz.
        pose proof (Z.mul_div_le (Z.of_nat (length (f_after f))) size
                      ltac:(lia)) as Hd.
        rewrite Heq in Hd. lia.
      * apply never_assert; [exact Hbad|discriminate].
Qed.

Lemma frame_weaken k k' s : (k <= k')%nat -> frame q u k' s -> frame q u k s.
Proof. unfold frame. intros Hk [Hq Hu]. split; [exact Hq|lia]. Qed.

Lemma frame_rr_fread_mono k size nmemb :
  0 <= size ->
  hoare bad (frame q u k) (rr_fread size nmemb) (fun _ => frame q u k).
Proof.
  intros Hsize. eapply hoare_conseq;
    [|apply (frame_rr_fread k size nmemb Hsize)|].
  - auto.
  - intros a s. apply frame_weaken. lia.
Qed.

Ltac frame_auto :=
  repeat first
    [ progress cbv beta
    | apply hoare_ret; intros; assumption
    | lazymatch goal with
      | |- hoare _ _ (bind (bind _ _) _) _ => apply hoare_bind_assoc
      | |- hoare _ _ (bind (ret _) _) _ => apply hoare_bind_ret
      | |- hoare _ _ (bind (fail _) _) _ =>
          apply hoare_bind_fail;
          first [ apply (never_null _ Hbad)
                | apply (never_assert _ _ Hbad); discriminate ]
      | |- hoare _ _ (bind (match ?x with _ => _ end) _) _ => destruct x
      | |- hoare _ _ (bind (if ?x then _ else _) _) _ => destruct x
      end
    | apply hoare_fail;
      first [ apply (never_null _ Hbad)
            | apply (never_assert _ _ Hbad); discriminate ]
    | eapply hoare_bind;
      [ first [ apply frame_rr_fread_mono;
                first [ apply to_size_t_nonneg | discriminate ]
              | apply frame_modify_log; intros []; reflexivity
              | apply frame_alloc_new_entry
              | apply frame_rr_in_replay
              | apply frame_rr_log_is_empty
              | apply frame_the_log
              | apply frame_rr_assert; discriminate ]
      | intros ]
    | match goal with
      | |- hoare _ _ (match ?x with _ => _ end) _ => destruct x
      | |- hoare _ _ (if ?x then _ else _) _ => destruct x
      end ].

(** rr_read_item, when it returns, has read the 24 bytes of a program
    point at least, and has not touched the queue. *)
Lemma frame_rr_read_item :
  hoare bad (frame q u 0) rr_read_item (fun _ => frame q u 24).
Proof.
  unfold rr_read_item.
  eapply hoare_bind; [apply frame_rr_in_replay|intros].
  eapply hoare_bind; [apply frame_rr_assert; discriminate|intros].
  eapply hoare_bind; [apply frame_rr_log_is_empty|intros].
  eapply hoare_bind; [apply frame_rr_assert; discriminate|intros].
  eapply hoare_bind; [apply frame_the_log|intros].
  eapply hoare_bind; [apply frame_rr_assert; discriminate|intros].
  eapply hoare_bind;
    [apply (frame_rr_fread 0 sizeof_prog_point 1); discriminate|intros].
  unfold RR_READ_ITEM.
  frame_auto.
Qed.

End Frame.

(* ------------------------------------------------------------------------- *)
(** ** The fill loop *)

Lemma hoare_ok bad {A} (P : rr_state -> Prop) (m : M A) Q s a s' :
  hoare bad P m Q -> P s -> m s = Ok (a, s') -> Q a s'.
Proof. intros H Hs Hm. specialize (H s Hs). now rewrite Hm in H. Qed.

Lemma hoare_abort bad {A} (P : rr_state -> Prop) (m : M A) Q s e :
  hoare bad P m Q -> P s -> m s = Abort e -> ~ bad e.
Proof. intros H Hs Hm. specialize (H s Hs). now rewrite Hm in H. Qed.

Lemma never_none : never (fun _ => False).
Proof. intros e []. Qed.

Lemma never_fill_abort : never fill_abort.
Proof. intros e He. exact He. Qed.

Lemma rr_log_is_empty_inv s :
  match rr_log_is_empty s with
  | Ok (_, s') => s' = s
  | Abort e => e = null_pointer
  end.
Proof.
  unfold rr_log_is_empty, bind, the_log.
  now destruct (rr_nondet_log s).
Qed.

Lemma unread_bytes_set_rr_queue q s :
  unread_bytes (set_rr_queue q s) = unread_bytes s.
Proof. now destruct s. Qed.

Lemma rr_queue_set_rr_queue q s : rr_queue (set_rr_queue q s) = q.
Proof. now destruct s. Qed.

(** One pass of the loop: either the log is empty and nothing happens, or
    one entry of at least 24 bytes goes from the log to the end of the
    queue; the pass asks for another one unless the entry is a cutoff entry
    or the counter passes the cap. *)
Lemma rr_fill_queue_body_spec bad (Hbad : never bad) n s :
  match rr_fill_queue_body n s with
  | Ok (r, s') =>
      (rr_log_is_empty s = Ok (true, s) /\ s' = s /\ r = (false, n)) \/
      (rr_log_is_empty s = Ok (false, s) /\
       exists e,
         rr_queue s' = rr_queue s ++ [e] /\
         (unread_bytes s' + 24 <= unread_bytes s)%nat /\
         r = (negb (is_cutoff e || (n + 1 >? RR_MAX_QUEUE_LEN)), n + 1))
  | Abort e => ~ bad e
  end.
Proof.
  unfold rr_fill_queue_body, bind.
  pose proof (rr_log_is_empty_inv s) as He.
  destruct (rr_log_is_empty s) as [[b s0]|e0].
  2:{ subst e0. now apply never_null. }
  subst s0. destruct b; [now left|].
  pose proof (frame_rr_read_item bad Hbad (rr_queue s) (unread_bytes s) s)
    as Hr.
  assert (Hfr : frame (rr_queue s) (unread_bytes s) 0 s)
    by (split; [reflexivity|lia]).
  specialize (Hr Hfr).
  destruct (rr_read_item s) as [[e s1]|e1]; [|exact Hr].
  destruct Hr as [Hq Hu]. unfold modify.
  fold (is_cutoff e).
  assert (Hres :
    (rr_queue (set_rr_queue (rr_queue s1 ++ [e]) s1) = rr_queue s ++ [e] /\
     (unread_bytes (set_rr_queue (rr_queue s1 ++ [e]) s1) + 24
      <= unread_bytes s)%nat)).
  { rewrite rr_queue_set_rr_queue, unread_bytes_set_rr_queue, Hq.
    split; [reflexivity|lia]. }
  destruct (is_cutoff e || (n + 1 >? RR_MAX_QUEUE_LEN)) eqn:Hc;
    cbn [ret]; right; (split; [reflexivity|]);
    exists e; rewrite Hc; tauto.
Qed.

(** The whole loop from the counter [n] and the state [s]: it does not run
    out of fuel when the fuel exceeds the number of unread bytes. *)
Lemma rr_fill_queue_loop_spec bad (Hbad : never bad) fuel : forall n s,
  (unread_bytes s < fuel)%nat ->
  match rr_fill_queue_loop fuel n s with
  | Ok (n', s') =>
      exists front,
        rr_queue s' = rr_queue s ++ front /\
        n' = n + Z.of_nat (length front) /\
        (unread_bytes s' + 24 * length front <= unread_bytes s)%nat /\
        queue_ok front /\
        (n <= RR_MAX_QUEUE_LEN -> n' <= RR_MAX_QUEUE_LEN + 1) /\
        (rr_log_is_empty s' = Ok (true, s') \/
         exists front' e, front = front' ++ [e] /\
                          (is_cutoff e = true \/ RR_MAX_QUEUE_LEN < n'))
  | Abort e => ~ bad e
  end.
Proof.
  induction fuel as [|fuel IH]; intros n s Hf; [lia|].
  cbn [rr_fill_queue_loop]. unfold bind at 1.
  pose proof (rr_fill_queue_body_spec bad Hbad n s) as Hb.
  destruct (rr_fill_queue_body n s) as [[r s1]|e]; [|exact Hb].
  destruct Hb as [(He & -> & ->)|(He & e & Hq & Hu & ->)].
  - cbn [fst snd ret]. exists []. rewrite app_nil_r, Z.add_0_r.
    cbn [length]. repeat split; try lia; [constructor|now left].
  - cbn [fst snd].
    destruct (is_cutoff e || (n + 1 >? RR_MAX_QUEUE_LEN)) eqn:Hc;
      cbn [negb ret].
    + exists [e]. cbn [length]. repeat split; try lia; [exact Hq|constructor|].
      right. exists [], e. split; [reflexivity|].
      apply orb_true_iff in Hc. destruct Hc as [Hc|Hc]; [now left|right].
      unfold RR_MAX_QUEUE_LEN in *. lia.
    + specialize (IH (n + 1) s1 ltac:(lia)).
      destruct (rr_fill_queue_loop fuel (n + 1) s1) as [[n' s']|e'];
        [|exact IH].
      destruct IH as (front & Hq' & Hn' & Hu' & Hok & Hle & Hstop).
      apply orb_false_iff in Hc. destruct Hc as [Hcut Hcap].
      exists (e :: front). cbn [length].
      repeat split.
      * rewrite Hq', Hq, <- app_assoc. reflexivity.
      * lia.
      * lia.
      * unfold queue_ok in *. destruct front as [|e2 front];
          [constructor|].
        cbn [removelast] in *. constructor; assumption.
      * intros _. apply Hle. unfold RR_MAX_QUEUE_LEN in *. lia.
      * destruct Hstop as [Hstop|(front' & e' & -> & Hstop)];
          [now left|right].
        exists (e :: front'), e'. split; [reflexivity|exact Hstop].
Qed.

Lemma queue_ok_nil : queue_ok [].
Proof. constructor. Qed.

Lemma rr_log_is_empty_set_max n s b :
  rr_log_is_empty s = Ok (b, s) ->
  rr_log_is_empty (set_rr_max_num_queue_entries n s)
  = Ok (b, set_rr_max_num_queue_entries n s).
Proof.
  unfold rr_log_is_empty, bind, the_log. destruct s.
  cbn [rr_nondet_log set_rr_max_num_queue_entries].
  destruct rr_nondet_log0; [|discriminate]. unfold ret.
  intros H. congruence.
Qed.

(** rr_fill_queue from an empty queue. *)
Lemma rr_fill_queue_spec bad (Hbad : never bad) s :
  rr_queue s = [] ->
  match rr_fill_queue s with
  | Ok (_, s') =>
      queue_ok (rr_queue s') /\
      (unread_bytes s' + 24 * length (rr_queue s') <= unread_bytes s)%nat /\
      Z.of_nat (length (rr_queue s')) <= RR_MAX_QUEUE_LEN + 1 /\
      (rr_log_is_empty s' = Ok (true, s') \/
       exists front e, rr_queue s' = front ++ [e] /\
         (is_cutoff e = true
          \/ RR_MAX_QUEUE_LEN < Z.of_nat (length (rr_queue s'))))
  | Abort e => ~ bad e
  end.
Proof.
  intros Hq. unfold rr_fill_queue, bind, get. rewrite Hq. cbn [rr_assert ret].
  pose proof (rr_fill_queue_loop_spec bad Hbad (S (unread_bytes s)) 0 s
                ltac:(lia)) as Hl.
  destruct (rr_fill_queue_loop (S (unread_bytes s)) 0 s) as [[n s1]|e];
    [|exact Hl].
  destruct Hl as (front & Hq1 & Hn & Hu & Hok & Hle & Hstop).
  rewrite Hq in Hq1. cbn [app] in Hq1. unfold modify.
  assert (Hn' : n = Z.of_nat (length (rr_queue s1)))
    by (rewrite Hq1; lia).
  assert (Hcap : Z.of_nat (length (rr_queue s1)) <= RR_MAX_QUEUE_LEN + 1).
  { rewrite <- Hn'. apply Hle. unfold RR_MAX_QUEUE_LEN. lia. }
  assert (Hstop' : rr_log_is_empty s1 = Ok (true, s1) \/
       exists front e, rr_queue s1 = front ++ [e] /\
         (is_cutoff e = true
          \/ RR_MAX_QUEUE_LEN < Z.of_nat (length (rr_queue s1)))).
  { destruct Hstop as [H|(f & e & -> & H)]; [now left|right].
    exists f, e. split; [exact Hq1|]. now rewrite <- Hn'. }
  destruct (n >? rr_max_num_queue_entries s1).
  - assert (Hqq : rr_queue (set_rr_max_num_queue_entries n s1) = rr_queue s1)
      by now destruct s1.
    assert (Huu : unread_bytes (set_rr_max_num_queue_entries n s1)
                  = unread_bytes s1) by now destruct s1.
    rewrite Hqq, Huu. repeat split.
    + now rewrite Hq1.
    + rewrite Hq1. lia.
    + exact Hcap.
    + destruct Hstop' as [H|H]; [left|now right].
      now apply rr_log_is_empty_set_max.
  - repeat split.
    + now rewrite Hq1.
    + rewrite Hq1. lia.
    + exact Hcap.
    + exact Hstop'.
Qed.

(** rr_fill_queue on a queue that holds something stops at its assertion. *)
Lemma rr_fill_queue_nonempty s :
  rr_queue s <> [] ->
  rr_fill_queue s = Abort (assert_fail assert_queue_empty).
Proof.
  intros Hq. unfold rr_fill_queue, bind, get.
  destruct (rr_queue s); [now elim Hq|reflexivity].
Qed.

(** The states at the head of the loop: the counter is the number of
    entries that were appended, none of them is a cutoff entry, and the
    counter has not passed the cap. *)
Lemma fill_reaches_inv n s n' s' :
  fill_reaches n s n' s' ->
  exists front,
    rr_queue s' = rr_queue s ++ front /\
    n' = n + Z.of_nat (length front) /\
    Forall (fun e => is_cutoff e = false) front /\
    (front <> [] -> n' <= RR_MAX_QUEUE_LEN).
Proof.
  induction 1 as [n s|n s n1 s1 n' s' Hb _ IH].
  - exists []. rewrite app_nil_r, Z.add_0_r. repeat split; auto.
    intros H. now elim H.
  - pose proof (rr_fill_queue_body_spec _ never_none n s) as Hs.
    rewrite Hb in Hs.
    destruct Hs as [(_ & _ & [=])|(_ & e & Hq & _ & Hr)].
    assert (Hc : is_cutoff e || (n + 1 >? RR_MAX_QUEUE_LEN) = false).
    { apply (f_equal fst) in Hr. cbn [fst] in Hr.
      now destruct (is_cutoff e || (n + 1 >? RR_MAX_QUEUE_LEN)). }
    assert (Hn1 : n1 = n + 1) by (apply (f_equal snd) in Hr; exact Hr).
    apply orb_false_iff in Hc. destruct Hc as [Hcut Hcap].
    destruct IH as (front & Hq' & Hn' & Hall & Hle).
    exists (e :: front). cbn [length]. repeat split.
    + rewrite Hq', Hq, <- app_assoc. reflexivity.
    + lia.
    + now constructor.
    + intros _. destruct front as [|e2 front].
      * cbn [length] in Hn'. unfold RR_MAX_QUEUE_LEN in *. lia.
      * apply Hle. discriminate.
Qed.

(* ------------------------------------------------------------------------- *)
(** ** The head of the queue *)

Lemma set_rr_queue_id s : set_rr_queue (rr_queue s) s = s.
Proof. now destruct s. Qed.

Lemma kind_eqb_eq a b : RR_log_entry_kind_eqb a b = true <-> a = b.
Proof. destruct a, b; cbn; split; intros H; congruence. Qed.

Lemma kind_eqb_refl a : RR_log_entry_kind_eqb a a = true.
Proof. now destruct a. Qed.

Lemma prog_point_of_set_rr_queue q s :
  prog_point_of (set_rr_queue q s) = prog_point_of s.
Proof. now destruct s. Qed.

(** get_next_entry once the queue holds something: the head of the visible
    queue is tested, and unlinked when it is due. *)
Lemma get_next_entry_nonempty k cs chk s :
  rr_queue s <> [] ->
  get_next_entry k cs chk s =
  match visible_queue k (rr_queue s) with
  | [] => Abort null_pointer
  | head :: rest =>
      let s2 := set_rr_queue (head :: rest) s in
      if guest_instr_count (prog_point (header head)) =? 0
      then
        if RR_log_entry_kind_eqb (kind head) k
           && negb (chk && negb (callsite_loc (header head) =? cs))
        then Ok (Some head, set_rr_queue rest s2)
        else Ok (None, s2)
      else
        match rr_prog_point_compare (prog_point_of s)
                (prog_point (header head)) k with
        | None => Abort aborted
        | Some c =>
            if (c =? 0) && RR_log_entry_kind_eqb (kind head) k
               && negb (chk && negb (callsite_loc (header head) =? cs))
            then Ok (Some head, set_rr_queue rest s2)
            else Ok (None, s2)
        end
  end.
Proof.
  intros Hq. unfold get_next_entry, visible_queue, skips_debug.
  unfold bind at 1. unfold get at 1.
  destruct (rr_queue s) as [|e0 q0] eqn:Hq0; [now elim Hq|].
  unfold bind at 1. unfold ret at 1. cbv iota beta.
  destruct (negb (RR_log_entry_kind_eqb k RR_INTERRUPT_REQUEST)
            && negb (RR_log_entry_kind_eqb k RR_SKIPPED_CALL)) eqn:Hk.
  - unfold bind at 1. unfold modify at 1. unfold bind at 1. unfold get at 1.
    rewrite rr_queue_set_rr_queue, Hq0.
    destruct (skip_debug_entries (e0 :: q0)) as [|head rest];
      [reflexivity|].
    unfold bind at 1.
    destruct (guest_instr_count (prog_point (header head)) =? 0).
    + unfold ret at 1. cbv iota beta. cbn [negb andb].
      destruct (RR_log_entry_kind_eqb (kind head) k); cbn [negb andb];
        [|reflexivity].
      destruct (chk && negb (callsite_loc (header head) =? cs));
        cbn [negb]; [reflexivity|].
      reflexivity.
    + unfold bind at 1. rewrite rr_prog_point_ok.
      rewrite prog_point_of_set_rr_queue.
      destruct (rr_prog_point_compare (prog_point_of s)
                  (prog_point (header head)) k) as [c|]; [|reflexivity].
      unfold ret at 1. cbv iota beta.
      destruct (c =? 0); cbn [negb andb]; [|reflexivity].
      destruct (RR_log_entry_kind_eqb (kind head) k); cbn [negb andb];
        [|reflexivity].
      destruct (chk && negb (callsite_loc (header head) =? cs));
        cbn [negb]; [reflexivity|].
      reflexivity.
  - unfold bind at 1. unfold ret at 1. unfold bind at 1. unfold get at 1.
    rewrite Hq0. cbv iota beta.
    replace (set_rr_queue (e0 :: q0) s) with s
      by (rewrite <- Hq0; symmetry; apply set_rr_queue_id).
    unfold bind at 1.
    destruct (guest_instr_count (prog_point (header e0)) =? 0).
    + unfold ret at 1. cbv iota beta. cbn [negb andb].
      destruct (RR_log_entry_kind_eqb (kind e0) k); cbn [negb andb];
        [|reflexivity].
      destruct (chk && negb (callsite_loc (header e0) =? cs));
        cbn [negb]; reflexivity.
    + unfold bind at 1. rewrite rr_prog_point_ok.
      destruct (rr_prog_point_compare (prog_point_of s)
                  (prog_point (header e0)) k) as [c|]; [|reflexivity].
      unfold ret at 1. cbv iota beta.
      destruct (c =? 0); cbn [negb andb]; [|reflexivity].
      destruct (RR_log_entry_kind_eqb (kind e0) k); cbn [negb andb];
        [|reflexivity].
      destruct (chk && negb (callsite_loc (header e0) =? cs));
        cbn [negb]; reflexivity.
Qed.

(** get_next_entry on an empty queue: the refill comes first. *)
Lemma get_next_entry_empty k cs chk s :
  rr_queue s = [] ->
  get_next_entry k cs chk s =
  match rr_fill_queue s with
  | Abort e => Abort e
  | Ok (_, s1) =>
      match rr_queue s1 with
      | [] => Ok (None, s1)
      | _ :: _ => get_next_entry k cs chk s1
      end
  end.
Proof.
  intros Hq.
  destruct (rr_fill_queue s) as [[[] s1]|e] eqn:Hf.
  - destruct (rr_queue s1) as [|e1 q1] eqn:Hq1.
    + unfold get_next_entry. unfold bind at 1. unfold get at 1. rewrite Hq.
      unfold bind at 1. unfold bind at 1. rewrite Hf.
      unfold bind at 1. unfold get at 1. unfold ret at 1. rewrite Hq1.
      reflexivity.
    + set (rhs := get_next_entry k cs chk s1).
      unfold get_next_entry. unfold bind at 1. unfold get at 1. rewrite Hq.
      unfold bind at 1. unfold bind at 1. rewrite Hf.
      unfold bind at 1. unfold get at 1. unfold ret at 1. rewrite Hq1.
      cbv iota beta.
      subst rhs. symmetry.
      unfold get_next_entry. unfold bind at 1. unfold get at 1.
      rewrite Hq1. unfold bind at 1. unfold ret at 1. reflexivity.
  - unfold get_next_entry. unfold bind at 1. unfold get at 1. rewrite Hq.
    unfold bind at 1. unfold bind at 1. rewrite Hf. reflexivity.
Qed.

(* ------------------------------------------------------------------------- *)
(** ** The queue discipline of the replay functions *)

Lemma skip_debug_entries_suffix q :
  exists dropped, q = dropped ++ skip_debug_entries q.
Proof.
  induction q as [|e q [dropped IH]]; [now exists []|].
  cbn [skip_debug_entries].
  destruct (RR_log_entry_kind_eqb (kind e) RR_DEBUG).
  - exists (e :: dropped). cbn [app]. now f_equal.
  - now exists [].
Qed.

Lemma visible_queue_suffix k q :
  exists dropped, q = dropped ++ visible_queue k q.
Proof.
  unfold visible_queue. destruct (skips_debug k);
    [apply skip_debug_entries_suffix|now exists []].
Qed.

Lemma queue_ok_app dropped q : queue_ok (dropped ++ q) -> queue_ok q.
Proof.
  unfold queue_ok. destruct q as [|e q]; [constructor|].
  rewrite removelast_app by discriminate.
  intros H. apply Forall_app in H. tauto.
Qed.

Lemma queue_ok_tail e q : queue_ok (e :: q) -> queue_ok q.
Proof. apply (queue_ok_app [e]). Qed.

Lemma queue_ok_cutoff_last e q :
  queue_ok (e :: q) -> is_cutoff e = true -> q = [].
Proof.
  unfold queue_ok. destruct q as [|e' q]; [reflexivity|].
  cbn [removelast]. intros H Hc. inversion H; congruence.
Qed.

Section Discipline.
Variable bad : rr_error -> Prop.
Hypothesis Hbad : never bad.

Lemma queue_inv_weaken n n' s :
  (n <= n')%nat -> queue_inv n s -> queue_inv n' s.
Proof. unfold queue_inv. intros Hn [Hq Hm]. split; [exact Hq|lia]. Qed.

Lemma queue_inv_set_rr_queue n q s :
  queue_ok q -> (length q + unread_bytes s <= n)%nat ->
  queue_inv n (set_rr_queue q s).
Proof.
  intros Hq Hn. unfold queue_inv.
  now rewrite rr_queue_set_rr_queue, unread_bytes_set_rr_queue.
Qed.

Lemma get_next_entry_inv_nonempty n k cs chk s :
  rr_queue s <> [] -> queue_inv n s ->
  match get_next_entry k cs chk s with
  | Ok (r, s') => got k cs chk n r s'
  | Abort e => ~ bad e
  end.
Proof.
  intros Hne [Hok Hn]. rewrite get_next_entry_nonempty by exact Hne.
  destruct (visible_queue_suffix k (rr_queue s)) as [dropped Hd].
  destruct (visible_queue k (rr_queue s)) as [|head rest];
    [now apply never_null|].
  rewrite Hd in Hok, Hn. rewrite length_app in Hn. cbn [length] in Hn.
  apply queue_ok_app in Hok.
  assert (Hnone : got k cs chk n None (set_rr_queue (head :: rest) s)).
  { apply queue_inv_set_rr_queue; [exact Hok|cbn [length]; lia]. }
  assert (Hsome : RR_log_entry_kind_eqb (kind head) k
                  && negb (chk && negb (callsite_loc (header head) =? cs))
                  = true ->
                  got k cs chk n (Some head)
                    (set_rr_queue rest (set_rr_queue (head :: rest) s))).
  { intros Hc. apply andb_true_iff in Hc. destruct Hc as [Hk Hcs].
    apply kind_eqb_eq in Hk. apply negb_true_iff in Hcs.
    cbn [got]. repeat split.
    - exact Hk.
    - intros ->. cbn [andb] in Hcs. apply negb_false_iff in Hcs.
      now apply Z.eqb_eq.
    - lia.
    - rewrite rr_queue_set_rr_queue. now apply queue_ok_tail in Hok.
    - rewrite rr_queue_set_rr_queue, !unread_bytes_set_rr_queue. lia.
    - intros Hcut. rewrite rr_queue_set_rr_queue.
      now apply (queue_ok_cutoff_last head). }
  cbv zeta.
  destruct (guest_instr_count (prog_point (header head)) =? 0).
  - destruct (RR_log_entry_kind_eqb (kind head) k
              && negb (chk && negb (callsite_loc (header head) =? cs)));
      auto.
  - destruct (rr_prog_point_compare (prog_point_of s)
                (prog_point (header head)) k) as [c|];
      [|now apply never_aborted].
    destruct (c =? 0); cbn [andb]; [|exact Hnone].
    destruct (RR_log_entry_kind_eqb (kind head) k
              && negb (chk && negb (callsite_loc (header head) =? cs)));
      auto.
Qed.

Lemma get_next_entry_inv n k cs chk :
  hoare bad (queue_inv n) (get_next_entry k cs chk) (got k cs chk n).
Proof.
  intros s Hs. destruct (rr_queue s) as [|e0 q0] eqn:Hq.
  - rewrite get_next_entry_empty by exact Hq.
    pose proof (rr_fill_queue_spec bad Hbad s Hq) as Hf.
    destruct (rr_fill_queue s) as [[[] s1]|e]; [|exact Hf].
    destruct Hf as (Hok & Hu & _).
    destruct Hs as [_ Hn]. rewrite Hq in Hn. cbn [length] in Hn.
    assert (Hs1 : queue_inv n s1) by (split; [exact Hok|lia]).
    destruct (rr_queue s1) as [|e1 q1] eqn:Hq1; [exact Hs1|].
    apply get_next_entry_inv_nonempty; [|exact Hs1].
    rewrite Hq1. discriminate.
  - apply get_next_entry_inv_nonempty; [|exact Hs].
    rewrite Hq. discriminate.
Qed.

Lemma queue_inv_add_to_recycle_list n e :
  hoare bad (queue_inv n) (add_to_recycle_list e) (fun _ => queue_inv n).
Proof. intros s Hs. destruct s. exact Hs. Qed.

Lemma queue_inv_host_do n e :
  hoare bad (queue_inv n) (host_do e) (fun _ => queue_inv n).
Proof. intros s Hs. destruct s. exact Hs. Qed.

Lemma queue_inv_rr_fill_queue n :
  hoare bad (fun s => queue_inv n s /\ rr_queue s = [])
        rr_fill_queue (fun _ => queue_inv n).
Proof.
  intros s [[_ Hn] Hq].
  pose proof (rr_fill_queue_spec bad Hbad s Hq) as Hf.
  destruct (rr_fill_queue s) as [[[] s1]|e]; [|exact Hf].
  destruct Hf as (Hok & Hu & _).
  rewrite Hq in Hn. cbn [length] in Hn. split; [exact Hok|lia].
Qed.

Lemma is_cutoff_interrupt e :
  kind e = RR_INTERRUPT_REQUEST -> is_cutoff e = true.
Proof.
  intros H. unfold is_cutoff. rewrite H. reflexivity.
Qed.

Lemma queue_inv_rr_replay_debug n cs :
  hoare bad (queue_inv n) (rr_replay_debug cs) (fun _ => queue_inv n).
Proof.
  intros s Hs. unfold rr_replay_debug. unfold bind at 1, get at 1.
  destruct (rr_queue s) as [|c rest] eqn:Hq; [exact Hs|].
  destruct (negb (RR_log_entry_kind_eqb (kind c) RR_DEBUG)); [exact Hs|].
  unfold bind at 1. rewrite rr_prog_point_ok.
  destruct (guest_instr_count (prog_point (header c))
            >? guest_instr_count (prog_point_of s)); [exact Hs|].
  unfold bind at 1, modify at 1.
  apply queue_inv_add_to_recycle_list.
  destruct Hs as [Hok Hn]. rewrite Hq in Hok, Hn. cbn [length] in Hn.
  apply queue_inv_set_rr_queue; [now apply queue_ok_tail in Hok|lia].
Qed.

Lemma queue_inv_got n k cs chk item s :
  got k cs chk n (Some item) s -> queue_inv n s.
Proof.
  intros (_ & _ & Hn & Hs & _). apply (queue_inv_weaken (pred n)); [lia|].
  exact Hs.
Qed.

Lemma queue_inv_rr_replay_input n k member cs :
  hoare bad (queue_inv n) (rr_replay_input k member cs)
        (fun _ => queue_inv n).
Proof.
  unfold rr_replay_input.
  eapply hoare_bind; [apply get_next_entry_inv|].
  intros [item|]; [|apply hoare_fail, never_assert; [exact Hbad|]];
    try discriminate.
  eapply hoare_conseq;
    [intros s Hs; exact (queue_inv_got _ _ _ _ _ _ Hs)| |intros a s Hs;
     exact Hs].
  eapply hoare_bind.
  { eapply hoare_conseq; [|apply hoare_assert|].
    - intros s Hs. exact Hs.
    - apply never_assert; [exact Hbad|discriminate].
    - intros a s [Hs _]. exact Hs. }
  intros ?. eapply hoare_bind; [apply queue_inv_add_to_recycle_list|].
  intros ?. apply hoare_ret. auto.
Qed.

Lemma queue_inv_rr_replay_exit_request n cs :
  hoare bad (queue_inv n) (rr_replay_exit_request cs)
        (fun _ => queue_inv n).
Proof.
  unfold rr_replay_exit_request.
  eapply hoare_bind; [apply get_next_entry_inv|].
  intros [item|]; [|apply hoare_ret; intros s Hs; exact Hs].
  eapply hoare_conseq;
    [intros s Hs; exact (queue_inv_got _ _ _ _ _ _ Hs)| |intros a s Hs;
     exact Hs].
  eapply hoare_bind.
  { eapply hoare_conseq; [|apply hoare_assert|].
    - intros s Hs. exact Hs.
    - apply never_assert; [exact Hbad|discriminate].
    - intros a s [Hs _]. exact Hs. }
  intros ?. eapply hoare_bind; [apply queue_inv_add_to_recycle_list|].
  intros ?. apply hoare_ret. auto.
Qed.

(** rr_replay_interrupt_request: the entry it takes is a cutoff entry, so
    the queue is empty when rr_fill_queue is called. *)
Lemma queue_inv_rr_replay_interrupt_request n cs :
  hoare bad (queue_inv n) (rr_replay_interrupt_request cs)
        (fun _ => queue_inv n).
Proof.
  unfold rr_replay_interrupt_request.
  eapply hoare_bind; [apply get_next_entry_inv|].
  intros [item|].
  - eapply hoare_bind with (R := fun _ => queue_inv n).
    + eapply hoare_conseq with
        (P' := fun s => queue_inv n s /\ rr_queue s = [])
        (Q' := fun _ => queue_inv n).
      * intros s Hs. split; [exact (queue_inv_got _ _ _ _ _ _ Hs)|].
        destruct Hs as (Hk & _ & _ & _ & He).
        apply He, is_cutoff_interrupt, Hk.
      * eapply hoare_bind with
          (R := fun _ s => queue_inv n s /\ rr_queue s = []).
        { intros s Hs. destruct s. exact Hs. }
        intros ?. eapply hoare_bind with
          (R := fun _ s => queue_inv n s /\ rr_queue s = []).
        { intros s Hs. destruct s. exact Hs. }
        intros ?. apply queue_inv_rr_fill_queue.
      * auto.
    + intros ?. intros s Hs. exact Hs.
  - eapply hoare_bind with (R := fun _ => queue_inv n).
    + apply hoare_ret. auto.
    + intros ?. intros s Hs. exact Hs.
Qed.

Lemma queue_inv_replay_skipped_call n args :
  hoare bad (queue_inv n) (replay_skipped_call args) (fun _ => queue_inv n).
Proof.
  unfold replay_skipped_call.
  destruct (call_variant args) as [a|a|a|a|a|a];
    try (apply hoare_fail, never_assert; [exact Hbad|discriminate]);
    try apply queue_inv_host_do.
  destruct (negb (mrc_added a =? 0)); apply queue_inv_host_do.
Qed.

(** The loop of rr_replay_skipped_calls_internal: every pass takes an entry
    from the queue, and a refill puts in no more entries than it reads
    bytes. *)
Lemma queue_inv_rr_replay_skipped_calls_loop cs fuel : forall n,
  (n < fuel)%nat ->
  hoare bad (queue_inv n) (rr_replay_skipped_calls_loop fuel cs)
        (fun _ => queue_inv n).
Proof.
  induction fuel as [|fuel IH]; intros n Hn; [lia|].
  cbn [rr_replay_skipped_calls_loop].
  eapply hoare_bind; [apply get_next_entry_inv|].
  intros [item|]; [|apply hoare_ret; intros s Hs; exact Hs].
  apply hoare_conseq with
    (P' := fun s => queue_inv (pred n) s /\ (0 < n)%nat)
    (Q' := fun _ => queue_inv (pred n)).
  { intros s (_ & _ & H0 & Hs & _). now split. }
  2:{ intros ? s. apply queue_inv_weaken. lia. }
  apply hoare_pre_prop. intros H0.
  eapply hoare_bind with (R := fun _ => queue_inv (pred n)).
  { destruct (variant item);
      try (apply hoare_fail, never_assert; [exact Hbad|discriminate]).
    apply queue_inv_replay_skipped_call. }
  intros ?. eapply hoare_bind; [apply queue_inv_add_to_recycle_list|].
  intros ?. eapply hoare_bind; [apply hoare_get|].
  intros s0. eapply hoare_bind with (R := fun _ => queue_inv (pred n)).
  - destruct ((cs =? RR_CALLSITE_MAIN_LOOP_WAIT)
              && match rr_queue s0 with [] => true | _ :: _ => false end)
      eqn:Hc.
    + eapply hoare_conseq;
        [|apply queue_inv_rr_fill_queue|intros ? ? H; exact H].
      intros s [-> Hs]. split; [exact Hs|].
      apply andb_true_iff in Hc. destruct Hc as [_ Hc].
      now destruct (rr_queue s).
    + apply hoare_ret. intros s [_ Hs]. exact Hs.
  - intros ?. apply IH. lia.
Qed.

Lemma queue_inv_rr_replay_skipped_calls_internal n cs :
  hoare bad (queue_inv n) (rr_replay_skipped_calls_internal cs)
        (fun _ => queue_inv n).
Proof.
  intros s Hs. unfold rr_replay_skipped_calls_internal.
  unfold bind at 1, get at 1.
  pose proof (queue_inv_rr_replay_skipped_calls_loop cs
                (S (length (rr_queue s) + unread_bytes s))
                (length (rr_queue s) + unread_bytes s) ltac:(lia) s) as H.
  assert (Hs' : queue_inv (length (rr_queue s) + unread_bytes s) s)
    by (split; [apply Hs|lia]).
  specialize (H Hs').
  destruct (rr_replay_skipped_calls_loop _ cs s) as [[u s']|e]; [|exact H].
  eapply queue_inv_weaken; [|exact H]. apply Hs.
Qed.

Lemma queue_inv_rr_replay_finished n :
  hoare bad (queue_inv n) rr_replay_finished (fun _ => queue_inv n).
Proof.
  intros s Hs. unfold rr_replay_finished. unfold bind at 1.
  pose proof (rr_log_is_empty_inv s) as He.
  destruct (rr_log_is_empty s) as [[b s0]|e];
    [subst s0|subst e; now apply never_null].
  destruct (negb b); [exact Hs|].
  unfold bind at 1, get at 1.
  destruct (rr_queue s) as [|head rest]; [now apply never_null|].
  destruct (negb (RR_log_entry_kind_eqb (kind head) RR_LAST)); exact Hs.
Qed.

Lemma hoare_then_ret {A} (P : rr_state -> Prop) (m : M A) Q :
  hoare bad P m (fun _ => Q) -> hoare bad P (m ;; ret tt) (fun _ => Q).
Proof.
  intros H. eapply hoare_bind; [exact H|].
  intros ?. apply hoare_ret. auto.
Qed.

Lemma queue_inv_do_replay_call n c :
  hoare bad (queue_inv n) (do_replay_call c) (fun _ => queue_inv n).
Proof.
  destruct c; cbn [do_replay_call];
    try (apply hoare_then_ret);
    first [ apply queue_inv_rr_replay_debug
          | apply queue_inv_rr_replay_input
          | apply queue_inv_rr_replay_interrupt_request
          | apply queue_inv_rr_replay_exit_request
          | apply queue_inv_rr_replay_skipped_calls_internal
          | apply queue_inv_rr_replay_finished ].
Qed.

Lemma queue_inv_run_replay n calls :
  hoare bad (queue_inv n) (run_replay calls) (fun _ => queue_inv n).
Proof.
  induction calls as [|[pp c] calls IH]; cbn [run_replay].
  - apply hoare_ret. auto.
  - eapply hoare_bind with (R := fun _ => queue_inv n).
    { intros s Hs. destruct s. exact Hs. }
    intros ?. eapply hoare_bind; [apply queue_inv_do_replay_call|].
    intros ?. exact IH.
Qed.

(** rr_do_begin_replay from an empty queue. *)
Lemma queue_ok_rr_do_begin_replay :
  hoare bad (fun s => rr_queue s = []) rr_do_begin_replay
        (fun _ s => queue_ok (rr_queue s)).
Proof.
  unfold rr_do_begin_replay.
  eapply hoare_bind with (R := fun _ s => rr_queue s = []).
  { unfold rr_create_replay_log.
    intros s Hs. unfold bind at 1, get at 1. unfold bind at 1, modify at 1.
    set (s1 := set_rr_nondet_log _ s).
    assert (Hf : frame [] (unread_bytes s1) 0 s1).
    { split; [subst s1; now destruct s|lia]. }
    assert (H : hoare bad (frame [] (unread_bytes s1) 0)
                  (hdr <- rr_fread sizeof_prog_point 1 ;;
                   modify_log (set_last_prog_point (prog_point_of_bytes hdr)))
                  (fun _ => frame [] (unread_bytes s1) 0)).
    { eapply hoare_bind;
        [apply frame_rr_fread_mono; [exact Hbad|discriminate]|].
      intros hdr. apply frame_modify_log; [exact Hbad|].
      intros l. now destruct l. }
    specialize (H s1 Hf). cbv beta in H.
    destruct ((hdr <- rr_fread sizeof_prog_point 1 ;;
               modify_log (set_last_prog_point (prog_point_of_bytes hdr))) s1)
      as [[u s2]|e]; [apply H|exact H]. }
  intros ?. eapply hoare_bind with (R := fun _ s => rr_queue s = []).
  { intros s Hs. destruct s. exact Hs. }
  intros ?. eapply hoare_bind with (R := fun _ s => rr_queue s = []).
  { intros s Hs. destruct s. exact Hs. }
  intros ? s Hs.
  pose proof (rr_fill_queue_spec bad Hbad s Hs) as Hf.
  destruct (rr_fill_queue s) as [[[] s1]|e]; [apply Hf|exact Hf].
Qed.

End Discipline.

Lemma rr_destroy_log_queue s u s' :
  rr_destroy_log s = Ok (u, s') -> rr_queue s' = rr_queue s.
Proof.
  unfold rr_destroy_log, bind, the_log, modify.
  destruct (rr_nondet_log s) as [l|]; [|discriminate].
  destruct (fp l); [destruct (log_type l)|];
    intros [= <- <-]; now destruct s.
Qed.

(* ------------------------------------------------------------------------- *)
(** ** The policy of get_next_entry *)

Lemma set_rr_queue_twice q q' s :
  set_rr_queue q (set_rr_queue q' s) = set_rr_queue q s.
Proof. now destruct s. Qed.

Lemma get_next_entry_refilled k cs chk s s1 :
  refilled s s1 ->
  get_next_entry k cs chk s
  = match rr_queue s1 with
    | [] => Ok (None, s1)
    | _ :: _ => get_next_entry k cs chk s1
    end.
Proof.
  unfold refilled. intros Hr.
  destruct (rr_queue s) as [|e q] eqn:Hq.
  - rewrite get_next_entry_empty by exact Hq. now rewrite Hr.
  - subst s1. now rewrite Hq.
Qed.

Lemma shape_due_bool k cs chk head :
  RR_log_entry_kind_eqb (kind head) k
  && negb (chk && negb (callsite_loc (header head) =? cs)) = true
  <-> shape_due k cs chk head.
Proof.
  unfold shape_due. destruct chk; cbn [andb negb].
  - rewrite negb_involutive, andb_true_iff, kind_eqb_eq, Z.eqb_eq.
    intuition.
  - rewrite andb_true_r, kind_eqb_eq.
    split; [intros H; split; [exact H|intros [=]]|intros [H _]; exact H].
Qed.

(** What get_next_entry returns is the head of the visible queue, and it is
    due. *)
Lemma get_next_entry_some k cs chk s item s' :
  get_next_entry k cs chk s = Ok (Some item, s') ->
  exists s1 rest,
    refilled s s1 /\ visible_queue k (rr_queue s1) = item :: rest
    /\ s' = set_rr_queue rest s1
    /\ point_due s1 k item /\ shape_due k cs chk item.
Proof.
  assert (Hne : forall s1,
    rr_queue s1 <> [] ->
    get_next_entry k cs chk s1 = Ok (Some item, s') ->
    exists rest,
      visible_queue k (rr_queue s1) = item :: rest
      /\ s' = set_rr_queue rest s1
      /\ point_due s1 k item /\ shape_due k cs chk item).
  { intros s1 Hq. rewrite get_next_entry_nonempty by exact Hq.
    destruct (visible_queue k (rr_queue s1)) as [|head rest];
      [discriminate|].
    cbv zeta. rewrite set_rr_queue_twice. unfold point_due.
    destruct (Z.eqb_spec (guest_instr_count (prog_point (header head))) 0)
      as [Hz|Hz].
    - destruct (RR_log_entry_kind_eqb (kind head) k
                && negb (chk && negb (callsite_loc (header head) =? cs)))
        eqn:Hb; [|discriminate].
      apply shape_due_bool in Hb.
      intros H. assert (item = head) as -> by congruence.
      exists rest. repeat split; try apply Hb; [congruence|now left].
    - destruct (rr_prog_point_compare (prog_point_of s1)
                  (prog_point (header head)) k) as [c|] eqn:Hc;
        [|discriminate].
      destruct (Z.eqb_spec c 0) as [->|Hc0]; cbn [andb]; [|discriminate].
      destruct (RR_log_entry_kind_eqb (kind head) k
                && negb (chk && negb (callsite_loc (header head) =? cs)))
        eqn:Hb; [|discriminate].
      apply shape_due_bool in Hb.
      intros H. assert (item = head) as -> by congruence.
      exists rest. repeat split; try apply Hb; [congruence|now right]. }
  intros Hg. destruct (rr_queue s) as [|e q] eqn:Hq.
  - rewrite get_next_entry_empty in Hg by exact Hq.
    destruct (rr_fill_queue s) as [[[] s1]|] eqn:Hf; [|discriminate].
    destruct (rr_queue s1) as [|e1 q1] eqn:Hq1; [discriminate|].
    destruct (Hne s1) as (rest & H); [rewrite Hq1; discriminate|exact Hg|].
    exists s1, rest. split; [|exact H]. unfold refilled. now rewrite Hq.
  - destruct (Hne s) as (rest & H); [rewrite Hq; discriminate|exact Hg|].
    exists s, rest. split; [|exact H]. unfold refilled. now rewrite Hq.
Qed.





Lemma skip_debug_entries_dropped q :
  exists dropped,
    q = dropped ++ skip_debug_entries q
    /\ Forall (fun e => kind e = RR_DEBUG) dropped.
Proof.
  induction q as [|e q (dropped & IH & Hd)];
    [exists []; split; [reflexivity|constructor]|].
  cbn [skip_debug_entries].
  destruct (RR_log_entry_kind_eqb (kind e) RR_DEBUG) eqn:He.
  - exists (e :: dropped). cbn [app]. split; [now f_equal|].
    constructor; [now apply kind_eqb_eq|exact Hd].
  - exists []. split; [reflexivity|constructor].
Qed.


(** The decision of get_next_entry on the head of a queue that holds
    something. *)
Lemma get_next_entry_decision k cs chk s :
  rr_queue s <> [] ->
  match visible_queue k (rr_queue s) with
  | [] => get_next_entry k cs chk s = Abort null_pointer
  | head :: rest =>
      (point_due s k head /\ shape_due k cs chk head ->
       get_next_entry k cs chk s = Ok (Some head, set_rr_queue rest s))
      /\ (compare_stops s k head ->
          get_next_entry k cs chk s = Abort aborted)
      /\ (~ compare_stops s k head ->
          ~ (point_due s k head /\ shape_due k cs chk head) ->
          get_next_entry k cs chk s
          = Ok (None, set_rr_queue (head :: rest) s))
  end.
Proof.
  intros Hq. rewrite get_next_entry_nonempty by exact Hq.
  destruct (visible_queue k (rr_queue s)) as [|head rest]; [reflexivity|].
  cbv zeta. rewrite set_rr_queue_twice. unfold point_due, compare_stops.
  pose proof (shape_due_bool k cs chk head) as Hb.
  destruct (Z.eqb_spec (guest_instr_count (prog_point (header head))) 0)
    as [Hz|Hz].
  - destruct (RR_log_entry_kind_eqb (kind head) k
              && negb (chk && negb (callsite_loc (header head) =? cs)));
      (split; [|split]).
    + reflexivity.
    + tauto.
    + intros _ H. elim H. split; [now left|now apply Hb].
    + intros [_ Hd]. apply Hb in Hd. discriminate.
    + tauto.
    + reflexivity.
  - destruct (rr_prog_point_compare (prog_point_of s)
                (prog_point (header head)) k) as [c|] eqn:Hc.
    + destruct (Z.eqb_spec c 0) as [->|Hc0]; cbn [andb].
      * destruct (RR_log_entry_kind_eqb (kind head) k
                  && negb (chk && negb (callsite_loc (header head) =? cs)));
          (split; [|split]).
        -- reflexivity.
        -- intros [_ [=]].
        -- intros _ H. elim H. split; [now right|now apply Hb].
        -- intros [_ Hd]. apply Hb in Hd. discriminate.
        -- intros [_ [=]].
        -- reflexivity.
      * split; [|split].
        -- intros [[H|H] _]; congruence.
        -- intros [_ [=]].
        -- reflexivity.
    + split; [|split].
      * intros [[H|H] _]; congruence.
      * reflexivity.
      * intros H. elim H. now split.
Qed.




(* ------------------------------------------------------------------------- *)
(** ** The encoder and decoder are inverse on whole sessions *)

(** C1. Round trip.  A record session makes the capture calls [calls] (at
    their program points, with arguments in the ranges of their C types and
    region names shorter than 2^32 - 1 bytes) and ends at [pp_end]; the
    file it leaves is smaller than 2^64 bytes.  Then the items that went
    through rr_write_item are those the calls produce after compaction; the
    file is the header followed by the bytes of each item in order (header
    fields, fixed part of the variant, tail); and running rr_read_item until
    the log is empty succeeds and yields, in the same order, entries with
    the program points, kinds, call sites and payloads (sub-kind, members
    and tail bytes) of those items, followed by the end-of-log marker. *)
Theorem record_replay_roundtrip calls pp_end s0 items s1 :
  typed_calls calls -> typed_prog_point pp_end -> is_u32 RR_CALLSITE_LAST ->
  record_session calls pp_end s0 = Ok (items, s1) ->
  Z.of_nat (length (rr_disk s1)) < 2 ^ 64 ->
  items = recorded_items (panda_current_interrupt_request s0) calls
  /\ rr_disk s1
     = prog_point_bytes pp_end ++ log_bytes (items ++ [last_entry pp_end])
  /\ exists entries s2,
      rr_read_log s1 = Ok (entries, s2)
      /\ map payload entries = map payload (items ++ [last_entry pp_end])
      /\ map kind entries = map kind (items ++ [last_entry pp_end]).
Proof.
  intros Hcalls Hpp Hcs Hses Hsize.
  destruct (record_session_spec calls pp_end s0 items s1 Hses)
    as (Hitems & Hwr & Hdisk & _).
  split; [exact Hitems|]. split; [exact Hdisk|].
  destruct (recorded_items_typed calls (panda_current_interrupt_request s0)
              Hcalls) as (Hty & Hsh).
  rewrite <- Hitems in Hty, Hsh.
  destruct (rr_read_log_spec s1 pp_end (items ++ [last_entry pp_end]) Hdisk
              Hsize) as (entries & s2 & l2 & Hread & Hpay & _).
  - apply Forall_app. split; [exact Hwr|].
    constructor; [|constructor]. unfold writable.
    now rewrite item_wire_last.
  - apply Forall_app. split; [exact Hty|].
    constructor; [|constructor]. now apply typed_last_entry.
  - apply Forall_app. split; [exact Hsh|].
    constructor; [exact I|constructor].
  - exists entries, s2. split; [exact Hread|]. split; [exact Hpay|].
    transitivity (map kind (map payload entries)).
    + rewrite map_map. apply map_ext. intros e. symmetry.
      apply kind_payload.
    + rewrite Hpay, map_map. apply map_ext. intros e. apply kind_payload.
Qed.

(** C5. Terminator and header.  In a record session (capture calls as in
    C1) that has reached the program point [pp_end], rr_do_end_record
    succeeds; it leaves the log closed and released and the mode off, so
    that no capture call writes anything afterwards; the first 24 bytes of
    the file are the program point [pp_end]; and decoding the file yields
    the entries of the session followed by one last entry, which is the only
    RR_LAST entry, carries the program point [pp_end] (the final guest
    instruction count) and the call site RR_CALLSITE_LAST, while the header
    read back into last_prog_point is [pp_end] as well. *)
Theorem rr_do_end_record_terminator calls pp_end s0 items sr :
  typed_calls calls -> typed_prog_point pp_end -> is_u32 RR_CALLSITE_LAST ->
  (rr_do_begin_record ;; run_record calls) s0 = Ok (items, sr) ->
  Z.of_nat (24 + length (log_bytes items) + 32) < 2 ^ 64 ->
  exists s1,
    (cpu_at pp_end ;; rr_do_end_record) sr = Ok (tt, s1)
    /\ rr_nondet_log s1 = None /\ rr_mode s1 = RR_OFF
    /\ (forall c u s', do_record_call c s1 = Ok (u, s') -> s' = s1)
    /\ firstn 24 (rr_disk s1) = prog_point_bytes pp_end
    /\ exists front e s2 l2,
        rr_read_log s1 = Ok (front ++ [e], s2)
        /\ map payload front = map payload items
        /\ Forall (fun x => kind x <> RR_LAST) front
        /\ kind e = RR_LAST
        /\ prog_point (header e) = pp_end
        /\ callsite_loc (header e) = RR_CALLSITE_LAST
        /\ rr_nondet_log s2 = Some l2
        /\ last_prog_point l2 = pp_end.
Proof.
  intros Hcalls Hpp Hcs Hrun Hsize.
  destruct (record_calls_spec calls s0 items sr Hrun)
    as (Hitems & Hwr & lr & Hrecr).
  destruct (recording_cpu_at sr lr _ pp_end Hrecr) as (Hcpu & Hrece & Hppe).
  destruct (rr_do_end_record_spec _ _ _ Hrece)
    as (s1 & Hend & Hdisk & Hlog & Hmode & _).
  rewrite Hppe in Hdisk.
  assert (Hdisk' : rr_disk s1 = prog_point_bytes pp_end
                               ++ log_bytes (items ++ [last_entry pp_end])).
  { rewrite Hdisk. f_equal. rewrite <- app_assoc.
    rewrite skipn_app_exact by apply length_prog_point_bytes.
    now rewrite log_bytes_app, log_bytes_last. }
  exists s1.
  split; [rewrite (bind_ok _ _ _ _ _ Hcpu); exact Hend|].
  
  split; [exact Hlog|]. split; [exact Hmode|].
  split; [intros c u s' Hc; now apply (do_record_call_closed c s1 u)|].
  split; [rewrite Hdisk';
          rewrite firstn_app_exact by apply length_prog_point_bytes;
          reflexivity|].
  
  destruct (recorded_items_typed calls (panda_current_interrupt_request s0)
              Hcalls) as (Hty & Hsh).
  rewrite <- Hitems in Hty, Hsh.
  destruct (rr_read_log_spec s1 pp_end (items ++ [last_entry pp_end]) Hdisk')
    as (entries & s2 & l2 & Hread & Hpay & Hrep & Hlpp).
  - rewrite Hdisk', length_app, log_bytes_app, length_app, log_bytes_last.
    rewrite length_prog_point_bytes, length_header_wire. lia.
  - apply Forall_app. split; [exact Hwr|].
    constructor; [|constructor]. unfold writable.
    rewrite item_wire_last. discriminate.
  - apply Forall_app. split; [exact Hty|].
    constructor; [|constructor]. apply typed_last_entry; assumption.
  - apply Forall_app. split; [exact Hsh|].
    constructor; [exact I|constructor].
  - rewrite map_app in Hpay. apply map_eq_app in Hpay.
    destruct Hpay as (front & tl_ & -> & Hfront & Htl).
    destruct tl_ as [|e [|e' tl_]]; try discriminate.
    pose proof (f_equal (hd (payload e)) Htl) as Hlast.
    cbn [map hd] in Hlast.
    destruct (payload_last e pp_end Hlast) as (Hk & Hp & Hc).
    exists front, e, s2, l2.
    split; [exact Hread|]. split; [exact Hfront|]. split; [|split; [exact Hk|split; [exact Hp|split; [exact Hc|split]]]].
    + assert (Hkinds : map kind front = map kind items).
      { transitivity (map kind (map payload front)).
        - rewrite map_map. apply map_ext. intros x. symmetry.
          apply kind_payload.
        - rewrite Hfront, map_map. apply map_ext, kind_payload. }
      pose proof (recorded_items_not_last
                    (panda_current_interrupt_request s0) calls) as Hnl.
      rewrite <- Hitems in Hnl.
      clear - Hkinds Hnl. revert items Hkinds Hnl.
      induction front as [|x front IH]; intros [|y items] Hk Hnl;
        try discriminate; constructor.
      * injection Hk as Hx _. inversion Hnl; subst. congruence.
      * injection Hk as _ Hrest. inversion Hnl; subst. eapply IH; eauto.
    + apply Hrep.
    + rewrite Hlpp. now apply prog_point_roundtrip.
Qed.

(** C2. Interrupt compaction.  In a record session, after any capture
    calls, rr_record_interrupt_request(call_site, v) returns; it leaves the
    state as it was (nothing is written) when v equals the cached interrupt
    word, and otherwise it appends the bytes of one INTERRUPT_REQUEST entry
    carrying v to the log and sets the cache to v.  Consequently, in the
    decoded log of any session, no two INTERRUPT_REQUEST entries that follow
    each other (whatever entries of other kinds lie between them) carry the
    same value. *)
Theorem interrupt_request_compaction calls pp_end s0 items sr cs v :
  typed_calls calls -> typed_prog_point pp_end -> is_u32 RR_CALLSITE_LAST ->
  is_u32 v ->
  (rr_do_begin_record ;; run_record calls) s0 = Ok (items, sr) ->
  Z.of_nat (24 + length (log_bytes items) + 32) < 2 ^ 64 ->
  (exists s',
      rr_record_interrupt_request cs v sr = Ok (tt, s')
      /\ if to_uint32 (panda_current_interrupt_request sr) =? v
         then s' = sr
         else open_file_bytes s'
              = open_file_bytes sr
                ++ header_wire (interrupt_item (prog_point_of sr) cs v)
                ++ u32_bytes v
              /\ panda_current_interrupt_request s' = to_int32 v
              /\ to_uint32 (panda_current_interrupt_request s') = v)
  /\ exists s1 entries s2,
      (cpu_at pp_end ;; rr_do_end_record) sr = Ok (tt, s1)
      /\ rr_read_log s1 = Ok (entries, s2)
      /\ no_repeat (interrupt_values entries).
Proof.
  intros Hcalls Hpp Hcs Hv Hrun Hsize. split.
  - destruct (record_calls_spec calls s0 items sr Hrun)
      as (_ & _ & lr & Hrecr).
    eexists. split; [apply (rr_record_interrupt_request_spec _ _ _ _ _ Hrecr)|].
    destruct (to_uint32 (panda_current_interrupt_request sr) =? v);
      [reflexivity|].
    rewrite (open_file_bytes_recording _ _ _ Hrecr).
    destruct Hrecr as (Hm & Hl & Hf & Hty).
    split; [|split].
    + destruct sr, lr. cbn in Hl, Hf |- *. unfold open_file_bytes.
      cbn. now rewrite app_nil_r.
    + destruct sr. reflexivity.
    + replace (panda_current_interrupt_request _) with (to_int32 v)
        by (destruct sr; reflexivity).
      now rewrite to_uint32_to_int32, to_uint32_small.
  - destruct (session_decode calls pp_end s0 items sr Hcalls Hpp Hcs Hrun
                Hsize) as (Hitems & s1 & entries & s2 & Hend & Hread & Hpay).
    exists s1, entries, s2. split; [exact Hend|]. split; [exact Hread|].
    rewrite (interrupt_values_payload _ _ Hpay), interrupt_values_app.
    cbn [interrupt_values flat_map last_entry variant app].
    rewrite app_nil_r, Hitems.
    eapply compacted_no_repeat.
    apply recorded_items_compacted. exact Hcalls.
Qed.

(* ------------------------------------------------------------------------- *)
(** ** The prefetch queue *)

(** C3. Queue cutoff.  rr_fill_queue is entered with an empty queue.  Its
    loop always comes to an end (the bound of the model is never reached:
    every pass reads at least the 24 bytes of a program point).  At the
    head of the loop, after [n] passes, the queue holds the [n] entries
    that were read, [n] is at most RR_MAX_QUEUE_LEN, and none of the
    entries is a cutoff entry (an RR_INTERRUPT_REQUEST, or an
    RR_SKIPPED_CALL of the call site RR_CALLSITE_MAIN_LOOP_WAIT).  A pass
    leaves at most RR_MAX_QUEUE_LEN + 1 entries in the queue, and it is the
    last pass exactly when the log is empty, or the entry it appended is a
    cutoff entry, or the count of entries has passed RR_MAX_QUEUE_LEN.  So
    when rr_fill_queue returns the queue holds at most 65537 entries, and
    the log is empty or the last entry of the queue is a cutoff entry or
    takes the count over the cap. *)
Theorem rr_fill_queue_cutoff s :
  rr_queue s = [] ->
  rr_fill_queue s <> Abort out_of_fuel
  /\ (forall e, is_cutoff e = true <->
        kind e = RR_INTERRUPT_REQUEST
        \/ (kind e = RR_SKIPPED_CALL
            /\ callsite_loc (header e) = RR_CALLSITE_MAIN_LOOP_WAIT))
  /\ (forall n s1, fill_reaches 0 s n s1 ->
        Z.of_nat (length (rr_queue s1)) = n
        /\ n <= RR_MAX_QUEUE_LEN
        /\ Forall (fun e => is_cutoff e = false) (rr_queue s1)
        /\ forall again n2 s2,
            rr_fill_queue_body n s1 = Ok ((again, n2), s2) ->
            Z.of_nat (length (rr_queue s2)) <= RR_MAX_QUEUE_LEN + 1
            /\ (again = false <->
                rr_log_is_empty s1 = Ok (true, s1)
                \/ exists e, rr_queue s2 = rr_queue s1 ++ [e]
                             /\ (is_cutoff e = true
                                 \/ RR_MAX_QUEUE_LEN < n + 1)))
  /\ (forall s', rr_fill_queue s = Ok (tt, s') ->
        Z.of_nat (length (rr_queue s')) <= 65537
        /\ (rr_log_is_empty s' = Ok (true, s')
            \/ exists front e,
                rr_queue s' = front ++ [e]
                /\ (is_cutoff e = true
                    \/ RR_MAX_QUEUE_LEN
                       < Z.of_nat (length (rr_queue s'))))).
Proof.
  intros Hq. split; [|split; [|split]].
  - pose proof (rr_fill_queue_spec fill_abort never_fill_abort s Hq) as H.
    intros Hf. rewrite Hf in H. apply H. now right.
  - intros e. unfold is_cutoff.
    rewrite orb_true_iff, andb_true_iff, !kind_eqb_eq, Z.eqb_eq. tauto.
  - intros n s1 Hr.
    destruct (fill_reaches_inv 0 s n s1 Hr) as (front & Hq1 & Hn & Hall & Hle).
    rewrite Hq in Hq1. cbn [app] in Hq1.
    assert (Hlen : Z.of_nat (length (rr_queue s1)) = n)
      by (rewrite Hq1; lia).
    assert (Hcap : n <= RR_MAX_QUEUE_LEN).
    { destruct front as [|e front]; [|apply Hle; discriminate].
      cbn [length] in Hn. unfold RR_MAX_QUEUE_LEN. lia. }
    split; [exact Hlen|]. split; [exact Hcap|].
    split; [now rewrite Hq1|].
    intros again n2 s2 Hb.
    pose proof (rr_fill_queue_body_spec _ never_none n s1) as Hs.
    rewrite Hb in Hs.
    destruct Hs as [(He & -> & Hr')|(He & e & Hq2 & _ & Hr')].
    + assert (again = false) as -> by congruence.
      split; [lia|]. split; [now left|reflexivity].
    + assert (Hag : again
                    = negb (is_cutoff e || (n + 1 >? RR_MAX_QUEUE_LEN)))
        by congruence.
      split; [rewrite Hq2, length_app; cbn [length]; lia|].
      rewrite Hag, negb_false_iff, orb_true_iff. split.
      * intros H. right. exists e. split; [exact Hq2|].
        destruct H as [H|H]; [now left|right]. lia.
      * intros [H|(e' & Hq2' & H)]; [congruence|].
        rewrite Hq2 in Hq2'. apply app_inv_head in Hq2'.
        assert (e' = e) as -> by congruence.
        destruct H as [H|H]; [now left|right]. lia.
  - intros s' Hf.
    pose proof (rr_fill_queue_spec _ never_none s Hq) as H.
    rewrite Hf in H. destruct H as (_ & _ & Hcap & Hstop).
    split; [unfold RR_MAX_QUEUE_LEN in Hcap; lia|exact Hstop].
Qed.

(** C10. The precondition of rr_fill_queue.  rr_fill_queue stops at its
    assertion whenever the queue holds something.  A replay begins with an
    empty queue (that of a new process, or the one rr_do_end_replay
    leaves); then rr_do_begin_replay followed by any calls of the replay
    functions, at any program points, never ends in that assertion, nor at
    a loop bound of the model: at every moment only the last entry of the
    queue can be a cutoff entry.  In particular the entry
    rr_replay_interrupt_request takes with get_next_entry was the last one
    of the queue, which is empty when rr_fill_queue is called next. *)
Theorem rr_fill_queue_precondition calls s :
  rr_queue s = [] ->
  (forall s0, rr_queue s0 <> [] ->
     rr_fill_queue s0 = Abort (assert_fail assert_queue_empty))
  /\ (forall is_error s0 u s1,
        rr_do_end_replay is_error s0 = Ok (u, s1) -> rr_queue s1 = [])
  /\ match (rr_do_begin_replay ;; run_replay calls) s with
     | Ok (_, s') => queue_ok (rr_queue s')
     | Abort e => e <> assert_fail assert_queue_empty /\ e <> out_of_fuel
     end
  /\ (forall cs s0 item s1,
        queue_ok (rr_queue s0) ->
        get_next_entry RR_INTERRUPT_REQUEST cs true s0 = Ok (Some item, s1) ->
        rr_queue s1 = []
        /\ forall s2,
            (modify (set_panda_current_interrupt_request
                       (to_int32 (variant_interrupt_request (variant item))))
             ;; add_to_recycle_list item) s1 = Ok (tt, s2) ->
            rr_queue s2 = [])
  /\ (forall calls' s0,
        queue_ok (rr_queue s0) ->
        match run_replay calls' s0 with
        | Ok (_, s') => queue_ok (rr_queue s')
        | Abort e => e <> assert_fail assert_queue_empty /\ e <> out_of_fuel
        end).
Proof.
  intros Hq.
  assert (Hrun : forall calls' s0,
        queue_ok (rr_queue s0) ->
        match run_replay calls' s0 with
        | Ok (_, s') => queue_ok (rr_queue s')
        | Abort e => e <> assert_fail assert_queue_empty /\ e <> out_of_fuel
        end).
  { intros calls' s0 Hok.
    pose proof (queue_inv_run_replay fill_abort never_fill_abort
                  (length (rr_queue s0) + unread_bytes s0) calls' s0) as H.
    assert (Hinv : queue_inv (length (rr_queue s0) + unread_bytes s0) s0)
      by (split; [exact Hok|lia]).
    specialize (H Hinv).
    destruct (run_replay calls' s0) as [[u s']|e]; [apply H|].
    unfold fill_abort in H. split; intros ->; apply H; auto. }
  split; [exact rr_fill_queue_nonempty|]. split; [|split; [|split]].
  - intros is_error s0 u s1. unfold rr_do_end_replay.
    unfold bind at 1, modify at 1. unfold bind at 1, modify at 1.
    unfold bind at 1, modify at 1. unfold bind at 1.
    destruct (rr_destroy_log _) as [[u' s4]|e] eqn:Hd; [|discriminate].
    apply rr_destroy_log_queue in Hd.
    rewrite rr_queue_set_rr_queue in Hd.
    unfold bind at 1, modify at 1.
    destruct is_error; [discriminate|].
    intros [= <- <-]. rewrite <- Hd. now destruct s4.
  - pose proof (queue_ok_rr_do_begin_replay fill_abort never_fill_abort s Hq)
      as Hb.
    unfold bind at 1.
    destruct (rr_do_begin_replay s) as [[u s1]|e].
    + apply Hrun, Hb.
    + unfold fill_abort in Hb. split; intros ->; apply Hb; auto.
  - intros cs s0 item s1 Hok Hg.
    pose proof (get_next_entry_inv _ never_none
                  (length (rr_queue s0) + unread_bytes s0)
                  RR_INTERRUPT_REQUEST cs true s0) as H.
    assert (Hinv : queue_inv (length (rr_queue s0) + unread_bytes s0) s0)
      by (split; [exact Hok|lia]).
    specialize (H Hinv). rewrite Hg in H.
    destruct H as (Hk & _ & _ & _ & He).
    specialize (He (is_cutoff_interrupt item Hk)).
    split; [exact He|].
    intros s2 [= <-]. rewrite <- He. now destruct s1.
  - exact Hrun.
Qed.


(** C9. The DEBUG entries get_next_entry skips are not recycled.  When
    get_next_entry is called for a kind other than RR_INTERRUPT_REQUEST and
    RR_SKIPPED_CALL on a queue that holds something, and returns, the DEBUG
    entries [dropped] in front of the queue have been unlinked, but the
    recycle list and the ring of the history are as they were: the entries
    did not go through add_to_recycle_list, which puts an entry at the head
    of the recycle list, stores it in the ring and moves the index on. *)
Theorem get_next_entry_debug_skip k cs chk s r s' :
  rr_queue s <> [] -> skips_debug k = true ->
  get_next_entry k cs chk s = Ok (r, s') ->
  (exists dropped,
      Forall (fun e => kind e = RR_DEBUG) dropped
      /\ rr_queue s
         = dropped ++ match r with
                      | Some item => item :: rr_queue s'
                      | None => rr_queue s'
                      end
      /\ match rr_queue s' with
         | head :: _ => r = None -> kind head <> RR_DEBUG
         | [] => True
         end)
  /\ recycle_list s' = recycle_list s
  /\ rr_log_entry_history s' = rr_log_entry_history s
  /\ rr_hist_index s' = rr_hist_index s
  /\ (forall e s0 s2,
        add_to_recycle_list e s0 = Ok (tt, s2) ->
        recycle_list s2 = free_entry_params e :: recycle_list s0
        /\ rr_log_entry_history s2
           = array_set (rr_log_entry_history s0) (Z.to_nat (rr_hist_index s0))
                       (free_entry_params e)
        /\ rr_hist_index s2 = (rr_hist_index s0 + 1) mod RR_HIST_SIZE).
Proof.
  intros Hq Hk Hg.
  rewrite get_next_entry_nonempty in Hg by exact Hq.
  unfold visible_queue in Hg. rewrite Hk in Hg.
  destruct (skip_debug_entries_dropped (rr_queue s)) as (dropped & Hd & Hall).
  assert (Hhead : match skip_debug_entries (rr_queue s) with
                  | head :: _ => kind head <> RR_DEBUG
                  | [] => True
                  end).
  { clear. induction (rr_queue s) as [|e q IH]; [exact I|].
    cbn [skip_debug_entries].
    destruct (RR_log_entry_kind_eqb (kind e) RR_DEBUG) eqn:He; [exact IH|].
    intros H. apply kind_eqb_eq in H. congruence. }
  destruct (skip_debug_entries (rr_queue s)) as [|head rest];
    [discriminate|].
  cbv zeta in Hg. rewrite set_rr_queue_twice in Hg.
  assert (Hres : (r = Some head /\ s' = set_rr_queue rest s)
                 \/ (r = None /\ s' = set_rr_queue (head :: rest) s)).
  { destruct (guest_instr_count (prog_point (header head)) =? 0).
    - destruct (RR_log_entry_kind_eqb (kind head) k
                && negb (chk && negb (callsite_loc (header head) =? cs)));
        [left|right]; split; congruence.
    - destruct (rr_prog_point_compare (prog_point_of s)
                  (prog_point (header head)) k) as [c|]; [|discriminate].
      destruct ((c =? 0) && RR_log_entry_kind_eqb (kind head) k
                && negb (chk && negb (callsite_loc (header head) =? cs)));
        [left|right]; split; congruence. }
  split; [|split; [|split; [|split]]].
  - exists dropped. split; [exact Hall|].
    destruct Hres as [[-> ->]|[-> ->]]; rewrite rr_queue_set_rr_queue.
    + split; [exact Hd|]. destruct rest; [exact I|discriminate].
    + split; [exact Hd|]. intros _. exact Hhead.
  - destruct Hres as [[_ ->]|[_ ->]]; now destruct s.
  - destruct Hres as [[_ ->]|[_ ->]]; now destruct s.
  - destruct Hres as [[_ ->]|[_ ->]]; now destruct s.
  - intros e s0 s2 [= <-]. now destruct s0.
Qed.

(** C6. The end of a replay.  With a log open, rr_replay_finished returns
    false when the log is not empty (not of the replay type, or not read to
    its end), without looking at the queue; when the log is empty and the
    queue too it reads through a null head; and with a head it returns
    true exactly when the log is empty, the head is an RR_LAST entry, and
    the guest instruction count has reached the count of the program point
    of the head.  The program point of the header of the log is not
    consulted; the result is that of a comparison with it when the RR_LAST
    entry is the last entry of the log and carries the program point of the
    header, as in a log the recorder wrote. *)
Theorem rr_replay_finished_head s l :
  rr_nondet_log s = Some l ->
  let log_empty := log_type l = REPLAY /\ log_size l = bytes_read l in
  (~ log_empty -> rr_replay_finished s = Ok (false, s))
  /\ (log_empty -> rr_queue s = [] ->
      rr_replay_finished s = Abort null_pointer)
  /\ (forall head rest,
        rr_queue s = head :: rest ->
        exists b,
          rr_replay_finished s = Ok (b, s)
          /\ (b = true <->
              log_empty /\ kind head = RR_LAST
              /\ guest_instr_count (prog_point (header head))
                 <= rr_guest_instr_count (cpu s))
          /\ ((kind head = RR_LAST ->
               log_empty
               /\ prog_point (header head) = last_prog_point l) ->
              (b = true <->
               guest_instr_count (last_prog_point l)
               <= rr_guest_instr_count (cpu s)
               /\ kind head = RR_LAST))).
Proof.
  intros Hl log_empty.
  assert (He : rr_log_is_empty s
               = Ok (match log_type l with
                     | RECORD => false
                     | REPLAY => log_size l =? bytes_read l
                     end, s)).
  { unfold rr_log_is_empty, bind, the_log. now rewrite Hl. }
  assert (Hb : match log_type l with
               | RECORD => false
               | REPLAY => log_size l =? bytes_read l
               end = true <-> log_empty).
  { unfold log_empty. destruct (log_type l).
    - split; [discriminate|intros [[=] _]].
    - rewrite Z.eqb_eq. tauto. }
  set (e := match log_type l with
            | RECORD => false
            | REPLAY => log_size l =? bytes_read l
            end) in *.
  assert (Hfin : rr_replay_finished s
                 = if negb e then Ok (false, s)
                   else match rr_queue s with
                        | [] => Abort null_pointer
                        | head :: _ =>
                            if negb (RR_log_entry_kind_eqb (kind head)
                                       RR_LAST)
                            then Ok (false, s)
                            else Ok (rr_guest_instr_count (cpu s)
                                     >=? guest_instr_count
                                           (prog_point (header head)), s)
                        end).
  { unfold rr_replay_finished. unfold bind at 1. rewrite He.
    destruct e; cbn [negb]; [|reflexivity].
    unfold bind at 1, get at 1.
    destruct (rr_queue s) as [|head rest]; [reflexivity|].
    destruct (negb (RR_log_entry_kind_eqb (kind head) RR_LAST));
      reflexivity. }
  rewrite Hfin. clear Hfin He.
  destruct e; cbn [negb].
  - assert (Hle : log_empty) by now apply Hb.
    split; [tauto|]. split.
    + intros _ Hq. now rewrite Hq.
    + intros head rest Hq. rewrite Hq.
      destruct (RR_log_entry_kind_eqb (kind head) RR_LAST) eqn:Hk;
        cbn [negb].
      * apply kind_eqb_eq in Hk. eexists. split; [reflexivity|].
        rewrite Z.geb_le. split; [tauto|].
        intros Hw. destruct (Hw Hk) as [_ ->]. tauto.
      * exists false. split; [reflexivity|].
        assert (kind head <> RR_LAST).
        { intros H. apply kind_eqb_eq in H. congruence. }
        split; [|intros _]; (split; [discriminate|tauto]).
  - assert (Hne : ~ log_empty) by (intros H; apply Hb in H; discriminate).
    split; [reflexivity|]. split; [tauto|].
    intros head rest Hq. exists false. split; [reflexivity|].
    split; [split; [discriminate|tauto]|].
    intros Hw. split; [discriminate|]. intros [_ Hk]. tauto.
Qed.



(* ------------------------------------------------------------------------- *)
(** ** What the replay side keeps *)

(** A property of the state that the assignments of the replay side keep
    is kept by every replay function.  The assignments are: to the fields of
    the open log other than its type, to the queue, to the recycle list, to
    the statistics, to the cached interrupt word, to the devices of the
    host, and the store of add_to_recycle_list into the ring. *)
Section Stable.
Variable I : rr_state -> Prop.
Hypothesis I_log : forall s l l',
  I s -> rr_nondet_log s = Some l -> log_type l' = log_type l ->
  I (set_rr_nondet_log (Some l') s).
Hypothesis I_queue : forall s q, I s -> I (set_rr_queue q s).
Hypothesis I_alloc : forall s,
  I s -> I (set_recycle_list (tl (recycle_list s)) s).
Hypothesis I_max : forall s n, I s -> I (set_rr_max_num_queue_entries n s).
Hypothesis I_cache : forall s c,
  I s -> I (set_panda_current_interrupt_request c s).
Hypothesis I_host : forall s h, I s -> I (set_host_effects h s).
Hypothesis I_recycled : forall s e,
  I s ->
  I (set_history
       (array_set (rr_log_entry_history s) (Z.to_nat (rr_hist_index s))
                  (free_entry_params e))
       ((rr_hist_index s + 1) mod RR_HIST_SIZE)
       (set_recycle_list (free_entry_params e :: recycle_list s) s)).

Let any : rr_error -> Prop := fun _ => False.

Lemma stable_the_log :
  hoare any I the_log (fun l s => I s /\ rr_nondet_log s = Some l).
Proof. apply hoare_the_log. auto. Qed.

Lemma stable_modify_log f :
  (forall l, log_type (f l) = log_type l) ->
  hoare any I (modify_log f) (fun _ => I).
Proof.
  intros Hf s Hs. unfold modify_log, bind, the_log, modify.
  destruct (rr_nondet_log s) as [l|] eqn:Hl; [|cbn; auto].
  now apply (I_log s l).
Qed.

Lemma stable_rr_assert b a : hoare any I (rr_assert b a) (fun _ => I).
Proof. intros s Hs. destruct b; cbn; auto. Qed.

Lemma stable_rr_in_replay : hoare any I rr_in_replay (fun _ => I).
Proof. intros s Hs. exact Hs. Qed.

Lemma stable_rr_log_is_empty : hoare any I rr_log_is_empty (fun _ => I).
Proof.
  intros s Hs. unfold rr_log_is_empty, bind, the_log.
  destruct (rr_nondet_log s); [exact Hs|auto].
Qed.

Lemma stable_alloc_new_entry : hoare any I alloc_new_entry (fun _ => I).
Proof.
  intros s Hs. unfold alloc_new_entry, bind, modify. now apply I_alloc.
Qed.

Lemma stable_rr_fread size nmemb :
  hoare any I (rr_fread size nmemb) (fun _ => I).
Proof.
  intros s Hs. unfold rr_fread, bind, the_log.
  destruct (rr_nondet_log s) as [l|] eqn:Hl; [|cbn; auto].
  destruct (fp l) as [f|]; [|cbn; auto].
  destruct (fread size nmemb f) as [[r d] f'].
  unfold modify_log, bind, the_log, modify. rewrite Hl.
  assert (HI : I (set_rr_nondet_log
                    (Some (set_bytes_read
                             ((bytes_read l + nmemb * size) mod 2 ^ 64)
                             (set_fp (Some f') l))) s))
    by (apply (I_log s l); [exact Hs|exact Hl|now destruct l]).
  destruct (r =? nmemb); cbn; auto.
Qed.

Ltac stable_auto :=
  repeat first
    [ progress cbv beta
    | apply hoare_ret; intros; assumption
    | lazymatch goal with
      | |- hoare _ _ (bind (bind _ _) _) _ => apply hoare_bind_assoc
      | |- hoare _ _ (bind (ret _) _) _ => apply hoare_bind_ret
      | |- hoare _ _ (bind (fail _) _) _ => apply hoare_bind_fail; auto
      | |- hoare _ _ (bind (match ?x with _ => _ end) _) _ => destruct x
      | |- hoare _ _ (bind (if ?x then _ else _) _) _ => destruct x
      end
    | apply hoare_fail; auto
    | eapply hoare_bind;
      [ first [ apply stable_rr_fread
              | apply stable_modify_log; intros []; reflexivity
              | apply stable_alloc_new_entry
              | apply stable_rr_in_replay
              | apply stable_rr_log_is_empty
              | apply stable_rr_assert ]
      | intros ]
    | match goal with
      | |- hoare _ _ (match ?x with _ => _ end) _ => destruct x
      | |- hoare _ _ (if ?x then _ else _) _ => destruct x
      end ].

Lemma stable_rr_read_item : hoare any I rr_read_item (fun _ => I).
Proof.
  unfold rr_read_item.
  eapply hoare_bind; [apply stable_rr_in_replay|intros].
  eapply hoare_bind; [apply stable_rr_assert|intros].
  eapply hoare_bind; [apply stable_rr_log_is_empty|intros].
  eapply hoare_bind; [apply stable_rr_assert|intros].
  eapply hoare_bind with (R := fun _ => I).
  { eapply hoare_conseq; [|apply stable_the_log|]; [cbn; auto|].
    intros ? ? [H _]. exact H. }
  intros. unfold RR_READ_ITEM.
  stable_auto.
Qed.

Lemma stable_modify_queue f :
  hoare any I (modify (fun s => set_rr_queue (f s) s)) (fun _ => I).
Proof. intros s Hs. now apply I_queue. Qed.

Lemma stable_rr_fill_queue_body n :
  hoare any I (rr_fill_queue_body n) (fun _ => I).
Proof.
  unfold rr_fill_queue_body.
  eapply hoare_bind; [apply stable_rr_log_is_empty|].
  intros [|]; [apply hoare_ret; auto|].
  eapply hoare_bind; [apply stable_rr_read_item|]. intros e.
  eapply hoare_bind;
    [apply (stable_modify_queue (fun s => rr_queue s ++ [e]))|].
  intros ?. cbv zeta.
  match goal with |- hoare _ _ (if ?c then _ else _) _ => destruct c end;
    apply hoare_ret; auto.
Qed.

Lemma stable_rr_fill_queue_loop fuel : forall n,
  hoare any I (rr_fill_queue_loop fuel n) (fun _ => I).
Proof.
  induction fuel as [|fuel IH]; intros n; cbn [rr_fill_queue_loop].
  - intros s Hs. cbn. auto.
  - eapply hoare_bind; [apply stable_rr_fill_queue_body|].
    intros [[|] n']; cbn [fst snd]; [apply IH|apply hoare_ret; auto].
Qed.

Lemma stable_rr_fill_queue : hoare any I rr_fill_queue (fun _ => I).
Proof.
  unfold rr_fill_queue.
  eapply hoare_bind; [apply hoare_get|]. intros s0.
  eapply hoare_conseq with (P' := I) (Q' := fun _ => I);
    [intros s [_ H]; exact H| |auto].
  eapply hoare_bind; [apply stable_rr_assert|]. intros ?.
  eapply hoare_bind; [apply stable_rr_fill_queue_loop|]. intros n.
  intros s Hs. unfold modify.
  destruct (n >? rr_max_num_queue_entries s); [now apply I_max|exact Hs].
Qed.

Lemma stable_get_next_entry k cs chk :
  hoare any I (get_next_entry k cs chk) (fun _ => I).
Proof.
  intros s Hs.
  assert (Hne : forall s1, I s1 -> rr_queue s1 <> [] ->
            match get_next_entry k cs chk s1 with
            | Ok (_, s') => I s'
            | Abort e => ~ False
            end).
  { intros s1 H1 Hq. rewrite get_next_entry_nonempty by exact Hq.
    destruct (visible_queue k (rr_queue s1)) as [|head rest]; [cbn; auto|].
    cbv zeta.
    destruct (guest_instr_count (prog_point (header head)) =? 0).
    - destruct (_ && _); repeat apply I_queue; exact H1.
    - destruct (rr_prog_point_compare _ _ _); [|cbn; auto].
      destruct (_ && _); repeat apply I_queue; exact H1. }
  destruct (rr_queue s) as [|e q] eqn:Hq.
  - rewrite get_next_entry_empty by exact Hq.
    pose proof (stable_rr_fill_queue s Hs) as Hf.
    destruct (rr_fill_queue s) as [[[] s1]|]; [|cbn; auto].
    destruct (rr_queue s1) eqn:Hq1; [exact Hf|].
    apply Hne; [exact Hf|]. rewrite Hq1. discriminate.
  - apply Hne; [exact Hs|]. rewrite Hq. discriminate.
Qed.

Lemma stable_add_to_recycle_list e :
  hoare any I (add_to_recycle_list e) (fun _ => I).
Proof.
  intros s Hs. unfold add_to_recycle_list, bind, modify.
  pose proof (I_recycled s e Hs) as H.
  now destruct s.
Qed.

Lemma stable_rr_replay_debug cs :
  hoare any I (rr_replay_debug cs) (fun _ => I).
Proof.
  intros s Hs. unfold rr_replay_debug. unfold bind at 1, get at 1.
  destruct (rr_queue s) as [|c rest]; [exact Hs|].
  destruct (negb _); [exact Hs|].
  unfold bind at 1. rewrite rr_prog_point_ok.
  destruct (_ >? _); [exact Hs|].
  unfold bind at 1, modify at 1.
  apply stable_add_to_recycle_list. now apply I_queue.
Qed.

Lemma stable_rr_replay_input k member cs :
  hoare any I (rr_replay_input k member cs) (fun _ => I).
Proof.
  unfold rr_replay_input.
  eapply hoare_bind; [apply stable_get_next_entry|].
  intros [item|]; [|apply hoare_fail; auto].
  eapply hoare_bind; [apply stable_rr_assert|]. intros ?.
  eapply hoare_bind; [apply stable_add_to_recycle_list|]. intros ?.
  apply hoare_ret. auto.
Qed.

Lemma stable_rr_replay_exit_request cs :
  hoare any I (rr_replay_exit_request cs) (fun _ => I).
Proof.
  unfold rr_replay_exit_request.
  eapply hoare_bind; [apply stable_get_next_entry|].
  intros [item|]; [|apply hoare_ret; auto].
  eapply hoare_bind; [apply stable_rr_assert|]. intros ?.
  eapply hoare_bind; [apply stable_add_to_recycle_list|]. intros ?.
  apply hoare_ret. auto.
Qed.

Lemma stable_rr_replay_interrupt_request cs :
  hoare any I (rr_replay_interrupt_request cs) (fun _ => I).
Proof.
  unfold rr_replay_interrupt_request.
  eapply hoare_bind; [apply stable_get_next_entry|].
  intros r. eapply hoare_bind with (R := fun _ => I).
  - destruct r as [item|]; [|apply hoare_ret; auto].
    eapply hoare_bind with (R := fun _ => I).
    { intros s Hs. now apply I_cache. }
    intros ?. eapply hoare_bind; [apply stable_add_to_recycle_list|].
    intros ?. apply stable_rr_fill_queue.
  - intros ? s Hs. exact Hs.
Qed.

Lemma stable_host_do e : hoare any I (host_do e) (fun _ => I).
Proof. intros s Hs. now apply I_host. Qed.

Lemma stable_replay_skipped_call args :
  hoare any I (replay_skipped_call args) (fun _ => I).
Proof.
  unfold replay_skipped_call.
  destruct (call_variant args) as [a|a|a|a|a|a];
    try (apply hoare_fail; auto); try apply stable_host_do.
  destruct (negb (mrc_added a =? 0)); apply stable_host_do.
Qed.

Lemma stable_rr_replay_skipped_calls_loop cs fuel :
  hoare any I (rr_replay_skipped_calls_loop fuel cs) (fun _ => I).
Proof.
  induction fuel as [|fuel IH]; cbn [rr_replay_skipped_calls_loop].
  - apply hoare_fail. auto.
  - eapply hoare_bind; [apply stable_get_next_entry|].
    intros [item|]; [|apply hoare_ret; auto].
    eapply hoare_bind with (R := fun _ => I).
    { destruct (variant item); try (apply hoare_fail; auto).
      apply stable_replay_skipped_call. }
    intros ?. eapply hoare_bind; [apply stable_add_to_recycle_list|].
    intros ?. eapply hoare_bind; [apply hoare_get|]. intros s0.
    eapply hoare_bind with (R := fun _ => I).
    + destruct (_ && _).
      * eapply hoare_conseq; [|apply stable_rr_fill_queue|auto].
        intros s [_ Hs]. exact Hs.
      * apply hoare_ret. intros s [_ Hs]. exact Hs.
    + intros ?. exact IH.
Qed.

Lemma stable_rr_replay_skipped_calls_internal cs :
  hoare any I (rr_replay_skipped_calls_internal cs) (fun _ => I).
Proof.
  intros s Hs. unfold rr_replay_skipped_calls_internal.
  unfold bind at 1, get at 1.
  apply stable_rr_replay_skipped_calls_loop. exact Hs.
Qed.

Lemma stable_rr_replay_finished :
  hoare any I rr_replay_finished (fun _ => I).
Proof.
  intros s Hs. unfold rr_replay_finished. unfold bind at 1.
  pose proof (rr_log_is_empty_inv s) as He.
  destruct (rr_log_is_empty s) as [[b s0]|e]; [subst s0|auto].
  destruct (negb b); [exact Hs|].
  unfold bind at 1, get at 1.
  destruct (rr_queue s) as [|head rest]; [cbn; auto|].
  destruct (negb _); exact Hs.
Qed.

Lemma stable_do_replay_call c :
  hoare any I (do_replay_call c) (fun _ => I).
Proof.
  assert (Hret : forall A (m : M A),
             hoare any I m (fun _ => I) ->
             hoare any I (m ;; ret tt) (fun _ => I)).
  { intros A m H. eapply hoare_bind; [exact H|].
    intros ?. apply hoare_ret. auto. }
  destruct c; cbn [do_replay_call]; try apply Hret;
    first [ apply stable_rr_replay_debug
          | apply stable_rr_replay_input
          | apply stable_rr_replay_interrupt_request
          | apply stable_rr_replay_exit_request
          | apply stable_rr_replay_skipped_calls_internal
          | apply stable_rr_replay_finished ].
Qed.

Lemma stable_run_replay calls :
  (forall s c, I s -> I (set_cpu c s)) ->
  hoare any I (run_replay calls) (fun _ => I).
Proof.
  intros I_cpu.
  induction calls as [|[pp c] calls IH]; cbn [run_replay].
  - apply hoare_ret. auto.
  - eapply hoare_bind with (R := fun _ => I).
    { intros s Hs. now apply I_cpu. }
    intros ?. eapply hoare_bind; [apply stable_do_replay_call|].
    intros ?. exact IH.
Qed.

Lemma stable_rr_do_begin_replay (P : rr_state -> Prop) :
  (forall s,
     P s ->
     I (set_rr_nondet_log
          (Some (mk_log REPLAY (Some (mk_FILE [] (rr_disk s)))
                        zero_prog_point 0 (Z.of_nat (length (rr_disk s))) 0
                        zero_entry)) s)) ->
  (forall s a b c, I s -> I (set_flags a b c s)) ->
  (forall s c, I s -> I (set_cpu c s)) ->
  (forall s m, I s -> I (set_rr_mode m s)) ->
  hoare any P rr_do_begin_replay (fun _ => I).
Proof.
  intros I_open I_flags I_cpu I_mode. unfold rr_do_begin_replay.
  eapply hoare_bind with (R := fun _ => I).
  { unfold rr_create_replay_log.
    eapply hoare_bind; [apply hoare_get|]. intros s0.
    eapply hoare_bind with (R := fun _ => I).
    { intros s [-> Hs]. now apply I_open. }
    intros ?. eapply hoare_bind; [apply stable_rr_fread|].
    intros hdr. apply stable_modify_log. intros l. now destruct l. }
  intros ?. eapply hoare_bind with (R := fun _ => I).
  { unfold rr_reset_state. eapply hoare_bind with (R := fun _ => I).
    - intros s Hs. now apply I_flags.
    - intros ? s Hs. now apply I_cpu. }
  intros ?. eapply hoare_bind with (R := fun _ => I).
  { intros s Hs. now apply I_mode. }
  intros ?. apply stable_rr_fill_queue.
Qed.

End Stable.






(* ------------------------------------------------------------------------- *)
(** ** The ring of the history and the log file during a replay *)




Lemma replay_only_log d s l l' :
  replay_only d s -> rr_nondet_log s = Some l -> log_type l' = log_type l ->
  replay_only d (set_rr_nondet_log (Some l') s).
Proof.
  intros (Hd & l0 & Hl0 & Ht) Hl Hty.
  assert (l0 = l) as -> by congruence.
  destruct s. split; [exact Hd|]. exists l'. split; [reflexivity|congruence].
Qed.

(** X2. A replay only reads the log file.  From the start of a replay,
    through any calls of the replay functions, the log that is open is a
    replay log and the file is as it was; and rr_do_end_replay leaves the
    file as it was, the log closed, the queue and the recycle list empty,
    the statistics of the queue at 0 and the mode off (it does not return
    when is_error is set). *)
Theorem replay_never_writes calls s u s' :
  (rr_do_begin_replay ;; run_replay calls) s = Ok (u, s') ->
  replay_only (rr_disk s) s'
  /\ rr_do_end_replay true s' = Abort aborted
  /\ exists s'',
      rr_do_end_replay false s' = Ok (tt, s'')
      /\ rr_disk s'' = rr_disk s
      /\ rr_nondet_log s'' = None
      /\ rr_queue s'' = [] /\ recycle_list s'' = []
      /\ rr_max_num_queue_entries s'' = 0
      /\ rr_mode s'' = RR_OFF.
Proof.
  intros Hrun.
  assert (H : hoare (fun _ => False) (fun s0 => rr_disk s0 = rr_disk s)
                (rr_do_begin_replay ;; run_replay calls)
                (fun _ => replay_only (rr_disk s))).
  { eapply hoare_bind.
    - apply (stable_rr_do_begin_replay (replay_only (rr_disk s)));
        try apply replay_only_log;
        try (intros s0; intros; destruct s0; assumption).
      intros s0 Hd. destruct s0. split; [exact Hd|].
      eexists. split; reflexivity.
    - intros ?. apply stable_run_replay; try apply replay_only_log;
        intros s0; intros; destruct s0; assumption. }
  pose proof (hoare_ok _ _ _ _ _ _ _ H eq_refl Hrun) as Hro.
  split; [exact Hro|].
  destruct Hro as (Hd & l & Hl & Ht).
  assert (Hend : forall b,
             rr_do_end_replay b s'
             = if b then Abort aborted
               else Ok (tt, set_rr_mode RR_OFF
                              (set_rr_nondet_log None
                                 (set_rr_queue []
                                    (set_recycle_list []
                                       (set_rr_max_num_queue_entries 0
                                          s')))))).
  { intros b. unfold rr_do_end_replay, rr_destroy_log, bind, the_log, modify.
    destruct s'. cbn in Hl. subst rr_nondet_log0. cbn. rewrite Ht.
    destruct (fp l), b; reflexivity. }
  split; [apply (Hend true)|].
  eexists. split; [apply (Hend false)|].
  destruct s'. cbn in *. repeat split. exact Hd.
Qed.

(* ------------------------------------------------------------------------- *)
(** ** Reads and writes that do not complete *)

(** rr_fread of members that have a size. *)
Lemma rr_fread_members s l f size nmemb :
  rr_nondet_log s = Some l -> fp l = Some f ->
  0 < size -> 0 < nmemb ->
  rr_fread size nmemb s
  = if size * nmemb <=? Z.of_nat (length (f_after f))
    then Ok (firstn (Z.to_nat (size * nmemb)) (f_after f),
             set_rr_nondet_log
               (Some (set_bytes_read
                        ((bytes_read l + nmemb * size) mod 2 ^ 64)
                        (set_fp
                           (Some (mk_FILE
                                    (f_before f
                                     ++ firstn (Z.to_nat (size * nmemb))
                                          (f_after f))
                                    (skipn (Z.to_nat (size * nmemb))
                                       (f_after f)))) l))) s)
    else Abort (assert_fail fread_result_eq_nmemb).
Proof.
  intros Hl Hf Hsize Hnmemb.
  unfold rr_fread, fread, bind, the_log. rewrite Hl, Hf.
  destruct (Z.eqb_spec size 0) as [Hs|Hs]; [lia|].
  destruct (Z.eqb_spec nmemb 0) as [Hn|Hn]; [lia|]. cbn [orb].
  unfold modify_log, bind, the_log, modify, rr_assert.
  destruct (Z.leb_spec (size * nmemb) (Z.of_nat (length (f_after f))))
    as [Hle|Hgt].
  - rewrite Hl. rewrite Z.eqb_refl. reflexivity.
  - rewrite Hl.
    destruct (Z.eqb_spec (Z.of_nat (length (f_after f)) / size) nmemb)
      as [Heq|Hne]; [|reflexivity].
    exfalso.
    pose proof (Z.mul_div_le (Z.of_nat (length (f_after f))) size
                  ltac:(lia)) as Hd.
    rewrite Heq in Hd. lia.
Qed.

(** X3. rr_fread.  With a log open on a file, rr_fread(ptr, size, nmemb)
    (sizes as size_t) returns exactly when nmemb is 0, or size is not 0 and
    size * nmemb bytes are left in the file; it then yields these bytes and
    moves the position and bytes_read past them.  In every other case (a
    short read, or members of size 0) it stops at the assertion
    result == nmemb. *)
Theorem rr_fread_complete s l f size nmemb :
  rr_nondet_log s = Some l -> fp l = Some f ->
  0 <= size -> 0 <= nmemb ->
  rr_fread size nmemb s
  = if fread_complete size nmemb (length (f_after f))
    then Ok (firstn (Z.to_nat (size * nmemb)) (f_after f),
             set_rr_nondet_log
               (Some (set_bytes_read
                        ((bytes_read l + nmemb * size) mod 2 ^ 64)
                        (set_fp
                           (Some (mk_FILE
                                    (f_before f
                                     ++ firstn (Z.to_nat (size * nmemb))
                                          (f_after f))
                                    (skipn (Z.to_nat (size * nmemb))
                                       (f_after f)))) l))) s)
    else Abort (assert_fail fread_result_eq_nmemb).
Proof.
  intros Hl Hf Hsize Hnmemb. unfold fread_complete.
  destruct (Z.eqb_spec nmemb 0) as [->|Hn]; cbn [orb].
  - unfold rr_fread, fread, bind, the_log. rewrite Hl, Hf.
    rewrite orb_true_r.
    unfold modify_log, bind, the_log, modify, rr_assert. rewrite Hl.
    rewrite Z.mul_0_r. cbn. rewrite app_nil_r. now destruct f.
  - destruct (Z.eqb_spec size 0) as [->|Hs]; cbn [negb andb].
    + unfold rr_fread, fread, bind, the_log. rewrite Hl, Hf.
      change (0 =? 0) with true. cbn [orb].
      unfold modify_log, bind, the_log, modify, rr_assert. rewrite Hl.
      destruct (Z.eqb_spec 0 nmemb); [lia|reflexivity].
    + apply rr_fread_members; [assumption|assumption|lia|lia].
Qed.

Lemma rr_fwrite_outcome s l before ptr size nmemb :
  rr_nondet_log s = Some l -> fp l = Some (mk_FILE before []) ->
  rr_fwrite ptr size nmemb s
  = match fwrite_bytes ptr size nmemb with
    | Some bs =>
        Ok (if (size =? 0) || (nmemb =? 0) then 0 else nmemb,
            set_rr_nondet_log
              (Some (set_fp (Some (mk_FILE (before ++ bs) [])) l)) s)
    | None => Abort (fwrite_error ptr size nmemb)
    end.
Proof.
  intros Hl Hf.
  unfold rr_fwrite, fwrite_bytes, fwrite_error, fwrite, bind, the_log,
    modify_log, modify, rr_assert, ret, fail.
  rewrite Hl, Hf.
  destruct ((size =? 0) || (nmemb =? 0)) eqn:Hz.
  - rr_cbn. unfold bind, the_log. rewrite Hl.
    destruct (0 =? nmemb) eqn:Hn; [|reflexivity].
    rewrite app_nil_r. reflexivity.
  - destruct ptr as [m|]; [|reflexivity].
    destruct (Z.of_nat (length m) <? size * nmemb); [reflexivity|].
    rr_cbn. unfold bind, the_log. rewrite Hl. rewrite Z.eqb_refl.
    unfold f_put. cbn [f_before f_after]. rewrite skipn_nil. reflexivity.
Qed.

Ltac tail_outcome :=
  match goal with
  | |- context [bind (rr_fwrite ?p ?sz ?n) _ ?st] =>
      let H := fresh "H" in
      pose proof (rr_fwrite_outcome st _ _ p sz n eq_refl eq_refl) as H;
      destruct (fwrite_bytes p sz n);
      [ erewrite bind_ok by exact H; norm_state
      | erewrite bind_abort by exact H; reflexivity ]
  end.

(** rr_write_item in a record session: it returns with the bytes of the
    item appended, or ends the way the rr_fwrite of the tail ends. *)
Lemma rr_write_item_outcome s l before :
  recording s l before ->
  rr_write_item s
  = match item_error (current_item l), item_wire (current_item l) with
    | None, Some bs =>
        Ok (tt, set_rr_nondet_log (Some (log_written bs before l)) s)
    | Some err, _ => Abort err
    | None, None => Abort out_of_fuel
    end.
Proof.
  intros (Hm & Hl & Hf & Hty).
  destruct l as [ty f lpp br sz n item]. cbn in Hf. subst f.
  destruct s. cbn in Hm, Hl. subst.
  unfold rr_write_item.
  erewrite bind_ok by reflexivity.
  erewrite bind_ok by reflexivity.
  erewrite bind_ok by reflexivity.
  cbn [current_item].
  do 3 write_step.
  erewrite bind_ok by reflexivity. norm_state.
  unfold item_error, item_wire, header_wire, log_written.
  destruct item as [hd v].
  destruct v as [d|d|d|d|d|d|[cv oba]| |];
    cbn [variant variant_wire header kind current_item];
    try (write_step; rewrite <- !app_assoc; reflexivity);
    try (erewrite bind_ok by reflexivity; rewrite <- !app_assoc, app_nil_r;
         reflexivity).
  rewrite bind_bind. write_step.
  destruct cv as [a|a|a|a|a|a];
    cbn [call_variant call_variant_tail call_variant_fixed call_kind
         tail_args];
    try rewrite bind_bind;
    write_step;
    try (rewrite <- !app_assoc, app_nil_r; reflexivity);
    tail_outcome; rewrite <- !app_assoc; reflexivity.
Qed.

Lemma record_item_outcome s l before cs v :
  recording s l before ->
  (store_current_item cs v ;; rr_write_item) s
  = match item_error (mk_entry (mk_header (prog_point_of s) 0 cs) v),
          item_wire (mk_entry (mk_header (prog_point_of s) 0 cs) v) with
    | None, Some bs =>
        Ok (tt, set_rr_nondet_log
                  (Some (log_written bs before
                           (set_current_item
                              (mk_entry (mk_header (prog_point_of s) 0 cs) v)
                              l))) s)
    | Some err, _ => Abort err
    | None, None => Abort out_of_fuel
    end.
Proof.
  intros Hrec.
  erewrite bind_ok by (apply store_current_item_ok; apply Hrec).
  rewrite (rr_write_item_outcome _ _ _
             (recording_set_current_item s l before _ Hrec)).
  replace (current_item (set_current_item
                           (mk_entry (mk_header (prog_point_of s) 0 cs) v) l))
    with (mk_entry (mk_header (prog_point_of s) 0 cs) v)
    by (destruct l; reflexivity).
  destruct (item_error _); [reflexivity|].
  destruct (item_wire _); [|reflexivity].
  now rewrite set_rr_nondet_log_twice.
Qed.

Lemma open_file_bytes_written s l before bs e :
  recording s l before ->
  open_file_bytes
    (set_rr_nondet_log (Some (log_written bs before (set_current_item e l)))
       s)
  = open_file_bytes s ++ bs.
Proof.
  intros Hrec. rewrite (open_file_bytes_recording _ _ _ Hrec).
  destruct s, l. unfold open_file_bytes. cbn. apply app_nil_r.
Qed.

(** X4. Capture calls on the edge, in a record session.
    rr_record_handle_packet_call with size 0 stops at the assertion of
    rr_fwrite: one member of size 0 is asked for and fwrite reports none.
    rr_record_cpu_mem_rw_call and rr_record_cpu_mem_unmap with length 0
    return whatever the buffer is, also a null one, and append the header,
    the kind of the call and the fixed part only; with another length and
    a null buffer they read through the null pointer.
    rr_record_memory_region_change with a null name does so in strlen. *)
Theorem capture_edge_cases s l before cs :
  recording s l before ->
  (forall ptr buf size dir,
     to_size_t size = 0 ->
     rr_record_handle_packet_call cs ptr buf size dir s
     = Abort (assert_fail fwrite_result_eq_nmemb))
  /\ (forall addr buf len w,
        to_size_t len = 0 ->
        exists s',
          rr_record_cpu_mem_rw_call cs addr buf len w s = Ok (tt, s')
          /\ open_file_bytes s'
             = open_file_bytes s
               ++ prog_point_bytes (prog_point_of s)
               ++ u32_bytes (kind_code RR_SKIPPED_CALL) ++ u32_bytes cs
               ++ u32_bytes (call_kind_code RR_CALL_CPU_MEM_RW)
               ++ cpu_mem_rw_args_bytes (mk_cpu_mem_rw_args addr buf len))
  /\ (forall addr buf len w,
        to_size_t len = 0 ->
        exists s',
          rr_record_cpu_mem_unmap cs addr buf len w s = Ok (tt, s')
          /\ open_file_bytes s'
             = open_file_bytes s
               ++ prog_point_bytes (prog_point_of s)
               ++ u32_bytes (kind_code RR_SKIPPED_CALL) ++ u32_bytes cs
               ++ u32_bytes (call_kind_code RR_CALL_CPU_MEM_UNMAP)
               ++ cpu_mem_unmap_bytes (mk_cpu_mem_unmap addr buf len))
  /\ (forall addr len w,
        to_size_t len <> 0 ->
        rr_record_cpu_mem_rw_call cs addr None len w s = Abort null_pointer
        /\ rr_record_cpu_mem_unmap cs addr None len w s
           = Abort null_pointer)
  /\ (forall start_addr size mtype added,
        rr_record_memory_region_change cs start_addr size None mtype added s
        = Abort null_pointer).
Proof.
  intros Hrec. split; [|split; [|split; [|split]]].
  - intros ptr buf size dir Hz. unfold rr_record_handle_packet_call.
    rewrite (record_item_outcome _ _ _ _ _ Hrec).
    unfold item_error. cbn [variant call_variant tail_args hp_buf hp_size].
    unfold fwrite_bytes, fwrite_error. rewrite Hz. reflexivity.
  - intros addr buf len w Hz. unfold rr_record_cpu_mem_rw_call.
    rewrite (record_item_outcome _ _ _ _ _ Hrec).
    unfold item_error, item_wire, header_wire.
    cbn [variant call_variant tail_args rw_buf rw_len variant_wire
         call_variant_tail call_variant_fixed header prog_point callsite_loc
         call_kind kind].
    unfold fwrite_bytes. rewrite Hz. cbn [Z.eqb orb].
    eexists. split; [reflexivity|].
    rewrite (open_file_bytes_written _ _ _ _ _ Hrec).
    now rewrite <- !app_assoc, app_nil_r.
  - intros addr buf len w Hz. unfold rr_record_cpu_mem_unmap.
    rewrite (record_item_outcome _ _ _ _ _ Hrec).
    unfold item_error, item_wire, header_wire.
    cbn [variant call_variant tail_args um_buf um_len variant_wire
         call_variant_tail call_variant_fixed header prog_point callsite_loc
         call_kind kind].
    unfold fwrite_bytes. rewrite Hz. cbn [Z.eqb orb].
    eexists. split; [reflexivity|].
    rewrite (open_file_bytes_written _ _ _ _ _ Hrec).
    now rewrite <- !app_assoc, app_nil_r.
  - intros addr len w Hz.
    apply Z.eqb_neq in Hz.
    split; [unfold rr_record_cpu_mem_rw_call|unfold rr_record_cpu_mem_unmap];
      rewrite (record_item_outcome _ _ _ _ _ Hrec);
      unfold item_error;
      cbn [variant call_variant tail_args rw_buf rw_len um_buf um_len];
      unfold fwrite_bytes, fwrite_error; cbn [Z.eqb orb]; rewrite Hz;
      reflexivity.
  - intros start_addr size mtype added.
    unfold rr_record_memory_region_change.
    destruct Hrec as (Hm & Hl & Hf & Hty).
    erewrite bind_ok by (apply modify_log_ok; exact Hl).
    erewrite bind_ok by apply rr_prog_point_ok.
    reflexivity.
Qed.

Lemma rr_write_item_not_recording s l :
  rr_nondet_log s = Some l -> rr_mode s <> RR_RECORD ->
  rr_write_item s = Abort (assert_fail assert_rr_in_record).
Proof.
  intros Hl Hm. unfold rr_write_item.
  erewrite bind_ok by (apply the_log_ok; exact Hl).
  unfold bind at 1. unfold rr_in_record, bind, get, ret.
  destruct (rr_mode s); try reflexivity. now elim Hm.
Qed.

Lemma record_item_not_recording s l cs v :
  rr_nondet_log s = Some l -> rr_mode s <> RR_RECORD ->
  (store_current_item cs v ;; rr_write_item) s
  = Abort (assert_fail assert_rr_in_record).
Proof.
  intros Hl Hm.
  erewrite bind_ok by (apply store_current_item_ok; exact Hl).
  eapply rr_write_item_not_recording; destruct s; [reflexivity|exact Hm].
Qed.

(** X5. The mode is checked before anything is written or read.  With a
    log open and the mode other than RR_RECORD, a capture call that has an
    item to write stops at the assertion rr_in_record() of rr_write_item,
    and one that has none (an interrupt word equal to the cached one, an
    exit request of 0) returns and changes nothing.  With the mode other
    than RR_REPLAY, rr_read_item stops at the assertion rr_in_replay(); in
    a replay whose log has been read to its end it stops at the assertion
    !rr_log_is_empty(). *)
Theorem mode_checked_first s l c :
  rr_nondet_log s = Some l ->
  (rr_mode s <> RR_RECORD ->
   if call_writes (panda_current_interrupt_request s) c
   then variant_of_call c <> None ->
        do_record_call c s = Abort (assert_fail assert_rr_in_record)
   else do_record_call c s = Ok (tt, s))
  /\ (rr_mode s <> RR_REPLAY ->
      rr_read_item s = Abort (assert_fail assert_rr_in_replay))
  /\ (rr_mode s = RR_REPLAY -> log_type l = REPLAY ->
      log_size l = bytes_read l ->
      rr_read_item s = Abort (assert_fail assert_log_not_empty)).
Proof.
  intros Hl. split; [|split].
  - intros Hm.
    destruct c; cbn [call_writes do_record_call variant_of_call];
      try (intros _;
           first [ unfold rr_record_debug | unfold rr_record_input_1
                 | unfold rr_record_input_2 | unfold rr_record_input_4
                 | unfold rr_record_input_8
                 | unfold rr_record_cpu_mem_rw_call
                 | unfold rr_record_cpu_mem_unmap
                 | unfold rr_record_hd_transfer
                 | unfold rr_record_net_transfer
                 | unfold rr_record_handle_packet_call ];
           now apply (record_item_not_recording s l)).
    + destruct (negb (to_uint32 (panda_current_interrupt_request s) =? v))
        eqn:Hc; unfold rr_record_interrupt_request; unfold bind at 1, get at 1;
        rewrite Hc; [|reflexivity].
      intros _.
      erewrite bind_ok by (apply modify_log_ok; exact Hl).
      erewrite bind_ok by apply rr_prog_point_ok.
      erewrite bind_ok
        by (apply modify_log_ok; apply rr_nondet_log_set_rr_nondet_log).
      erewrite bind_ok by reflexivity.
      eapply rr_write_item_not_recording; destruct s; [reflexivity|exact Hm].
    + destruct (negb (v =? 0)) eqn:Hc; unfold rr_record_exit_request;
        rewrite Hc; [|reflexivity].
      intros _. now apply (record_item_not_recording s l).
    + unfold rr_record_memory_region_change.
      erewrite bind_ok by (apply modify_log_ok; exact Hl).
      erewrite bind_ok by apply rr_prog_point_ok.
      destruct name as [m|]; [|intros H; now elim H].
      unfold strlen.
      destruct (strlen_bytes m) as [n|]; [|intros H; now elim H].
      intros _.
      erewrite bind_ok by reflexivity.
      erewrite bind_ok
        by (apply modify_log_ok; apply rr_nondet_log_set_rr_nondet_log).
      eapply rr_write_item_not_recording; destruct s; [reflexivity|exact Hm].
  - intros Hm. unfold rr_read_item. unfold bind at 1.
    unfold rr_in_replay, bind, get, ret.
    destruct (rr_mode s); try reflexivity. now elim Hm.
  - intros Hm Hty Hsz. unfold rr_read_item. unfold bind at 1.
    unfold rr_in_replay at 1. unfold bind at 1, get at 1, ret at 1.
    rewrite Hm. cbn [RR_mode_eqb]. unfold bind at 1.
    unfold rr_assert at 1, ret at 1. unfold bind at 1.
    unfold rr_log_is_empty, bind, the_log. rewrite Hl, Hty, Hsz.
    now rewrite Z.eqb_refl.
Qed.

(** X6. Skipped calls the replay has no case for.
    rr_replay_skipped_calls_internal takes the skipped call that is due with
    get_next_entry(RR_SKIPPED_CALL, call_site, false).  When none is due it
    returns at once.  When the entry is an hd transfer, a net transfer or a
    packet, its switch has no case for it and the assertion of the default
    case fails; for the three other kinds the call is made on the host
    (the write to guest memory, the change of the memory map, the unmap)
    before anything else is taken from the queue. *)
Theorem skipped_call_without_case cs s :
  match get_next_entry RR_SKIPPED_CALL cs false s with
  | Ok (None, s1) => rr_replay_skipped_calls_internal cs s = Ok (tt, s1)
  | Ok (Some item, s1) =>
      exists args,
        variant item = call_args args
        /\ match call_variant args with
           | hd_transfer_args _ | net_transfer_args _
           | handle_packet_args _ =>
               rr_replay_skipped_calls_internal cs s
               = Abort (assert_fail assert_skipped_call_sanity)
           | _ =>
               exists effect s2,
                 replay_skipped_call args s1 = Ok (tt, s2)
                 /\ host_effects s2 = host_effects s1 ++ [effect]
                 /\ rr_queue s2 = rr_queue s1
           end
  | Abort e => rr_replay_skipped_calls_internal cs s = Abort e
  end.
Proof.
  assert (Hloop : rr_replay_skipped_calls_internal cs s
                  = match get_next_entry RR_SKIPPED_CALL cs false s with
                    | Ok (None, s1) => Ok (tt, s1)
                    | Ok (Some item, s1) =>
                        (match variant item with
                         | call_args args => replay_skipped_call args
                         | _ => fail (assert_fail assert_skipped_call_sanity)
                         end ;;
                         add_to_recycle_list item ;;
                         s0 <- get ;;
                         (if (cs =? RR_CALLSITE_MAIN_LOOP_WAIT)
                             && match rr_queue s0 with
                                | [] => true
                                | _ :: _ => false
                                end
                          then rr_fill_queue else ret tt) ;;
                         rr_replay_skipped_calls_loop
                           (length (rr_queue s) + unread_bytes s) cs) s1
                    | Abort e => Abort e
                    end).
  { unfold rr_replay_skipped_calls_internal. unfold bind at 1, get at 1.
    cbn [rr_replay_skipped_calls_loop]. unfold bind at 1.
    destruct (get_next_entry RR_SKIPPED_CALL cs false s) as [[[item|] s1]|e];
      reflexivity. }
  rewrite Hloop.
  destruct (get_next_entry RR_SKIPPED_CALL cs false s)
    as [[[item|] s1]|e] eqn:Hg; [|reflexivity|reflexivity].
  destruct (get_next_entry_some _ _ _ _ _ _ Hg)
    as (sx & rest & _ & _ & _ & _ & Hk & _).
  unfold kind in Hk.
  destruct (variant item) as [d|d|d|d|d|d|args| |] eqn:Hv;
    try discriminate.
  exists args. split; [reflexivity|].
  unfold bind at 1. unfold replay_skipped_call.
  destruct (call_variant args) as [a|a|a|a|a|a];
    try reflexivity;
    try (destruct (negb (mrc_added a =? 0)));
    eexists; eexists; (split; [reflexivity|]); destruct s1; split;
      reflexivity.
Qed.

(** X7. Replay of an input.  rr_replay_input_1/2/4/8 (call_site, data) ask
    get_next_entry for an entry of their kind without the check of the call
    site.  When none is due the assertion fails: an input that is not in
    the log at this point stops the replay.  When an entry is returned it is
    an input of that width; if it was recorded at another call site the
    assertion on the call site fails, and otherwise the datum it carries is
    stored through data and the entry goes through add_to_recycle_list. *)
Theorem rr_replay_input_value k member cs s :
  (k, member) = (RR_INPUT_1, variant_input_1)
  \/ (k, member) = (RR_INPUT_2, variant_input_2)
  \/ (k, member) = (RR_INPUT_4, variant_input_4)
  \/ (k, member) = (RR_INPUT_8, variant_input_8) ->
  match get_next_entry k cs false s with
  | Ok (None, s1) =>
      rr_replay_input k member cs s = Abort (assert_fail assert_entry_found)
  | Ok (Some item, s1) =>
      kind item = k
      /\ (variant item = input_1 (member (variant item))
          \/ variant item = input_2 (member (variant item))
          \/ variant item = input_4 (member (variant item))
          \/ variant item = input_8 (member (variant item)))
      /\ if callsite_loc (header item) =? cs
         then exists s2,
             add_to_recycle_list item s1 = Ok (tt, s2)
             /\ rr_replay_input k member cs s
                = Ok (member (variant item), s2)
         else rr_replay_input k member cs s
              = Abort (assert_fail assert_callsite_match)
  | Abort e => rr_replay_input k member cs s = Abort e
  end.
Proof.
  intros Hk.
  assert (Hx : rr_replay_input k member cs s
               = match get_next_entry k cs false s with
                 | Ok (None, s1) => Abort (assert_fail assert_entry_found)
                 | Ok (Some item, s1) =>
                     (rr_assert (callsite_loc (header item) =? cs)
                        assert_callsite_match ;;
                      add_to_recycle_list item ;;
                      ret (member (variant item))) s1
                 | Abort e => Abort e
                 end).
  { unfold rr_replay_input. unfold bind at 1.
    destruct (get_next_entry k cs false s) as [[[item|] s1]|e];
      reflexivity. }
  rewrite Hx. clear Hx.
  destruct (get_next_entry k cs false s) as [[[item|] s1]|e] eqn:Hg;
    [|reflexivity|reflexivity].
  destruct (get_next_entry_some _ _ _ _ _ _ Hg)
    as (sx & rest & _ & _ & _ & _ & Hkind & _).
  split; [exact Hkind|]. split.
  - unfold kind in Hkind.
    destruct Hk as [Hk|[Hk|[Hk|Hk]]];
      assert (Hk1 := f_equal fst Hk); assert (Hk2 := f_equal snd Hk);
      cbn [fst snd] in Hk1, Hk2; subst k member;
      destruct (variant item); try discriminate; cbn; tauto.
  - unfold bind at 1. unfold bind at 2.
    destruct (callsite_loc (header item) =? cs); [|reflexivity].
    cbn [rr_assert ret]. eexists. split; reflexivity.
Qed.

(* ------------------------------------------------------------------------- *)
(** ** A log without entries *)

Lemma rr_log_is_empty_at_end s l :
  rr_nondet_log s = Some l -> log_type l = REPLAY ->
  log_size l = bytes_read l ->
  rr_log_is_empty s = Ok (true, s).
Proof.
  intros Hl Hty Hsz. unfold rr_log_is_empty, bind, the_log.
  now rewrite Hl, Hty, Hsz, Z.eqb_refl.
Qed.

Lemma rr_fill_queue_at_end s l :
  rr_nondet_log s = Some l -> log_type l = REPLAY ->
  log_size l = bytes_read l ->
  rr_queue s = [] -> 0 <= rr_max_num_queue_entries s ->
  rr_fill_queue s = Ok (tt, s).
Proof.
  intros Hl Hty Hsz Hq Hmax. unfold rr_fill_queue.
  unfold bind at 1, get at 1. rewrite Hq. cbn [rr_assert].
  unfold bind at 1, ret at 1. unfold bind at 1.
  cbn [rr_fill_queue_loop]. unfold bind at 1. unfold rr_fill_queue_body.
  unfold bind at 1.
  rewrite (rr_log_is_empty_at_end s l Hl Hty Hsz).
  cbn [ret fst snd]. unfold modify.
  destruct (Z.gtb_spec 0 (rr_max_num_queue_entries s)); [lia|reflexivity].
Qed.

Lemma get_next_entry_at_end s l k cs chk :
  rr_nondet_log s = Some l -> log_type l = REPLAY ->
  log_size l = bytes_read l ->
  rr_queue s = [] -> 0 <= rr_max_num_queue_entries s ->
  get_next_entry k cs chk s = Ok (None, s).
Proof.
  intros Hl Hty Hsz Hq Hmax.
  rewrite get_next_entry_empty by exact Hq.
  rewrite (rr_fill_queue_at_end s l Hl Hty Hsz Hq Hmax).
  now rewrite Hq.
Qed.

(** X8. Replay past the last entry.  In a replay whose log has been read
    to its end and whose queue is empty (a log that does not end with the
    RR_LAST marker has this state after its last entry), get_next_entry
    returns none and leaves the state as it is.  So the replay of an input
    fails its assertion; the replay of an exit request gives 0, that of an
    interrupt request the cached word, the replay of skipped calls and of a
    debug marker do nothing; and rr_replay_finished reads through the null
    head of the queue. *)
Theorem replay_past_the_end s l cs :
  rr_nondet_log s = Some l -> log_type l = REPLAY ->
  log_size l = bytes_read l ->
  rr_queue s = [] -> 0 <= rr_max_num_queue_entries s ->
  (forall k chk, get_next_entry k cs chk s = Ok (None, s))
  /\ (forall k member,
        rr_replay_input k member cs s
        = Abort (assert_fail assert_entry_found))
  /\ rr_replay_exit_request cs s = Ok (0, s)
  /\ rr_replay_interrupt_request cs s
     = Ok (to_uint32 (panda_current_interrupt_request s), s)
  /\ rr_replay_skipped_calls_internal cs s = Ok (tt, s)
  /\ rr_replay_debug cs s = Ok (tt, s)
  /\ rr_replay_finished s = Abort null_pointer.
Proof.
  intros Hl Hty Hsz Hq Hmax.
  assert (Hg : forall k chk, get_next_entry k cs chk s = Ok (None, s))
    by (intros; now apply (get_next_entry_at_end s l)).
  split; [exact Hg|]. split; [|split; [|split; [|split; [|split]]]].
  - intros k member. unfold rr_replay_input, bind. now rewrite Hg.
  - unfold rr_replay_exit_request, bind. now rewrite Hg.
  - unfold rr_replay_interrupt_request. unfold bind at 1. now rewrite Hg.
  - unfold rr_replay_skipped_calls_internal. unfold bind at 1, get at 1.
    cbn [rr_replay_skipped_calls_loop]. unfold bind at 1. now rewrite Hg.
  - unfold rr_replay_debug, bind, get. now rewrite Hq.
  - unfold rr_replay_finished. unfold bind at 1.
    rewrite (rr_log_is_empty_at_end s l Hl Hty Hsz). cbn [negb].
    unfold bind, get. now rewrite Hq.
Qed.

(** X9. A log file that is too short.  rr_do_begin_replay on a file of
    fewer than the 24 bytes of the header stops at the assertion of
    rr_fread.  On a file of exactly 24 bytes, with the queue empty as a
    replay finds it, it returns: the header is in last_prog_point, the log
    is at its end and the queue is still empty. *)
Theorem rr_do_begin_replay_short_file s :
  ((length (rr_disk s) < 24)%nat ->
   rr_do_begin_replay s = Abort (assert_fail fread_result_eq_nmemb))
  /\ (length (rr_disk s) = 24%nat -> rr_queue s = [] ->
      0 <= rr_max_num_queue_entries s ->
      exists s' l',
        rr_do_begin_replay s = Ok (tt, s')
        /\ rr_nondet_log s' = Some l' /\ log_type l' = REPLAY
        /\ log_size l' = bytes_read l'
        /\ last_prog_point l' = prog_point_of_bytes (rr_disk s)
        /\ rr_queue s' = [] /\ rr_mode s' = RR_REPLAY
        /\ 0 <= rr_max_num_queue_entries s').
Proof.
  set (l0 := mk_log REPLAY (Some (mk_FILE [] (rr_disk s))) zero_prog_point 0
                    (Z.of_nat (length (rr_disk s))) 0 zero_entry).
  assert (Hl0 : rr_nondet_log (set_rr_nondet_log (Some l0) s) = Some l0)
    by now destruct s.
  pose proof (rr_fread_members _ l0 (mk_FILE [] (rr_disk s))
                sizeof_prog_point 1 Hl0 eq_refl ltac:(reflexivity)
                ltac:(reflexivity)) as Hread.
  cbn [f_after f_before app] in Hread.
  assert (Hbegin : rr_do_begin_replay s
                   = ((hdr <- rr_fread sizeof_prog_point 1 ;;
                       modify_log (set_last_prog_point
                                     (prog_point_of_bytes hdr))) ;;
                      rr_reset_state ;;
                      modify (set_rr_mode RR_REPLAY) ;;
                      rr_fill_queue) (set_rr_nondet_log (Some l0) s))
    by reflexivity.
  rewrite Hbegin. clear Hbegin. split.
  - intros Hlen. unfold bind at 1. unfold bind at 1. rewrite Hread.
    unfold sizeof_prog_point.
    destruct (Z.leb_spec (24 * 1) (Z.of_nat (length (rr_disk s))));
      [lia|reflexivity].
  - intros Hlen Hq Hmax. unfold bind at 1. unfold bind at 1. rewrite Hread.
    unfold sizeof_prog_point.
    destruct (Z.leb_spec (24 * 1) (Z.of_nat (length (rr_disk s))));
      [|lia].
    rewrite firstn_all2 by (cbn; lia).
    rewrite skipn_all2 by (cbn; lia).
    erewrite modify_log_ok by (destruct s; reflexivity).
    rewrite set_rr_nondet_log_twice.
    unfold bind at 1. unfold rr_reset_state, bind, modify.
    match goal with
    | |- exists s' l', rr_fill_queue ?st = _ /\ _ =>
        pose proof (rr_fill_queue_at_end st
                      (set_last_prog_point (prog_point_of_bytes (rr_disk s))
                         (set_bytes_read ((0 + 1 * 24) mod 2 ^ 64)
                            (set_fp (Some (mk_FILE (rr_disk s) [])) l0))))
          as Hf
    end.
    rewrite Hf.
    + eexists.
      exists (set_last_prog_point (prog_point_of_bytes (rr_disk s))
                (set_bytes_read ((0 + 1 * 24) mod 2 ^ 64)
                   (set_fp (Some (mk_FILE (rr_disk s) [])) l0))).
      split; [reflexivity|]. split; [now destruct s|].
      split; [reflexivity|]. split; [cbn; now rewrite Hlen|].
      split; [reflexivity|]. split; [now destruct s|].
      split; now destruct s.
    + now destruct s.
    + reflexivity.
    + cbn. rewrite Hlen. reflexivity.
    + destruct s. exact Hq.
    + destruct s. exact Hmax.
Qed.

(* ------------------------------------------------------------------------- *)
(** ** rr_fill_queue on a log the recorder wrote *)

Lemma kind_decoded pos e : kind (decoded pos e) = kind e.
Proof. destruct e as [hd v]. destruct v; reflexivity. Qed.

Lemma is_cutoff_decoded pos e : is_cutoff (decoded pos e) = is_cutoff e.
Proof. unfold is_cutoff. now rewrite kind_decoded. Qed.

Lemma fill_split_app n items :
  fst (fill_split n items) ++ snd (fill_split n items) = items.
Proof.
  revert n. induction items as [|e items IH]; intros n; [reflexivity|].
  cbn [fill_split].
  destruct (is_cutoff e || (n + 1 >? RR_MAX_QUEUE_LEN)); cbn [fst snd app];
    [reflexivity|]. now rewrite IH.
Qed.

Lemma fill_split_hd n e items :
  exists t, fst (fill_split n (e :: items)) = e :: t.
Proof.
  cbn [fill_split].
  destruct (is_cutoff e || (n + 1 >? RR_MAX_QUEUE_LEN)); cbn [fst];
    eexists; reflexivity.
Qed.

Lemma replaying_set_rr_queue q s l before after :
  replaying s l before after -> replaying (set_rr_queue q s) l before after.
Proof. intros H. now destruct s. Qed.

Lemma replaying_set_rr_max n s l before after :
  replaying s l before after ->
  replaying (set_rr_max_num_queue_entries n s) l before after.
Proof. intros H. now destruct s. Qed.


(** The loop of rr_fill_queue on the bytes of [items]. *)
Lemma rr_fill_queue_loop_written items :
  forall fuel n s l before,
    replaying s l before (log_bytes items) ->
    Forall writable items -> Forall typed_entry items ->
    Forall (fun e => short_name (variant e)) items ->
    (length items < fuel)%nat ->
    exists s' l' q',
      rr_fill_queue_loop fuel n s
      = Ok (n + Z.of_nat (length (fst (fill_split n items))), s')
      /\ rr_queue s' = rr_queue s ++ q'
      /\ Forall2 decoded_from q' (fst (fill_split n items))
      /\ replaying s' l' (before ++ log_bytes (fst (fill_split n items)))
                   (log_bytes (snd (fill_split n items)))
      /\ panda_current_interrupt_request s'
         = panda_current_interrupt_request s
      /\ cpu s' = cpu s
      /\ host_effects s' = host_effects s
      /\ rr_max_num_queue_entries s' = rr_max_num_queue_entries s.
Proof.
  induction items as [|e items IH];
    intros fuel n s l before Hrep Hw Hty Hsh Hfuel.
  - destruct fuel as [|fuel]; [cbn in Hfuel; lia|].
    cbn [rr_fill_queue_loop]. unfold rr_fill_queue_body.
    rewrite bind_bind.
    rewrite (bind_ok _ _ _ _ _ (rr_log_is_empty_replaying _ _ _ _ Hrep)).
    cbn [log_bytes flat_map fill_split fst snd length] in *.
    exists s, l, []. rewrite !app_nil_r, Z.add_0_r.
    split; [reflexivity|]. split; [reflexivity|]. split; [constructor|].
    split; [exact Hrep|]. repeat split; reflexivity.
  - destruct fuel as [|fuel]; [cbn in Hfuel; lia|].
    inversion Hw as [|? ? Hwe Hw']; subst.
    inversion Hty as [|? ? Htye Hty']; subst.
    inversion Hsh as [|? ? Hshe Hsh']; subst.
    unfold writable in Hwe.
    destruct (item_wire e) as [bs|] eqn:Hbs; [|congruence].
    pose proof (item_wire_length e bs Hbs) as Hlen.
    assert (Hcons : log_bytes (e :: items) = bs ++ log_bytes items).
    { rewrite log_bytes_cons. unfold wire_or_nil. now rewrite Hbs. }
    rewrite Hcons in Hrep.
    cbn [rr_fill_queue_loop]. unfold rr_fill_queue_body.
    rewrite bind_bind.
    rewrite (bind_ok _ _ _ _ _ (rr_log_is_empty_replaying _ _ _ _ Hrep)).
    assert (Hne : match bs ++ log_bytes items with
                  | [] => true | _ => false end = false).
    { destruct bs; [cbn in Hlen; lia|reflexivity]. }
    rewrite Hne. rewrite !bind_bind.
    rewrite (bind_ok _ _ _ _ _
               (rr_read_item_spec s l before (log_bytes items) e bs
                  Hrep Hbs Htye Hshe)).
    rewrite bind_bind. unfold bind at 1, modify at 1.
    pose proof (replaying_read s l before bs (log_bytes items)
                  (tl (recycle_list s)) Hrep) as Hrep1.
    set (d := decoded (Z.of_nat (length before)) e) in *.
    set (s1 := set_recycle_list (tl (recycle_list s))
                 (set_rr_nondet_log
                    (Some (log_read bs before (log_bytes items) l)) s)) in *.
    set (s2 := set_rr_queue (rr_queue s1 ++ [d]) s1).
    assert (Hrep2 : replaying s2 (log_read bs before (log_bytes items) l)
                      (before ++ bs) (log_bytes items))
      by (apply replaying_set_rr_queue; exact Hrep1).
    assert (Hd : decoded_from d e) by (now exists (Z.of_nat (length before))).
    assert (Hq2 : rr_queue s2 = rr_queue s ++ [d])
      by (subst s2 s1; now destruct s).
    assert (Hc2 : panda_current_interrupt_request s2
                  = panda_current_interrupt_request s
                  /\ cpu s2 = cpu s
                  /\ host_effects s2 = host_effects s
                  /\ rr_max_num_queue_entries s2
                     = rr_max_num_queue_entries s)
      by (subst s2 s1; now destruct s).
    fold d. cbv zeta.
    change ((RR_log_entry_kind_eqb (kind d) RR_SKIPPED_CALL
             && (callsite_loc (header d) =? RR_CALLSITE_MAIN_LOOP_WAIT))
            || RR_log_entry_kind_eqb (kind d) RR_INTERRUPT_REQUEST)
      with (is_cutoff d).
    replace (is_cutoff d) with (is_cutoff e)
      by (symmetry; apply is_cutoff_decoded).
    cbn [fill_split].
    destruct (is_cutoff e || (n + 1 >? RR_MAX_QUEUE_LEN)) eqn:Hcut.
    + cbn [fst snd length bind ret]. unfold bind, ret. cbn [fst snd].
      exists s2, (log_read bs before (log_bytes items) l), [d].
      split; [f_equal; f_equal; lia|].
      split; [exact Hq2|]. split; [now repeat constructor|].
      split; [|exact Hc2].
      cbn [log_bytes flat_map]. unfold wire_or_nil. rewrite Hbs.
      now rewrite app_nil_r.
    + unfold bind at 1, ret at 1. cbn [fst snd].
      destruct (IH fuel (n + 1) s2 _ _ Hrep2 Hw' Hty' Hsh'
                  ltac:(cbn in Hfuel; lia))
        as (s' & l' & q' & Hloop & Hq' & Hdec & Hrep' & Hc' & Hcpu' & Hfx'
            & Hm').
      rewrite Hloop. cbn [fst snd length].
      exists s', l', (d :: q').
      split; [f_equal; f_equal; lia|].
      split; [rewrite Hq', Hq2, <- app_assoc; reflexivity|].
      split; [now constructor|].
      split; [|destruct Hc2 as (? & ? & ? & ?); repeat split; congruence].
      rewrite log_bytes_cons. unfold wire_or_nil. rewrite Hbs.
      now rewrite app_assoc.
Qed.

(** rr_fill_queue on the bytes of [items]. *)
Lemma rr_fill_queue_decoded items s l before :
  rr_queue s = [] ->
  replaying s l before (log_bytes items) ->
  Forall writable items -> Forall typed_entry items ->
  Forall (fun e => short_name (variant e)) items ->
  exists s' l',
    rr_fill_queue s = Ok (tt, s')
    /\ Forall2 decoded_from (rr_queue s') (fst (fill_split 0 items))
    /\ replaying s' l' (before ++ log_bytes (fst (fill_split 0 items)))
                 (log_bytes (snd (fill_split 0 items)))
    /\ rr_max_num_queue_entries s'
       = Z.max (rr_max_num_queue_entries s)
               (Z.of_nat (length (fst (fill_split 0 items))))
    /\ panda_current_interrupt_request s'
       = panda_current_interrupt_request s
    /\ cpu s' = cpu s
    /\ host_effects s' = host_effects s.
Proof.
  intros Hq Hrep Hw Hty Hsh.
  assert (Hun : unread_bytes s = length (log_bytes items)).
  { destruct Hrep as (_ & Hl & _ & Hfp & _). unfold unread_bytes.
    now rewrite Hl, Hfp. }
  destruct (rr_fill_queue_loop_written items (S (unread_bytes s)) 0 s l
              before Hrep Hw Hty Hsh)
    as (s1 & l1 & q1 & Hloop & Hq1 & Hdec & Hrep1 & Hc1 & Hcpu1 & Hfx1
        & Hmax1).
  { rewrite Hun. pose proof (length_items_le items Hw). lia. }
  rewrite Hq in Hq1. cbn [app] in Hq1. rewrite <- Hq1 in Hdec.
  unfold rr_fill_queue. unfold bind at 1, get at 1. rewrite Hq.
  unfold bind at 1. cbn [rr_assert ret].
  unfold bind at 1. rewrite Hloop. unfold modify. rewrite Z.add_0_l.
  set (n := Z.of_nat (length (fst (fill_split 0 items)))).
  destruct (Z.gtb_spec n (rr_max_num_queue_entries s1)) as [Hgt|Hle].
  - exists (set_rr_max_num_queue_entries n s1), l1.
    split; [reflexivity|].
    split; [destruct s1; exact Hdec|].
    split; [now apply replaying_set_rr_max|].
    split; [destruct s1; cbn in *; lia|].
    split; [destruct s1; exact Hc1|].
    split; [destruct s1; exact Hcpu1|destruct s1; exact Hfx1].
  - exists s1, l1. split; [reflexivity|].
    split; [exact Hdec|]. split; [exact Hrep1|].
    split; [lia|]. repeat split; assumption.
Qed.


(* ------------------------------------------------------------------------- *)
(** ** The replay of a recorded session follows the record *)

Lemma never_nothing : never (fun _ => False).
Proof. intros e []. Qed.

(** rr_fill_queue stops for the length of the queue only after
    RR_MAX_QUEUE_LEN entries. *)
Lemma fill_split_complete items :
  forall n,
    0 <= n -> n + Z.of_nat (length items) <= RR_MAX_QUEUE_LEN ->
    snd (fill_split n items) = []
    \/ exists front c,
        fst (fill_split n items) = front ++ [c] /\ is_cutoff c = true.
Proof.
  induction items as [|e items IH]; intros n Hn Hlen; [now left|].
  cbn [length] in Hlen. cbn [fill_split].
  destruct (is_cutoff e) eqn:Hcut; cbn [orb fst snd].
  - right. exists [], e. split; [reflexivity|exact Hcut].
  - destruct (Z.gtb_spec (n + 1) RR_MAX_QUEUE_LEN) as [Hgt|Hle]; [lia|].
    cbn [fst snd].
    destruct (IH (n + 1) ltac:(lia) ltac:(lia)) as [Hs|(front & c & Hf & Hc)].
    + now left.
    + right. exists (e :: front), c. split; [now rewrite Hf|exact Hc].
Qed.

Lemma decoded_from_cutoff h e :
  decoded_from h e -> is_cutoff h = is_cutoff e.
Proof. intros [pos ->]. apply is_cutoff_decoded. Qed.

Section Follow.

Variable small : Prop.

Lemma replay_inv_cpu c s cache fx pending :
  replay_inv small s cache fx pending ->
  replay_inv small (set_cpu c s) cache fx pending.
Proof. intros H. destruct s. exact H. Qed.

Lemma replay_inv_cache v s cache fx pending :
  replay_inv small s cache fx pending ->
  replay_inv small (set_panda_current_interrupt_request v s) v fx pending.
Proof.
  intros (_ & Hfx & Hq & H). split; [now destruct s|].
  split; [now destruct s|]. split; [now destruct s|]. destruct s. exact H.
Qed.

Lemma replay_inv_host e s cache fx pending :
  replay_inv small s cache fx pending ->
  replay_inv small (set_host_effects (host_effects s ++ [e]) s) cache
             (fx ++ [e]) pending.
Proof.
  intros (Hc & Hfx & Hq & H). split; [now destruct s|].
  split; [destruct s; cbn in *; now rewrite Hfx|].
  split; [now destruct s|]. destruct s. exact H.
Qed.

Lemma replay_inv_recycled e s cache fx pending :
  replay_inv small s cache fx pending ->
  exists s', add_to_recycle_list e s = Ok (tt, s')
             /\ replay_inv small s' cache fx pending
             /\ rr_queue s' = rr_queue s /\ cpu s' = cpu s.
Proof.
  intros H. unfold add_to_recycle_list, bind, modify.
  eexists. split; [reflexivity|].
  split; destruct s; [exact H|split; reflexivity].
Qed.

Lemma replay_inv_fill s cache fx pending :
  replay_inv small s cache fx pending -> rr_queue s = [] ->
  exists s', rr_fill_queue s = Ok (tt, s')
             /\ replay_inv small s' cache fx pending /\ cpu s' = cpu s
             /\ queue_ready s' pending.
Proof.
  intros (Hc & Hfx & _ & queued & unread & l & before & Hp & Hdec & Hrep & Hw
          & Hty & Hsh & Hsmall) Hq.
  rewrite Hq in Hdec. inversion Hdec; subst queued.
  cbn [app] in Hp. subst pending.
  destruct (rr_fill_queue_decoded unread s l before Hq Hrep Hw Hty Hsh)
    as (s' & l' & Hfill & Hdec' & Hrep' & _ & Hc' & Hcpu' & Hfx').
  pose proof (fill_split_app 0 unread) as Happ.
  exists s'. split; [exact Hfill|].
  split; [|split; [exact Hcpu'|]].
  - split; [congruence|]. split; [congruence|]. split.
    { pose proof (rr_fill_queue_spec _ never_nothing s Hq) as Hspec.
      rewrite Hfill in Hspec. tauto. }
    exists (fst (fill_split 0 unread)), (snd (fill_split 0 unread)), l',
      (before ++ log_bytes (fst (fill_split 0 unread))).
    split; [now symmetry|]. split; [exact Hdec'|]. split; [exact Hrep'|].
    rewrite <- Happ in Hw, Hty, Hsh.
    apply Forall_app in Hw, Hty, Hsh.
    split; [tauto|]. split; [tauto|]. split; [tauto|].
    intros Hs. destruct (Hsmall Hs) as (Hlen & _). split; [exact Hlen|].
    intros _.
    destruct (fill_split_complete unread 0 ltac:(lia) ltac:(lia))
      as [Hnil|(front & c & Hf & Hcut)]; [now left|right].
    rewrite Hf in Hdec'. apply Forall2_app_inv_r in Hdec'.
    destruct Hdec' as (q1 & q2 & _ & Hq2 & Hqq).
    inversion Hq2 as [|h ? ? ? Hhc Hnil]; subst. inversion Hnil; subst.
    exists q1, h. split; [exact Hqq|].
    now rewrite (decoded_from_cutoff h c Hhc).
  - intros Hq'. rewrite Hq' in Hdec'.
    destruct unread as [|e unread]; [reflexivity|].
    destruct (fill_split_hd 0 e unread) as (t & Ht). rewrite Ht in Hdec'.
    inversion Hdec'.
Qed.

(** What a decoded entry shares with the entry that was written. *)
Lemma decoded_shared h e :
  decoded_from h e ->
  prog_point (header h) = prog_point (header e)
  /\ callsite_loc (header h) = callsite_loc (header e)
  /\ kind h = kind e
  /\ is_cutoff h = is_cutoff e
  /\ variant h = match variant e with
                 | call_args args => call_args (decoded_call_args args)
                 | v => v
                 end.
Proof.
  intros [pos ->]. split; [reflexivity|]. split; [reflexivity|].
  split; [apply kind_decoded|]. split; [apply is_cutoff_decoded|reflexivity].
Qed.

Lemma set_rr_queue_same s : set_rr_queue (rr_queue s) s = s.
Proof. now destruct s. Qed.

Lemma replay_inv_head s cache fx e pending :
  replay_inv small s cache fx (e :: pending) ->
  exists s1 h q,
    refilled s s1 /\ replay_inv small s1 cache fx (e :: pending)
    /\ rr_queue s1 = h :: q /\ decoded_from h e /\ cpu s1 = cpu s.
Proof.
  intros Hinv. unfold refilled.
  destruct (rr_queue s) as [|h q] eqn:Hq.
  - destruct (replay_inv_fill s cache fx _ Hinv Hq)
      as (s1 & Hfill & Hinv1 & Hcpu & _).
    destruct Hinv as (_ & _ & _ & queued & unread & l & before & Hp & Hdec
                      & Hrep & Hw & Hty & Hsh & _).
    rewrite Hq in Hdec. inversion Hdec; subst queued.
    cbn [app] in Hp. subst unread.
    destruct (rr_fill_queue_decoded _ s l before Hq Hrep Hw Hty Hsh)
      as (s1' & l' & Hfill' & Hdec' & _).
    assert (s1' = s1) by congruence. subst s1'.
    destruct (fill_split_hd 0 e pending) as (t & Ht). rewrite Ht in Hdec'.
    inversion Hdec' as [|h e' q t' Hhe Hqt Hq1]; subst.
    exists s1, h, q. split; [exact Hfill|]. split; [exact Hinv1|].
    split; [now symmetry|]. split; [exact Hhe|exact Hcpu].
  - exists s, h, q. split; [reflexivity|]. split; [exact Hinv|].
    split; [exact Hq|]. split; [|reflexivity].
    destruct Hinv as (_ & _ & _ & queued & unread & l & before & Hp & Hdec
                      & _).
    rewrite Hq in Hdec. inversion Hdec as [|? e' ? queued' Hhe]; subst.
    cbn [app] in Hp. congruence.
Qed.

Lemma replay_inv_pop s cache fx e pending h q :
  replay_inv small s cache fx (e :: pending) -> rr_queue s = h :: q ->
  replay_inv small (set_rr_queue q s) cache fx pending
  /\ (is_cutoff h = true -> q = [])
  /\ (small -> is_cutoff h = false -> q = [] -> pending = []).
Proof.
  intros (Hc & Hfx & Hok & queued & unread & l & before & Hp & Hdec & Hrep
          & Hw & Hty & Hsh & Hsmall) Hq.
  rewrite Hq in Hok, Hdec, Hsmall.
  inversion Hdec as [|? e' ? queued' Hhe Hqq]; subst.
  cbn [app] in Hp. injection Hp as He Hp. subst e'.
  split; [|split; [now apply queue_ok_cutoff_last|]].
  - split; [now destruct s|]. split; [now destruct s|].
    split; [destruct s; cbn; now apply queue_ok_tail in Hok|].
    exists queued', unread, l, before.
    split; [exact Hp|].
    split; [destruct s; exact Hqq|].
    split; [now apply replaying_set_rr_queue|].
    split; [exact Hw|]. split; [exact Hty|]. split; [exact Hsh|].
    intros Hs. destruct (Hsmall Hs) as (Hlen & Hcomp).
    split; [subst pending; cbn [length] in Hlen; lia|].
    replace (rr_queue (set_rr_queue q s)) with q by now destruct s.
    intros Hne.
    destruct (Hcomp ltac:(discriminate)) as [Hu|(front & c & Hf & Hcut)];
      [now left|right].
    destruct front as [|f front].
    + cbn [app] in Hf. injection Hf as _ Hf. now elim Hne.
    + cbn [app] in Hf. injection Hf as _ Hf. now exists front, c.
  - intros Hs Hcut Hqnil. subst q.
    destruct (Hsmall Hs) as (_ & Hcomp).
    inversion Hqq; subst queued'.
    destruct (Hcomp ltac:(discriminate)) as [Hu|(front & c & Hf & Hc)].
    + now subst.
    + destruct front as [|f front].
      * cbn [app] in Hf. injection Hf as <-. congruence.
      * cbn [app] in Hf. injection Hf as _ Hf.
        now destruct front.
Qed.

Lemma visible_queue_head k h q :
  kind h <> RR_DEBUG -> visible_queue k (h :: q) = h :: q.
Proof.
  intros Hk. unfold visible_queue.
  destruct (skips_debug k); [|reflexivity]. cbn [skip_debug_entries].
  destruct (RR_log_entry_kind_eqb (kind h) RR_DEBUG) eqn:E; [|reflexivity].
  apply kind_eqb_eq in E. congruence.
Qed.

(** The entry that is next in the record is the one asked for, at the
    current program point: get_next_entry hands it out. *)
Lemma get_next_entry_due k cs chk s cache fx e pending :
  compare_follows ->
  replay_inv small s cache fx (e :: pending) ->
  prog_point (header e) = prog_point_of s ->
  kind e = k -> (chk = true -> callsite_loc (header e) = cs) ->
  k <> RR_DEBUG ->
  exists h s',
    get_next_entry k cs chk s = Ok (Some h, s')
    /\ decoded_from h e
    /\ replay_inv small s' cache fx pending
    /\ (is_cutoff e = true -> rr_queue s' = [])
    /\ cpu s' = cpu s
    /\ (small -> is_cutoff e = false -> queue_ready s' pending).
Proof.
  intros (Heq & _) Hinv Hpp Hk Hcs Hnd.
  destruct (replay_inv_head s cache fx e pending Hinv)
    as (s1 & h & q & Hre & Hinv1 & Hq1 & Hhe & Hcpu).
  destruct (decoded_shared h e Hhe) as (Hhpp & Hhcs & Hhk & Hhcut & _).
  rewrite (get_next_entry_refilled _ _ _ _ _ Hre). rewrite Hq1.
  pose proof (get_next_entry_decision k cs chk s1) as Hd.
  rewrite Hq1, visible_queue_head in Hd by congruence.
  destruct Hd as (Hdue & _); [discriminate|].
  exists h, (set_rr_queue q s1).
  split.
  - apply Hdue. split.
    + right. unfold prog_point_of. rewrite Hcpu, Hhpp, Hpp. apply Heq.
    + split; [congruence|intros Hchk; rewrite Hhcs; now apply Hcs].
  - split; [exact Hhe|].
    destruct (replay_inv_pop s1 cache fx e pending h q Hinv1 Hq1)
      as (Hp & Hcut & Hready).
    split; [exact Hp|]. rewrite <- Hhcut.
    replace (rr_queue (set_rr_queue q s1)) with q by now destruct s1.
    split; [exact Hcut|]. split; [destruct s1; exact Hcpu|].
    unfold queue_ready.
    replace (rr_queue (set_rr_queue q s1)) with q by now destruct s1.
    exact Hready.
Qed.

(** The entry that is next in the record lies ahead of the current program
    point: get_next_entry hands out nothing and keeps it. *)
Lemma get_next_entry_early k cs chk s cache fx e pending :
  compare_follows ->
  replay_inv small s cache fx (e :: pending) ->
  0 <= guest_instr_count (prog_point_of s)
    < guest_instr_count (prog_point (header e)) ->
  kind e <> RR_DEBUG ->
  exists s',
    get_next_entry k cs chk s = Ok (None, s')
    /\ replay_inv small s' cache fx (e :: pending) /\ cpu s' = cpu s
    /\ rr_queue s' <> [].
Proof.
  intros (_ & Hlt) Hinv Hpp Hnd.
  destruct (replay_inv_head s cache fx e pending Hinv)
    as (s1 & h & q & Hre & Hinv1 & Hq1 & Hhe & Hcpu).
  destruct (decoded_shared h e Hhe) as (Hhpp & Hhcs & Hhk & _).
  rewrite (get_next_entry_refilled _ _ _ _ _ Hre). rewrite Hq1.
  pose proof (get_next_entry_decision k cs chk s1) as Hd.
  rewrite Hq1, visible_queue_head in Hd by congruence.
  destruct Hd as (_ & _ & Hno); [discriminate|].
  assert (Hs1 : prog_point_of s1 = prog_point_of s)
    by (unfold prog_point_of; now rewrite Hcpu).
  destruct (Hlt (prog_point_of s1) (prog_point (header h)) k)
    as (c & Hc & Hc0); [rewrite Hs1, Hhpp; lia|].
  exists s1.
  split; [|split; [exact Hinv1|split; [exact Hcpu|now rewrite Hq1]]].
  rewrite <- (set_rr_queue_same s1) at 2. rewrite Hq1. apply Hno.
  - unfold compare_stops. rewrite Hc. intros [_ [=]].
  - unfold point_due. rewrite Hc, Hhpp. intros [[Hz|Hz] _].
    + lia.
    + congruence.
Qed.

Lemma rr_replay_input_due k member cs s cache fx e pending :
  compare_follows ->
  replay_inv small s cache fx (e :: pending) ->
  prog_point (header e) = prog_point_of s ->
  kind e = k -> callsite_loc (header e) = cs -> k <> RR_DEBUG ->
  k <> RR_SKIPPED_CALL -> k <> RR_INTERRUPT_REQUEST ->
  exists s',
    rr_replay_input k member cs s = Ok (member (variant e), s')
    /\ replay_inv small s' cache fx pending
    /\ (small -> queue_ready s' pending).
Proof.
  intros Hcmp Hinv Hpp Hk Hcs Hnd Hns Hni.
  destruct (get_next_entry_due k cs false s cache fx e pending Hcmp Hinv Hpp
              Hk ltac:(intros _; exact Hcs) Hnd)
    as (h & s1 & Hget & Hhe & Hinv1 & _ & _ & Hready).
  destruct (decoded_shared h e Hhe) as (_ & Hhcs & _ & _ & Hv).
  destruct (replay_inv_recycled h s1 cache fx pending Hinv1)
    as (s2 & Hrec & Hinv2 & Hq2 & _).
  exists s2. split; [|split; [exact Hinv2|]].
  - unfold rr_replay_input. rewrite (bind_ok _ _ _ _ _ Hget).
    unfold bind at 1, rr_assert. rewrite Hhcs, Hcs, Z.eqb_refl.
    unfold ret at 1. cbv iota beta.
    rewrite (bind_ok _ _ _ _ _ Hrec). unfold ret. do 3 f_equal.
    subst k. unfold kind in Hns. destruct (variant e); congruence.
  - intros Hs. unfold queue_ready. rewrite Hq2. apply Hready; [exact Hs|].
    unfold is_cutoff. rewrite Hk.
    destruct k; try reflexivity; congruence.
Qed.

Lemma rr_replay_exit_request_due cs s cache fx e pending :
  compare_follows ->
  replay_inv small s cache fx (e :: pending) ->
  prog_point (header e) = prog_point_of s ->
  kind e = RR_EXIT_REQUEST -> callsite_loc (header e) = cs ->
  exists s',
    rr_replay_exit_request cs s
    = Ok (variant_exit_request (variant e), s')
    /\ replay_inv small s' cache fx pending
    /\ (small -> queue_ready s' pending).
Proof.
  intros Hcmp Hinv Hpp Hk Hcs.
  destruct (get_next_entry_due RR_EXIT_REQUEST cs false s cache fx e pending
              Hcmp Hinv Hpp Hk ltac:(intros _; exact Hcs)
              ltac:(discriminate))
    as (h & s1 & Hget & Hhe & Hinv1 & _ & _ & Hready).
  destruct (decoded_shared h e Hhe) as (_ & Hhcs & _ & _ & Hv).
  destruct (replay_inv_recycled h s1 cache fx pending Hinv1)
    as (s2 & Hrec & Hinv2 & Hq2 & _).
  exists s2. split; [|split; [exact Hinv2|]].
  - unfold rr_replay_exit_request. rewrite (bind_ok _ _ _ _ _ Hget).
    unfold bind at 1, rr_assert. rewrite Hhcs, Hcs, Z.eqb_refl.
    unfold ret at 1. cbv iota beta.
    rewrite (bind_ok _ _ _ _ _ Hrec). unfold ret. do 3 f_equal.
    unfold kind in Hk. destruct (variant e); congruence.
  - intros Hs. unfold queue_ready. rewrite Hq2. apply Hready; [exact Hs|].
    unfold is_cutoff. now rewrite Hk.
Qed.

Lemma rr_replay_exit_request_early cs s cache fx e pending :
  compare_follows ->
  replay_inv small s cache fx (e :: pending) ->
  0 <= guest_instr_count (prog_point_of s)
    < guest_instr_count (prog_point (header e)) ->
  kind e <> RR_DEBUG ->
  exists s',
    rr_replay_exit_request cs s = Ok (0, s')
    /\ replay_inv small s' cache fx (e :: pending)
    /\ queue_ready s' (e :: pending).
Proof.
  intros Hcmp Hinv Hpp Hnd.
  destruct (get_next_entry_early RR_EXIT_REQUEST cs false s cache fx e
              pending Hcmp Hinv Hpp Hnd) as (s1 & Hget & Hinv1 & _ & Hne).
  exists s1. split; [|split; [exact Hinv1|intros Hq; now elim Hne]].
  unfold rr_replay_exit_request. now rewrite (bind_ok _ _ _ _ _ Hget).
Qed.

Lemma rr_replay_interrupt_request_due cs s cache fx e pending :
  compare_follows ->
  replay_inv small s cache fx (e :: pending) ->
  prog_point (header e) = prog_point_of s ->
  kind e = RR_INTERRUPT_REQUEST -> callsite_loc (header e) = cs ->
  exists s',
    rr_replay_interrupt_request cs s
    = Ok (to_uint32 (to_int32 (variant_interrupt_request (variant e))), s')
    /\ replay_inv small s'
         (to_int32 (variant_interrupt_request (variant e))) fx pending
    /\ queue_ready s' pending.
Proof.
  intros Hcmp Hinv Hpp Hk Hcs.
  destruct (get_next_entry_due RR_INTERRUPT_REQUEST cs true s cache fx e
              pending Hcmp Hinv Hpp Hk ltac:(intros _; exact Hcs)
              ltac:(discriminate))
    as (h & s1 & Hget & Hhe & Hinv1 & Hempty & _).
  destruct (decoded_shared h e Hhe) as (_ & Hhcs & _ & _ & Hv).
  assert (Hvh : variant h = variant e)
    by (unfold kind in Hk; destruct (variant e); congruence).
  assert (Hq1 : rr_queue s1 = []).
  { apply Hempty. unfold is_cutoff. rewrite Hk. apply orb_true_r. }
  set (v := to_int32 (variant_interrupt_request (variant e))).
  pose proof (replay_inv_cache v s1 cache fx pending Hinv1) as Hinv2.
  destruct (replay_inv_recycled h _ v fx pending Hinv2)
    as (s3 & Hrec & Hinv3 & Hq3 & _).
  destruct (replay_inv_fill s3 v fx pending Hinv3)
    as (s4 & Hfill & Hinv4 & _ & Hready).
  { rewrite Hq3. now destruct s1. }
  exists s4. split; [|split; [exact Hinv4|exact Hready]].
  unfold rr_replay_interrupt_request.
  rewrite (bind_ok _ _ _ _ _ Hget). cbv beta iota.
  rewrite !bind_bind. unfold bind at 1, modify at 1.
  rewrite Hvh. fold v. rewrite bind_bind.
  rewrite (bind_ok _ _ _ _ _ Hrec). rewrite (bind_ok _ _ _ _ _ Hfill).
  unfold bind, get, ret. destruct Hinv4 as (Hc4 & _). now rewrite Hc4.
Qed.

Lemma rr_replay_interrupt_request_early cs s cache fx e pending :
  compare_follows ->
  replay_inv small s cache fx (e :: pending) ->
  0 <= guest_instr_count (prog_point_of s)
    < guest_instr_count (prog_point (header e)) ->
  kind e <> RR_DEBUG ->
  exists s',
    rr_replay_interrupt_request cs s = Ok (to_uint32 cache, s')
    /\ replay_inv small s' cache fx (e :: pending)
    /\ queue_ready s' (e :: pending).
Proof.
  intros Hcmp Hinv Hpp Hnd.
  destruct (get_next_entry_early RR_INTERRUPT_REQUEST cs true s cache fx e
              pending Hcmp Hinv Hpp Hnd) as (s1 & Hget & Hinv1 & _ & Hne).
  exists s1. split; [|split; [exact Hinv1|intros Hq; now elim Hne]].
  unfold rr_replay_interrupt_request.
  rewrite (bind_ok _ _ _ _ _ Hget). cbv beta iota.
  unfold bind, get, ret. destruct Hinv1 as (Hc1 & _). now rewrite Hc1.
Qed.

Lemma replay_skipped_call_effects args s :
  skipped_call_effects args <> [] ->
  exists e,
    skipped_call_effects args = [e]
    /\ replay_skipped_call args s
       = Ok (tt, set_host_effects (host_effects s ++ [e]) s).
Proof.
  unfold skipped_call_effects, replay_skipped_call, host_do, modify.
  destruct (call_variant args) as [a|a|a|a|a|a]; intros H;
    try (now elim H); try (eexists; split; reflexivity).
  destruct (negb (mrc_added a =? 0)); eexists; split; reflexivity.
Qed.

(** The entries still to come are in the queue or take bytes of the log. *)
Lemma replay_inv_fuel s cache fx pending :
  replay_inv small s cache fx pending ->
  (length pending <= length (rr_queue s) + unread_bytes s)%nat.
Proof.
  intros (_ & _ & _ & queued & unread & l & before & Hp & Hdec & Hrep & Hw
          & _).
  subst pending. rewrite length_app.
  apply Forall2_length in Hdec. rewrite Hdec.
  pose proof (length_items_le unread Hw) as Hle.
  destruct Hrep as (_ & Hl & _ & Hfp & _). unfold unread_bytes.
  rewrite Hl, Hfp. cbn [f_after]. lia.
Qed.

(** A skipped call that is next in the record, at the current program
    point, while the entry after it lies ahead:
    rr_replay_skipped_calls_internal replays that call and stops. *)
Lemma rr_replay_skipped_calls_due cs s cache fx e args e2 pending :
  compare_follows ->
  replay_inv small s cache fx (e :: e2 :: pending) ->
  prog_point (header e) = prog_point_of s ->
  variant e = call_args args ->
  skipped_call_effects (decoded_call_args args) <> [] ->
  0 <= guest_instr_count (prog_point_of s)
    < guest_instr_count (prog_point (header e2)) ->
  kind e2 <> RR_DEBUG ->
  exists s',
    rr_replay_skipped_calls_internal cs s = Ok (tt, s')
    /\ replay_inv small s' cache
         (fx ++ skipped_call_effects (decoded_call_args args))
         (e2 :: pending)
    /\ queue_ready s' (e2 :: pending).
Proof.
  intros Hcmp Hinv Hpp Hv Hfx Hlt Hnd.
  pose proof (replay_inv_fuel _ _ _ _ Hinv) as Hfuel. cbn [length] in Hfuel.
  assert (Hk : kind e = RR_SKIPPED_CALL) by (unfold kind; now rewrite Hv).
  destruct (get_next_entry_due RR_SKIPPED_CALL cs false s cache fx e
              (e2 :: pending) Hcmp Hinv Hpp Hk ltac:(discriminate)
              ltac:(discriminate))
    as (h & s1 & Hget & Hhe & Hinv1 & _ & Hcpu1 & _).
  destruct (decoded_shared h e Hhe) as (_ & _ & _ & _ & Hvh).
  rewrite Hv in Hvh.
  destruct (replay_skipped_call_effects (decoded_call_args args) s1 Hfx)
    as (x & Hx & Hdo).
  pose proof (replay_inv_host x s1 cache fx _ Hinv1) as Hinv2.
  set (s2 := set_host_effects (host_effects s1 ++ [x]) s1) in *.
  destruct (replay_inv_recycled h s2 cache _ _ Hinv2)
    as (s3 & Hrec & Hinv3 & Hq3 & Hcpu3).
  assert (Hfill : exists s4,
    (if (cs =? RR_CALLSITE_MAIN_LOOP_WAIT)
        && match rr_queue s3 with [] => true | _ => false end
     then rr_fill_queue else ret tt) s3 = Ok (tt, s4)
    /\ replay_inv small s4 cache (fx ++ [x]) (e2 :: pending)
    /\ cpu s4 = cpu s3).
  { destruct ((cs =? RR_CALLSITE_MAIN_LOOP_WAIT)
              && match rr_queue s3 with [] => true | _ => false end)
      eqn:Hif.
    - apply andb_true_iff in Hif. destruct Hif as (_ & Hif).
      destruct (replay_inv_fill s3 cache _ _ Hinv3) as (s4 & H4 & H4' & H4''
                                                        & _).
      + destruct (rr_queue s3); [reflexivity|discriminate].
      + exists s4. split; [exact H4|]. split; assumption.
    - exists s3. split; [reflexivity|]. split; [exact Hinv3|reflexivity]. }
  destruct Hfill as (s4 & Hfill & Hinv4 & Hcpu4).
  assert (Hat : prog_point_of s4 = prog_point_of s).
  { unfold prog_point_of. rewrite Hcpu4, Hcpu3. subst s2.
    destruct s1. cbn in *. now rewrite Hcpu1. }
  rewrite <- Hat in Hlt.
  destruct (get_next_entry_early RR_SKIPPED_CALL cs false s4 cache _ e2
              pending Hcmp Hinv4 Hlt Hnd) as (s5 & Hget5 & Hinv5 & _ & Hne).
  exists s5. rewrite Hx.
  split; [|split; [exact Hinv5|intros Hq; now elim Hne]].
  unfold rr_replay_skipped_calls_internal. unfold bind at 1, get at 1.
  destruct (length (rr_queue s) + unread_bytes s)%nat as [|fuel];
    [lia|].
  cbn [rr_replay_skipped_calls_loop].
  rewrite (bind_ok _ _ _ _ _ Hget). rewrite Hvh.
  rewrite (bind_ok _ _ _ _ _ Hdo). rewrite (bind_ok _ _ _ _ _ Hrec).
  unfold bind at 1, get at 1.
  rewrite (bind_ok _ _ _ _ _ Hfill).
  now rewrite (bind_ok _ _ _ _ _ Hget5).
Qed.

(** The entry that is next after the calls of a session with growing
    instruction counts lies ahead, and is no DEBUG entry. *)
Lemma pending_head calls :
  forall n cache pp_end,
    increasing n calls pp_end ->
    Forall (fun pc => replayable_call (snd pc) = true) calls ->
    exists e rest,
      recorded_items cache calls ++ [last_entry pp_end] = e :: rest
      /\ n < guest_instr_count (prog_point (header e))
      /\ kind e <> RR_DEBUG.
Proof.
  induction calls as [|[pp c] calls IH]; intros n cache pp_end Hinc Hval.
  - exists (last_entry pp_end), []. split; [reflexivity|].
    split; [exact Hinc|discriminate].
  - cbn [increasing] in Hinc. destruct Hinc as (Hn & Hinc).
    inversion Hval as [|? ? Hc Hval']; subst. cbn [snd] in Hc.
    cbn [recorded_items].
    destruct (call_writes cache c).
    + destruct c as [| | | | | | | | |cs st sz [m|] t ad| | |];
        try discriminate Hc; cbn [variant_of_call app replayable_call] in *;
        try destruct (strlen_bytes m); try discriminate Hc;
        eexists; eexists; (split; [reflexivity|]);
        (split; [exact Hn|discriminate]).
    + destruct (IH (guest_instr_count pp) cache pp_end Hinc Hval')
        as (e & rest & He & Hlt & Hk).
      exists e, rest. split; [exact He|]. split; [lia|exact Hk].
Qed.

Lemma prog_point_of_set_cpu pp s :
  prog_point_of
    (set_cpu (mk_cpu (guest_instr_count pp) (pc pp) (secondary pp)) s) = pp.
Proof. destruct pp, s. reflexivity. Qed.

(** One call of the replay, where the record made the capture call [c]. *)
Lemma replay_call_step pp c calls pp_end cache fx s :
  compare_follows ->
  typed_prog_point pp -> typed_call c -> replayable_call c = true ->
  Forall (fun pc => replayable_call (snd pc) = true) calls ->
  increasing (guest_instr_count pp) calls pp_end ->
  replay_inv small s cache fx
    (recorded_items cache ((pp, c) :: calls) ++ [last_entry pp_end]) ->
  exists s',
    (cpu_at pp ;; do_replay_value (replay_of c)) s = Ok (value_of c, s')
    /\ replay_inv small s' (cache_after cache [(pp, c)])
         (fx ++ replayed_effects c)
         (recorded_items (cache_after cache [(pp, c)]) calls
          ++ [last_entry pp_end])
    /\ (small ->
        queue_ready s'
          (recorded_items (cache_after cache [(pp, c)]) calls
           ++ [last_entry pp_end])).
Proof.
  intros Hcmp Hpp Hc Hval Hvals Hinc Hinv.
  set (s0 := set_cpu (mk_cpu (guest_instr_count pp) (pc pp) (secondary pp))
                     s).
  assert (Hcpu : forall A (m : M A), (cpu_at pp ;; m) s = m s0)
    by reflexivity.
  rewrite Hcpu.
  apply (replay_inv_cpu (mk_cpu (guest_instr_count pp) (pc pp)
                                (secondary pp))) in Hinv.
  fold s0 in Hinv.
  pose proof (prog_point_of_set_cpu pp s) as Hat. fold s0 in Hat.
  assert (Hearly : forall cache',
    exists e rest,
      recorded_items cache' calls ++ [last_entry pp_end] = e :: rest
      /\ 0 <= guest_instr_count (prog_point_of s0)
           < guest_instr_count (prog_point (header e))
      /\ kind e <> RR_DEBUG).
  { intros cache'.
    destruct (pending_head calls _ cache' pp_end Hinc Hvals)
      as (e & rest & He & Hlt & Hk).
    exists e, rest. split; [exact He|]. split; [|exact Hk].
    rewrite Hat. destruct Hpp as (Hi & _). unfold is_u64 in Hi. lia. }
  assert (Hskip : forall cs cs' args,
    skipped_call_effects (decoded_call_args args) <> [] ->
    replay_inv small s0 cache fx
      (mk_entry (mk_header pp 0 cs') (call_args args)
       :: recorded_items cache calls ++ [last_entry pp_end]) ->
    exists s',
      (rr_replay_skipped_calls_internal cs ;; ret 0) s0 = Ok (0, s')
      /\ replay_inv small s' cache
           (fx ++ skipped_call_effects (decoded_call_args args))
           (recorded_items cache calls ++ [last_entry pp_end])
      /\ (small ->
          queue_ready s'
            (recorded_items cache calls ++ [last_entry pp_end]))).
  { intros cs cs' args Hfx Hinv0.
    destruct (Hearly cache) as (e2 & rest & He & Hlt & Hk).
    rewrite He in Hinv0. rewrite He.
    destruct (rr_replay_skipped_calls_due cs s0 cache fx _ args e2 rest
                Hcmp Hinv0 (eq_sym Hat) eq_refl Hfx Hlt Hk)
      as (s' & Hrun & Hinv' & Hready).
    exists s'. split; [|split; [exact Hinv'|intros _; exact Hready]].
    now rewrite (bind_ok _ _ _ _ _ Hrun). }
  destruct c as [cs|cs d|cs d|cs d|cs d|cs v|cs v|cs a b n w|cs a b n w
                 |cs st sz [m|] t ad| | |];
    try discriminate Hval;
    cbn [recorded_items call_writes variant_of_call call_site_of cache_after
         replay_of do_replay_value value_of replayed_effects
         replayable_call app] in *;
    rewrite ?app_nil_r.
  - apply rr_replay_input_due with (member := variant_input_1) (cs := cs)
                                   (k := RR_INPUT_1) in Hinv;
      auto; discriminate.
  - apply rr_replay_input_due with (member := variant_input_2) (cs := cs)
                                   (k := RR_INPUT_2) in Hinv;
      auto; discriminate.
  - apply rr_replay_input_due with (member := variant_input_4) (cs := cs)
                                   (k := RR_INPUT_4) in Hinv;
      auto; discriminate.
  - apply rr_replay_input_due with (member := variant_input_8) (cs := cs)
                                   (k := RR_INPUT_8) in Hinv;
      auto; discriminate.
  - destruct (Z.eqb_spec (to_uint32 cache) v) as [Heq|Hne]; cbn [negb] in *.
    + destruct (Hearly cache) as (e & rest & He & Hlt & Hk).
      rewrite He in Hinv. rewrite He.
      destruct (rr_replay_interrupt_request_early cs s0 cache fx e rest Hcmp
                  Hinv Hlt Hk) as (s' & Hrun & Hinv' & Hready).
      exists s'.
      split; [now rewrite Hrun, Heq|split; [exact Hinv'|now intros _]].
    + cbn [app] in Hinv.
      apply rr_replay_interrupt_request_due with (cs := cs) in Hinv; auto.
      cbn [variant variant_interrupt_request] in Hinv.
      destruct Hinv as (s' & Hrun & Hinv' & Hready).
      exists s'. split; [|split; [exact Hinv'|now intros _]].
      rewrite Hrun, to_uint32_to_int32, to_uint32_small by apply Hc.
      reflexivity.
  - destruct (Z.eqb_spec v 0) as [Heq|Hne]; cbn [negb] in *.
    + destruct (Hearly cache) as (e & rest & He & Hlt & Hk).
      rewrite He in Hinv. rewrite He.
      destruct (rr_replay_exit_request_early cs s0 cache fx e rest Hcmp
                  Hinv Hlt Hk) as (s' & Hrun & Hinv' & Hready).
      exists s'.
      split; [now rewrite Hrun, Heq|split; [exact Hinv'|now intros _]].
    + cbn [app] in Hinv.
      apply rr_replay_exit_request_due with (cs := cs) in Hinv; auto.
  - apply (Hskip cs cs); [discriminate|exact Hinv].
  - apply (Hskip cs cs); [discriminate|exact Hinv].
  - unfold replayed_effects. cbn [variant_of_call].
    destruct (strlen_bytes m) as [len|]; [|discriminate Hval].
    cbn [app] in Hinv |- *.
    refine ((fun H => Hskip cs cs _ H Hinv) _).
    unfold skipped_call_effects, decoded_call_args.
    cbn [call_variant mrc_added].
    destruct (negb ((if ad then 1 else 0) =? 0)); discriminate.
Qed.

Lemma run_replay_values_recorded calls :
  forall n cache fx pp_end s,
    compare_follows -> typed_calls calls ->
    Forall (fun pc => replayable_call (snd pc) = true) calls ->
    increasing n calls pp_end ->
    replay_inv small s cache fx
      (recorded_items cache calls ++ [last_entry pp_end]) ->
    (small ->
     queue_ready s (recorded_items cache calls ++ [last_entry pp_end])) ->
    exists s',
      run_replay_values (map (fun pc => (fst pc, replay_of (snd pc))) calls) s
      = Ok (map (fun pc => value_of (snd pc)) calls, s')
      /\ replay_inv small s' (cache_after cache calls)
           (fx ++ flat_map (fun pc => replayed_effects (snd pc)) calls)
           [last_entry pp_end]
      /\ (small -> queue_ready s' [last_entry pp_end]).
Proof.
  induction calls as [|[pp c] calls IH];
    intros n cache fx pp_end s Hcmp Hty Hval Hinc Hinv Hready.
  - exists s. split; [reflexivity|]. cbn [flat_map]. rewrite app_nil_r.
    split; [exact Hinv|exact Hready].
  - inversion Hty as [|? ? [Hpp Hc] Hty']; subst.
    inversion Hval as [|? ? Hv Hval']; subst.
    cbn [fst snd] in *. cbn [increasing] in Hinc. destruct Hinc as (_ & Hinc).
    destruct (replay_call_step pp c calls pp_end cache fx s Hcmp Hpp Hc Hv
                Hval' Hinc Hinv) as (s1 & Hstep & Hinv1 & Hready1).
    destruct (IH _ _ _ pp_end s1 Hcmp Hty' Hval' Hinc Hinv1 Hready1)
      as (s' & Hrun & Hinv' & Hready').
    exists s'. split; [|split; [|exact Hready']].
    + cbn [map fst snd run_replay_values].
      apply bind_inv in Hstep. destruct Hstep as (u & sc & Hat & Hdo).
      rewrite (bind_ok _ _ _ _ _ Hat), (bind_ok _ _ _ _ _ Hdo).
      now rewrite (bind_ok _ _ _ _ _ Hrun).
    + cbn [flat_map snd]. rewrite app_assoc. exact Hinv'.
Qed.

(** rr_do_begin_replay on a file the recorder wrote. *)
Lemma rr_do_begin_replay_recorded s pph items :
  rr_disk s = prog_point_bytes pph ++ log_bytes items ->
  Z.of_nat (length (rr_disk s)) < 2 ^ 64 ->
  rr_queue s = [] ->
  Forall writable items -> Forall typed_entry items ->
  Forall (fun e => short_name (variant e)) items ->
  (small -> Z.of_nat (length items) <= RR_MAX_QUEUE_LEN) ->
  exists s',
    rr_do_begin_replay s = Ok (tt, s')
    /\ replay_inv small s' (panda_current_interrupt_request s)
                  (host_effects s) items
    /\ queue_ready s' items.
Proof.
  intros Hdisk Hsize Hq Hw Hty Hsh Hsmall.
  set (l0 := mk_log REPLAY (Some (mk_FILE [] (rr_disk s))) zero_prog_point 0
                    (Z.of_nat (length (rr_disk s))) 0 zero_entry).
  set (l1 := set_last_prog_point
               (prog_point_of_bytes (prog_point_bytes pph))
               (set_bytes_read 24
                  (set_fp (Some (mk_FILE (prog_point_bytes pph)
                                         (log_bytes items))) l0))).
  assert (Hcreate : rr_create_replay_log s
                    = Ok (tt, set_rr_nondet_log (Some l1) s)).
  { unfold rr_create_replay_log.
    erewrite bind_ok by reflexivity.
    erewrite bind_ok by reflexivity. fold l0.
    erewrite bind_ok.
    2:{ apply rr_fread_spec with (l := l0) (before := [])
          (data := prog_point_bytes pph) (rest := log_bytes items).
        - apply rr_nondet_log_set_rr_nondet_log.
        - subst l0. cbn [fp]. now rewrite Hdisk.
        - now rewrite length_prog_point_bytes.
        - discriminate. }
    rewrite (modify_log_ok _ _ _ (rr_nondet_log_set_rr_nondet_log _ _)).
    subst l1. rewrite !set_rr_nondet_log_twice. reflexivity. }
  set (s1 := set_rr_mode RR_REPLAY
               (set_cpu (mk_cpu 0 (cpu_pc (cpu s)) (cpu_secondary (cpu s)))
                  (set_flags 1 0 0 (set_rr_nondet_log (Some l1) s)))).
  assert (Hbegin : (rr_create_replay_log ;; rr_reset_state ;;
                    modify (set_rr_mode RR_REPLAY)) s = Ok (tt, s1)).
  { rewrite (bind_ok _ _ _ _ _ Hcreate). subst s1. now destruct s. }
  assert (Hq1 : rr_queue s1 = []) by (subst s1; destruct s; exact Hq).
  assert (Hinv1 : replay_inv small s1 (panda_current_interrupt_request s)
                             (host_effects s) items).
  { split; [subst s1; now destruct s|].
    split; [subst s1; now destruct s|].
    split; [rewrite Hq1; apply queue_ok_nil|].
    exists [], items, l1, (prog_point_bytes pph).
    split; [reflexivity|].
    split; [rewrite Hq1; constructor|].
    split; [|split; [exact Hw|split; [exact Hty|split; [exact Hsh|]]]].
    - subst s1 l1 l0. destruct s. cbn in Hdisk, Hsize |- *.
      unfold replaying. cbn. rewrite Hdisk in *.
      rewrite length_app in *. rewrite length_prog_point_bytes in *.
      repeat split; try reflexivity; assumption.
    - intros Hs. split; [now apply Hsmall|].
      rewrite Hq1. intros Hne. now elim Hne. }
  destruct (replay_inv_fill s1 _ _ items Hinv1 Hq1)
    as (s2 & Hfill & Hinv2 & _ & Hready).
  exists s2. split; [|split; [exact Hinv2|exact Hready]].
  unfold rr_do_begin_replay.
  apply bind_inv in Hbegin. destruct Hbegin as (u1 & sa & Ha & Hbegin).
  apply bind_inv in Hbegin. destruct Hbegin as (u2 & sb & Hb & Hbegin).
  rewrite (bind_ok _ _ _ _ _ Ha), (bind_ok _ _ _ _ _ Hb).
  rewrite (bind_ok _ _ _ _ _ Hbegin). exact Hfill.
Qed.

(** A whole replay of the file of a record session. *)
Lemma replay_session_recorded calls pp_end s0 items s1 sr :
  compare_follows ->
  typed_calls calls -> typed_prog_point pp_end -> is_u32 RR_CALLSITE_LAST ->
  Forall (fun pc => replayable_call (snd pc) = true) calls ->
  increasing (-1) calls pp_end ->
  record_session calls pp_end s0 = Ok (items, s1) ->
  Z.of_nat (length (rr_disk s1)) < 2 ^ 64 ->
  rr_disk sr = rr_disk s1 -> rr_queue sr = [] ->
  panda_current_interrupt_request sr = panda_current_interrupt_request s0 ->
  (small -> Z.of_nat (length calls) < RR_MAX_QUEUE_LEN) ->
  exists s',
    (rr_do_begin_replay ;;
     run_replay_values (map (fun pc => (fst pc, replay_of (snd pc))) calls))
      sr
    = Ok (map (fun pc => value_of (snd pc)) calls, s')
    /\ replay_inv small s' (panda_current_interrupt_request s1)
         (host_effects sr
          ++ flat_map (fun pc => replayed_effects (snd pc)) calls)
         [last_entry pp_end]
    /\ (small -> queue_ready s' [last_entry pp_end]).
Proof.
  intros Hcmp Hcalls Hpp Hcs Hval Hinc Hses Hsize Hdisk Hq Hcache Hsmall.
  destruct (record_session_spec calls pp_end s0 items s1 Hses)
    as (Hitems & Hwr & Hd & _ & _ & Hc1).
  destruct (recorded_items_typed calls (panda_current_interrupt_request s0)
              Hcalls) as (Hty & Hsh).
  rewrite <- Hitems in Hty, Hsh.
  rewrite <- Hdisk in Hd, Hsize.
  destruct (rr_do_begin_replay_recorded sr pp_end
              (items ++ [last_entry pp_end]) Hd Hsize Hq)
    as (sb & Hbegin & Hinv & Hready).
  - apply Forall_app. split; [exact Hwr|].
    constructor; [|constructor]. unfold writable.
    now rewrite item_wire_last.
  - apply Forall_app. split; [exact Hty|].
    constructor; [|constructor]. now apply typed_last_entry.
  - apply Forall_app. split; [exact Hsh|].
    constructor; [exact I|constructor].
  - intros Hs. specialize (Hsmall Hs).
    rewrite length_app. cbn [length].
    assert (Hle : (length items <= length calls)%nat).
    { rewrite Hitems. clear.
      generalize (panda_current_interrupt_request s0).
      induction calls as [|[pp c] calls IH]; intros cache;
        [apply Nat.le_refl|].
      cbn [recorded_items length].
      destruct (call_writes cache c).
      - destruct (variant_of_call c); cbn [length].
        + apply le_n_S, IH.
        + apply Nat.le_0_l.
      - apply Nat.le_trans with (length calls); [apply IH|].
        apply Nat.le_succ_diag_r. }
    lia.
  - rewrite Hcache, Hitems in Hinv. rewrite Hitems in Hready.
    destruct (run_replay_values_recorded calls (-1) _ _ pp_end sb Hcmp
                Hcalls Hval Hinc Hinv ltac:(intros _; exact Hready))
      as (s' & Hrun & Hinv' & Hready').
    exists s'. split; [now rewrite (bind_ok _ _ _ _ _ Hbegin)|].
    rewrite Hc1. split; [exact Hinv'|exact Hready'].
Qed.

End Follow.

(** The operation the replay of a recorded write to guest memory amounts
    to. *)
Lemma replayed_effects_cpu_mem_rw cs addr m len w :
  0 < len <= Z.of_nat (length m) -> len < 2 ^ 31 ->
  replayed_effects (call_cpu_mem_rw cs addr (Some m) len w)
  = [cpu_physical_memory_rw addr (Some (firstn (Z.to_nat len) m)) len].
Proof.
  intros Hlen Hint.
  unfold replayed_effects, skipped_call_effects, decoded_call_args, tail_of.
  cbn [variant_of_call call_variant call_variant_tail rw_addr rw_buf rw_len].
  assert (Hsz : to_size_t len = len)
    by (unfold to_size_t; apply Z.mod_small; lia).
  rewrite Hsz. unfold fwrite_bytes, g_malloc_filled.
  cbn [orb Z.eqb].
  destruct (Z.eqb_spec len 0) as [H0|H0]; [lia|].
  rewrite Z.mul_1_l.
  destruct (Z.ltb_spec (Z.of_nat (length m)) len) as [Hl|Hl]; [lia|].
  reflexivity.
Qed.

(** X11. The replay follows the record.  A record session makes calls of
    the capture functions of inputs, of the interrupt word, of the exit
    request, of writes to guest memory (cpu_mem_rw, cpu_mem_unmap) and of
    changes of named memory regions (arguments in the ranges of their C
    types), each at a greater guest instruction count than the one before,
    and ends at a greater count still.  A replay of the file it leaves
    starts with the same cached interrupt word and an empty queue, and
    calls the matching replay function at each of those program points, in
    a build whose comparison of program points gives 0 for equal points and
    something else for a current point with a smaller instruction count.
    Then no call of the replay aborts; each hands back the value the
    capture call was given, also where the record wrote no entry (an
    unchanged interrupt word, an exit request of 0); the host sees, in
    order, one operation for each skipped call, on the arguments as decoded
    from the file (for a write of len > 0 bytes of a buffer, the write of
    the first len bytes of the buffer to the recorded address); and the
    cached interrupt word ends as it did in the record. *)
Theorem replay_follows_record calls pp_end s0 items s1 sr :
  compare_follows ->
  typed_calls calls -> typed_prog_point pp_end -> is_u32 RR_CALLSITE_LAST ->
  Forall (fun pc => replayable_call (snd pc) = true) calls ->
  increasing (-1) calls pp_end ->
  record_session calls pp_end s0 = Ok (items, s1) ->
  Z.of_nat (length (rr_disk s1)) < 2 ^ 64 ->
  rr_disk sr = rr_disk s1 -> rr_queue sr = [] ->
  panda_current_interrupt_request sr = panda_current_interrupt_request s0 ->
  exists s',
    (rr_do_begin_replay ;;
     run_replay_values (map (fun pc => (fst pc, replay_of (snd pc))) calls))
      sr
    = Ok (map (fun pc => value_of (snd pc)) calls, s')
    /\ host_effects s'
       = host_effects sr
         ++ flat_map (fun pc => replayed_effects (snd pc)) calls
    /\ panda_current_interrupt_request s'
       = panda_current_interrupt_request s1
    /\ (forall cs addr m len w,
          0 < len <= Z.of_nat (length m) -> len < 2 ^ 31 ->
          replayed_effects (call_cpu_mem_rw cs addr (Some m) len w)
          = [cpu_physical_memory_rw addr (Some (firstn (Z.to_nat len) m))
               len]).
Proof.
  intros Hcmp Hcalls Hpp Hcs Hval Hinc Hses Hsize Hdisk Hq Hcache.
  destruct (replay_session_recorded False calls pp_end s0 items s1 sr Hcmp
              Hcalls Hpp Hcs Hval Hinc Hses Hsize Hdisk Hq Hcache
              ltac:(intros []))
    as (s' & Hrun & (Hc' & Hfx' & _) & _).
  exists s'. split; [exact Hrun|]. split; [exact Hfx'|].
  split; [exact Hc'|]. apply replayed_effects_cpu_mem_rw.
Qed.

Lemma replaying_set_cpu c s l before after :
  replaying s l before after -> replaying (set_cpu c s) l before after.
Proof. intros H. now destruct s. Qed.

(** rr_replay_finished when only the end marker is left, in the queue. *)
Lemma rr_replay_finished_at_end s cache fx pp_end pp :
  replay_inv True s cache fx [last_entry pp_end] ->
  queue_ready s [last_entry pp_end] ->
  (cpu_at pp ;; rr_replay_finished) s
  = Ok (guest_instr_count pp >=? guest_instr_count pp_end,
        set_cpu (mk_cpu (guest_instr_count pp) (pc pp) (secondary pp)) s)
  /\ map kind (rr_queue s) = [RR_LAST].
Proof.
  intros (_ & _ & _ & queued & unread & l & before & Hp & Hdec & Hrep & _ & _
          & _ & Hsmall) Hready.
  destruct (Hsmall I) as (_ & Hcomp). unfold queue_ready in Hready.
  destruct (rr_queue s) as [|h q] eqn:Hq;
    [specialize (Hready eq_refl); discriminate|].
  inversion Hdec as [|? e ? queued' Hhe Hqq]; subst.
  cbn [app] in Hp. injection Hp as He Hp.
  symmetry in Hp. apply app_eq_nil in Hp. destruct Hp as (-> & ->).
  inversion Hqq; subst q. subst e.
  destruct (decoded_shared h _ Hhe) as (Hhpp & _ & Hhk & _).
  split; [|cbn [map]; now rewrite Hhk].
  set (s0 := set_cpu (mk_cpu (guest_instr_count pp) (pc pp) (secondary pp))
                     s).
  change ((cpu_at pp ;; rr_replay_finished) s) with (rr_replay_finished s0).
  pose proof (rr_log_is_empty_replaying s0 l before _
                (replaying_set_cpu _ _ _ _ _ Hrep)) as Hempty.
  cbn [log_bytes flat_map] in Hempty.
  unfold rr_replay_finished. rewrite (bind_ok _ _ _ _ _ Hempty).
  cbn [negb]. unfold bind at 1, get at 1.
  replace (rr_queue s0) with [h] by (subst s0; destruct s; now rewrite <- Hq).
  rewrite Hhk. cbn [last_entry kind variant RR_log_entry_kind_eqb negb].
  unfold rr_get_guest_instr_count, bind, get, ret.
  rewrite Hhpp. subst s0. destruct s. reflexivity.
Qed.

(** X12. The replay reaches the end.  A record session makes fewer than
    RR_MAX_QUEUE_LEN calls of the capture functions of inputs, of the
    interrupt word, of the exit request, of writes to guest memory and of
    changes of named memory regions, at growing guest instruction counts,
    and the replay of its file calls the matching replay functions at the
    same program points (comparison of program points and start of the
    replay as in X11).  Then the replay returns, the end marker is alone in
    the queue and the log has been read: rr_replay_finished returns 1 once
    the guest instruction count has reached the count at which the record
    ended, and 0 before; it leaves the queue as it is. *)
Theorem replay_reaches_the_end calls pp_end s0 items s1 sr pp :
  compare_follows ->
  typed_calls calls -> typed_prog_point pp_end -> is_u32 RR_CALLSITE_LAST ->
  Forall (fun pc => replayable_call (snd pc) = true) calls ->
  increasing (-1) calls pp_end ->
  record_session calls pp_end s0 = Ok (items, s1) ->
  Z.of_nat (length (rr_disk s1)) < 2 ^ 64 ->
  rr_disk sr = rr_disk s1 -> rr_queue sr = [] ->
  panda_current_interrupt_request sr = panda_current_interrupt_request s0 ->
  Z.of_nat (length calls) < RR_MAX_QUEUE_LEN ->
  exists vs s' s'',
    (rr_do_begin_replay ;;
     run_replay_values (map (fun pc => (fst pc, replay_of (snd pc))) calls))
      sr
    = Ok (vs, s')
    /\ map kind (rr_queue s') = [RR_LAST]
    /\ (cpu_at pp ;; rr_replay_finished) s'
       = Ok (guest_instr_count pp_end <=? guest_instr_count pp, s'')
    /\ rr_queue s'' = rr_queue s'.
Proof.
  intros Hcmp Hcalls Hpp Hcs Hval Hinc Hses Hsize Hdisk Hq Hcache Hlen.
  destruct (replay_session_recorded True calls pp_end s0 items s1 sr Hcmp
              Hcalls Hpp Hcs Hval Hinc Hses Hsize Hdisk Hq Hcache
              ltac:(intros _; exact Hlen))
    as (s' & Hrun & Hinv & Hready).
  specialize (Hready I).
  destruct (rr_replay_finished_at_end s' _ _ pp_end pp Hinv Hready)
    as (Hfin & Hkinds).
  exists (map (fun pc => value_of (snd pc)) calls), s',
    (set_cpu (mk_cpu (guest_instr_count pp) (pc pp) (secondary pp)) s').
  split; [exact Hrun|]. split; [exact Hkinds|].
  split; [|now destruct s'].
  rewrite Hfin. now rewrite Z.geb_leb.
Qed.

End WithHeader.

(* ------------------------------------------------------------------------- *)
(** ** The theorems on sample runs *)

Lemma typed_sample_calls : typed_calls sample_calls.
Proof.
  unfold typed_calls, sample_calls.
  repeat (constructor; [vm_compute; intuition discriminate|]).
  constructor.
Qed.

Lemma typed_sample_pp : typed_prog_point (sample_pp 60).
Proof. vm_compute. intuition discriminate. Qed.

Lemma is_u32_sample_callsite_last : is_u32 sample_callsite_last.
Proof. vm_compute. intuition discriminate. Qed.

Lemma sample_recording :
  (rr_do_begin_record ;; run_record sample_calls) initial_state
  = Ok (recorded_items 0 sample_calls, recording_state sample_calls).
Proof. vm_compute. reflexivity. Qed.

Lemma sample_recording_size :
  Z.of_nat (24 + length (log_bytes (recorded_items 0 sample_calls)) + 32)
  < 2 ^ 64.
Proof. vm_compute. reflexivity. Qed.

Lemma record_replay_roundtrip_witness :
  exists entries s2,
    rr_read_log (recorded_state sample_callsite_last sample_calls
                                (sample_pp 60))
    = Ok (entries, s2)
    /\ map payload entries
       = map payload (recorded_items 0 sample_calls
                      ++ [last_entry sample_callsite_last (sample_pp 60)]).
Proof.
  assert (Hses : record_session sample_callsite_last sample_calls
                   (sample_pp 60) initial_state
                 = Ok (recorded_items 0 sample_calls,
                       recorded_state sample_callsite_last sample_calls
                                      (sample_pp 60)))
    by (vm_compute; reflexivity).
  assert (Hsize : Z.of_nat (length (rr_disk (recorded_state
                     sample_callsite_last sample_calls (sample_pp 60))))
                  < 2 ^ 64) by (vm_compute; reflexivity).
  destruct (record_replay_roundtrip sample_callsite_last sample_calls
              (sample_pp 60) initial_state _ _ typed_sample_calls
              typed_sample_pp is_u32_sample_callsite_last Hses Hsize)
    as (_ & _ & entries & s2 & Hr & Hp & _).
  exists entries, s2. split; assumption.
Defined.

Lemma rr_do_end_record_terminator_witness :
  exists s1,
    (cpu_at (sample_pp 60) ;; rr_do_end_record sample_callsite_last)
      (recording_state sample_calls) = Ok (tt, s1)
    /\ firstn 24 (rr_disk s1) = prog_point_bytes (sample_pp 60)
    /\ exists front e s2,
        rr_read_log s1 = Ok (front ++ [e], s2)
        /\ kind e = RR_LAST /\ prog_point (header e) = sample_pp 60.
Proof.
  destruct (rr_do_end_record_terminator sample_callsite_last sample_calls
              (sample_pp 60) initial_state _ _ typed_sample_calls
              typed_sample_pp is_u32_sample_callsite_last sample_recording
              sample_recording_size)
    as (s1 & Hend & _ & _ & _ & Hhdr & front & e & s2 & l2 & Hr & _ & _ & Hk
        & Hpp & _).
  exists s1. split; [exact Hend|]. split; [exact Hhdr|].
  exists front, e, s2. repeat split; assumption.
Defined.

Lemma interrupt_request_compaction_witness :
  exists s1 entries s2,
    (cpu_at (sample_pp 60) ;; rr_do_end_record sample_callsite_last)
      (recording_state sample_calls) = Ok (tt, s1)
    /\ rr_read_log s1 = Ok (entries, s2)
    /\ no_repeat (interrupt_values entries).
Proof.
  assert (Hv : is_u32 2) by (vm_compute; intuition discriminate).
  exact (proj2 (interrupt_request_compaction sample_callsite_last
                  sample_calls (sample_pp 60) initial_state _ _ 4 2
                  typed_sample_calls typed_sample_pp
                  is_u32_sample_callsite_last Hv sample_recording
                  sample_recording_size)).
Defined.


Lemma rr_fill_queue_cutoff_witness :
  rr_queue (replay_ready_state sample_callsite_last sample_calls
                               (sample_pp 60)) = []
  /\ rr_fill_queue sample_main_loop_wait
       (replay_ready_state sample_callsite_last sample_calls (sample_pp 60))
     <> Abort out_of_fuel
  /\ map kind
       (rr_queue
          (state_after (rr_fill_queue sample_main_loop_wait)
             (replay_ready_state sample_callsite_last sample_calls
                                 (sample_pp 60))))
     = [RR_INPUT_4; RR_INTERRUPT_REQUEST]
  /\ Z.of_nat
       (length
          (rr_queue
             (state_after (rr_fill_queue sample_main_loop_wait)
                (replay_ready_state sample_callsite_last sample_calls
                                    (sample_pp 60))))) <= 65537.
Proof.
  assert (Hq : rr_queue (replay_ready_state sample_callsite_last
                           sample_calls (sample_pp 60)) = [])
    by (vm_compute; reflexivity).
  assert (Hf : rr_fill_queue sample_main_loop_wait
                 (replay_ready_state sample_callsite_last sample_calls
                                     (sample_pp 60))
               = Ok (tt, state_after (rr_fill_queue sample_main_loop_wait)
                           (replay_ready_state sample_callsite_last
                              sample_calls (sample_pp 60))))
    by (vm_compute; reflexivity).
  destruct (rr_fill_queue_cutoff sample_main_loop_wait
              (replay_ready_state sample_callsite_last sample_calls
                                  (sample_pp 60)) Hq)
    as (Hfuel & _ & _ & Hret).
  split; [exact Hq|]. split; [exact Hfuel|].
  split; [vm_compute; reflexivity|].
  exact (proj1 (Hret _ Hf)).
Defined.

Lemma rr_fill_queue_precondition_witness :
  (rr_do_begin_replay sample_main_loop_wait ;;
   run_replay sample_main_loop_wait spec_prog_point_compare
              sample_replay_calls)
    (recorded_state sample_callsite_last sample_calls (sample_pp 60))
  = Ok (tt,
        state_after
          (rr_do_begin_replay sample_main_loop_wait ;;
           run_replay sample_main_loop_wait spec_prog_point_compare
                      sample_replay_calls)
          (recorded_state sample_callsite_last sample_calls (sample_pp 60)))
  /\ queue_ok sample_main_loop_wait
       (rr_queue
          (state_after
             (rr_do_begin_replay sample_main_loop_wait ;;
              run_replay sample_main_loop_wait spec_prog_point_compare
                         sample_replay_calls)
             (recorded_state sample_callsite_last sample_calls
                             (sample_pp 60)))).
Proof.
  assert (Hq : rr_queue (recorded_state sample_callsite_last sample_calls
                           (sample_pp 60)) = [])
    by (vm_compute; reflexivity).
  assert (Hrun :
    (rr_do_begin_replay sample_main_loop_wait ;;
     run_replay sample_main_loop_wait spec_prog_point_compare
                sample_replay_calls)
      (recorded_state sample_callsite_last sample_calls (sample_pp 60))
    = Ok (tt,
          state_after
            (rr_do_begin_replay sample_main_loop_wait ;;
             run_replay sample_main_loop_wait spec_prog_point_compare
                        sample_replay_calls)
            (recorded_state sample_callsite_last sample_calls
                            (sample_pp 60))))
    by (vm_compute; reflexivity).
  pose proof (rr_fill_queue_precondition
                sample_main_loop_wait spec_prog_point_compare
                sample_replay_calls
                (recorded_state sample_callsite_last sample_calls
                                (sample_pp 60)) Hq) as H.
  destruct H as (_ & _ & H & _).
  rewrite Hrun in H. split; [exact Hrun|exact H].
Defined.



Lemma get_next_entry_debug_skip_witness :
  get_next_entry sample_main_loop_wait spec_prog_point_compare RR_INPUT_1 3
    false (sample_queue_state 20 [sample_debug_entry 20;
                                  sample_input_entry 20])
  = Ok (Some (sample_input_entry 20), sample_queue_state 20 [])
  /\ recycle_list (sample_queue_state 20 [])
     = recycle_list (sample_queue_state 20 [sample_debug_entry 20;
                                            sample_input_entry 20])
  /\ rr_log_entry_history (sample_queue_state 20 [])
     = rr_log_entry_history (sample_queue_state 20 [sample_debug_entry 20;
                                                    sample_input_entry 20]).
Proof.
  assert (Hg : get_next_entry sample_main_loop_wait spec_prog_point_compare
                 RR_INPUT_1 3 false
                 (sample_queue_state 20 [sample_debug_entry 20;
                                         sample_input_entry 20])
               = Ok (Some (sample_input_entry 20), sample_queue_state 20 []))
    by reflexivity.
  assert (Hne : rr_queue (sample_queue_state 20 [sample_debug_entry 20;
                                                 sample_input_entry 20])
                <> []) by discriminate.
  assert (Hk : skips_debug RR_INPUT_1 = true) by reflexivity.
  destruct (get_next_entry_debug_skip sample_main_loop_wait
              spec_prog_point_compare RR_INPUT_1 3 false _ _ _ Hne Hk Hg)
    as (_ & Hrec & Hhist & _).
  split; [exact Hg|]. split; [exact Hrec|exact Hhist].
Defined.

Lemma rr_replay_finished_head_witness :
  rr_replay_finished
    (crafted_replay_state sample_main_loop_wait sample_callsite_last
       (sample_pp 50) (sample_pp 50) 60)
  = Ok (true,
        crafted_replay_state sample_main_loop_wait sample_callsite_last
          (sample_pp 50) (sample_pp 50) 60).
Proof.
  eassert (Hl : rr_nondet_log
                  (crafted_replay_state sample_main_loop_wait
                     sample_callsite_last (sample_pp 50) (sample_pp 50) 60)
                = Some _) by (vm_compute; reflexivity).
  eassert (Hq : rr_queue
                  (crafted_replay_state sample_main_loop_wait
                     sample_callsite_last (sample_pp 50) (sample_pp 50) 60)
                = _ :: _) by (vm_compute; reflexivity).
  destruct (proj2 (proj2 (rr_replay_finished_head _ _ Hl)) _ _ Hq)
    as (b & Hb & Hiff & _).
  rewrite Hb. f_equal. f_equal. apply Hiff.
  vm_compute. intuition discriminate.
Defined.

Lemma rr_replay_finished_counterexample :
  option_map (fun l => guest_instr_count (last_prog_point l))
    (rr_nondet_log
       (crafted_replay_state sample_main_loop_wait sample_callsite_last
          (sample_pp 100) (sample_pp 50) 60)) = Some 100
  /\ map kind
       (rr_queue
          (crafted_replay_state sample_main_loop_wait sample_callsite_last
             (sample_pp 100) (sample_pp 50) 60)) = [RR_LAST]
  /\ rr_guest_instr_count
       (cpu (crafted_replay_state sample_main_loop_wait
               sample_callsite_last (sample_pp 100) (sample_pp 50) 60))
     = 60
  /\ rr_replay_finished
       (crafted_replay_state sample_main_loop_wait sample_callsite_last
          (sample_pp 100) (sample_pp 50) 60)
     = Ok (true,
           crafted_replay_state sample_main_loop_wait sample_callsite_last
             (sample_pp 100) (sample_pp 50) 60).
Proof.
  split; [vm_compute; reflexivity|].
  split; [vm_compute; reflexivity|].
  split; vm_compute; reflexivity.
Qed.



(* ------------------------------------------------------------------------- *)
(** ** The further properties on sample runs *)

Lemma sample_replay_run :
  (rr_do_begin_replay sample_main_loop_wait ;;
   run_replay sample_main_loop_wait spec_prog_point_compare
              sample_replay_calls)
    (fresh_replay_state sample_callsite_last sample_calls (sample_pp 60))
  = Ok (tt,
        state_after
          (rr_do_begin_replay sample_main_loop_wait ;;
           run_replay sample_main_loop_wait spec_prog_point_compare
                      sample_replay_calls)
          (fresh_replay_state sample_callsite_last sample_calls
                              (sample_pp 60))).
Proof. vm_compute. reflexivity. Qed.



Lemma replay_never_writes_witness :
  rr_disk
    (state_after
       (rr_do_begin_replay sample_main_loop_wait ;;
        run_replay sample_main_loop_wait spec_prog_point_compare
                   sample_replay_calls)
       (fresh_replay_state sample_callsite_last sample_calls (sample_pp 60)))
  = rr_disk (fresh_replay_state sample_callsite_last sample_calls
                                (sample_pp 60))
  /\ rr_do_end_replay true
       (state_after
          (rr_do_begin_replay sample_main_loop_wait ;;
           run_replay sample_main_loop_wait spec_prog_point_compare
                      sample_replay_calls)
          (fresh_replay_state sample_callsite_last sample_calls
                              (sample_pp 60)))
     = Abort aborted.
Proof.
  pose proof (replay_never_writes sample_main_loop_wait
                spec_prog_point_compare sample_replay_calls _ tt _
                sample_replay_run) as H.
  destruct H as ((Hd & _) & Herr & _).
  split; [exact Hd|exact Herr].
Defined.

Lemma rr_fread_complete_witness :
  (exists s',
     rr_fread 2 1 (sample_log_state [Byte.x01; Byte.x02; Byte.x03])
     = Ok ([Byte.x01; Byte.x02], s'))
  /\ rr_fread 2 2 (sample_log_state [Byte.x01; Byte.x02; Byte.x03])
     = Abort (assert_fail fread_result_eq_nmemb)
  /\ rr_fread 0 1 (sample_log_state [Byte.x01; Byte.x02; Byte.x03])
     = Abort (assert_fail fread_result_eq_nmemb).
Proof.
  split; [|split].
  - eexists.
    exact (rr_fread_complete
             (sample_log_state [Byte.x01; Byte.x02; Byte.x03]) _ _ 2 1
             eq_refl eq_refl ltac:(discriminate) ltac:(discriminate)).
  - exact (rr_fread_complete
             (sample_log_state [Byte.x01; Byte.x02; Byte.x03]) _ _ 2 2
             eq_refl eq_refl ltac:(discriminate) ltac:(discriminate)).
  - exact (rr_fread_complete
             (sample_log_state [Byte.x01; Byte.x02; Byte.x03]) _ _ 0 1
             eq_refl eq_refl ltac:(discriminate) ltac:(discriminate)).
Defined.

Lemma capture_edge_cases_witness :
  rr_record_handle_packet_call 9 0 (Some []) 0 0
    (recording_state sample_calls)
  = Abort (assert_fail fwrite_result_eq_nmemb)
  /\ rr_record_cpu_mem_rw_call 9 0 None 4 1 (recording_state sample_calls)
     = Abort null_pointer
  /\ rr_record_memory_region_change 9 0 4096 None 0 true
       (recording_state sample_calls)
     = Abort null_pointer.
Proof.
  destruct (record_calls_spec sample_calls initial_state _ _
              sample_recording) as (_ & _ & lr & Hrec).
  destruct (capture_edge_cases _ lr _ 9 Hrec)
    as (Hpacket & _ & _ & Hnull & Hname).
  assert (H4 : to_size_t 4 <> 0) by (vm_compute; discriminate).
  split; [exact (Hpacket 0 (Some []) 0 0 eq_refl)|].
  split; [exact (proj1 (Hnull 0 4 1 H4))|exact (Hname 0 4096 0 true)].
Defined.

Lemma mode_checked_first_witness :
  do_record_call (call_input_1 3 7) (sample_log_state [])
  = Abort (assert_fail assert_rr_in_record)
  /\ do_record_call (call_exit_request 6 0) (sample_log_state [])
     = Ok (tt, sample_log_state [])
  /\ rr_read_item (set_rr_mode RR_OFF (sample_log_state []))
     = Abort (assert_fail assert_rr_in_replay)
  /\ rr_read_item (sample_log_state [])
     = Abort (assert_fail assert_log_not_empty).
Proof.
  split; [|split; [|split]].
  - exact (proj1 (mode_checked_first (sample_log_state []) _
                    (call_input_1 3 7) eq_refl)
             ltac:(discriminate) ltac:(discriminate)).
  - exact (proj1 (mode_checked_first (sample_log_state []) _
                    (call_exit_request 6 0) eq_refl)
             ltac:(discriminate)).
  - exact (proj1 (proj2 (mode_checked_first
                           (set_rr_mode RR_OFF (sample_log_state [])) _
                           (call_input_1 3 7) eq_refl))
             ltac:(discriminate)).
  - exact (proj2 (proj2 (mode_checked_first (sample_log_state []) _
                           (call_input_1 3 7) eq_refl))
             eq_refl eq_refl eq_refl).
Defined.

Lemma sample_next_input :
  get_next_entry sample_main_loop_wait spec_prog_point_compare RR_INPUT_4 3
    false
    (replaying_state sample_main_loop_wait sample_callsite_last
       sample_calls (sample_pp 60) (sample_pp 10))
  = Ok (Some (mk_entry (mk_header (sample_pp 10) 24 3) (input_4 305419896)),
        state_after
          (get_next_entry sample_main_loop_wait spec_prog_point_compare
             RR_INPUT_4 3 false)
          (replaying_state sample_main_loop_wait sample_callsite_last
             sample_calls (sample_pp 60) (sample_pp 10))).
Proof. vm_compute. reflexivity. Qed.

Lemma rr_replay_input_value_witness :
  exists s2,
    rr_replay_input sample_main_loop_wait spec_prog_point_compare
      RR_INPUT_4 variant_input_4 3
      (replaying_state sample_main_loop_wait sample_callsite_last
         sample_calls (sample_pp 60) (sample_pp 10))
    = Ok (305419896, s2).
Proof.
  pose proof (rr_replay_input_value sample_main_loop_wait
                spec_prog_point_compare RR_INPUT_4 variant_input_4 3
                (replaying_state sample_main_loop_wait sample_callsite_last
                   sample_calls (sample_pp 60) (sample_pp 10))
                (or_intror (or_intror (or_introl eq_refl)))) as H.
  rewrite sample_next_input in H.
  destruct H as (_ & _ & s2 & _ & H).
  exists s2. exact H.
Defined.

Lemma replay_past_the_end_witness :
  rr_replay_exit_request sample_main_loop_wait spec_prog_point_compare 6
    (sample_log_state [])
  = Ok (0, sample_log_state [])
  /\ rr_replay_input sample_main_loop_wait spec_prog_point_compare
       RR_INPUT_4 variant_input_4 3 (sample_log_state [])
     = Abort (assert_fail assert_entry_found)
  /\ rr_replay_finished (sample_log_state []) = Abort null_pointer.
Proof.
  pose proof (replay_past_the_end sample_main_loop_wait
                spec_prog_point_compare (sample_log_state []) _ 6
                eq_refl eq_refl eq_refl eq_refl ltac:(discriminate)) as H.
  destruct H as (_ & _ & Hexit & _ & _ & _ & Hfin).
  pose proof (replay_past_the_end sample_main_loop_wait
                spec_prog_point_compare (sample_log_state []) _ 3
                eq_refl eq_refl eq_refl eq_refl ltac:(discriminate)) as H.
  destruct H as (_ & Hin & _).
  split; [exact Hexit|]. split; [apply Hin|exact Hfin].
Defined.

Lemma rr_do_begin_replay_short_file_witness :
  rr_do_begin_replay sample_main_loop_wait (state_with_file [Byte.x01])
  = Abort (assert_fail fread_result_eq_nmemb)
  /\ exists s',
      rr_do_begin_replay sample_main_loop_wait
        (state_with_file (prog_point_bytes (sample_pp 60)))
      = Ok (tt, s')
      /\ rr_queue s' = [] /\ rr_mode s' = RR_REPLAY.
Proof.
  split.
  - apply (proj1 (rr_do_begin_replay_short_file sample_main_loop_wait
                    (state_with_file [Byte.x01]))).
    vm_compute. lia.
  - destruct (proj2 (rr_do_begin_replay_short_file sample_main_loop_wait
                       (state_with_file (prog_point_bytes (sample_pp 60))))
                eq_refl eq_refl ltac:(discriminate))
      as (s' & l' & Hrun & _ & _ & _ & _ & Hq & Hm & _).
    exists s'. split; [exact Hrun|]. split; [exact Hq|exact Hm].
Defined.




Lemma spec_compare_follows : compare_follows spec_prog_point_compare.
Proof.
  split.
  - intros p k. unfold spec_prog_point_compare.
    rewrite Z.ltb_irrefl, !Z.eqb_refl. now destruct k.
  - intros p q k Hlt. unfold spec_prog_point_compare.
    destruct (Z.ltb_spec (guest_instr_count p) (guest_instr_count q));
      [|lia].
    exists (-1). split; [reflexivity|discriminate].
Qed.

Lemma typed_sample_replayable_calls : typed_calls sample_replayable_calls.
Proof.
  unfold typed_calls, sample_replayable_calls.
  repeat (constructor; [vm_compute; intuition discriminate|]).
  constructor.
Qed.

Lemma sample_replayable :
  Forall (fun pc => replayable_call (snd pc) = true) sample_replayable_calls.
Proof. repeat constructor. Qed.

Lemma sample_increasing :
  increasing (-1) sample_replayable_calls (sample_pp 60).
Proof. cbn. repeat split; reflexivity. Qed.

Lemma sample_replayable_session :
  record_session sample_callsite_last sample_replayable_calls (sample_pp 60)
                 initial_state
  = Ok (recorded_items 0 sample_replayable_calls,
        recorded_state sample_callsite_last sample_replayable_calls
                       (sample_pp 60)).
Proof. vm_compute. reflexivity. Qed.

Lemma sample_replayable_size :
  Z.of_nat (length (rr_disk (recorded_state sample_callsite_last
                               sample_replayable_calls (sample_pp 60))))
  < 2 ^ 64.
Proof. vm_compute. reflexivity. Qed.

Lemma sample_fresh_replay :
  rr_disk (fresh_replay_state sample_callsite_last sample_replayable_calls
                              (sample_pp 60))
  = rr_disk (recorded_state sample_callsite_last sample_replayable_calls
                            (sample_pp 60))
  /\ rr_queue (fresh_replay_state sample_callsite_last
                                  sample_replayable_calls (sample_pp 60))
     = []
  /\ panda_current_interrupt_request
       (fresh_replay_state sample_callsite_last sample_replayable_calls
                           (sample_pp 60))
     = panda_current_interrupt_request initial_state
  /\ host_effects (fresh_replay_state sample_callsite_last
                                      sample_replayable_calls (sample_pp 60))
       ++ flat_map (fun pc => replayed_effects (snd pc))
                   sample_replayable_calls
     = [cpu_physical_memory_rw 8192
          (Some [Byte.x01; Byte.x02; Byte.x03]) 3].
Proof. split; [|split; [|split]]; vm_compute; reflexivity. Qed.

Lemma replay_follows_record_witness :
  exists s',
    (rr_do_begin_replay sample_main_loop_wait ;;
     run_replay_values sample_main_loop_wait spec_prog_point_compare
       (map (fun pc => (fst pc, replay_of (snd pc)))
            sample_replayable_calls))
      (fresh_replay_state sample_callsite_last sample_replayable_calls
                          (sample_pp 60))
    = Ok (map (fun pc => value_of (snd pc)) sample_replayable_calls, s')
    /\ host_effects s'
       = [cpu_physical_memory_rw 8192
            (Some [Byte.x01; Byte.x02; Byte.x03]) 3].
Proof.
  destruct sample_fresh_replay as (Hdisk & Hq & Hcache & Hfx0).
  destruct (replay_follows_record sample_main_loop_wait sample_callsite_last
              spec_prog_point_compare sample_replayable_calls (sample_pp 60)
              initial_state
              (recorded_items 0 sample_replayable_calls)
              (recorded_state sample_callsite_last sample_replayable_calls
                              (sample_pp 60))
              (fresh_replay_state sample_callsite_last
                 sample_replayable_calls (sample_pp 60))
              spec_compare_follows typed_sample_replayable_calls
              typed_sample_pp is_u32_sample_callsite_last sample_replayable
              sample_increasing sample_replayable_session
              sample_replayable_size Hdisk Hq Hcache)
    as (s' & Hrun & Hfx & _).
  exists s'. split; [exact Hrun|]. rewrite Hfx. exact Hfx0.
Defined.

Lemma replay_reaches_the_end_witness :
  exists vs s' s'',
    (rr_do_begin_replay sample_main_loop_wait ;;
     run_replay_values sample_main_loop_wait spec_prog_point_compare
       (map (fun pc => (fst pc, replay_of (snd pc)))
            sample_replayable_calls))
      (fresh_replay_state sample_callsite_last sample_replayable_calls
                          (sample_pp 60))
    = Ok (vs, s')
    /\ (cpu_at (sample_pp 60) ;; rr_replay_finished) s' = Ok (true, s'').
Proof.
  destruct sample_fresh_replay as (Hdisk & Hq & Hcache & _).
  assert (Hlen : Z.of_nat (length sample_replayable_calls)
                 < RR_MAX_QUEUE_LEN) by (vm_compute; reflexivity).
  destruct (replay_reaches_the_end sample_main_loop_wait
              sample_callsite_last spec_prog_point_compare
              sample_replayable_calls (sample_pp 60) initial_state
              (recorded_items 0 sample_replayable_calls)
              (recorded_state sample_callsite_last sample_replayable_calls
                              (sample_pp 60))
              (fresh_replay_state sample_callsite_last
                 sample_replayable_calls (sample_pp 60))
              (sample_pp 60)
              spec_compare_follows typed_sample_replayable_calls
              typed_sample_pp is_u32_sample_callsite_last sample_replayable
              sample_increasing sample_replayable_session
              sample_replayable_size Hdisk Hq Hcache Hlen)
    as (vs & s' & s'' & Hrun & _ & Hfin & _).
  exists vs, s', s''. split; [exact Hrun|exact Hfin].
Defined.
